(* ===== verification/_CoqProject ===== *)
-Q . S2P
Prelude.v
BinaryIO.v
Values.v
Serialization.v
Disk.v
PageStore.v
PageManager.v
RowStore.v
RowStoreSpec.v
RowTable.v
TableStorage.v
VersionLog.v
Catalog.v
CatalogSpec.v
Locks.v
KeyEncoder.v
BStarTree.v
BStarTreePages.v
BStarTreeHeap.v
BStarTreeLevels.v
BStarTreeOrder.v
BStarTreeSearch.v
BStarTreeInsert.v
BStarTreeLeaves.v
BStarTreeLeafSplit.v
BStarTreeDelete.v
BStarTreeLeafDelete.v
BStarTreeSpec.v
IndexManager.v
Engine.v
EngineSpec.v
EngineSim.v
EngineTable.v
EngineRun.v
EngineCreate.v
EngineIndex.v
EngineRevert.v
Sql.v
Lexer.v
Parser.v
ParserSpec.v
Expression.v
Planner.v
Executor.v
QueryProcessor.v
Doubles.v
Protocol.v
Network.v
ConsistentHash.v
Json.v
Metrics.v
Logger.v
JwtAuth.v
Rbac.v
RbacSpec.v
TaskQueue.v
TaskQueueSpec.v
TaskQueueLog.v
ExecutorSpec.v
Service.v
ServiceSpec.v
Entrypoint.v
Apps.v
QuerySpec.v
BinderSpec.v
