(* ===== verification/Prelude.v ===== *)
(** * CourseDB: a verification of the database system

    CourseDB is a relational database server in C++20: SQL over a binary TCP
    protocol, a paged row store with B*-tree indexes and a version log, users and
    permissions, a queue of background tasks, and an entry point that spreads
    requests over a cluster.  This library translates it into executable Rocq
    definitions and proves what its components promise.  Source paths are relative
    to the root of the repository.

    ** Parts and files

    A request passes through the parts from the bottom of this list to its top.

    - _Encoding_: [BinaryIO] ([src/common/binary_io.cpp]), [Values]
      ([src/execution/value.cpp], [src/catalog/schema.cpp]) and [Serialization]
      ([src/common/*_serialization.cpp]).
    - _Files_: [Disk] is the file system with a list of faults to come, and
      [src/common/file_utils.cpp].  [PageStore] is the interface of a page file, a
      class with its laws; [PageManager] ([src/storage/page_manager.cpp]) is its
      instance.
    - _Rows_: [RowStore], [RowStoreSpec], [RowTable] ([src/storage/row_store.cpp])
      and [TableStorage] ([src/storage/table_storage.cpp]).
    - _Log, catalog, locks_: [VersionLog] ([src/versioning/version_log.cpp]),
      [Catalog] and [CatalogSpec] ([src/catalog/catalog_manager.cpp]), [Locks]
      ([src/transaction]).
    - _Indexes_: [KeyEncoder], [BStarTree] with its properties in [BStarTreePages]
      to [BStarTreeSpec], and [IndexManager] ([src/index]).
    - _Engine_: [Engine] ([src/runtime/storage_node_engine.cpp],
      [src/versioning/revert.cpp]), with [EngineSpec] to [EngineRevert].
    - _SQL_: [Sql], [Lexer], [Parser], [ParserSpec] ([src/parser]), [Expression]
      ([src/execution/expression.cpp]), [Planner], [BinderSpec] ([src/planner]),
      [Executor], [ExecutorSpec] ([src/execution]), [QueryProcessor], [QuerySpec]
      ([src/server/query_processor.cpp], [src/server/database.cpp]).
    - _Users and tasks_: [Rbac], [RbacSpec] ([src/auth/rbac.cpp]), [JwtAuth]
      ([src/auth/jwt_auth.cpp]), [TaskQueue], [TaskQueueSpec], [TaskQueueLog]
      ([src/queue/task_queue.cpp]).
    - _Service_: [Protocol] and [Network] ([src/network]), [Metrics]
      ([src/telemetry/metrics.cpp]), [Logger] ([src/logging/logger.cpp]), [Service]
      and [ServiceSpec] ([src/server/storage_service.cpp]).
    - _Cluster and programs_: [ConsistentHash], [Entrypoint] ([src/cluster]) and
      [Apps] ([apps]).
    - [Doubles] and [Json] hold what the code uses of [double], nlohmann::json and
      the unordered containers.

    ** How the code is translated

    A class is a record and a method a function on it.  A [Status] is the error
    side of [result]; a method that changes an object and may fail is a program
    in the state monad [M], usually over the object and the disk, and keeps the
    changes made before the error.  Machine integers are numbers in [Z] with
    [u32], [u64], [i32] and [i64] where the code can wrap.  Null pointer checks of
    out parameters are left out.  Clock readings, random bytes and the number of
    bytes a socket call moves are arguments.  A mutex makes its critical section
    one step, so interleavings of threads are sequences of steps.

    ** What the theorems show

    - Refinement: the row store, the B*-tree, the index manager, the catalog, the
      lock table, the store of users, the engine and whole SQL sessions return
      what an abstract map, list or policy returns, errors included
      ([row_store_implements_table], [tree_implements_index],
      [index_manager_implements_indexes], [catalog_implements_map],
      [lock_manager_implements_table], [rbac_implements_policy],
      [engine_implements_table], [sql_session_refines]); a request over sockets
      is a call of the server's handler ([connection_delivers]).
    - Reverting a table restores the rows of that time ([revert_restores_rows]).
    - Invariants and safety: stored rows conform to the schema, locks exclude each
      other, no task runs twice, permissions are enforced for the users that
      logged in, requests go to live nodes.
    - Liveness and recovery: a waiting task is served in its turn
      ([queue_liveness]), and a restart finds every task ([queue_recovers]) and
      every user ([rbac_survives_restart]).
    - The parser accepts exactly the grammar, in bounds and with a result on every
      text; printing and parsing round trips.
    - Round trips and exactness of every binary format; total order of values;
      binary search against linear search; the consistent hash ring; telemetry
      against the history of requests.
    - Error paths: what a failed header write does to a page file, and the
      lemmas behind the findings.

    ** Fuel and bounds

    Loops that are not structural carry fuel, and the theorems show that it is
    enough: the parser computes it from the number of tokens, [ReadAll] from the
    length of the file, and the binary search from the length of the leaf.  The
    descent and the scan of a B*-tree take the bound on the number of pages that
    the theorems state as a hypothesis ([pages_needed], [space]); [page_room]
    says that page numbers do not leave 64 bits within the run.  Messages are
    below 2^31 bytes in [connection_delivers], because the code casts their size
    to [int].

    ** Parameters

    Code outside of the repository is a parameter with laws, each with an instance
    that satisfies them: the JSON library, the order of unordered containers, JWT,
    PBKDF2 (the length of its output).  [std::regex_match] and [std::mktime] have
    no laws.

    ** Not modelled

    - The start-up sequence, signals and usage texts of the programs: input and
      output only.
    - The access log entries and log calls of the other components, and the format
      of time stamps: they do not influence a result.
    - Several requests at once on one session: requests are handled one by one.
      The service keeps a reference to the session without its mutex, so requests
      of one session race in the code.
    - Exceptions of the JSON library on strings that are no UTF-8, failed memory
      allocations, and the branches for Windows.
    - [Optimizer], which is declared and never defined, and the source files that
      only include a header. *)

From stdpp Require Export base gmap strings list numbers pretty.
From Stdlib Require Export ZArith Lia Ascii.
From Stdlib Require Import Strings.Byte.

Global Open Scope Z_scope.
Global Open Scope list_scope.

(** ** Status and results *)

(** The status codes of [include/common/status.h]. *)
Inductive StatusCode :=
  | kOk
  | kInvalidArgument
  | kNotFound
  | kAlreadyExists
  | kConstraintViolation
  | kIoError
  | kParseError
  | kBindError
  | kPlanError
  | kExecutionError
  | kTransactionError
  | kNetworkError
  | kUnauthorized
  | kInternalError.

#[export] Instance StatusCode_eq_dec : EqDecision StatusCode.
Proof. solve_decision. Defined.

(** A call that returns a [Status] and fills an out-parameter: either the
    status is Ok and the out-parameter holds a value, or the status carries a
    code and a message. *)
Inductive result (A : Type) : Type :=
  | Ok (a : A)
  | Err (code : StatusCode) (message : string).
Arguments Ok {A} a.
Arguments Err {A} code message.

#[export] Instance result_ret : MRet result := @Ok.
#[export] Instance result_bind : MBind result := fun A B k r =>
  match r with Ok a => k a | Err c m => Err c m end.
#[export] Instance result_fmap : FMap result := fun A B f r =>
  match r with Ok a => Ok (f a) | Err c m => Err c m end.

Definition is_ok {A} (r : result A) : bool :=
  match r with Ok _ => true | Err _ _ => false end.

Definition error_code {A} (r : result A) : StatusCode :=
  match r with Ok _ => kOk | Err c _ => c end.

(** ** The state and error monad

    A method that mutates its object (and the disk) and returns a [Status] is
    a function from the state to a result and the new state.  The new state is
    present on failures too: what a failing method already changed stays
    changed. *)
Definition M (S A : Type) : Type := S -> result A * S.

#[export] Instance M_ret S : MRet (M S) := fun A a s => (Ok a, s).
#[export] Instance M_bind S : MBind (M S) := fun A B k m s =>
  match m s with
  | (Ok a, s') => k a s'
  | (Err c e, s') => (Err c e, s')
  end.

Definition throw {S A} (c : StatusCode) (msg : string) : M S A :=
  fun s => (Err c msg, s).
Definition get {S} : M S S := fun s => (Ok s, s).
Definition put {S} (s' : S) : M S unit := fun _ => (Ok tt, s').
Definition modify {S} (f : S -> S) : M S unit := fun s => (Ok tt, f s).
Definition lift {S A} (r : result A) : M S A := fun s => (r, s).

(** Guards of the code: [if (cond) return Status::Error(code, msg);]. *)
Definition reject_if {S} (b : bool) (c : StatusCode) (msg : string) : M S unit :=
  if b then throw c msg else mret tt.
Definition check_not (b : bool) (c : StatusCode) (msg : string) : result unit :=
  if b then Err c msg else Ok tt.

(** ** Machine integers *)

Definition u8 (z : Z) : Z := z mod 2 ^ 8.
Definition u32 (z : Z) : Z := z mod 2 ^ 32.
Definition u64 (z : Z) : Z := z mod 2 ^ 64.
Definition i64 (z : Z) : Z := (z + 2 ^ 63) mod 2 ^ 64 - 2 ^ 63.
Definition i32 (z : Z) : Z := (z + 2 ^ 31) mod 2 ^ 32 - 2 ^ 31.

Definition in_u32 (z : Z) : Prop := 0 <= z < 2 ^ 32.
Definition in_u64 (z : Z) : Prop := 0 <= z < 2 ^ 64.
Definition in_i64 (z : Z) : Prop := - 2 ^ 63 <= z < 2 ^ 63.

#[export] Instance in_u32_dec z : Decision (in_u32 z) := _.
#[export] Instance in_u64_dec z : Decision (in_u64 z) := _.
#[export] Instance in_i64_dec z : Decision (in_i64 z) := _.

(** ** Characters

    The classes of [<cctype>] in the C locale. *)

Definition char_code (c : ascii) : Z := Z.of_N (N_of_ascii c).
Definition char_in (lo hi : Z) (c : ascii) : bool := (lo <=? char_code c) && (char_code c <=? hi).
Definition isspace (c : ascii) : bool := char_in 9 13 c || char_in 32 32 c.
Definition isdigit (c : ascii) : bool := char_in 48 57 c.
Definition isupper (c : ascii) : bool := char_in 65 90 c.
Definition islower (c : ascii) : bool := char_in 97 122 c.
Definition isalpha (c : ascii) : bool := isupper c || islower c.
Definition isalnum (c : ascii) : bool := isalpha c || isdigit c.
Definition toupper (c : ascii) : ascii :=
  if islower c then ascii_of_N (Z.to_N (char_code c - 32)) else c.

(** ** Bytes and lists indexed by Z *)

Abbreviation bytes := (list byte).

Definition zlen {A} (l : list A) : Z := Z.of_nat (length l).
Definition ztake {A} (n : Z) (l : list A) : list A := take (Z.to_nat n) l.
Definition zdrop {A} (n : Z) (l : list A) : list A := drop (Z.to_nat n) l.
Definition znth {A} (l : list A) (i : Z) : option A :=
  if i <? 0 then None else l !! Z.to_nat i.
Definition zset {A} (i : Z) (x : A) (l : list A) : list A :=
  <[Z.to_nat i := x]> l.
Definition zreplicate {A} (n : Z) (x : A) : list A := replicate (Z.to_nat n) x.

#[global] Arguments u8 : simpl never.
#[global] Arguments u32 : simpl never.
#[global] Arguments u64 : simpl never.
#[global] Arguments i64 : simpl never.
#[global] Arguments i32 : simpl never.
#[global] Arguments zlen : simpl never.
#[global] Arguments ztake : simpl never.
#[global] Arguments zdrop : simpl never.
#[global] Arguments znth : simpl never.
#[global] Arguments zset : simpl never.
#[global] Arguments zreplicate : simpl never.

#[export] Instance byte_eq_decision : EqDecision byte := Byte.byte_eq_dec.

Definition Z_of_byte (b : byte) : Z := Z.of_N (Byte.to_N b).
Definition byte_of_Z (z : Z) : byte :=
  match Byte.of_N (Z.to_N (z mod 256)) with Some b => b | None => x00 end.

(** The object representation of an unsigned integer on the little-endian
    hosts the program is built for. *)
Fixpoint le_bytes (n : nat) (z : Z) : bytes :=
  match n with
  | O => []
  | S n' => byte_of_Z z :: le_bytes n' (z / 256)
  end.

Fixpoint le_val (l : bytes) : Z :=
  match l with
  | [] => 0
  | b :: l' => Z_of_byte b + 256 * le_val l'
  end.

(** ** Tactics and hint databases *)

Create Rewrite HintDb zlen.
Create HintDb codec discriminated.
Create HintDb wf discriminated.

(** Case analysis on every [match] and [if] of the goal or of a hypothesis. *)
Ltac case_all :=
  repeat match goal with
  | H : context [match ?x with _ => _ end] |- _ => destruct x eqn:?; simplify_eq/=
  | |- context [match ?x with _ => _ end] => destruct x eqn:?; simplify_eq/=
  end.

(** Decide a closed proposition by running its decision procedure. *)
Ltac by_computation := apply (bool_decide_unpack _); vm_compute; exact I.

(** Boolean comparisons on Z into propositions. *)
Ltac zbool :=
  repeat match goal with
  | H : (_ <? _) = true |- _ => apply Z.ltb_lt in H
  | H : (_ <? _) = false |- _ => apply Z.ltb_ge in H
  | H : (_ <=? _) = true |- _ => apply Z.leb_le in H
  | H : (_ <=? _) = false |- _ => apply Z.leb_gt in H
  | H : (_ =? _) = true |- _ => apply Z.eqb_eq in H
  | H : (_ =? _) = false |- _ => apply Z.eqb_neq in H
  | H : (_ || _)%bool = true |- _ => apply orb_true_iff in H; destruct H
  | H : (_ || _)%bool = false |- _ => apply orb_false_iff in H; destruct H
  | H : (_ && _)%bool = true |- _ => apply andb_true_iff in H; destruct H
  | H : (_ && _)%bool = false |- _ => apply andb_false_iff in H
  | H : negb _ = true |- _ => apply negb_true_iff in H
  | H : negb _ = false |- _ => apply negb_false_iff in H
  end.

(** ** Lemmas on results and the monad *)

Lemma result_bind_Ok {A B} (r : result A) (k : A -> result B) b :
  r ≫= k = Ok b <-> exists a, r = Ok a /\ k a = Ok b.
Proof.
  destruct r as [a|c m]; split; cbn.
  - eauto.
  - by intros (? & [= ->] & ?).
  - done.
  - by intros (? & [=] & ?).
Qed.

Lemma M_bind_eq {S A B} (m : M S A) (k : A -> M S B) s :
  (m ≫= k) s = match m s with
               | (Ok a, s') => k a s'
               | (Err c e, s') => (Err c e, s')
               end.
Proof. reflexivity. Qed.

Lemma M_bind_run {S A B} (m : M S A) (k : A -> M S B) s a s' :
  m s = (Ok a, s') -> (m ≫= k) s = k a s'.
Proof. by rewrite M_bind_eq; intros ->. Qed.

Lemma M_bind_err {S A B} (m : M S A) (k : A -> M S B) s c e s' :
  m s = (Err c e, s') -> (m ≫= k) s = (Err c e, s').
Proof. by rewrite M_bind_eq; intros ->. Qed.

Lemma M_bind_inv {S A B} (m : M S A) (k : A -> M S B) s b s2 :
  (m ≫= k) s = (Ok b, s2) -> exists a s1, m s = (Ok a, s1) /\ k a s1 = (Ok b, s2).
Proof.
  rewrite M_bind_eq. destruct (m s) as [[a|] s1]; [eauto|discriminate].
Qed.

Lemma M_bind_assoc {S A B C} (m : M S A) (k : A -> M S B) (h : B -> M S C) s :
  ((m ≫= k) ≫= h) s = (m ≫= fun a => k a ≫= h) s.
Proof. rewrite !M_bind_eq. destruct (m s) as [[a|] s1]; reflexivity. Qed.

Lemma reject_if_false {S} c msg (s : S) :
  reject_if false c msg s = (Ok tt, s).
Proof. reflexivity. Qed.

(** Unfold the monad's own operations, nothing else. *)
Ltac munfold :=
  cbv beta iota delta [mbind M_bind mret M_ret throw get put modify lift reject_if].

(** Run the next call of a monadic body with a lemma for that call. *)
Tactic Notation "mrun" uconstr(H) := erewrite M_bind_run; [| apply H].

(** ** Machine integer lemmas *)

Lemma u32_id z : in_u32 z -> u32 z = z.
Proof. intros. by apply Z.mod_small. Qed.
Lemma u64_id z : in_u64 z -> u64 z = z.
Proof. intros. by apply Z.mod_small. Qed.
Lemma i64_id z : in_i64 z -> i64 z = z.
Proof. unfold in_i64, i64. intros. rewrite Z.mod_small; lia. Qed.
Lemma i32_id z : - 2 ^ 31 <= z < 2 ^ 31 -> i32 z = z.
Proof. unfold i32. intros. rewrite Z.mod_small; lia. Qed.
Lemma u32_range z : in_u32 (u32 z).
Proof. unfold in_u32, u32. apply Z.mod_pos_bound. lia. Qed.
Lemma u64_range z : in_u64 (u64 z).
Proof. unfold in_u64, u64. apply Z.mod_pos_bound. lia. Qed.
Lemma i64_range z : in_i64 (i64 z).
Proof.
  unfold in_i64, i64. pose proof (Z.mod_pos_bound (z + 2 ^ 63) (2 ^ 64)). lia.
Qed.
Lemma i64_mod z : i64 (z mod 2 ^ 64) = i64 z.
Proof. unfold i64. by rewrite Zplus_mod_idemp_l. Qed.

#[export] Hint Resolve u32_range u64_range i64_range : wf.

(** ** Lists *)

Lemma zlen_nonneg {A} (l : list A) : 0 <= zlen l.
Proof. unfold zlen. lia. Qed.
Lemma zlen_nil {A} : zlen (@nil A) = 0.
Proof. reflexivity. Qed.
Lemma zlen_cons {A} (x : A) l : zlen (x :: l) = 1 + zlen l.
Proof. unfold zlen. simpl length. lia. Qed.
Lemma zlen_app {A} (l k : list A) : zlen (l ++ k) = zlen l + zlen k.
Proof. unfold zlen. rewrite length_app. lia. Qed.
Lemma zlen_zset {A} i (x : A) l : zlen (zset i x l) = zlen l.
Proof. unfold zlen, zset. by rewrite length_insert. Qed.
Lemma zlen_map {A B} (f : A -> B) l : zlen (map f l) = zlen l.
Proof. unfold zlen. by rewrite length_map. Qed.
Lemma zlen_zreplicate {A} n (x : A) : 0 <= n -> zlen (zreplicate n x) = n.
Proof. unfold zlen, zreplicate. intros. rewrite length_replicate. lia. Qed.
Lemma zlen_ztake {A} n (l : list A) : 0 <= n <= zlen l -> zlen (ztake n l) = n.
Proof. unfold zlen, ztake. intros. rewrite length_take. lia. Qed.
Lemma zlen_zdrop {A} n (l : list A) : 0 <= n <= zlen l -> zlen (zdrop n l) = zlen l - n.
Proof. unfold zlen, zdrop. intros. rewrite length_drop. lia. Qed.

#[export] Hint Rewrite @zlen_nil @zlen_cons @zlen_app @zlen_zset @zlen_map : zlen.

Ltac zlen_simpl := autorewrite with zlen in *.

(** Linear arithmetic over list lengths. *)
Ltac zlia :=
  autorewrite with zlen in *;
  repeat match goal with
  | |- context [zlen ?l] =>
      lazymatch goal with
      | _ : 0 <= zlen l |- _ => fail
      | _ => pose proof (zlen_nonneg l)
      end
  | _ : context [zlen ?l] |- _ =>
      lazymatch goal with
      | _ : 0 <= zlen l |- _ => fail
      | _ => pose proof (zlen_nonneg l)
      end
  end; lia.

Lemma zdrop_0 {A} (l : list A) : zdrop 0 l = l.
Proof. reflexivity. Qed.
Lemma zdrop_all {A} (l : list A) : zdrop (zlen l) l = [].
Proof. apply drop_ge. unfold zlen. lia. Qed.
Lemma ztake_app_eq {A} n (l k : list A) : n = zlen l -> ztake n (l ++ k) = l.
Proof. intros ->. unfold ztake, zlen. rewrite Nat2Z.id. apply take_app_length. Qed.
Lemma zdrop_app_eq {A} n (l k : list A) : n = zlen l -> zdrop n (l ++ k) = k.
Proof. intros ->. unfold zdrop, zlen. rewrite Nat2Z.id. apply drop_app_length. Qed.
Lemma ztake_all {A} (l : list A) : ztake (zlen l) l = l.
Proof. unfold ztake, zlen. rewrite Nat2Z.id. apply firstn_all. Qed.
Lemma ztake_zdrop {A} n (l : list A) : ztake n l ++ zdrop n l = l.
Proof. apply take_drop. Qed.
Lemma zdrop_zdrop {A} n m (l : list A) :
  0 <= n -> 0 <= m -> zdrop n (zdrop m l) = zdrop (m + n) l.
Proof. intros. unfold zdrop. rewrite drop_drop. f_equal. lia. Qed.

Lemma znth_Some_range {A} (l : list A) i x : znth l i = Some x -> 0 <= i < zlen l.
Proof.
  unfold znth, zlen. destruct (i <? 0) eqn:?; [done|]. zbool.
  intros ?%lookup_lt_Some. lia.
Qed.
Lemma znth_lookup {A} (l : list A) i : 0 <= i -> znth l i = l !! Z.to_nat i.
Proof. unfold znth. intros. rewrite (proj2 (Z.ltb_ge _ _)); lia || done. Qed.
Lemma znth_is_Some {A} (l : list A) i : 0 <= i < zlen l -> exists x, znth l i = Some x.
Proof.
  intros. rewrite znth_lookup by lia. apply lookup_lt_is_Some_2. unfold zlen in *. lia.
Qed.
Lemma znth_None {A} (l : list A) i : zlen l <= i -> znth l i = None.
Proof.
  intros. pose proof (zlen_nonneg l). rewrite znth_lookup by lia.
  apply lookup_ge_None_2. unfold zlen in *. lia.
Qed.
Lemma znth_zset_eq {A} i (x : A) l : 0 <= i < zlen l -> znth (zset i x l) i = Some x.
Proof.
  intros. rewrite znth_lookup by lia. apply list_lookup_insert_eq.
  unfold zlen in *. lia.
Qed.
Lemma znth_zset_ne {A} i j (x : A) l : 0 <= i -> i <> j -> znth (zset i x l) j = znth l j.
Proof.
  intros. unfold znth. destruct (j <? 0) eqn:?; [done|]. zbool.
  apply list_lookup_insert_ne. lia.
Qed.
Lemma znth_app_l {A} (l k : list A) i : i < zlen l -> znth (l ++ k) i = znth l i.
Proof.
  intros. unfold znth. destruct (i <? 0) eqn:?; [done|]. zbool.
  apply lookup_app_l. unfold zlen in *. lia.
Qed.
Lemma znth_app_r {A} (l k : list A) i : zlen l <= i -> znth (l ++ k) i = znth k (i - zlen l).
Proof.
  intros. pose proof (zlen_nonneg l). rewrite !znth_lookup by lia.
  rewrite lookup_app_r by (unfold zlen in *; lia). f_equal. unfold zlen in *. lia.
Qed.
Lemma zset_app_r {A} (l k : list A) i x :
  zlen l <= i -> zset i x (l ++ k) = l ++ zset (i - zlen l) x k.
Proof.
  intros. unfold zset. unfold zlen in *. rewrite insert_app_r_alt by lia.
  do 2 f_equal. lia.
Qed.

Lemma znth_cons_S {A} (x : A) l i : 0 <= i -> znth (x :: l) (i + 1) = znth l i.
Proof.
  intros. rewrite !znth_lookup by lia. by replace (Z.to_nat (i + 1)) with (S (Z.to_nat i)) by lia.
Qed.
Lemma znth_cons_0 {A} (x : A) l : znth (x :: l) 0 = Some x.
Proof. reflexivity. Qed.
Lemma znth_map {A B} (f : A -> B) l i : znth (map f l) i = f <$> znth l i.
Proof. unfold znth. destruct (i <? 0); [done|]. apply list_lookup_fmap. Qed.
Lemma zset_cons_S {A} (x y : A) l i : 0 <= i -> zset (i + 1) y (x :: l) = x :: zset i y l.
Proof. intros. unfold zset. by replace (Z.to_nat (i + 1)) with (S (Z.to_nat i)) by lia. Qed.
Lemma zset_cons_0 {A} (x y : A) l : zset 0 y (x :: l) = y :: l.
Proof. reflexivity. Qed.

Lemma znth_split {A} (l : list A) i x :
  znth l i = Some x -> exists l1 l2, l = l1 ++ x :: l2 /\ zlen l1 = i.
Proof.
  intros H. pose proof (znth_Some_range _ _ _ H). rewrite znth_lookup in H by lia.
  exists (take (Z.to_nat i) l), (drop (S (Z.to_nat i)) l).
  split; [by rewrite take_drop_middle|]. apply lookup_lt_Some in H.
  unfold zlen. rewrite length_take. lia.
Qed.

Lemma zset_split {A} (l1 l2 : list A) i x y :
  zlen l1 = i -> zset i y (l1 ++ x :: l2) = l1 ++ y :: l2.
Proof.
  intros <-. unfold zset, zlen. rewrite Nat2Z.id, insert_app_r_alt by lia.
  by rewrite Nat.sub_diag.
Qed.

Lemma zlen_concat {A} n (l : list (list A)) :
  Forall (fun x => zlen x = n) l -> zlen (concat l) = zlen l * n.
Proof. induction 1 as [|x l <- _ IH]; [done|]. cbn [concat]. zlia. Qed.

(** ** Bytes *)

Lemma Z_of_byte_range b : 0 <= Z_of_byte b < 256.
Proof. unfold Z_of_byte. pose proof (Byte.to_N_bounded b). lia. Qed.

Lemma Z_of_byte_of_Z z : Z_of_byte (byte_of_Z z) = z mod 256.
Proof.
  unfold byte_of_Z, Z_of_byte. pose proof (Z.mod_pos_bound z 256 eq_refl).
  destruct (Byte.of_N _) eqn:E.
  - apply Byte.to_of_N in E. lia.
  - apply Byte.of_N_None_iff in E. lia.
Qed.

Lemma byte_of_Z_of_byte b : byte_of_Z (Z_of_byte b) = b.
Proof.
  unfold byte_of_Z. pose proof (Z_of_byte_range b). rewrite Z.mod_small by done.
  unfold Z_of_byte. by rewrite N2Z.id, Byte.of_to_N.
Qed.

Lemma length_le_bytes n z : length (le_bytes n z) = n.
Proof. revert z. induction n; simpl; auto. Qed.

Lemma zlen_le_bytes n z : zlen (le_bytes n z) = Z.of_nat n.
Proof. unfold zlen. by rewrite length_le_bytes. Qed.
#[export] Hint Rewrite zlen_le_bytes : zlen.

Lemma le_val_bytes n z : le_val (le_bytes n z) = z mod 256 ^ Z.of_nat n.
Proof.
  revert z. induction n as [|n IH]; intros z.
  - by rewrite Z.mod_1_r.
  - cbn [le_bytes le_val]. rewrite IH, Z_of_byte_of_Z.
    rewrite Nat2Z.inj_succ, Z.pow_succ_r by lia.
    rewrite Z.rem_mul_r by (try apply Z.pow_nonzero; lia). lia.
Qed.

Lemma le_val_range l : 0 <= le_val l < 256 ^ zlen l.
Proof.
  induction l as [|b l IH]; [unfold zlen; simpl; lia|].
  rewrite zlen_cons, Z.add_1_l, Z.pow_succ_r by apply zlen_nonneg.
  cbn [le_val]. pose proof (Z_of_byte_range b). lia.
Qed.

Lemma le_bytes_val l : le_bytes (length l) (le_val l) = l.
Proof.
  induction l as [|b l IH]; [done|]. cbn [length le_bytes le_val].
  pose proof (Z_of_byte_range b).
  replace ((Z_of_byte b + 256 * le_val l) / 256) with (le_val l)
    by (rewrite Z.mul_comm, Z.div_add by lia; rewrite Z.div_small by lia; lia).
  rewrite IH. f_equal. rewrite <- (byte_of_Z_of_byte b) at 2.
  unfold byte_of_Z. rewrite Z.mul_comm, Z_mod_plus_full. done.
Qed.

(** ** Strings as byte sequences *)

Abbreviation bytes_of_string := String.list_byte_of_string.
Abbreviation string_of_bytes := String.string_of_list_byte.

Lemma bytes_of_string_inj s t : bytes_of_string s = bytes_of_string t -> s = t.
Proof.
  intros E. rewrite <- (String.string_of_list_byte_of_string s), E.
  apply String.string_of_list_byte_of_string.
Qed.

Lemma length_bytes_of_string s : length (bytes_of_string s) = String.length s.
Proof. induction s as [|a s IH]; [done|]. simpl. by f_equal. Qed.
