(* ===== verification/BinaryIO.v ===== *)
(** * Binary encoding of primitive values

    Models [src/common/binary_io.cpp]: the writers append to a byte buffer,
    the readers take the buffer and the offset they advance.  A reader that
    fails returns no offset: every caller in the program returns at once on a
    failed read and drops the offset.

    [Codec] is the interface every serializer of the program implements: a
    writer, a reader, the values the writer represents exactly, the law that
    reading back at any position of any buffer gives the value written and
    moves the offset past it, and the law that a reader accepts nothing but
    encodings of representable values. *)

From S2P Require Import Prelude.

(** ** Writers *)

Definition WriteBytes (buffer data : bytes) : bytes := buffer ++ data.
Definition WriteUint8 (buffer : bytes) (value : Z) : bytes :=
  buffer ++ [byte_of_Z value].
Definition WriteUint32 (buffer : bytes) (value : Z) : bytes :=
  WriteBytes buffer (le_bytes 4 value).
Definition WriteUint64 (buffer : bytes) (value : Z) : bytes :=
  WriteBytes buffer (le_bytes 8 value).
Definition WriteInt64 (buffer : bytes) (value : Z) : bytes :=
  WriteBytes buffer (le_bytes 8 value).
Definition WriteBool (buffer : bytes) (value : bool) : bytes :=
  WriteUint8 buffer (if value then 1 else 0).
Definition WriteString (buffer : bytes) (value : string) : bytes :=
  WriteBytes (WriteUint32 buffer (u32 (zlen (bytes_of_string value))))
    (bytes_of_string value).

(** ** Readers

    [reader A] is [Status f(const ByteBuffer& bytes, size_t* offset, A* out)];
    the monad threads the offset and stops at the first failing call. *)

Definition reader (A : Type) : Type := bytes -> Z -> result (A * Z).

#[export] Instance reader_ret : MRet reader := fun A a buf offset => Ok (a, offset).
#[export] Instance reader_bind : MBind reader := fun A B k r buf offset =>
  match r buf offset with
  | Ok (a, offset') => k a buf offset'
  | Err c m => Err c m
  end.

Definition fail_read {A} (c : StatusCode) (msg : string) : reader A :=
  fun _ _ => Err c msg.

Definition EnsureReadable (buf : bytes) (offset need : Z) : result unit :=
  if (zlen buf <? offset) || (zlen buf - offset <? need) then
    Err kInvalidArgument "Corrupted binary payload: unexpected end of buffer"
  else Ok tt.

(** [ReadPod] on an object of [size] bytes: the bytes copied into it. *)
Definition ReadPod (size : Z) : reader bytes := fun buf offset =>
  match EnsureReadable buf offset size with
  | Err c m => Err c m
  | Ok _ => Ok (ztake size (zdrop offset buf), offset + size)
  end.

Definition ReadUint8 : reader Z := raw ← ReadPod 1; mret (le_val raw).
Definition ReadUint32 : reader Z := raw ← ReadPod 4; mret (le_val raw).
Definition ReadUint64 : reader Z := raw ← ReadPod 8; mret (le_val raw).
Definition ReadInt64 : reader Z := raw ← ReadPod 8; mret (i64 (le_val raw)).

Definition ReadBool : reader bool :=
  raw ← ReadUint8;
  if 1 <? raw then
    fail_read kInvalidArgument "Corrupted binary payload: invalid bool value"
  else mret (raw =? 1).

(** [ReadString] checks and copies [size] bytes the way [ReadPod] does. *)
Definition ReadString : reader string :=
  size ← ReadUint32;
  raw ← ReadPod size;
  mret (string_of_bytes raw).

(** The loop [for (i = 0; i < count; ++i) { read; push_back; }]. *)
Fixpoint read_loop {A} (rd : reader A) (count : nat) : reader (list A) :=
  match count with
  | O => mret []
  | S n => x ← rd; xs ← read_loop rd n; mret (x :: xs)
  end.

(** ** The serializer interface *)

(** The reader gives [x] on an occurrence of [enc] at any offset of any
    buffer, and stops right behind it. *)
Definition decodes {A} (rd : reader A) (enc : bytes) (x : A) : Prop :=
  forall pre post, rd (pre ++ enc ++ post) (zlen pre) = Ok (x, zlen pre + zlen enc).

(** Whatever the reader accepts, it consumed a segment [e] of the buffer that
    starts at the offset, and the value and the segment are related by [P]. *)
Definition consumes {A} (rd : reader A) (P : A -> bytes -> Prop) : Prop :=
  forall buf offset x offset', 0 <= offset <= zlen buf -> rd buf offset = Ok (x, offset') ->
    exists pre e post, buf = pre ++ e ++ post /\ offset = zlen pre /\
      offset' = offset + zlen e /\ P x e.

(** Every failure of the reader is reported as an invalid argument. *)
Definition rejects {A} (rd : reader A) : Prop :=
  forall buf offset c m, rd buf offset = Err c m -> c = kInvalidArgument.

Class Codec (A : Type) := {
  write : bytes -> A -> bytes;
  read : reader A;
  representable : A -> Prop;
  write_append : forall buf x, write buf x = buf ++ write [] x;
  read_write : forall x, representable x -> decodes read (write [] x) x;
  read_exact : consumes read (fun x e => representable x /\ e = write [] x)
}.

(** Strings whose length fits the 32-bit length field. *)
Definition string_fits (s : string) : Prop := zlen (bytes_of_string s) < 2 ^ 32.

#[export] Instance string_fits_dec s : Decision (string_fits s) := _.

(** ** Reader lemmas *)

Lemma EnsureReadable_Ok buf offset need :
  EnsureReadable buf offset need = Ok tt <-> offset <= zlen buf /\ need <= zlen buf - offset.
Proof.
  unfold EnsureReadable. case_all; zbool; split; intros; try done; lia.
Qed.

Lemma reader_bind_eq {A B} (r : reader A) (k : A -> reader B) buf off :
  (r ≫= k) buf off = match r buf off with
                     | Ok (a, off') => k a buf off'
                     | Err c m => Err c m
                     end.
Proof. reflexivity. Qed.

Lemma decodes_bind {A B} (r : reader A) (k : A -> reader B) e1 e2 x y :
  decodes r e1 x -> decodes (k x) e2 y -> decodes (r ≫= k) (e1 ++ e2) y.
Proof.
  intros H1 H2 pre post. rewrite <- (app_assoc e1), reader_bind_eq, H1.
  specialize (H2 (pre ++ e1) post). rewrite <- !app_assoc, zlen_app in H2.
  rewrite H2. do 2 f_equal. zlia.
Qed.

Lemma decodes_ret {A} (x : A) : decodes (mret x) [] x.
Proof. intros pre post. unfold mret, reader_ret. by rewrite zlen_nil, Z.add_0_r. Qed.

Lemma decodes_map {A B} (r : reader A) (f : A -> B) e x y :
  decodes r e x -> f x = y -> decodes (r ≫= fun a => mret (f a)) e y.
Proof.
  intros H <-. rewrite <- (app_nil_r e). eapply decodes_bind; [done|]. apply decodes_ret.
Qed.

Lemma consumes_weaken {A} (r : reader A) (P Q : A -> bytes -> Prop) :
  consumes r P -> (forall x e, P x e -> Q x e) -> consumes r Q.
Proof.
  intros H HPQ buf off x off' ? E.
  apply H in E as (pre & e & post & -> & -> & -> & ?); [|done].
  exists pre, e, post. auto.
Qed.

Lemma consumes_bind {A B} (r : reader A) (k : A -> reader B) P1 P2 :
  consumes r P1 -> (forall a e, P1 a e -> consumes (k a) (P2 a)) ->
  consumes (r ≫= k) (fun y e => exists a e1 e2, e = e1 ++ e2 /\ P1 a e1 /\ P2 a y e2).
Proof.
  intros H1 H2 buf off x off' ? E. rewrite reader_bind_eq in E.
  destruct (r buf off) as [[a off1]|] eqn:E1; [|done].
  apply H1 in E1 as (pre & e1 & post1 & -> & -> & -> & HP1); [|done].
  eapply H2 in E as (pre2 & e2 & post2 & Heq & Hlen & -> & HP2); [|done|zlia].
  rewrite app_assoc in Heq. apply app_inj_1 in Heq as [<- ->].
  2:{ unfold zlen in Hlen. rewrite length_app. lia. }
  exists pre, (e1 ++ e2), post2. rewrite <- !app_assoc, !zlen_app.
  split_and!; [done|done|lia|]. eauto 10.
Qed.

Lemma consumes_ret {A} (x : A) : consumes (mret x) (fun y e => y = x /\ e = []).
Proof.
  intros buf off y off' ? [= <- <-]. exists (ztake off buf), [], (zdrop off buf).
  rewrite zlen_ztake, zlen_nil, app_nil_l, ztake_zdrop by lia. split_and!; lia || done.
Qed.

Lemma consumes_map {A B} (r : reader A) (f : A -> B) P (Q : B -> bytes -> Prop) :
  consumes r P -> (forall a e, P a e -> Q (f a) e) -> consumes (r ≫= fun a => mret (f a)) Q.
Proof.
  intros H HQ. eapply consumes_weaken.
  - apply consumes_bind; [done|]. intros. apply consumes_ret.
  - intros x e (a & e1 & e2 & -> & ? & -> & ->). rewrite app_nil_r. eauto.
Qed.

Lemma consumes_fail {A} c msg P : consumes (fail_read (A:=A) c msg) P.
Proof. intros buf off x off' ? [=]. Qed.

Lemma consumes_in_bounds {A} (r : reader A) P buf off x off' :
  consumes r P -> 0 <= off <= zlen buf -> r buf off = Ok (x, off') -> off <= off' <= zlen buf.
Proof.
  intros H ? E. apply H in E as (pre & e & post & -> & -> & -> & _); [zlia|done].
Qed.

Lemma ReadPod_decodes size e : zlen e = size -> decodes (ReadPod size) e e.
Proof.
  intros <- pre post. unfold ReadPod.
  rewrite (proj2 (EnsureReadable_Ok _ _ _)) by zlia. cbn.
  by rewrite zdrop_app_eq, ztake_app_eq.
Qed.

Lemma ReadPod_consumes size : 0 <= size ->
  consumes (ReadPod size) (fun raw e => raw = e /\ zlen e = size).
Proof.
  intros ? buf off raw off' ? E. unfold ReadPod in E.
  destruct (EnsureReadable _ _ _) as [[]|] eqn:E1; simplify_eq. apply EnsureReadable_Ok in E1.
  exists (ztake off buf), (ztake size (zdrop off buf)), (zdrop size (zdrop off buf)).
  rewrite !ztake_zdrop, !zlen_ztake by (rewrite ?zlen_zdrop; lia). done.
Qed.

Lemma ReadPod_short size buf off :
  zlen buf < off + size ->
  ReadPod size buf off =
    Err kInvalidArgument "Corrupted binary payload: unexpected end of buffer".
Proof. unfold ReadPod, EnsureReadable. intros. case_all; zbool; done || lia. Qed.

Lemma rejects_bind {A B} (r : reader A) (k : A -> reader B) :
  rejects r -> (forall a, rejects (k a)) -> rejects (r ≫= k).
Proof.
  intros H1 H2 buf off c m E. rewrite reader_bind_eq in E.
  destruct (r buf off) as [[a off']|c' m'] eqn:Er; [by eapply H2|]. simplify_eq. by eapply H1.
Qed.
Lemma rejects_ret {A} (x : A) : rejects (mret x).
Proof. intros buf off c m [=]. Qed.
Lemma rejects_fail {A} msg : rejects (fail_read (A:=A) kInvalidArgument msg).
Proof. by intros buf off c m [= <- <-]. Qed.
Lemma rejects_if {A} (b : bool) (r1 r2 : reader A) :
  rejects r1 -> rejects r2 -> rejects (if b then r1 else r2).
Proof. by destruct b. Qed.
Lemma EnsureReadable_code buf off need c m :
  EnsureReadable buf off need = Err c m -> c = kInvalidArgument.
Proof. unfold EnsureReadable. destruct (_ || _); [by intros [= <- <-]|done]. Qed.
Lemma rejects_pod size : rejects (ReadPod size).
Proof.
  intros buf off c m E. unfold ReadPod in E.
  destruct (EnsureReadable buf off size) eqn:Er; simplify_eq. by eapply EnsureReadable_code.
Qed.
Lemma rejects_loop {A} (rd : reader A) n : rejects rd -> rejects (read_loop rd n).
Proof.
  intros H. induction n as [|n IH]; cbn [read_loop]; [apply rejects_ret|].
  apply rejects_bind; [done|]. intros. apply rejects_bind; [done|]. intros. apply rejects_ret.
Qed.

Create HintDb rejects discriminated.
#[export] Hint Resolve rejects_bind rejects_ret rejects_fail rejects_if rejects_pod rejects_loop : rejects.
#[export] Hint Extern 1 (rejects ReadUint8) => unfold ReadUint8 : rejects.
#[export] Hint Extern 1 (rejects ReadUint32) => unfold ReadUint32 : rejects.
#[export] Hint Extern 1 (rejects ReadUint64) => unfold ReadUint64 : rejects.
#[export] Hint Extern 1 (rejects ReadInt64) => unfold ReadInt64 : rejects.
#[export] Hint Extern 1 (rejects ReadBool) => unfold ReadBool : rejects.
#[export] Hint Extern 1 (rejects ReadString) => unfold ReadString : rejects.

(** ** Integers *)

Lemma le_val_exact n raw : zlen raw = Z.of_nat n -> le_bytes n (le_val raw) = raw.
Proof. unfold zlen. intros ?%Nat2Z.inj. subst n. apply le_bytes_val. Qed.

Lemma le_bytes_mod n z : le_bytes n (z mod 256 ^ Z.of_nat n) = le_bytes n z.
Proof. rewrite <- le_val_bytes. rewrite <- (length_le_bytes n z) at 1. apply le_bytes_val. Qed.

Lemma le_bytes_i64 z : le_bytes 8 (i64 z) = le_bytes 8 z.
Proof.
  rewrite <- (le_bytes_mod 8 (i64 z)), <- (le_bytes_mod 8 z). f_equal. unfold i64.
  change (256 ^ Z.of_nat 8) with (2 ^ 64).
  rewrite Zminus_mod_idemp_l. f_equal. lia.
Qed.

Lemma ReadUint8_decodes z : 0 <= z < 256 -> decodes ReadUint8 [byte_of_Z z] z.
Proof.
  intros. eapply decodes_map; [by apply ReadPod_decodes|].
  cbn [le_val]. rewrite Z_of_byte_of_Z, Z.mod_small; lia.
Qed.

Lemma ReadUint32_decodes z : in_u32 z -> decodes ReadUint32 (le_bytes 4 z) z.
Proof.
  intros. eapply decodes_map; [by apply ReadPod_decodes|].
  rewrite le_val_bytes. by apply Z.mod_small.
Qed.

Lemma ReadUint64_decodes z : in_u64 z -> decodes ReadUint64 (le_bytes 8 z) z.
Proof.
  intros. eapply decodes_map; [by apply ReadPod_decodes|].
  rewrite le_val_bytes. by apply Z.mod_small.
Qed.

Lemma ReadInt64_decodes z : in_i64 z -> decodes ReadInt64 (le_bytes 8 z) z.
Proof.
  intros. eapply (decodes_map _ (fun raw => i64 (le_val raw))); [by apply ReadPod_decodes|].
  rewrite le_val_bytes. change (256 ^ Z.of_nat 8) with (2 ^ 64).
  rewrite i64_mod. by apply i64_id.
Qed.

Lemma ReadUint8_consumes :
  consumes ReadUint8 (fun z e => 0 <= z < 256 /\ e = [byte_of_Z z]).
Proof.
  eapply consumes_map; [apply ReadPod_consumes; lia|].
  intros raw e [-> Hlen]. pose proof (le_val_range e). rewrite Hlen in *.
  split; [lia|]. by rewrite <- (le_val_exact 1 e) at 1.
Qed.

Lemma ReadUint32_consumes :
  consumes ReadUint32 (fun z e => in_u32 z /\ e = le_bytes 4 z).
Proof.
  eapply consumes_map; [apply ReadPod_consumes; lia|].
  intros raw e [-> Hlen]. pose proof (le_val_range e). rewrite Hlen in *.
  split; [done|]. by rewrite le_val_exact.
Qed.

Lemma ReadUint64_consumes :
  consumes ReadUint64 (fun z e => in_u64 z /\ e = le_bytes 8 z).
Proof.
  eapply consumes_map; [apply ReadPod_consumes; lia|].
  intros raw e [-> Hlen]. pose proof (le_val_range e). rewrite Hlen in *.
  split; [done|]. by rewrite le_val_exact.
Qed.

Lemma ReadInt64_consumes :
  consumes ReadInt64 (fun z e => in_i64 z /\ e = le_bytes 8 z).
Proof.
  eapply (consumes_map _ (fun raw => i64 (le_val raw))); [apply ReadPod_consumes; lia|].
  intros raw e [-> Hlen]. split; [apply i64_range|].
  by rewrite le_bytes_i64, le_val_exact.
Qed.

(** ** Booleans, strings and loops *)

Lemma ReadBool_decodes b : decodes ReadBool (WriteBool [] b) b.
Proof.
  unfold WriteBool, WriteUint8. cbn [app]. rewrite <- (app_nil_r [_]). eapply decodes_bind.
  - apply (ReadUint8_decodes (if b then 1 else 0)). destruct b; lia.
  - destruct b; apply decodes_ret.
Qed.

Lemma ReadBool_consumes : consumes ReadBool (fun b e => True /\ e = WriteBool [] b).
Proof.
  eapply consumes_weaken.
  - eapply (consumes_bind _ _ _ (fun raw b e => raw <= 1 /\ b = (raw =? 1) /\ e = []));
      [apply ReadUint8_consumes|].
    intros raw _ _. destruct (1 <? raw) eqn:?; [apply consumes_fail|]. zbool.
    eapply consumes_weaken; [apply consumes_ret|]. naive_solver.
  - intros b e (raw & e1 & e2 & -> & [? ->] & ? & -> & ->).
    assert (raw = 0 \/ raw = 1) as [-> | ->] by lia; done.
Qed.

Lemma WriteString_fits s : string_fits s ->
  WriteString [] s = le_bytes 4 (zlen (bytes_of_string s)) ++ bytes_of_string s.
Proof.
  unfold string_fits, WriteString, WriteUint32, WriteBytes. intros.
  rewrite u32_id; [done|]. unfold in_u32. zlia.
Qed.

Lemma ReadString_decodes s : string_fits s -> decodes ReadString (WriteString [] s) s.
Proof.
  intros Hs. rewrite WriteString_fits by done. unfold string_fits in Hs. eapply decodes_bind.
  - apply ReadUint32_decodes. unfold in_u32. zlia.
  - eapply decodes_map; [by apply ReadPod_decodes|]. apply String.string_of_list_byte_of_string.
Qed.

Lemma ReadString_consumes :
  consumes ReadString (fun s e => string_fits s /\ e = WriteString [] s).
Proof.
  eapply consumes_weaken.
  - eapply (consumes_bind _ _ _ (fun n s e => zlen e = n /\ e = bytes_of_string s));
      [apply ReadUint32_consumes|].
    intros n e [[? ?] ->]. eapply consumes_map; [by apply ReadPod_consumes|].
    intros raw e [-> ?]. by rewrite String.list_byte_of_string_of_list_byte.
  - intros s e (n & e1 & e2 & -> & [[? ?] ->] & <- & ->).
    assert (string_fits s) by done. by rewrite WriteString_fits.
Qed.

Lemma read_loop_decodes {A} (rd : reader A) (enc : A -> bytes) xs :
  (forall x, x ∈ xs -> decodes rd (enc x) x) ->
  decodes (read_loop rd (length xs)) (concat (map enc xs)) xs.
Proof.
  induction xs as [|x xs IH]; intros H; [apply decodes_ret|].
  cbn [length read_loop map concat]. eapply decodes_bind; [apply H; left|].
  eapply decodes_map; [|done]. apply IH. intros. apply H. by right.
Qed.

Lemma read_loop_consumes {A} (rd : reader A) (ok : A -> Prop) (enc : A -> bytes) n :
  consumes rd (fun x e => ok x /\ e = enc x) ->
  consumes (read_loop rd n)
    (fun xs e => length xs = n /\ Forall ok xs /\ e = concat (map enc xs)).
Proof.
  intros H. induction n as [|n IH]; cbn [read_loop].
  - eapply consumes_weaken; [apply consumes_ret|]. intros ? ? [-> ->]. by repeat constructor.
  - eapply consumes_weaken.
    + eapply (consumes_bind _ _ _ (fun x xs e => exists ys, xs = x :: ys /\
        length ys = n /\ Forall ok ys /\ e = concat (map enc ys))); [apply H|].
      intros x _ _. eapply consumes_map; [apply IH|]. naive_solver.
    + intros xs e (x & e1 & e2 & -> & [? ->] & ys & -> & <- & ? & ->).
      split_and!; [done|by constructor|done].
Qed.

(** ** Instances *)

#[export] Instance bool_codec : Codec bool := {|
  write := WriteBool; read := ReadBool; representable := fun _ => True;
  write_append := fun _ _ => eq_refl;
  read_write := fun b _ => ReadBool_decodes b;
  read_exact := ReadBool_consumes
|}.

Lemma WriteString_append buf s : WriteString buf s = buf ++ WriteString [] s.
Proof. unfold WriteString, WriteUint32, WriteBytes. by rewrite <- app_assoc. Qed.

#[export] Instance string_codec : Codec string := {|
  write := WriteString; read := ReadString; representable := string_fits;
  write_append := WriteString_append;
  read_write := ReadString_decodes;
  read_exact := ReadString_consumes
|}.

#[export] Hint Resolve decodes_ret ReadUint32_decodes ReadUint64_decodes ReadInt64_decodes
  ReadBool_decodes ReadString_decodes : codec.
#[export] Hint Resolve consumes_ret consumes_fail ReadUint8_consumes ReadUint32_consumes
  ReadUint64_consumes ReadInt64_consumes ReadBool_consumes ReadString_consumes : codec.
