(* ===== verification/Values.v ===== *)
(** * Values, tuples, rows and schemas

    Models [execution/value], [execution/tuple.h], [storage/row.h],
    [storage/row_id.h], [catalog/schema], [catalog/index_descriptor.h] and
    [catalog/table_descriptor.h].  A [RowId] is its 64-bit number.  Strings
    are sequences of bytes and compare as [std::string] does: byte by byte,
    unsigned, a proper prefix first. *)

From S2P Require Import Prelude.

(** ** Values *)

Inductive ValueType := vtNull | vtInt | vtString | vtBool.

Inductive Value :=
  | VNull
  | VInt (v : Z)
  | VString (v : string)
  | VBool (v : bool).

#[export] Instance ValueType_eq_dec : EqDecision ValueType.
Proof. solve_decision. Defined.
#[export] Instance Value_eq_dec : EqDecision Value.
Proof. solve_decision. Defined.

(** [static_cast<int>(type)]. *)
Definition ValueType_int (t : ValueType) : Z :=
  match t with vtNull => 0 | vtInt => 1 | vtString => 2 | vtBool => 3 end.

Definition type (v : Value) : ValueType :=
  match v with
  | VNull => vtNull | VInt _ => vtInt | VString _ => vtString | VBool _ => vtBool
  end.

Definition is_null (v : Value) : bool := bool_decide (type v = vtNull).

(** The accessors throw [std::logic_error] on another type: [None]. *)
Definition AsInt (v : Value) : option Z := match v with VInt z => Some z | _ => None end.
Definition AsString (v : Value) : option string :=
  match v with VString s => Some s | _ => None end.
Definition AsBool (v : Value) : option bool := match v with VBool b => Some b | _ => None end.

(** [std::string::operator<]. *)
Definition string_ltb (s t : string) : bool :=
  match String.compare s t with Lt => true | _ => false end.

Definition value_eqb (a b : Value) : bool := bool_decide (a = b).
Definition value_neb (a b : Value) : bool := negb (value_eqb a b).
Definition value_ltb (a b : Value) : bool :=
  if bool_decide (type a = type b) then
    match a, b with
    | VInt x, VInt y => x <? y
    | VString x, VString y => string_ltb x y
    | VBool x, VBool y => negb x && y
    | _, _ => false
    end
  else ValueType_int (type a) <? ValueType_int (type b).
Definition value_leb (a b : Value) : bool := value_ltb a b || value_eqb a b.
Definition value_gtb (a b : Value) : bool := value_ltb b a.
Definition value_geb (a b : Value) : bool := negb (value_ltb a b).

Definition value_lt (a b : Value) : Prop := value_ltb a b = true.

(** The values the 64-bit integer and 32-bit string length fields hold. *)
Definition value_ok (v : Value) : Prop :=
  match v with
  | VInt z => in_i64 z
  | VString s => zlen (bytes_of_string s) < 2 ^ 32
  | VNull | VBool _ => True
  end.

#[export] Instance value_ok_dec v : Decision (value_ok v).
Proof. destruct v; cbn; apply _. Defined.

(** ** Tuples and rows *)

Abbreviation Tuple := (list Value).

Record Row := mkRow { rid : Z; tuple : Tuple; deleted : bool }.
#[export] Instance Row_eq_dec : EqDecision Row.
Proof. solve_decision. Defined.

(** ** Schemas *)

(** The enumerators of [ColumnType]; [ctOther raw] is the value of the
    enumeration [static_cast<ColumnType>(raw)] gives for a number that is none
    of them. *)
Inductive ColumnType := ctInt | ctString | ctBool | ctOther (raw : Z).
#[export] Instance ColumnType_eq_dec : EqDecision ColumnType.
Proof. solve_decision. Defined.

Definition ColumnType_of_raw (raw : Z) : ColumnType :=
  if raw =? 0 then ctInt else if raw =? 1 then ctString
  else if raw =? 2 then ctBool else ctOther raw.
Definition ColumnType_raw (t : ColumnType) : Z :=
  match t with ctInt => 0 | ctString => 1 | ctBool => 2 | ctOther raw => raw end.

Record ColumnSchema := mkColumnSchema {
  col_name : string;
  col_type : ColumnType;
  not_null : bool;
  indexed : bool;
  default_value : option Value
}.
#[export] Instance ColumnSchema_eq_dec : EqDecision ColumnSchema.
Proof. solve_decision. Defined.

(** [TableSchema::columns]. *)
Abbreviation TableSchema := (list ColumnSchema).

Fixpoint FindColumn_from (i : Z) (columns : TableSchema) (name : string) : Z :=
  match columns with
  | [] => -1
  | c :: cs => if bool_decide (col_name c = name) then i else FindColumn_from (i + 1) cs name
  end.
Definition FindColumn (schema : TableSchema) (name : string) : Z :=
  FindColumn_from 0 schema name.
Definition FindColumnSchema (schema : TableSchema) (name : string) : option ColumnSchema :=
  if FindColumn schema name <? 0 then None else znth schema (FindColumn schema name).

Record IndexDescriptor := mkIndexDescriptor {
  idx_name : string;
  idx_table_name : string;
  idx_column_name : string;
  idx_file_path : string;
  unique : bool
}.
#[export] Instance IndexDescriptor_eq_dec : EqDecision IndexDescriptor.
Proof. solve_decision. Defined.

Record TableDescriptor := mkTableDescriptor {
  database_name : string;
  table_name : string;
  data_file : string;
  index_dir : string;
  schema : TableSchema;
  indexes : list IndexDescriptor
}.
#[export] Instance TableDescriptor_eq_dec : EqDecision TableDescriptor.
Proof. solve_decision. Defined.

(** ** The order on strings and values *)

Lemma string_compare_refl s : String.compare s s = Eq.
Proof.
  induction s as [|a s IH]; [done|]. cbn. unfold Ascii.compare. by rewrite N.compare_refl.
Qed.

Lemma string_ltb_irrefl s : string_ltb s s = false.
Proof. unfold string_ltb. by rewrite string_compare_refl. Qed.

Lemma string_ltb_trans s t u :
  string_ltb s t = true -> string_ltb t u = true -> string_ltb s u = true.
Proof.
  unfold string_ltb. revert t u. induction s as [|a s IH]; intros [|b t] [|c u]; try done.
  cbn. unfold Ascii.compare.
  destruct (N.compare_spec (Ascii.N_of_ascii a) (Ascii.N_of_ascii b)) as [E1|?|?];
  destruct (N.compare_spec (Ascii.N_of_ascii b) (Ascii.N_of_ascii c)) as [E2|?|?];
  destruct (N.compare_spec (Ascii.N_of_ascii a) (Ascii.N_of_ascii c)); try done; try lia.
  apply IH.
Qed.

Lemma string_ltb_total s t : string_ltb s t = true \/ s = t \/ string_ltb t s = true.
Proof.
  unfold string_ltb. rewrite (String.compare_antisym t s).
  destruct (String.compare s t) eqn:E; auto. apply String.compare_eq_iff in E. auto.
Qed.

Lemma value_ltb_irrefl v : value_ltb v v = false.
Proof.
  unfold value_ltb. rewrite bool_decide_true by done.
  destruct v as [|z|s|[]]; auto using string_ltb_irrefl, Z.ltb_irrefl.
Qed.

Lemma value_ltb_trans a b c :
  value_ltb a b = true -> value_ltb b c = true -> value_ltb a c = true.
Proof.
  destruct a as [|x|x|x], b as [|y|y|y], c as [|z|z|z]; unfold value_ltb; cbn -[Z.ltb string_ltb]; rewrite ?bool_decide_true by done; try done.
  - rewrite !Z.ltb_lt. lia.
  - apply string_ltb_trans.
  - by destruct x, y, z.
Qed.

Lemma value_ltb_total a b : value_ltb a b = true \/ a = b \/ value_ltb b a = true.
Proof.
  destruct a as [|x|x|x], b as [|y|y|y]; unfold value_ltb; cbn -[Z.ltb string_ltb]; rewrite ?bool_decide_true by done; auto.
  - destruct (Z.lt_trichotomy x y) as [?|[->|?]]; rewrite ?Z.ltb_lt; auto.
  - destruct (string_ltb_total x y) as [?|[->|?]]; auto.
  - destruct x, y; auto.
Qed.

#[export] Instance value_lt_strict : StrictOrder value_lt.
Proof.
  split.
  - intros v. unfold complement, value_lt. by rewrite value_ltb_irrefl.
  - intros a b c. apply value_ltb_trans.
Qed.

Lemma value_ltb_asym a b : value_ltb a b = true -> value_ltb b a = false.
Proof.
  intros H. destruct (value_ltb b a) eqn:E; [|done].
  pose proof (value_ltb_trans _ _ _ H E) as H'. by rewrite value_ltb_irrefl in H'.
Qed.

(** ** Schema lookup *)

Lemma FindColumn_from_spec columns name i :
  (FindColumn_from i columns name = -1 /\ Forall (fun c => col_name c <> name) columns) \/
  (exists k c, FindColumn_from i columns name = i + Z.of_nat k /\ columns !! k = Some c /\
     col_name c = name /\ forall j c', (j < k)%nat -> columns !! j = Some c' -> col_name c' <> name).
Proof.
  revert i. induction columns as [|c cs IH]; intros i; cbn [FindColumn_from].
  - left. auto.
  - case_bool_decide as Hc.
    + right. exists 0%nat, c. split_and!; [lia|done|done|]. intros. lia.
    + destruct (IH (i + 1)) as [[-> ?]|(k & c' & -> & ? & ? & Hmin)].
      * left. auto.
      * right. exists (S k), c'. split_and!; [lia|done|done|].
        intros [|j] d ? Hd; [naive_solver|]. eapply Hmin; [|done]. lia.
Qed.

(** ** Theorems *)

(** C36. The comparison operators of [Value] are those of one strict total
    order: [<] is irreflexive and transitive, any two values are ordered or
    equal, and [==], [!=], [<=], [>] and [>=] are the relations derived from
    it.  Sorting and binary search over mixed values rest on this. *)
Theorem value_comparison_total_order a b c :
  value_ltb a a = false /\
  (value_ltb a b = true -> value_ltb b c = true -> value_ltb a c = true) /\
  (value_ltb a b = true \/ value_eqb a b = true \/ value_ltb b a = true) /\
  (value_ltb a b = true -> value_eqb a b = false /\ value_ltb b a = false) /\
  (value_eqb a b = true <-> a = b) /\
  value_neb a b = negb (value_eqb a b) /\
  value_leb a b = negb (value_ltb b a) /\
  value_gtb a b = value_ltb b a /\
  value_geb a b = value_leb b a.
Proof.
  assert (forall x y, value_leb x y = negb (value_ltb y x)) as Hle.
  { intros x y. unfold value_leb, value_eqb.
    destruct (value_ltb_total x y) as [H|[->|H]].
    - by rewrite H, (value_ltb_asym _ _ H).
    - by rewrite value_ltb_irrefl, bool_decide_true.
    - rewrite H, (value_ltb_asym _ _ H). cbn. apply bool_decide_eq_false.
      intros ->. by rewrite value_ltb_irrefl in H. }
  split_and!; try done.
  - apply value_ltb_irrefl.
  - apply value_ltb_trans.
  - unfold value_eqb. rewrite bool_decide_eq_true. apply value_ltb_total.
  - intros H. split; [|by apply value_ltb_asym]. unfold value_eqb. apply bool_decide_eq_false.
    intros ->. by rewrite value_ltb_irrefl in H.
  - unfold value_eqb. by rewrite bool_decide_eq_true.
Qed.

(** [FindColumn] returns the index of the first column of that name, or -1
    exactly when the schema has none, and [FindColumnSchema] is the column at
    that index. *)
Theorem find_column_first columns name :
  (FindColumn columns name = -1 /\ FindColumnSchema columns name = None /\
     Forall (fun c => col_name c <> name) columns) \/
  (exists k c, FindColumn columns name = Z.of_nat k /\ FindColumnSchema columns name = Some c /\
     columns !! k = Some c /\ col_name c = name /\
     forall j c', (j < k)%nat -> columns !! j = Some c' -> col_name c' <> name).
Proof.
  unfold FindColumnSchema, FindColumn.
  destruct (FindColumn_from_spec columns name 0) as [[-> ?]|(k & c & -> & Hk & Hc & Hmin)].
  - left. by split_and!.
  - right. exists k, c. rewrite Z.add_0_l, (proj2 (Z.ltb_ge _ _)) by lia.
    rewrite znth_lookup, Nat2Z.id by lia. by split_and!.
Qed.
