(* ===== verification/Serialization.v ===== *)
(** * Serialization of values, rows and catalog descriptors

    Models [src/common/value_serialization.cpp], [row_serialization.cpp] and
    [catalog_serialization.cpp].  Every serializer is an instance of
    [BinaryIO.Codec]. *)

From S2P Require Import Prelude BinaryIO Values.

(** ** Values *)

Definition SerializeValue (value : Value) (buffer : bytes) : bytes :=
  let buffer := WriteUint32 buffer (u32 (ValueType_int (type value))) in
  match value with
  | VNull => buffer
  | VInt v => WriteInt64 buffer v
  | VString v => WriteString buffer v
  | VBool v => WriteBool buffer v
  end.

Definition DeserializeValue : reader Value :=
  raw_type ← ReadUint32;
  if raw_type =? 0 then mret VNull
  else if raw_type =? 1 then v ← ReadInt64; mret (VInt v)
  else if raw_type =? 2 then v ← ReadString; mret (VString v)
  else if raw_type =? 3 then v ← ReadBool; mret (VBool v)
  else fail_read kInvalidArgument "Corrupted metadata: invalid value type".

(** ** Tuples and rows *)

Definition SerializeTuple (tuple : Tuple) (buffer : bytes) : bytes :=
  fold_left (fun buffer value => SerializeValue value buffer) tuple
    (WriteUint64 buffer (zlen tuple)).

Definition kMaxTupleValues : Z := 2 ^ 20.

Definition DeserializeTuple : reader Tuple :=
  num_values ← ReadUint64;
  if kMaxTupleValues <? num_values then
    fail_read kInvalidArgument "Tuple value count is unreasonably large"
  else read_loop DeserializeValue (Z.to_nat num_values).

Definition SerializeRow (row : Row) (buffer : bytes) : bytes :=
  let buffer := WriteUint64 buffer (rid row) in
  let buffer := WriteBool buffer (deleted row) in
  let temp := SerializeTuple (tuple row) [] in
  let buffer := WriteUint64 buffer (zlen temp) in
  buffer ++ temp.

(** The tuple of a row: it must take exactly [tuple_size] bytes. *)
Definition DeserializeRowTuple (tuple_size : Z) : reader Tuple := fun buf offset =>
  match EnsureReadable buf offset tuple_size with
  | Err c m => Err c m
  | Ok _ =>
      '(t, tuple_offset) ← DeserializeTuple buf offset;
      if negb (tuple_offset - offset =? tuple_size) then
        Err kInvalidArgument "Deserialized tuple size does not match expected size"
      else Ok (t, tuple_offset)
  end.

Definition DeserializeRow : reader Row :=
  rid_value ← ReadUint64;
  deleted ← ReadBool;
  tuple_size ← ReadUint64;
  t ← DeserializeRowTuple tuple_size;
  mret (mkRow rid_value t deleted).

Definition tuple_ok (t : Tuple) : Prop := zlen t <= kMaxTupleValues /\ Forall value_ok t.
Definition row_ok (r : Row) : Prop :=
  in_u64 (rid r) /\ tuple_ok (tuple r) /\ zlen (SerializeTuple (tuple r) []) < 2 ^ 64.

#[export] Instance tuple_ok_dec t : Decision (tuple_ok t) := _.
#[export] Instance row_ok_dec r : Decision (row_ok r) := _.

(** ** Catalog descriptors *)

Definition SerializeColumnSchema (column : ColumnSchema) (buffer : bytes) : bytes :=
  let buffer := WriteString buffer (col_name column) in
  let buffer := WriteUint32 buffer (u32 (ColumnType_raw (col_type column))) in
  let buffer := WriteBool buffer (not_null column) in
  let buffer := WriteBool buffer (indexed column) in
  let buffer := WriteBool buffer (bool_decide (is_Some (default_value column))) in
  match default_value column with
  | Some v => SerializeValue v buffer
  | None => buffer
  end.

Definition DeserializeColumnSchema : reader ColumnSchema :=
  name ← ReadString;
  raw_type ← ReadUint32;
  not_null ← ReadBool;
  indexed ← ReadBool;
  has_default ← ReadBool;
  if (has_default : bool) then
    value ← DeserializeValue;
    mret (mkColumnSchema name (ColumnType_of_raw raw_type) not_null indexed (Some value))
  else mret (mkColumnSchema name (ColumnType_of_raw raw_type) not_null indexed None).

Definition SerializeTableSchema (schema : TableSchema) (buffer : bytes) : bytes :=
  fold_left (fun buffer column => SerializeColumnSchema column buffer) schema
    (WriteUint32 buffer (u32 (zlen schema))).

Definition DeserializeTableSchema : reader TableSchema :=
  column_count ← ReadUint32;
  read_loop DeserializeColumnSchema (Z.to_nat column_count).

Definition SerializeIndexDescriptor (index : IndexDescriptor) (buffer : bytes) : bytes :=
  let buffer := WriteString buffer (idx_name index) in
  let buffer := WriteString buffer (idx_table_name index) in
  let buffer := WriteString buffer (idx_column_name index) in
  let buffer := WriteString buffer (idx_file_path index) in
  WriteBool buffer (unique index).

Definition DeserializeIndexDescriptor : reader IndexDescriptor :=
  name ← ReadString;
  table_name ← ReadString;
  column_name ← ReadString;
  file_path ← ReadString;
  unique ← ReadBool;
  mret (mkIndexDescriptor name table_name column_name file_path unique).

Definition SerializeTableDescriptor (desc : TableDescriptor) (buffer : bytes) : bytes :=
  let buffer := WriteString buffer (database_name desc) in
  let buffer := WriteString buffer (table_name desc) in
  let buffer := WriteString buffer (data_file desc) in
  let buffer := WriteString buffer (index_dir desc) in
  let buffer := SerializeTableSchema (schema desc) buffer in
  let buffer := WriteUint32 buffer (u32 (zlen (indexes desc))) in
  fold_left (fun buffer index => SerializeIndexDescriptor index buffer) (indexes desc) buffer.

Definition DeserializeTableDescriptor : reader TableDescriptor :=
  database_name ← ReadString;
  table_name ← ReadString;
  data_file ← ReadString;
  index_dir ← ReadString;
  schema ← DeserializeTableSchema;
  index_count ← ReadUint32;
  indexes ← read_loop DeserializeIndexDescriptor (Z.to_nat index_count);
  mret (mkTableDescriptor database_name table_name data_file index_dir schema indexes).

(** Column types as [static_cast] produces them from a 32-bit number. *)
Definition column_type_ok (t : ColumnType) : Prop :=
  match t with ctOther raw => 3 <= raw < 2 ^ 32 | _ => True end.
Definition column_ok (c : ColumnSchema) : Prop :=
  string_fits (col_name c) /\ column_type_ok (col_type c) /\
  match default_value c with Some v => value_ok v | None => True end.
Definition schema_ok (s : TableSchema) : Prop := zlen s < 2 ^ 32 /\ Forall column_ok s.
Definition index_ok (i : IndexDescriptor) : Prop :=
  string_fits (idx_name i) /\ string_fits (idx_table_name i) /\
  string_fits (idx_column_name i) /\ string_fits (idx_file_path i).
Definition descriptor_ok (d : TableDescriptor) : Prop :=
  string_fits (database_name d) /\ string_fits (table_name d) /\
  string_fits (data_file d) /\ string_fits (index_dir d) /\
  schema_ok (schema d) /\ zlen (indexes d) < 2 ^ 32 /\ Forall index_ok (indexes d).

#[export] Instance column_ok_dec c : Decision (column_ok c).
Proof.
  unfold column_ok, column_type_ok. destruct (col_type c), (default_value c); apply _.
Defined.
#[export] Instance schema_ok_dec s : Decision (schema_ok s) := _.
#[export] Instance index_ok_dec i : Decision (index_ok i) := _.
#[export] Instance descriptor_ok_dec d : Decision (descriptor_ok d) := _.

(** ** Writers append *)

Create Rewrite HintDb append.
#[export] Hint Rewrite WriteString_append : append.

Lemma WriteUint32_append buf z : WriteUint32 buf z = buf ++ WriteUint32 [] z.
Proof. reflexivity. Qed.
Lemma WriteUint64_append buf z : WriteUint64 buf z = buf ++ WriteUint64 [] z.
Proof. reflexivity. Qed.
Lemma WriteInt64_append buf z : WriteInt64 buf z = buf ++ WriteInt64 [] z.
Proof. reflexivity. Qed.
Lemma WriteBool_append buf b : WriteBool buf b = buf ++ WriteBool [] b.
Proof. reflexivity. Qed.

(** Bring a serializer's output into the form [buffer ++ field ++ field ...]. *)
Ltac to_append :=
  repeat match goal with
  | |- context [WriteUint32 ?b ?z] =>
      lazymatch b with [] => fail | _ => rewrite (WriteUint32_append b z) end
  | |- context [WriteUint64 ?b ?z] =>
      lazymatch b with [] => fail | _ => rewrite (WriteUint64_append b z) end
  | |- context [WriteInt64 ?b ?z] =>
      lazymatch b with [] => fail | _ => rewrite (WriteInt64_append b z) end
  | |- context [WriteBool ?b ?z] =>
      lazymatch b with [] => fail | _ => rewrite (WriteBool_append b z) end
  | |- context [WriteString ?b ?z] =>
      lazymatch b with [] => fail | _ => rewrite (WriteString_append b z) end
  end; rewrite <- ?app_assoc, ?app_nil_l.

Lemma fold_append {A} (f : A -> bytes -> bytes) xs buf :
  (forall x b, f x b = b ++ f x []) ->
  fold_left (fun b x => f x b) xs buf = buf ++ concat (map (fun x => f x []) xs).
Proof.
  intros Hf. revert buf. induction xs as [|x xs IH]; intros buf; cbn.
  - by rewrite app_nil_r.
  - rewrite IH, Hf. by rewrite app_assoc.
Qed.

Lemma SerializeValue_append v buf : SerializeValue v buf = buf ++ SerializeValue v [].
Proof. unfold SerializeValue. destruct v; to_append; reflexivity. Qed.

Lemma SerializeTuple_eq t buf :
  SerializeTuple t buf =
    buf ++ WriteUint64 [] (zlen t) ++ concat (map (fun v => SerializeValue v []) t).
Proof.
  unfold SerializeTuple. rewrite fold_append by apply SerializeValue_append.
  by to_append.
Qed.

Lemma SerializeTuple_append t buf : SerializeTuple t buf = buf ++ SerializeTuple t [].
Proof. by rewrite !SerializeTuple_eq. Qed.

Lemma SerializeRow_append r buf : SerializeRow r buf = buf ++ SerializeRow r [].
Proof. unfold SerializeRow. cbv zeta. by to_append. Qed.

Lemma SerializeColumnSchema_append c buf :
  SerializeColumnSchema c buf = buf ++ SerializeColumnSchema c [].
Proof.
  unfold SerializeColumnSchema. cbv zeta. destruct (default_value c) as [v|].
  - rewrite (SerializeValue_append v (WriteBool _ _)), (SerializeValue_append v (WriteBool (WriteBool (WriteBool (WriteUint32 (WriteString [] _) _) _) _) _)). by to_append.
  - by to_append.
Qed.

Lemma SerializeTableSchema_eq s buf :
  SerializeTableSchema s buf =
    buf ++ WriteUint32 [] (u32 (zlen s)) ++ concat (map (fun c => SerializeColumnSchema c []) s).
Proof.
  unfold SerializeTableSchema. rewrite fold_append by apply SerializeColumnSchema_append.
  by to_append.
Qed.

Lemma SerializeIndexDescriptor_append i buf :
  SerializeIndexDescriptor i buf = buf ++ SerializeIndexDescriptor i [].
Proof. unfold SerializeIndexDescriptor. cbv zeta. by to_append. Qed.

Lemma SerializeTableDescriptor_eq d buf :
  SerializeTableDescriptor d buf =
    buf ++ WriteString [] (database_name d) ++ WriteString [] (table_name d) ++
    WriteString [] (data_file d) ++ WriteString [] (index_dir d) ++
    (WriteUint32 [] (u32 (zlen (schema d))) ++
     concat (map (fun c => SerializeColumnSchema c []) (schema d))) ++
    WriteUint32 [] (u32 (zlen (indexes d))) ++
    concat (map (fun i => SerializeIndexDescriptor i []) (indexes d)).
Proof.
  unfold SerializeTableDescriptor. cbv zeta.
  rewrite fold_append by apply SerializeIndexDescriptor_append.
  rewrite SerializeTableSchema_eq. by to_append.
Qed.

(** ** Round trips *)

Lemma DeserializeValue_decodes v :
  value_ok v -> decodes DeserializeValue (SerializeValue v []) v.
Proof.
  intros Hv. unfold SerializeValue, DeserializeValue. cbv zeta.
  rewrite u32_id by (destruct v; split; cbn; lia).
  destruct v; to_append; unfold WriteUint32, WriteInt64, WriteBytes; rewrite ?app_nil_l.
  1: rewrite <- (app_nil_r (le_bytes _ _)).
  all: (eapply decodes_bind; [apply ReadUint32_decodes; split; cbn; lia|]); cbn.
  - apply decodes_ret.
  - by eapply decodes_map; [apply ReadInt64_decodes|].
  - by eapply decodes_map; [apply ReadString_decodes|].
  - by eapply decodes_map; [apply ReadBool_decodes|].
Qed.

Lemma tag_consumes {A} (P : A -> bytes -> Prop) (k : Z -> reader A) :
  (forall raw, in_u32 raw -> consumes (k raw) (fun x e => P x (le_bytes 4 raw ++ e))) ->
  consumes (ReadUint32 ≫= k) P.
Proof.
  intros H. eapply consumes_weaken.
  - apply consumes_bind; [apply ReadUint32_consumes|]. intros raw e [? _]. by apply H.
  - by intros x e (raw & e1 & e2 & -> & [? ->] & ?).
Qed.

Lemma DeserializeValue_consumes :
  consumes DeserializeValue (fun v e => value_ok v /\ e = SerializeValue v []).
Proof.
  apply tag_consumes. intros raw Hraw.
  repeat case_match; zbool; subst; try apply consumes_fail.
  - eapply consumes_weaken; [apply consumes_ret|]. by intros ? ? [-> ->].
  - eapply consumes_map; [apply ReadInt64_consumes|]. by intros ? ? [? ->].
  - eapply consumes_map; [apply ReadString_consumes|]. intros s ? [? ->]. split; [done|].
    unfold SerializeValue. cbv zeta. by to_append.
  - eapply consumes_map; [apply ReadBool_consumes|]. by intros ? ? [_ ->].
Qed.

#[export] Instance value_codec : Codec Value := {|
  write := fun b v => SerializeValue v b; read := DeserializeValue; representable := value_ok;
  write_append := fun b v => SerializeValue_append v b;
  read_write := DeserializeValue_decodes;
  read_exact := DeserializeValue_consumes
|}.

Lemma DeserializeTuple_decodes t :
  tuple_ok t -> decodes DeserializeTuple (SerializeTuple t []) t.
Proof.
  intros [Hlen Hall]. rewrite SerializeTuple_eq, app_nil_l. unfold kMaxTupleValues in Hlen.
  eapply decodes_bind; [apply ReadUint64_decodes; unfold in_u64; zlia|].
  unfold kMaxTupleValues. rewrite (proj2 (Z.ltb_ge _ _)) by done.
  unfold zlen. rewrite Nat2Z.id. apply read_loop_decodes.
  intros v Hv. apply DeserializeValue_decodes. by eapply Forall_forall in Hv.
Qed.

Lemma DeserializeTuple_consumes :
  consumes DeserializeTuple (fun t e => tuple_ok t /\ e = SerializeTuple t []).
Proof.
  eapply consumes_weaken.
  - eapply (consumes_bind _ _ _ (fun n t e => n <= kMaxTupleValues /\ zlen t = n /\
      Forall value_ok t /\ e = concat (map (fun v => SerializeValue v []) t)));
      [apply ReadUint64_consumes|].
    intros n _ [[? _] _]. destruct (kMaxTupleValues <? n) eqn:?; [apply consumes_fail|]. zbool.
    eapply consumes_weaken; [apply read_loop_consumes, DeserializeValue_consumes|].
    intros t e (? & ? & ->). unfold zlen. split_and!; try done. lia.
  - intros t e (n & e1 & e2 & -> & [_ ->] & ? & <- & ? & ->).
    by rewrite SerializeTuple_eq.
Qed.

#[export] Instance tuple_codec : Codec Tuple := {|
  write := fun b t => SerializeTuple t b; read := DeserializeTuple; representable := tuple_ok;
  write_append := fun b t => SerializeTuple_append t b;
  read_write := DeserializeTuple_decodes;
  read_exact := DeserializeTuple_consumes
|}.

Lemma DeserializeRowTuple_decodes t :
  tuple_ok t ->
  decodes (DeserializeRowTuple (zlen (SerializeTuple t []))) (SerializeTuple t []) t.
Proof.
  intros Ht pre post. unfold DeserializeRowTuple.
  rewrite (proj2 (EnsureReadable_Ok _ _ _)) by zlia.
  rewrite (DeserializeTuple_decodes t Ht). cbn.
  rewrite (proj2 (Z.eqb_eq _ _)) by lia. done.
Qed.

Lemma DeserializeRowTuple_consumes n :
  consumes (DeserializeRowTuple n)
    (fun t e => tuple_ok t /\ e = SerializeTuple t [] /\ zlen e = n).
Proof.
  intros buf off t off' ? E. unfold DeserializeRowTuple in E.
  destruct (EnsureReadable buf off n); [|done].
  apply result_bind_Ok in E as ([t' off1] & E & E2).
  destruct (off1 - off =? n) eqn:?; simplify_eq/=. zbool.
  apply DeserializeTuple_consumes in E as (pre & e & post & -> & -> & -> & ? & ->); [|done].
  exists pre, (SerializeTuple t []), post. split_and!; try done. lia.
Qed.

Lemma DeserializeRow_decodes r : row_ok r -> decodes DeserializeRow (SerializeRow r []) r.
Proof.
  intros (Hrid & Ht & Hsize). unfold SerializeRow. cbv zeta. to_append.
  eapply decodes_bind; [by apply ReadUint64_decodes|].
  eapply decodes_bind; [apply ReadBool_decodes|].
  eapply decodes_bind; [apply ReadUint64_decodes; unfold in_u64; zlia|].
  eapply decodes_map; [by apply DeserializeRowTuple_decodes|]. by destruct r.
Qed.

Lemma DeserializeRow_consumes :
  consumes DeserializeRow (fun r e => row_ok r /\ e = SerializeRow r []).
Proof.
  eapply consumes_weaken.
  - eapply consumes_bind; [apply ReadUint64_consumes|]. intros rd _ _.
    eapply consumes_bind; [apply ReadBool_consumes|]. intros del _ _.
    eapply consumes_bind; [apply ReadUint64_consumes|]. intros n _ _.
    eapply consumes_bind; [apply DeserializeRowTuple_consumes|]. intros t _ _.
    apply consumes_ret.
  - intros r e (rd & e1 & ? & -> & [? ->] & del & e2 & ? & -> & [_ ->] & n & e3 & ? & -> &
      [[? ?] ->] & t & e4 & ? & -> & (? & -> & <-) & -> & ->).
    split; [done|]. unfold SerializeRow. cbv zeta. cbn [rid deleted tuple]. to_append.
    by rewrite app_nil_r.
Qed.

#[export] Instance row_codec : Codec Row := {|
  write := fun b r => SerializeRow r b; read := DeserializeRow; representable := row_ok;
  write_append := fun b r => SerializeRow_append r b;
  read_write := DeserializeRow_decodes;
  read_exact := DeserializeRow_consumes
|}.

(** ** Catalog round trips *)

Lemma ColumnType_of_raw_raw t : column_type_ok t -> ColumnType_of_raw (ColumnType_raw t) = t.
Proof.
  destruct t as [| | |raw]; try done. cbn. intros. unfold ColumnType_of_raw.
  repeat case_match; zbool; done || lia.
Qed.

Lemma ColumnType_raw_of_raw raw : ColumnType_raw (ColumnType_of_raw raw) = raw.
Proof. unfold ColumnType_of_raw. repeat case_match; zbool; done. Qed.

Lemma column_type_ok_of_raw raw : in_u32 raw -> column_type_ok (ColumnType_of_raw raw).
Proof.
  intros []. unfold ColumnType_of_raw. repeat case_match; zbool; cbn; try done. lia.
Qed.

Lemma column_type_in_u32 t : column_type_ok t -> in_u32 (ColumnType_raw t).
Proof. destruct t; cbn; unfold in_u32; lia. Qed.

(** The fields of a column, one after the other. *)
Lemma SerializeColumnSchema_eq c :
  SerializeColumnSchema c [] =
    WriteString [] (col_name c) ++ WriteUint32 [] (u32 (ColumnType_raw (col_type c))) ++
    WriteBool [] (not_null c) ++ WriteBool [] (indexed c) ++
    match default_value c with
    | Some v => WriteBool [] true ++ SerializeValue v []
    | None => WriteBool [] false
    end.
Proof.
  unfold SerializeColumnSchema. cbv zeta. destruct (default_value c) as [v|].
  - rewrite SerializeValue_append. by to_append.
  - by to_append.
Qed.

Lemma DeserializeColumnSchema_decodes c :
  column_ok c -> decodes DeserializeColumnSchema (SerializeColumnSchema c []) c.
Proof.
  intros (Hname & Htype & Hdef). rewrite SerializeColumnSchema_eq.
  pose proof (column_type_in_u32 _ Htype) as Hraw. rewrite u32_id by done.
  eapply decodes_bind; [by apply ReadString_decodes|].
  eapply decodes_bind; [by apply ReadUint32_decodes|].
  do 2 (eapply decodes_bind; [apply ReadBool_decodes|]).
  destruct c as [n t nn ix [v|]]; cbn [default_value col_type col_name not_null indexed] in *.
  - eapply decodes_bind; [apply ReadBool_decodes|].
    eapply decodes_map; [by apply DeserializeValue_decodes|].
    by rewrite ColumnType_of_raw_raw.
  - rewrite <- (app_nil_r (WriteBool [] false)).
    eapply decodes_bind; [apply ReadBool_decodes|].
    rewrite ColumnType_of_raw_raw by done. apply decodes_ret.
Qed.

Lemma DeserializeColumnSchema_consumes :
  consumes DeserializeColumnSchema
    (fun c e => column_ok c /\ e = SerializeColumnSchema c []).
Proof.
  eapply consumes_weaken.
  - eapply consumes_bind; [apply ReadString_consumes|]. intros n _ _.
    eapply consumes_bind; [apply ReadUint32_consumes|]. intros raw _ _.
    eapply consumes_bind; [apply ReadBool_consumes|]. intros nn _ _.
    eapply consumes_bind; [apply ReadBool_consumes|]. intros ix _ _.
    eapply (consumes_bind _ _ _ (fun b c e => exists d,
      c = mkColumnSchema n (ColumnType_of_raw raw) nn ix d /\
      match d with Some v => value_ok v | None => True end /\
      b = bool_decide (is_Some d) /\ e = match d with Some v => SerializeValue v [] | None => [] end));
      [apply ReadBool_consumes|]. intros [] _ _.
    + eapply consumes_map; [apply DeserializeValue_consumes|].
      intros v e [? ->]. exists (Some v). naive_solver.
    + eapply consumes_weaken; [apply consumes_ret|]. intros c e [-> ->]. by exists None.
  - intros c e (n & e1 & ? & -> & [? ->] & raw & e2 & ? & -> & [? ->] & nn & e3 & ? & -> &
      [_ ->] & ix & e4 & ? & -> & [_ ->] & b & e5 & ? & -> & [_ ->] & d & -> & ? & -> & ->).
    split; [split_and!; [done|by apply column_type_ok_of_raw|done]|].
    rewrite SerializeColumnSchema_eq. cbn [default_value col_type col_name not_null indexed].
    rewrite ColumnType_raw_of_raw, u32_id by done. by destruct d; rewrite ?app_nil_r.
Qed.

#[export] Instance column_codec : Codec ColumnSchema := {|
  write := fun b c => SerializeColumnSchema c b; read := DeserializeColumnSchema;
  representable := column_ok;
  write_append := fun b c => SerializeColumnSchema_append c b;
  read_write := DeserializeColumnSchema_decodes;
  read_exact := DeserializeColumnSchema_consumes
|}.

(** A 32-bit count followed by that many elements: the schema and the index
    list of a descriptor. *)
Lemma counted_decodes {A} (rd : reader A) (enc : A -> bytes) xs :
  zlen xs < 2 ^ 32 -> (forall x, x ∈ xs -> decodes rd (enc x) x) ->
  decodes (n ← ReadUint32; read_loop rd (Z.to_nat n))
    (WriteUint32 [] (u32 (zlen xs)) ++ concat (map enc xs)) xs.
Proof.
  intros Hlen H. assert (in_u32 (zlen xs)) by (split; zlia). rewrite u32_id by done.
  eapply decodes_bind; [by apply ReadUint32_decodes|].
  unfold zlen. rewrite Nat2Z.id. by apply read_loop_decodes.
Qed.

Lemma counted_consumes {A} (rd : reader A) (ok : A -> Prop) (enc : A -> bytes) :
  consumes rd (fun x e => ok x /\ e = enc x) ->
  consumes (n ← ReadUint32; read_loop rd (Z.to_nat n))
    (fun xs e => (zlen xs < 2 ^ 32 /\ Forall ok xs) /\
       e = WriteUint32 [] (u32 (zlen xs)) ++ concat (map enc xs)).
Proof.
  intros H. apply tag_consumes. intros raw Hraw.
  eapply consumes_weaken; [by apply read_loop_consumes|].
  intros xs e (Hlen & ? & ->). destruct Hraw as [? ?].
  assert (zlen xs = raw) as <- by (unfold zlen; lia). rewrite u32_id by done. done.
Qed.

Lemma DeserializeTableSchema_decodes s :
  schema_ok s -> decodes DeserializeTableSchema (SerializeTableSchema s []) s.
Proof.
  intros [? Hall]. rewrite SerializeTableSchema_eq. apply counted_decodes; [done|].
  intros c Hc. apply DeserializeColumnSchema_decodes. by eapply Forall_forall in Hc.
Qed.

Lemma DeserializeTableSchema_consumes :
  consumes DeserializeTableSchema (fun s e => schema_ok s /\ e = SerializeTableSchema s []).
Proof.
  eapply consumes_weaken; [apply counted_consumes, DeserializeColumnSchema_consumes|].
  intros s e [? ->]. by rewrite SerializeTableSchema_eq.
Qed.

#[export] Instance schema_codec : Codec TableSchema.
Proof.
  refine {| write := fun b s => SerializeTableSchema s b; read := DeserializeTableSchema;
            representable := schema_ok |}.
  - intros. by rewrite !SerializeTableSchema_eq.
  - apply DeserializeTableSchema_decodes.
  - apply DeserializeTableSchema_consumes.
Defined.

Lemma DeserializeIndexDescriptor_decodes i :
  index_ok i -> decodes DeserializeIndexDescriptor (SerializeIndexDescriptor i []) i.
Proof.
  intros (? & ? & ? & ?). unfold SerializeIndexDescriptor. cbv zeta. to_append.
  do 4 (eapply decodes_bind; [by apply ReadString_decodes|]).
  eapply decodes_map; [apply ReadBool_decodes|]. by destruct i.
Qed.

Lemma DeserializeIndexDescriptor_consumes :
  consumes DeserializeIndexDescriptor
    (fun i e => index_ok i /\ e = SerializeIndexDescriptor i []).
Proof.
  eapply consumes_weaken.
  - do 4 (eapply consumes_bind; [apply ReadString_consumes|]; intros ? _ _).
    eapply consumes_bind; [apply ReadBool_consumes|]. intros. apply consumes_ret.
  - intros i e (? & ? & ? & -> & [? ->] & ? & ? & ? & -> & [? ->] & ? & ? & ? & -> & [? ->] &
      ? & ? & ? & -> & [? ->] & ? & ? & ? & -> & [_ ->] & -> & ->).
    split; [done|]. unfold SerializeIndexDescriptor. cbv zeta.
    cbn [idx_name idx_table_name idx_column_name idx_file_path unique].
    to_append. by rewrite app_nil_r.
Qed.

#[export] Instance index_codec : Codec IndexDescriptor := {|
  write := fun b i => SerializeIndexDescriptor i b; read := DeserializeIndexDescriptor;
  representable := index_ok;
  write_append := fun b i => SerializeIndexDescriptor_append i b;
  read_write := DeserializeIndexDescriptor_decodes;
  read_exact := DeserializeIndexDescriptor_consumes
|}.

Lemma DeserializeTableDescriptor_decodes d :
  descriptor_ok d -> decodes DeserializeTableDescriptor (SerializeTableDescriptor d []) d.
Proof.
  intros (? & ? & ? & ? & ? & ? & Hidx).
  rewrite SerializeTableDescriptor_eq, app_nil_l.
  do 4 (eapply decodes_bind; [by apply ReadString_decodes|]).
  eapply decodes_bind.
  { pose proof (DeserializeTableSchema_decodes (schema d)) as Hs.
    rewrite SerializeTableSchema_eq in Hs. by apply Hs. }
  assert (in_u32 (zlen (indexes d))) by (split; zlia). rewrite u32_id by done.
  eapply decodes_bind; [by apply ReadUint32_decodes|].
  unfold zlen. rewrite Nat2Z.id. eapply (decodes_map _ _ _ (indexes d)); [|by destruct d].
  apply read_loop_decodes. intros i Hi. apply DeserializeIndexDescriptor_decodes.
  by eapply Forall_forall in Hi.
Qed.

Lemma DeserializeTableDescriptor_consumes :
  consumes DeserializeTableDescriptor
    (fun d e => descriptor_ok d /\ e = SerializeTableDescriptor d []).
Proof.
  eapply consumes_weaken.
  - do 4 (eapply consumes_bind; [apply ReadString_consumes|]; intros ? _ _).
    eapply consumes_bind; [apply DeserializeTableSchema_consumes|]. intros s _ _.
    eapply consumes_bind; [apply ReadUint32_consumes|]. intros n _ _.
    eapply consumes_bind; [apply read_loop_consumes, DeserializeIndexDescriptor_consumes|].
    intros. apply consumes_ret.
  - intros d e (? & ? & ? & -> & [? ->] & ? & ? & ? & -> & [? ->] & ? & ? & ? & -> & [? ->] &
      ? & ? & ? & -> & [? ->] & s & ? & ? & -> & [? ->] & n & ? & ? & -> & [[? ?] ->] &
      ixs & ? & ? & -> & (Hlen & ? & ->) & -> & ->).
    assert (zlen ixs = n) as <- by (unfold zlen; lia).
    split; [done|]. rewrite SerializeTableDescriptor_eq, SerializeTableSchema_eq, app_nil_r.
    cbn [database_name table_name data_file index_dir schema indexes].
    by rewrite (u32_id (zlen ixs)).
Qed.

#[export] Instance descriptor_codec : Codec TableDescriptor.
Proof.
  refine {| write := fun b d => SerializeTableDescriptor d b;
            read := DeserializeTableDescriptor; representable := descriptor_ok |}.
  - intros. by rewrite !SerializeTableDescriptor_eq.
  - apply DeserializeTableDescriptor_decodes.
  - apply DeserializeTableDescriptor_consumes.
Defined.

(** ** Failures *)

Lemma DeserializeValue_rejects : rejects DeserializeValue.
Proof. unfold DeserializeValue. auto 12 with rejects. Qed.
Lemma DeserializeTuple_rejects : rejects DeserializeTuple.
Proof. unfold DeserializeTuple. auto 12 using DeserializeValue_rejects with rejects. Qed.
Lemma DeserializeRowTuple_rejects n : rejects (DeserializeRowTuple n).
Proof.
  intros buf off c m E. unfold DeserializeRowTuple in E.
  destruct (EnsureReadable buf off n) eqn:Er; [|simplify_eq; by eapply EnsureReadable_code].
  destruct (DeserializeTuple buf off) as [[t off']|c' m'] eqn:Et; cbn in E.
  - destruct (negb _); by simplify_eq.
  - simplify_eq. by eapply DeserializeTuple_rejects.
Qed.
Lemma DeserializeRow_rejects : rejects DeserializeRow.
Proof. unfold DeserializeRow. auto 12 using DeserializeRowTuple_rejects with rejects. Qed.
#[export] Hint Resolve DeserializeValue_rejects DeserializeTuple_rejects DeserializeRow_rejects : rejects.

(** ** Theorems *)

(** C31. Rows survive the disk format: a row written anywhere in a buffer is
    read back unchanged from there, and the offset ends up right behind it. *)
Theorem row_roundtrip r pre post :
  row_ok r ->
  DeserializeRow (SerializeRow r pre ++ post) (zlen pre) = Ok (r, zlen (SerializeRow r pre)).
Proof.
  intros Hr. rewrite SerializeRow_append, zlen_app, <- app_assoc. by apply DeserializeRow_decodes.
Qed.

Definition sample_row : Row :=
  mkRow 41 [VInt (-5); VString "O'Neil"; VBool true; VNull] true.

Lemma row_roundtrip_witness :
  DeserializeRow (SerializeRow sample_row [Byte.x2a] ++ [Byte.xff]) 1 =
    Ok (sample_row, zlen (SerializeRow sample_row [Byte.x2a])).
Proof.
  apply (row_roundtrip sample_row [Byte.x2a] [Byte.xff]).
  by_computation.
Defined.

(** C32. The row reader accepts nothing but encodings: when it succeeds inside
    a buffer, it stays inside it, the row is representable, and the bytes it
    consumed are the bytes the writer produces for this row.  So no two byte
    strings decode to the same row, and no corrupted entry decodes to a row
    that was never written in that form. *)
Theorem row_decode_exact buf off r off' :
  0 <= off <= zlen buf -> DeserializeRow buf off = Ok (r, off') ->
  row_ok r /\ off <= off' <= zlen buf /\
  exists pre post, buf = pre ++ SerializeRow r [] ++ post /\ zlen pre = off /\
    off' = off + zlen (SerializeRow r []).
Proof.
  intros Hoff E. pose proof (consumes_in_bounds _ _ _ _ _ _ DeserializeRow_consumes Hoff E).
  apply DeserializeRow_consumes in E as (pre & e & post & -> & -> & -> & ? & ->); [|done].
  split_and!; try done; try lia. by exists pre, post.
Qed.

Lemma row_decode_exact_witness :
  row_ok sample_row /\ 0 <= zlen (SerializeRow sample_row []) <= zlen (SerializeRow sample_row []) /\
  exists pre post, SerializeRow sample_row [] = pre ++ SerializeRow sample_row [] ++ post /\
    zlen pre = 0 /\ zlen (SerializeRow sample_row []) = 0 + zlen (SerializeRow sample_row []).
Proof.
  apply (row_decode_exact (SerializeRow sample_row []) 0 sample_row
           (zlen (SerializeRow sample_row []))).
  - by_computation.
  - vm_compute. reflexivity.
Defined.

(** Table descriptors survive the catalog's file format: columns with
    types, flags and defaults, and index descriptors included. *)
Theorem table_descriptor_roundtrip d pre post :
  descriptor_ok d ->
  DeserializeTableDescriptor (SerializeTableDescriptor d pre ++ post) (zlen pre) =
    Ok (d, zlen (SerializeTableDescriptor d pre)).
Proof.
  intros Hd. rewrite SerializeTableDescriptor_eq.
  rewrite <- (app_nil_l (WriteString [] _ ++ _)), <- (SerializeTableDescriptor_eq d []).
  rewrite zlen_app, <- app_assoc. by apply DeserializeTableDescriptor_decodes.
Qed.

Definition sample_descriptor : TableDescriptor :=
  mkTableDescriptor "shop" "orders" "data/shop/orders.tbl" "data/shop/orders_idx"
    [mkColumnSchema "id" ctInt true true None;
     mkColumnSchema "note" ctString false false (Some (VString "n/a"));
     mkColumnSchema "paid" ctBool false false (Some (VBool false))]
    [mkIndexDescriptor "orders_id" "orders" "id" "data/shop/orders_idx/id.idx" true].

Lemma table_descriptor_roundtrip_witness :
  DeserializeTableDescriptor (SerializeTableDescriptor sample_descriptor [] ++ [Byte.x00]) 0 =
    Ok (sample_descriptor, zlen (SerializeTableDescriptor sample_descriptor [])).
Proof.
  apply (table_descriptor_roundtrip sample_descriptor [] [Byte.x00]).
  by_computation.
Defined.

(** C33. Reading a table descriptor accepts nothing but encodings of
    representable descriptors, and stays inside the buffer. *)
Theorem table_descriptor_decode_exact buf off d off' :
  0 <= off <= zlen buf -> DeserializeTableDescriptor buf off = Ok (d, off') ->
  descriptor_ok d /\ off <= off' <= zlen buf /\
  exists pre post, buf = pre ++ SerializeTableDescriptor d [] ++ post /\ zlen pre = off /\
    off' = off + zlen (SerializeTableDescriptor d []).
Proof.
  intros Hoff E.
  pose proof (consumes_in_bounds _ _ _ _ _ _ DeserializeTableDescriptor_consumes Hoff E).
  apply DeserializeTableDescriptor_consumes in E as (pre & e & post & -> & -> & -> & ? & ->); [|done].
  split_and!; try done; try lia. by exists pre, post.
Qed.

Lemma table_descriptor_decode_exact_witness :
  let buf := SerializeTableDescriptor sample_descriptor [] in
  descriptor_ok sample_descriptor /\ 0 <= zlen buf <= zlen buf /\
  exists pre post, buf = pre ++ buf ++ post /\ zlen pre = 0 /\ zlen buf = 0 + zlen buf.
Proof.
  apply (table_descriptor_decode_exact (SerializeTableDescriptor sample_descriptor []) 0
           sample_descriptor (zlen (SerializeTableDescriptor sample_descriptor []))).
  - by_computation.
  - vm_compute. reflexivity.
Defined.

(** The column type is not checked on the way in: any 32-bit number other
    than 0, 1 and 2 in a catalog file becomes a column whose type is no
    enumerator of [ColumnType]. *)
Theorem column_type_not_validated name raw nn ix pre post :
  string_fits name -> 3 <= raw < 2 ^ 32 ->
  let file := WriteBool (WriteBool (WriteBool (WriteUint32 (WriteString pre name) raw) nn) ix) false in
  DeserializeColumnSchema (file ++ post) (zlen pre) =
    Ok (mkColumnSchema name (ctOther raw) nn ix None, zlen file).
Proof.
  intros Hn Hraw file.
  pose proof (DeserializeColumnSchema_decodes (mkColumnSchema name (ctOther raw) nn ix None)) as H.
  assert (file = pre ++ SerializeColumnSchema (mkColumnSchema name (ctOther raw) nn ix None) []) as ->.
  { unfold file, SerializeColumnSchema. cbn -[WriteString WriteUint32 WriteBool].
    rewrite u32_id by (unfold in_u32; lia). to_append. done. }
  rewrite zlen_app, <- app_assoc. apply H. by split_and!.
Qed.

Lemma column_type_not_validated_witness :
  let file := WriteBool (WriteBool (WriteBool (WriteUint32 (WriteString [] "c") 77) true) false) false in
  DeserializeColumnSchema (file ++ []) 0 = Ok (mkColumnSchema "c" (ctOther 77) true false None, zlen file).
Proof.
  apply (column_type_not_validated "c" 77 true false [] []); [by_computation|lia].
Defined.
