(* ===== verification/Disk.v ===== *)
(** * The file system, streams and [file_utils]

    A model of what the program uses of [std::filesystem] and the file
    streams, and [src/common/file_utils.cpp] on top of it.

    A [disk] maps paths to file contents and records the directories that
    exist.  Paths are compared as strings.  Writes through an open stream are
    visible at once: buffering and [flush] do not change what the program's
    own streams read.  Every stream or file-system call may fail: [d_faults]
    lists the outcomes of the calls to come, [Some m] a call that fails with
    the system's message [m] and changes nothing, [None] a call that works.
    When the list is exhausted all calls work. *)

From S2P Require Import Prelude.

Record disk := mkDisk {
  d_files : gmap string bytes;
  d_dirs : gset string;
  d_faults : list (option string)
}.

(** ** Paths *)

(** The part of the path before its last ['/'], empty when there is none. *)
Fixpoint dir_of_aux (best acc : string) (s : string) : string :=
  match s with
  | EmptyString => best
  | String c s' =>
      dir_of_aux (if bool_decide (c = "/"%char) then acc else best)
        (acc +:+ String c EmptyString) s'
  end.
Definition dir_of (path : string) : string := dir_of_aux "" "" path.

(** The path and its ancestors, outermost first. *)
Fixpoint path_prefixes (acc s : string) : list string :=
  match s with
  | EmptyString => [acc]
  | String c s' =>
      (if bool_decide (c = "/"%char) then [acc] else []) ++
      path_prefixes (acc +:+ String c EmptyString) s'
  end.

(** [fs::path(dir) / name] *)
Definition path_join (dir name : string) : string :=
  if bool_decide (dir = "") then name
  else if bool_decide (last (String.list_ascii_of_string dir) = Some "/"%char) then dir +:+ name
  else dir +:+ "/" +:+ name.
Definition file_content (d : disk) (path : string) : bytes := default [] (d_files d !! path).
Definition path_exists (d : disk) (path : string) : bool :=
  bool_decide (is_Some (d_files d !! path)) || bool_decide (path ∈ d_dirs d).
(** The directory a file is created in exists; the empty string stands for
    the working directory and for the root. *)
Definition dir_exists (d : disk) (dir : string) : bool :=
  bool_decide (dir = "") || bool_decide (dir ∈ d_dirs d).

(** The paths on the disk, and the regular files directly in a directory. *)
Definition all_paths (d : disk) : list string := (map_to_list (d_files d)).*1 ++ elements (d_dirs d).
Definition files_in (d : disk) (dir : string) : list string :=
  filter (fun p => dir_of p = dir) (map_to_list (d_files d)).*1.
Definition dir_empty (d : disk) (dir : string) : bool :=
  forallb (fun p => negb (bool_decide (dir_of p = dir))) (all_paths d).

(** ** System calls *)

Definition set_files (f : gmap string bytes -> gmap string bytes) (d : disk) : disk :=
  mkDisk (f (d_files d)) (d_dirs d) (d_faults d).

(** The outcome of the next call. *)
Definition next_fault (d : disk) : option string * disk :=
  match d_faults d with
  | [] => (None, d)
  | f :: fs => (f, mkDisk (d_files d) (d_dirs d) fs)
  end.

(** A call that reports failure through the stream state. *)
Definition io_check (c : StatusCode) (msg : string) : M disk unit := fun d =>
  match next_fault d with
  | (None, d') => (Ok tt, d')
  | (Some _, d') => (Err c msg, d')
  end.

(** A call that reports failure through an [std::error_code]. *)
Definition io_check_ec (c : StatusCode) : M disk unit := fun d =>
  match next_fault d with
  | (None, d') => (Ok tt, d')
  | (Some m, d') => (Err c m, d')
  end.

(** [stream.read(buffer, n)] at position [off]: the bytes that were read;
    [gcount()] is their number. *)
Definition stream_read (path : string) (off n : Z) : M disk bytes := fun d =>
  match next_fault d with
  | (None, d') => (Ok (ztake n (zdrop off (file_content d path))), d')
  | (Some _, d') => (Ok [], d')
  end.

(** Overwriting from position [off]; a gap behind the end is filled with zeros. *)
Definition splice (off : Z) (data content : bytes) : bytes :=
  let content := content ++ zreplicate (off - zlen content) Byte.x00 in
  ztake off content ++ data ++ zdrop (off + zlen data) content.

(** [stream.write(data)] at position [off], followed by the state check. *)
Definition stream_write (path : string) (off : Z) (data : bytes)
    (c : StatusCode) (msg : string) : M disk unit :=
  _ ← io_check c msg;
  modify (fun d => set_files <[path := splice off data (file_content d path)]> d).

(** Opening an existing file for reading and writing. *)
Definition stream_open (path : string) (c : StatusCode) (msg : string) : M disk unit :=
  _ ← io_check c msg;
  d ← get;
  reject_if (negb (bool_decide (is_Some (d_files d !! path)))) c msg.

(** [std::ofstream(path)]: the file is created or truncated. *)
Definition stream_create (path : string) (c : StatusCode) (msg : string) : M disk unit :=
  _ ← io_check c msg;
  d ← get;
  _ ← reject_if (negb (dir_exists d (dir_of path)) || bool_decide (path ∈ d_dirs d)) c msg;
  modify (set_files <[path := []]>).

(** [std::ofstream(path, std::ios::app)] *)
Definition stream_append (path : string) (c : StatusCode) (msg : string) : M disk unit :=
  _ ← io_check c msg;
  d ← get;
  _ ← reject_if (negb (dir_exists d (dir_of path)) || bool_decide (path ∈ d_dirs d)) c msg;
  modify (fun d => set_files <[path := file_content d path]> d).
(** [f << text] on a new stream whose state nobody looks at. *)
Definition stream_put (path : string) (data : bytes) : M disk unit := fun d =>
  match next_fault d with
  | (None, d') => (Ok tt, set_files <[path := file_content d path ++ data]> d')
  | (Some _, d') => (Ok tt, d')
  end.
(** [fs::rename(from, to, ec)] for a file, the message of [ec] behind [msg]. *)
Definition fs_rename (from to : string) (msg : string) : M disk unit := fun d =>
  match next_fault d with
  | (Some m, d') => (Err kIoError (msg +:+ m), d')
  | (None, d') =>
      match d_files d !! from with
      | None => (Err kIoError (msg +:+ "No such file or directory"), d')
      | Some content =>
          if bool_decide (to ∈ d_dirs d) then (Err kIoError (msg +:+ "Is a directory"), d')
          else (Ok tt, set_files (fun m => <[to := content]> (delete from m)) d')
      end
  end.

(** [std::filesystem::remove_all]: the path and everything below it. *)
Definition below (dir path : string) : bool :=
  bool_decide (path = dir) || String.prefix (dir +:+ "/") path.
Definition remove_all (path : string) (d : disk) : disk :=
  mkDisk (filter (fun kv => below path kv.1 = false) (d_files d))
    (filter (fun p => below path p = false) (d_dirs d)) (d_faults d).

(** [std::filesystem::exists] and [is_directory] with an [std::error_code] that
    is not looked at: [false] when the call fails. *)
Definition fs_query (q : disk -> bool) : M disk bool := fun d =>
  match next_fault d with
  | (None, d') => (Ok (q d), d')
  | (Some _, d') => (Ok false, d')
  end.
Definition is_directory (path : string) (d : disk) : bool := bool_decide (path ∈ d_dirs d).

(** ** [file_utils] *)

Definition EnsureDir (path : string) : M disk unit :=
  _ ← io_check_ec kIoError;
  _ ← reject_if (bool_decide (path = "")) kIoError "No such file or directory";
  d ← get;
  let dirs := filter (fun p => p <> "") (path_prefixes "" path) in
  _ ← reject_if (existsb (fun p => bool_decide (is_Some (d_files d !! p))) dirs)
        kIoError "Not a directory";
  modify (fun d => mkDisk (d_files d) (d_dirs d ∪ list_to_set dirs) (d_faults d)).

(** [std::filesystem::remove] takes files and empty directories. *)
Definition RemoveFile (path : string) : M disk unit :=
  _ ← io_check_ec kInternalError;
  d ← get;
  _ ← reject_if (bool_decide (path ∈ d_dirs d) && negb (dir_empty d path)) kInternalError
        "Directory not empty";
  modify (fun d => mkDisk (delete path (d_files d)) (d_dirs d ∖ {[path]}) (d_faults d)).

Definition FileExists (path : string) : M disk bool :=
  _ ← io_check_ec kInternalError;
  d ← get;
  mret (path_exists d path).

Definition ReadAllBytes (path : string) : M disk bytes :=
  _ ← stream_open path kInternalError "Failed to open file";
  _ ← io_check kInternalError "Failed to seek to end of file";
  d ← get;
  let size := zlen (file_content d path) in
  _ ← io_check kInternalError "Failed to seek to beginning of file";
  out ← (if 0 <? size then stream_read path 0 size else mret []);
  _ ← reject_if (zlen out <? size) kInternalError "Failed to read file";
  mret out.

Definition WriteAllBytes (path : string) (data : bytes) : M disk unit :=
  _ ← stream_create path kInternalError "Failed to open file";
  stream_write path 0 data kInternalError "Failed to write file".

(** ** Objects on the disk

    The state of a method is its object and the disk. *)

Definition on_disk {S A} (m : M disk A) : M (S * disk) A := fun s =>
  let '(r, d) := m s.2 in (r, (s.1, d)).
Definition this {S} : M (S * disk) S := fun s => (Ok s.1, s).
Definition update {S} (f : S -> S) : M (S * disk) unit := fun s => (Ok tt, (f s.1, s.2)).

(** A call of a method on a member: [get_part] and [set_part] access it. *)
Definition on_part {S T A} (get_part : S -> T) (set_part : T -> S -> S)
    (m : M (T * disk) A) : M (S * disk) A := fun s =>
  let '(r, (t, d)) := m (get_part s.1, s.2) in (r, (set_part t s.1, d)).

(** Unfold the monad and the accesses to the object and the disk. *)
Ltac dunfold :=
  cbv beta iota zeta delta [mbind M_bind mret M_ret throw get put modify lift reject_if
    this on_disk update on_part fst snd].

(** ** Healthy disks *)

(** No call to come fails. *)
Definition healthy (d : disk) : Prop := d_faults d = [].

(** No path is both a file and a directory. *)
Definition disk_wf (d : disk) : Prop := forall p, p ∈ d_dirs d -> d_files d !! p = None.

(** The directories [EnsureDir] makes. *)
Definition dirs_of (path : string) : list string :=
  filter (fun p => p <> "") (path_prefixes "" path).
(** The directories on the way to a file. *)
Definition parent_dirs (path : string) : list string := "/" :: dirs_of (dir_of path).

(** The step from [d] to [d'] changes no file but [path], removes no directory,
    adds none but those on the way to [path], and keeps the disk healthy and
    well formed. *)
Record same_except (path : string) (d d' : disk) : Prop := {
  se_dirs : d_dirs d ⊆ d_dirs d';
  se_new_dirs : forall p, p ∈ d_dirs d' -> p ∈ d_dirs d \/ p ∈ parent_dirs path;
  se_files : forall p, p <> path -> d_files d' !! p = d_files d !! p;
  se_healthy : healthy d -> healthy d';
  se_wf : disk_wf d -> disk_wf d'
}.

#[export] Instance same_except_refl path : Reflexive (same_except path).
Proof. intros d. split; auto. Qed.
#[export] Instance same_except_trans path : Transitive (same_except path).
Proof.
  intros d1 d2 d3 [A1 N1 B1 C1 D1] [A2 N2 B2 C2 D2]. split; [set_solver| | |auto|auto].
  - intros p [?|?]%N2; [by apply N1|by right].
  - intros p ?. by rewrite B2, B1.
Qed.

Lemma io_check_healthy c msg d : healthy d -> io_check c msg d = (Ok tt, d).
Proof. unfold healthy, io_check, next_fault. by intros ->. Qed.
Lemma io_check_ec_healthy c d : healthy d -> io_check_ec c d = (Ok tt, d).
Proof. unfold healthy, io_check_ec, next_fault. by intros ->. Qed.

Lemma stream_read_healthy path off n d : healthy d ->
  stream_read path off n d = (Ok (ztake n (zdrop off (file_content d path))), d).
Proof. unfold healthy, stream_read, next_fault. by intros ->. Qed.

Lemma stream_write_healthy path off data c msg d : healthy d ->
  stream_write path off data c msg d =
    (Ok tt, set_files <[path := splice off data (file_content d path)]> d).
Proof. intros. unfold stream_write. by rewrite M_bind_eq, io_check_healthy. Qed.

Lemma stream_open_healthy path c msg d content :
  healthy d -> d_files d !! path = Some content -> stream_open path c msg d = (Ok tt, d).
Proof.
  intros ? E. unfold stream_open. rewrite M_bind_eq, io_check_healthy by done.
  munfold. rewrite E. by rewrite bool_decide_true.
Qed.

Lemma stream_create_healthy path c msg d :
  healthy d -> dir_exists d (dir_of path) = true -> path ∉ d_dirs d ->
  stream_create path c msg d = (Ok tt, set_files <[path := []]> d).
Proof.
  intros ? E ?. unfold stream_create. rewrite M_bind_eq, io_check_healthy by done.
  munfold. by rewrite E, bool_decide_false.
Qed.

Lemma stream_append_healthy path c msg d :
  healthy d -> dir_exists d (dir_of path) = true -> path ∉ d_dirs d ->
  stream_append path c msg d = (Ok tt, set_files <[path := file_content d path]> d).
Proof.
  intros ? E ?. unfold stream_append. rewrite M_bind_eq, io_check_healthy by done.
  munfold. by rewrite E, bool_decide_false.
Qed.

Lemma stream_put_healthy path data d : healthy d ->
  stream_put path data d = (Ok tt, set_files <[path := file_content d path ++ data]> d).
Proof. unfold healthy, stream_put, next_fault. by intros ->. Qed.

Lemma fs_rename_healthy from to msg d content : healthy d -> d_files d !! from = Some content -> to ∉ d_dirs d ->
  fs_rename from to msg d = (Ok tt, set_files (fun m => <[to := content]> (delete from m)) d).
Proof. unfold healthy, fs_rename, next_fault. intros -> -> ?. by rewrite bool_decide_false. Qed.

Lemma FileExists_healthy path d : healthy d -> FileExists path d = (Ok (path_exists d path), d).
Proof. intros. unfold FileExists. by rewrite M_bind_eq, io_check_ec_healthy. Qed.

Lemma splice_at pre old post data off :
  off = zlen pre -> zlen old = zlen data -> splice off data (pre ++ old ++ post) = pre ++ data ++ post.
Proof.
  intros -> Hlen. unfold splice.
  replace (zreplicate _ _) with (@nil Byte.byte).
  2:{ unfold zreplicate. replace (Z.to_nat _) with 0%nat by zlia. done. }
  rewrite app_nil_r, ztake_app_eq by done. do 2 f_equal.
  rewrite app_assoc. apply zdrop_app_eq. zlia.
Qed.

Lemma splice_end content data off : off = zlen content -> splice off data content = content ++ data.
Proof.
  intros ->. unfold splice. replace (zreplicate _ _) with (@nil Byte.byte).
  2:{ unfold zreplicate. by rewrite Z.sub_diag. }
  rewrite ztake_app_eq, app_nil_r by done. f_equal.
  replace (zdrop _ _) with (@nil Byte.byte); [apply app_nil_r|].
  symmetry. apply drop_ge. unfold zlen. lia.
Qed.

Lemma splice_empty data : splice 0 data [] = data.
Proof. by apply (splice_end []). Qed.

Lemma file_content_eq d path content :
  d_files d !! path = Some content -> file_content d path = content.
Proof. unfold file_content. by intros ->. Qed.

Lemma file_content_set path x d :
  file_content (set_files <[path := x]> d) path = x.
Proof. unfold file_content. cbn. by rewrite lookup_insert_eq. Qed.

Lemma ReadAllBytes_healthy path d content :
  healthy d -> d_files d !! path = Some content -> ReadAllBytes path d = (Ok content, d).
Proof.
  intros Hd Hf. unfold ReadAllBytes. rewrite M_bind_eq, (stream_open_healthy _ _ _ _ _ Hd Hf).
  rewrite M_bind_eq, io_check_healthy by done. munfold. rewrite io_check_healthy by done.
  rewrite (file_content_eq _ _ _ Hf). destruct (0 <? zlen content) eqn:E; zbool.
  - rewrite stream_read_healthy, (file_content_eq _ _ _ Hf), zdrop_0 by done.
    by rewrite ztake_all, Z.ltb_irrefl.
  - destruct content; [done|]. zlia.
Qed.

Lemma WriteAllBytes_healthy path data d :
  healthy d -> dir_exists d (dir_of path) = true -> path ∉ d_dirs d ->
  WriteAllBytes path data d = (Ok tt, set_files <[path := data]> d).
Proof.
  intros. unfold WriteAllBytes. rewrite M_bind_eq, stream_create_healthy by done.
  rewrite stream_write_healthy, file_content_set, splice_empty by done.
  unfold set_files. cbn [d_files d_dirs d_faults]. by rewrite insert_insert_eq.
Qed.

Lemma same_except_set path x d :
  path ∉ d_dirs d -> same_except path d (set_files <[path := x]> d).
Proof.
  intros Hp. split; cbn; [done|auto| |done|].
  - intros. by rewrite lookup_insert_ne.
  - intros Hwf p Hd. cbn. rewrite lookup_insert_ne by (intros ->; done). by apply Hwf.
Qed.

Lemma file_not_dir d path content :
  disk_wf d -> d_files d !! path = Some content -> path ∉ d_dirs d.
Proof. intros Hwf E Hd. apply Hwf in Hd. congruence. Qed.

(** ** Directories *)

Lemma string_app_nil_r (s : string) : s +:+ "" = s.
Proof. induction s as [|c s IH]; [done|]. exact (f_equal (String c) IH). Qed.
Lemma string_app_assoc (s t u : string) : (s +:+ t) +:+ u = s +:+ (t +:+ u).
Proof. induction s as [|c s IH]; [done|]. exact (f_equal (String c) IH). Qed.

Lemma dir_of_tmp path : dir_of (path +:+ ".tmp") = dir_of path.
Proof.
  assert (forall best acc, dir_of_aux best acc (path +:+ ".tmp") = dir_of_aux best acc path) as H; [|apply H].
  induction path as [|c path IH]; intros best acc; [reflexivity|].
  change (String c path +:+ ".tmp") with (String c (path +:+ ".tmp")). cbn [dir_of_aux]. apply IH.
Qed.

Lemma path_prefixes_self acc s : acc +:+ s ∈ path_prefixes acc s.
Proof.
  revert acc. induction s as [|c s IH]; intros acc; cbn [path_prefixes].
  - rewrite string_app_nil_r. left.
  - apply elem_of_app. right.
    replace (acc +:+ String c s) with ((acc +:+ String c "") +:+ s); [apply IH|].
    by rewrite string_app_assoc.
Qed.

(** The disk after it. *)
Definition with_dirs (path : string) (d : disk) : disk :=
  mkDisk (d_files d) (d_dirs d ∪ list_to_set (dirs_of path)) (d_faults d).

(** None of them is a regular file. *)
Definition dirs_clear (d : disk) (path : string) : Prop :=
  forall p, p ∈ dirs_of path -> d_files d !! p = None.

Lemma EnsureDir_healthy path d :
  healthy d -> path <> "" -> dirs_clear d path ->
  EnsureDir path d = (Ok tt, with_dirs path d).
Proof.
  intros ? Hne Hc. unfold EnsureDir. rewrite M_bind_eq, io_check_ec_healthy by done.
  fold (dirs_of path). munfold. rewrite bool_decide_false by done.
  destruct (existsb _ _) eqn:E; [|done].
  apply existsb_exists in E as (p & Hin & Hp).
  apply list_elem_of_In in Hin. rewrite (Hc p Hin) in Hp.
  apply bool_decide_eq_true in Hp. by destruct Hp.
Qed.

Lemma dir_in_dirs_of dir : dir <> "" -> dir ∈ dirs_of dir.
Proof. intros. apply list_elem_of_filter. split; [done|]. apply (path_prefixes_self "" dir). Qed.

Lemma same_except_with_dirs file path d :
  (forall p, p ∈ dirs_of path -> p ∈ parent_dirs file) -> dirs_clear d path -> same_except file d (with_dirs path d).
Proof.
  intros Hp Hc. split; cbn; [set_solver| |done|done|].
  { intros p [?|?%elem_of_list_to_set]%elem_of_union; auto. }
  intros Hwf p [?|?%elem_of_list_to_set]%elem_of_union; [by apply Hwf|by apply Hc].
Qed.

(** ** Free places *)

(** A file can be created at [path], with the directories on the way to it. *)
Record free_path (d : disk) (path : string) : Prop := {
  fp_healthy : healthy d;
  fp_wf : disk_wf d;
  fp_path : path <> "";
  fp_file : d_files d !! path = None;
  fp_dir : path ∉ d_dirs d;
  fp_self : path ∉ parent_dirs path;
  fp_dirs : forall p, p ∈ parent_dirs path -> d_files d !! p = None
}.

(** Two files neither of which is a directory on the way to the other. *)
Definition apart (p q : string) : Prop := p <> q /\ p ∉ parent_dirs q /\ q ∉ parent_dirs p.
#[export] Instance apart_dec p q : Decision (apart p q) := _.
#[export] Instance apart_sym : Symmetric apart.
Proof. intros p q (? & ? & ?). split_and!; auto. Qed.

Lemma free_path_frame d d' p q : free_path d p -> same_except q d d' -> apart p q -> free_path d' p.
Proof.
  intros [] [Hd Hn Hf Hh Hw] (Hne & Hpq & Hqp). split; auto.
  - by rewrite Hf.
  - by intros [?|?]%Hn.
  - intros x Hx. rewrite Hf; [auto|]. by intros ->.
Qed.

Lemma free_path_with_dirs d dir p :
  free_path d p -> dirs_clear d dir -> p ∉ dirs_of dir -> free_path (with_dirs dir d) p.
Proof.
  intros [] Hc Hp. split; try done.
  - intros q [?|?%elem_of_list_to_set]%elem_of_union; auto.
  - cbn. set_solver.
Qed.

(** A sequence of steps each of which changes one of the files [ps]. *)
Definition touches (ps : list string) : disk -> disk -> Prop :=
  rtc (fun d d' => exists p, p ∈ ps /\ same_except p d d').

Lemma touches_one ps p d d' : p ∈ ps -> same_except p d d' -> touches ps d d'.
Proof. intros. apply rtc_once. eauto. Qed.
(** What every such step preserves, all of them do. *)
Lemma touches_frame ps (Q : disk -> Prop) d d' :
  (forall p d d', p ∈ ps -> same_except p d d' -> Q d -> Q d') -> touches ps d d' -> Q d -> Q d'.
Proof. intros HQ. induction 1 as [|d1 d2 d3 (p & Hp & Hse) _ IH]; eauto. Qed.

Definition empty_disk : disk := mkDisk ∅ ∅ [].

Lemma empty_disk_free path : path <> "" -> path ∉ parent_dirs path -> free_path empty_disk path.
Proof. intros. by split. Qed.
