(* ===== verification/PageStore.v ===== *)
(** * The page store interface

    What [PageManager] promises to its clients, [RowStore] and [BStarTree]:
    an array of pages of one size, kept in one file.  The clients are proved
    against this interface; [PageManager.v] discharges it. *)

From S2P Require Import Prelude Disk.

(** [storage/page.h]; a [PageId] is its 64-bit number. *)
Record Page := mkPage { page_id : Z; page_data : bytes }.

(** [page.data.assign(page_size, 0)] and copying [payload] to its front. *)
Definition page_image (page_size : Z) (payload : bytes) : bytes :=
  payload ++ zreplicate (page_size - zlen payload) Byte.x00.

Lemma zlen_page_image size payload :
  zlen payload <= size -> zlen (page_image size payload) = size.
Proof. intros. unfold page_image. rewrite zlen_app, zlen_zreplicate; lia. Qed.

Class PageStore (P : Type) := {
  ps_new : string -> Z -> P;
  ps_open : M (P * disk) unit;
  ps_flush : M (P * disk) unit;
  ps_read : Z -> M (P * disk) Page;
  ps_write : Page -> M (P * disk) unit;
  ps_alloc : M (P * disk) Z
}.

(** [ps_rep p d pages]: the store is open and its file on [d] holds [pages].
    [ps_fresh path size d]: a new store can be created at [path].
    [ps_room size n]: [n] pages can be addressed. *)
Class PageStoreLaws (P : Type) `{PageStore P} := {
  ps_path : P -> string;
  ps_size : P -> Z;
  ps_rep : P -> disk -> list bytes -> Prop;
  ps_fresh : string -> Z -> disk -> Prop;
  ps_room : Z -> Z -> Prop;
  ps_room_le size m n : 0 < size -> ps_room size n -> m <= n -> ps_room size m;
  ps_room_bound size n : 0 < size -> ps_room size n -> n < 2 ^ 63;
  ps_rep_sizes p d pages :
    ps_rep p d pages -> 0 < ps_size p /\ Forall (fun pg => zlen pg = ps_size p) pages;
  ps_rep_disk p d pages : ps_rep p d pages -> healthy d /\ disk_wf d /\ is_Some (d_files d !! ps_path p);
  ps_fresh_free path size d : free_path d path -> 0 < size < 2 ^ 63 -> ps_fresh path size d;
  ps_rep_frame p d d' path pages :
    ps_rep p d pages -> ps_path p <> path -> same_except path d d' -> ps_rep p d' pages;
  ps_new_open path size d :
    ps_fresh path size d ->
    exists p' d', ps_open (ps_new path size, d) = (Ok tt, (p', d')) /\ ps_rep p' d' [] /\
      ps_path p' = path /\ ps_size p' = size /\ same_except path d d';
  ps_reopen p d pages :
    ps_rep p d pages ->
    exists p' d', ps_open (ps_new (ps_path p) (ps_size p), d) = (Ok tt, (p', d')) /\
      ps_rep p' d' pages /\ ps_path p' = ps_path p /\ ps_size p' = ps_size p /\
      same_except (ps_path p) d d';
  ps_read_ok p d pages id data :
    ps_rep p d pages -> znth pages id = Some data ->
    ps_read id (p, d) = (Ok (mkPage id data), (p, d));
  ps_read_range p d pages id :
    ps_rep p d pages -> zlen pages <= id ->
    exists msg, ps_read id (p, d) = (Err kNotFound msg, (p, d));
  ps_write_ok p d pages id data :
    ps_rep p d pages -> 0 <= id < zlen pages -> zlen data = ps_size p ->
    exists d', ps_write (mkPage id data) (p, d) = (Ok tt, (p, d')) /\
      ps_rep p d' (zset id data pages) /\ same_except (ps_path p) d d';
  ps_alloc_ok p d pages :
    ps_rep p d pages -> ps_room (ps_size p) (zlen pages + 1) ->
    exists p' d', ps_alloc (p, d) = (Ok (zlen pages), (p', d')) /\
      ps_rep p' d' (pages ++ [zreplicate (ps_size p) Byte.x00]) /\
      ps_path p' = ps_path p /\ ps_size p' = ps_size p /\ same_except (ps_path p) d d';
  ps_flush_ok p d pages : ps_rep p d pages -> ps_flush (p, d) = (Ok tt, (p, d))
}.
