(* ===== verification/PageManager.v ===== *)
(** * The page manager

    Models [src/storage/page_manager.cpp]: a file of fixed-size pages behind a
    32-byte header.  The header struct is written and read as its object
    representation on the LP64 little-endian hosts the program targets: magic,
    32-bit version, four bytes of padding (zero), 64-bit page size and count. *)

From S2P Require Import Prelude BinaryIO Disk PageStore.

Definition kPageFileMagic : bytes := bytes_of_string "CDBPAGE1".
Definition kPageFileVersion : Z := 1.

Record PageFileHeader := mkPageFileHeader {
  h_magic : bytes;
  h_version : Z;
  h_page_size : Z;
  h_page_count : Z
}.

Definition HeaderSize : Z := 32.

(** The bytes of the struct and the struct of its bytes. *)
Definition header_bytes (h : PageFileHeader) : bytes :=
  h_magic h ++ le_bytes 4 (h_version h) ++ zreplicate 4 Byte.x00 ++
  le_bytes 8 (h_page_size h) ++ le_bytes 8 (h_page_count h).
Definition header_of_bytes (b : bytes) : PageFileHeader :=
  mkPageFileHeader (ztake 8 b) (le_val (ztake 4 (zdrop 8 b)))
    (le_val (ztake 8 (zdrop 16 b))) (le_val (ztake 8 (zdrop 24 b))).

Definition MakeHeader (page_size page_count : Z) : PageFileHeader :=
  mkPageFileHeader kPageFileMagic kPageFileVersion page_size page_count.

Definition WriteHeader (path : string) (page_size page_count : Z) : M disk unit :=
  let header := MakeHeader page_size page_count in
  _ ← io_check kIoError "Failed to seek to page file header";
  stream_write path 0 (header_bytes header) kIoError "Failed to write page file header".

Definition ReadHeader (path : string) : M disk PageFileHeader :=
  _ ← io_check kIoError "Failed to seek to page file header";
  raw ← stream_read path 0 HeaderSize;
  _ ← reject_if (negb (zlen raw =? HeaderSize)) kIoError "Failed to read page file header";
  mret (header_of_bytes raw).

Definition HeaderMagicMatches (header : PageFileHeader) : bool :=
  bool_decide (h_magic header = kPageFileMagic).

Definition PageOffset (id page_size : Z) : Z := u64 (HeaderSize + u64 (id * page_size)).

(** ** The manager *)

Record PageManager := mkPageManager {
  file_path_ : string;
  page_size_ : Z;
  is_open_ : bool;
  page_count_ : Z
}.

Definition new_PageManager (file_path : string) (page_size : Z) : PageManager :=
  mkPageManager file_path page_size false 0.

Abbreviation PM := (M (PageManager * disk)).

Definition set_page_count (n : Z) (pm : PageManager) : PageManager :=
  mkPageManager (file_path_ pm) (page_size_ pm) (is_open_ pm) n.

(** The part of [Open] that creates the directory of the file. *)
Definition EnsureParentDir (path : string) : M disk unit :=
  let dir := dir_of path in
  if bool_decide (dir = "") then mret tt else EnsureDir dir.

(** The part of [Open] that creates a missing file. *)
Definition CreatePageFile (path : string) (page_size : Z) : M disk unit :=
  _ ← stream_create path kIoError "Failed to create file";
  stream_write path 0 (header_bytes (MakeHeader page_size 0))
    kIoError "Failed to initialize page file header".

(** The part of [Open] that checks the header against the file's size; it
    returns the page count. *)
Definition CheckPageFile (path : string) (page_size : Z) : M disk Z :=
  _ ← stream_open path kIoError "Failed to open file";
  _ ← io_check kIoError ("Failed to determine file size for " +:+ path);
  d ← get;
  let size := zlen (file_content d path) in
  _ ← reject_if (size <? HeaderSize) kInvalidArgument
        "Page file is smaller than required header";
  header ← ReadHeader path;
  _ ← reject_if (negb (HeaderMagicMatches header)) kInvalidArgument "Invalid page file magic";
  _ ← reject_if (negb (h_version header =? kPageFileVersion)) kInvalidArgument
        "Unsupported page file version";
  _ ← reject_if (negb (h_page_size header =? page_size)) kInvalidArgument
        ("Page size mismatch: file uses " +:+ pretty (h_page_size header) +:+
         ", manager was configured with " +:+ pretty page_size);
  let payload_size := size - HeaderSize in
  _ ← reject_if (negb (payload_size mod page_size =? 0)) kInvalidArgument
        ("Page payload size " +:+ pretty payload_size +:+
         " is not a multiple of page size " +:+ pretty page_size);
  let computed_page_count := payload_size / page_size in
  _ ← reject_if (negb (h_page_count header =? computed_page_count)) kInvalidArgument
        ("Page count mismatch: header says " +:+ pretty (h_page_count header) +:+
         ", file layout says " +:+ pretty computed_page_count);
  mret computed_page_count.

Definition Open : PM unit :=
  pm ← this;
  if is_open_ pm then mret tt else
  _ ← reject_if (bool_decide (file_path_ pm = "") || (page_size_ pm =? 0))
        kInvalidArgument "Invalid file path or page size";
  _ ← on_disk (EnsureParentDir (file_path_ pm));
  exists_ ← on_disk (FileExists (file_path_ pm));
  _ ← (if (exists_ : bool) then mret tt
       else on_disk (CreatePageFile (file_path_ pm) (page_size_ pm)));
  count ← on_disk (CheckPageFile (file_path_ pm) (page_size_ pm));
  update (fun pm => mkPageManager (file_path_ pm) (page_size_ pm) true count).

Definition out_of_range (id count : Z) : string :=
  "Page " +:+ pretty id +:+ " is out of range, page count is " +:+ pretty count.

Definition ReadPage (id : Z) : PM Page :=
  pm ← this;
  _ ← reject_if (negb (is_open_ pm)) kInternalError "Page manager is not open";
  _ ← reject_if (page_count_ pm <=? id) kNotFound (out_of_range id (page_count_ pm));
  let offset := PageOffset id (page_size_ pm) in
  _ ← on_disk (io_check kIoError
        ("Failed to seek to page " +:+ pretty id +:+ " at offset " +:+ pretty offset));
  data ← on_disk (stream_read (file_path_ pm) offset (page_size_ pm));
  _ ← reject_if (negb (zlen data =? page_size_ pm)) kIoError
        ("Failed to read page " +:+ pretty id +:+ ", expected " +:+ pretty (page_size_ pm) +:+
         " bytes, got " +:+ pretty (zlen data));
  mret (mkPage id data).

Definition WritePage (page : Page) : PM unit :=
  pm ← this;
  _ ← reject_if (negb (is_open_ pm)) kInternalError "Page manager is not open";
  _ ← reject_if (page_count_ pm <=? page_id page) kNotFound
        (out_of_range (page_id page) (page_count_ pm));
  _ ← reject_if (negb (zlen (page_data page) =? page_size_ pm)) kInvalidArgument
        "Page data size does not match page size";
  let offset := PageOffset (page_id page) (page_size_ pm) in
  _ ← on_disk (io_check kIoError
        ("Failed to seek to page " +:+ pretty (page_id page) +:+ " at offset " +:+
         pretty offset +:+ " for writing"));
  on_disk (stream_write (file_path_ pm) offset (page_data page) kIoError "Failed to write page").

Definition AllocatePage : PM Z :=
  pm ← this;
  _ ← reject_if (negb (is_open_ pm)) kInternalError "Page manager is not open";
  _ ← on_disk (io_check kIoError "Failed to seek end of file");
  d ← on_disk get;
  _ ← on_disk (stream_write (file_path_ pm) (zlen (file_content d (file_path_ pm)))
        (zreplicate (page_size_ pm) Byte.x00) kIoError "Failed to allocate page");
  let out := page_count_ pm in
  let count := u64 (page_count_ pm + 1) in
  _ ← update (set_page_count count);
  _ ← on_disk (WriteHeader (file_path_ pm) (page_size_ pm) count);
  mret out.

Definition Flush : PM unit :=
  pm ← this;
  _ ← reject_if (negb (is_open_ pm)) kInternalError "Page manager is not open";
  on_disk (io_check kIoError "Failed to flush file").

#[export] Instance PageManager_store : PageStore PageManager := {
  ps_new := new_PageManager;
  ps_open := Open;
  ps_flush := Flush;
  ps_read := ReadPage;
  ps_write := WritePage;
  ps_alloc := AllocatePage
}.

(** ** Representation *)

(** File offsets stay within a [std::streamoff]. *)
Definition page_room (size n : Z) : Prop := HeaderSize + n * size < 2 ^ 63.

Definition file_image (size : Z) (pages : list bytes) : bytes :=
  header_bytes (MakeHeader size (zlen pages)) ++ concat pages.

(** The directories above the file exist. *)
Definition dirs_made (d : disk) (path : string) : Prop :=
  dir_of path = "" \/ forall p, p ∈ dirs_of (dir_of path) -> p ∈ d_dirs d.

Record pm_rep (pm : PageManager) (d : disk) (pages : list bytes) : Prop := {
  rep_open : is_open_ pm = true;
  rep_healthy : healthy d;
  rep_wf : disk_wf d;
  rep_path : file_path_ pm <> "";
  rep_dirs : dirs_made d (file_path_ pm);
  rep_file : d_files d !! file_path_ pm = Some (file_image (page_size_ pm) pages);
  rep_pages : Forall (fun pg => zlen pg = page_size_ pm) pages;
  rep_count : page_count_ pm = zlen pages;
  rep_size : 0 < page_size_ pm;
  rep_room : page_room (page_size_ pm) (zlen pages) /\ page_size_ pm < 2 ^ 63
}.

(** A place where a new page file can be created. *)
Record pm_fresh (path : string) (size : Z) (d : disk) : Prop := {
  fresh_healthy : healthy d;
  fresh_wf : disk_wf d;
  fresh_path : path <> "";
  fresh_size : 0 < size < 2 ^ 63;
  fresh_file : d_files d !! path = None;
  fresh_dir : (path ∉ d_dirs d) /\ (path ∉ dirs_of (dir_of path));
  fresh_dirs : dirs_clear d (dir_of path)
}.

Lemma empty_disk_fresh path size :
  path <> "" -> 0 < size < 2 ^ 63 -> path ∉ dirs_of (dir_of path) -> pm_fresh path size empty_disk.
Proof. intros. by split. Qed.

(** ** The header *)

Lemma zlen_header h : zlen (h_magic h) = 8 -> zlen (header_bytes h) = HeaderSize.
Proof.
  intros Hm. unfold header_bytes. zlen_simpl. rewrite Hm, zlen_zreplicate by lia. done.
Qed.

Lemma zlen_image_header size n : zlen (header_bytes (MakeHeader size n)) = HeaderSize.
Proof. by apply zlen_header. Qed.
#[export] Hint Rewrite zlen_image_header : zlen.

Lemma field_at pre n z post :
  0 <= z < 256 ^ Z.of_nat n ->
  le_val (ztake (Z.of_nat n) (zdrop (zlen pre) (pre ++ le_bytes n z ++ post))) = z.
Proof.
  intros. rewrite zdrop_app_eq by done. rewrite ztake_app_eq by (symmetry; apply zlen_le_bytes).
  rewrite le_val_bytes. by apply Z.mod_small.
Qed.

Lemma header_roundtrip size n :
  in_u64 size -> in_u64 n ->
  header_of_bytes (header_bytes (MakeHeader size n)) = MakeHeader size n.
Proof.
  intros Hs Hn. unfold header_of_bytes, MakeHeader at 2, header_bytes.
  cbn [h_magic h_version h_page_size h_page_count MakeHeader].
  f_equal.
  - pose proof (field_at (kPageFileMagic ++ le_bytes 4 kPageFileVersion ++ zreplicate 4 Byte.x00)
      8 size (le_bytes 8 n) Hs) as E.
    rewrite <- !app_assoc in E. exact E.
  - pose proof (field_at (kPageFileMagic ++ le_bytes 4 kPageFileVersion ++ zreplicate 4 Byte.x00 ++
      le_bytes 8 size) 8 n [] Hn) as E.
    rewrite <- !app_assoc, app_nil_r in E. exact E.
Qed.

Lemma zlen_image size pages :
  Forall (fun pg => zlen pg = size) pages ->
  zlen (file_image size pages) = HeaderSize + zlen pages * size.
Proof. intros. unfold file_image. rewrite zlen_app, zlen_image_header. by rewrite (zlen_concat size). Qed.

(** The place of a page in the file. *)
Lemma image_split size pages i data :
  Forall (fun pg => zlen pg = size) pages -> znth pages i = Some data ->
  exists pre post, file_image size pages = pre ++ data ++ post /\
    zlen pre = HeaderSize + i * size /\
    forall data', zlen data' = size -> file_image size (zset i data' pages) = pre ++ data' ++ post.
Proof.
  intros Hall Hi. apply znth_split in Hi as (l1 & l2 & -> & Hlen).
  apply Forall_app in Hall as [Hl1 _].
  exists (header_bytes (MakeHeader size (zlen (l1 ++ data :: l2))) ++ concat l1), (concat l2).
  unfold file_image. split_and!.
  - rewrite concat_app. cbn [concat]. by rewrite <- !app_assoc.
  - rewrite zlen_app, zlen_image_header, (zlen_concat size) by done. by rewrite Hlen.
  - intros data' _. rewrite zlen_zset, zset_split by done. rewrite concat_app. cbn [concat].
    by rewrite <- !app_assoc.
Qed.

Lemma PageOffset_small size i n :
  0 < size -> 0 <= i < n -> page_room size n -> PageOffset i size = HeaderSize + i * size.
Proof.
  unfold page_room, PageOffset, HeaderSize. intros ? ? ?.
  assert (i * size <= n * size) by nia. assert (0 <= i * size) by nia.
  rewrite !u64_id; unfold in_u64; rewrite ?u64_id; unfold in_u64; lia.
Qed.

(** ** Operations on the representation *)

Lemma ReadPage_ok pm d pages id data :
  pm_rep pm d pages -> znth pages id = Some data ->
  ReadPage id (pm, d) = (Ok (mkPage id data), (pm, d)).
Proof.
  intros [] Hid. pose proof (znth_Some_range _ _ _ Hid) as Hr. destruct rep_room0 as [Hroom _].
  destruct (image_split _ _ _ _ rep_pages0 Hid) as (pre & post & Himg & Hpre & _).
  assert (zlen data = page_size_ pm) as Hdata.
  { apply znth_split in Hid as (? & ? & -> & _). by apply Forall_app in rep_pages0 as [_ [? _]%Forall_cons]. }
  unfold ReadPage. dunfold. rewrite rep_open0. cbn [negb].
  rewrite rep_count0, (proj2 (Z.leb_gt _ _)) by lia.
  rewrite io_check_healthy, stream_read_healthy by done.
  rewrite (PageOffset_small _ _ (zlen pages)) by done.
  rewrite (file_content_eq _ _ _ rep_file0), Himg, zdrop_app_eq, ztake_app_eq by lia.
  rewrite Hdata, Z.eqb_refl. done.
Qed.

Lemma ReadPage_range pm d pages id :
  pm_rep pm d pages -> zlen pages <= id ->
  ReadPage id (pm, d) = (Err kNotFound (out_of_range id (zlen pages)), (pm, d)).
Proof.
  intros [] Hid. unfold ReadPage. dunfold. rewrite rep_open0. cbn [negb].
  by rewrite rep_count0, (proj2 (Z.leb_le _ _)).
Qed.

(** Replacing the file image by that of other pages. *)
Lemma pm_rep_image pm d pages pages' :
  pm_rep pm d pages ->
  Forall (fun pg => zlen pg = page_size_ pm) pages' -> page_room (page_size_ pm) (zlen pages') ->
  let d' := set_files <[file_path_ pm := file_image (page_size_ pm) pages']> d in
  pm_rep (set_page_count (zlen pages') pm) d' pages' /\ same_except (file_path_ pm) d d'.
Proof.
  intros [] Hall Hroom d'. destruct rep_room0 as [_ ?].
  assert (same_except (file_path_ pm) d d') as Hse by by eapply same_except_set, file_not_dir.
  split; [|done]. split; cbn [set_page_count is_open_ page_size_ file_path_ page_count_]; try done.
  - by eapply se_wf.
  - apply lookup_insert_eq.
Qed.

Lemma set_page_count_same pm pages d :
  pm_rep pm d pages -> set_page_count (zlen pages) pm = pm.
Proof. intros []. rewrite <- rep_count0. by destruct pm. Qed.

Lemma page_at_size pm d pages id data :
  pm_rep pm d pages -> znth pages id = Some data -> zlen data = page_size_ pm.
Proof.
  intros [] Hid. apply znth_split in Hid as (? & ? & -> & _).
  by apply Forall_app in rep_pages0 as [_ [? _]%Forall_cons].
Qed.

Lemma WritePage_ok pm d pages id data :
  pm_rep pm d pages -> 0 <= id < zlen pages -> zlen data = page_size_ pm ->
  exists d', WritePage (mkPage id data) (pm, d) = (Ok tt, (pm, d')) /\
    pm_rep pm d' (zset id data pages) /\ same_except (file_path_ pm) d d'.
Proof.
  intros Hrep Hid Hdata. destruct (znth_is_Some pages id Hid) as [old Hold].
  pose proof (page_at_size _ _ _ _ _ Hrep Hold) as Holen. pose proof Hrep as [].
  destruct rep_room0 as [Hroom ?].
  destruct (image_split _ _ _ _ rep_pages0 Hold) as (pre & post & Himg & Hpre & Hnew).
  destruct (pm_rep_image pm d pages (zset id data pages) Hrep) as [Hrep' Hse].
  { by apply Forall_insert. }
  { by rewrite zlen_zset. }
  rewrite zlen_zset, (set_page_count_same _ _ _ Hrep) in Hrep'.
  eexists. split; [|by split]. unfold WritePage. dunfold. cbn [page_id page_data].
  rewrite rep_open0. cbn [negb].
  rewrite rep_count0, (proj2 (Z.leb_gt _ _)), Hdata, Z.eqb_refl by lia. cbn [negb].
  rewrite io_check_healthy, stream_write_healthy by done.
  rewrite (PageOffset_small _ _ (zlen pages)) by done.
  by rewrite (file_content_eq _ _ _ rep_file0), Himg, Hnew, splice_at by congruence.
Qed.

(** Appending a page and rewriting the header in place. *)
Lemma AllocatePage_ok pm d pages :
  pm_rep pm d pages -> page_room (page_size_ pm) (zlen pages + 1) ->
  exists d', AllocatePage (pm, d) = (Ok (zlen pages), (set_page_count (zlen pages + 1) pm, d')) /\
    pm_rep (set_page_count (zlen pages + 1) pm) d'
      (pages ++ [zreplicate (page_size_ pm) Byte.x00]) /\
    same_except (file_path_ pm) d d'.
Proof.
  intros Hrep Hroom. pose proof Hrep as []. set (zeros := zreplicate _ _).
  assert (zlen zeros = page_size_ pm) by (apply zlen_zreplicate; lia).
  destruct (pm_rep_image pm d pages (pages ++ [zeros]) Hrep) as [Hrep' Hse].
  { by repeat constructor || apply Forall_app. }
  { by rewrite zlen_app. }
  rewrite zlen_app in Hrep'. change (zlen [zeros]) with 1 in Hrep'.
  eexists. split; [|by split]. unfold AllocatePage. dunfold. rewrite rep_open0. cbn [negb].
  rewrite io_check_healthy, stream_write_healthy by done. fold zeros.
  rewrite (file_content_eq _ _ _ rep_file0), splice_end by done.
  assert (u64 (page_count_ pm + 1) = zlen pages + 1) as ->.
  { rewrite rep_count0. unfold page_room, HeaderSize in *. apply u64_id. unfold in_u64. zlia || nia. }
  unfold WriteHeader. dunfold. rewrite io_check_healthy, stream_write_healthy by done.
  rewrite file_content_set, rep_count0.
  assert (splice 0 (header_bytes (MakeHeader (page_size_ pm) (zlen pages + 1)))
    (file_image (page_size_ pm) pages ++ zeros) = file_image (page_size_ pm) (pages ++ [zeros])) as ->.
  { unfold file_image. rewrite <- app_assoc, concat_app, zlen_app. cbn [concat]. rewrite app_nil_r.
    apply (splice_at []); [done|]. by rewrite !zlen_image_header. }
  unfold set_files. cbn [d_files d_dirs d_faults]. by rewrite insert_insert_eq.
Qed.

(** ** Opening *)

(** The header's count is compared with the count the length gives. *)
Lemma CheckPageFile_run path size n k rest d :
  healthy d -> d_files d !! path = Some (header_bytes (MakeHeader size n) ++ rest) ->
  zlen rest = k * size -> 0 < size < 2 ^ 63 -> in_u64 n ->
  CheckPageFile path size d =
    (if n =? k then Ok k
     else Err kInvalidArgument ("Page count mismatch: header says " +:+ pretty n +:+
            ", file layout says " +:+ pretty k), d).
Proof.
  intros Hd Hfile Hrest Hsize Hn. assert (in_u64 size) by (unfold in_u64; lia).
  unfold CheckPageFile, ReadHeader. dunfold.
  rewrite (stream_open_healthy _ _ _ _ _ Hd Hfile), io_check_healthy by done.
  rewrite (file_content_eq _ _ _ Hfile), zlen_app, zlen_image_header, Hrest.
  rewrite (proj2 (Z.ltb_ge (HeaderSize + k * size) HeaderSize))
    by (pose proof (zlen_nonneg rest); lia).
  rewrite io_check_healthy, stream_read_healthy, (file_content_eq _ _ _ Hfile) by done.
  rewrite zdrop_0, ztake_app_eq by by rewrite zlen_image_header.
  rewrite zlen_image_header, Z.eqb_refl, header_roundtrip by done.
  replace (HeaderMagicMatches (MakeHeader size n)) with true by done.
  cbn [MakeHeader h_version h_page_size h_page_count negb].
  rewrite !Z.eqb_refl. cbn [negb].
  rewrite Z.add_simpl_l, Z.mod_mul, Z.div_mul, Z.eqb_refl by lia. by destruct (n =? k).
Qed.

Lemma CheckPageFile_ok path size pages d :
  healthy d -> d_files d !! path = Some (file_image size pages) ->
  Forall (fun pg => zlen pg = size) pages -> 0 < size < 2 ^ 63 -> page_room size (zlen pages) ->
  CheckPageFile path size d = (Ok (zlen pages), d).
Proof.
  intros Hd Hfile Hall Hsize Hroom. unfold page_room, HeaderSize in Hroom.
  erewrite CheckPageFile_run; [by rewrite Z.eqb_refl|done|exact Hfile|by apply zlen_concat|done|].
  unfold in_u64. pose proof (zlen_nonneg pages). nia.
Qed.

Lemma dirs_made_clear d path : disk_wf d -> dirs_made d path -> dir_of path <> "" ->
  dirs_clear d (dir_of path).
Proof. intros Hwf [?|Hd] ?; [done|]. intros p Hp. by apply Hwf, Hd. Qed.

Lemma EnsureParentDir_ok path d :
  healthy d -> dirs_clear d (dir_of path) ->
  exists d1, EnsureParentDir path d = (Ok tt, d1) /\
    same_except path d d1 /\ d_files d1 = d_files d /\ dirs_made d1 path /\
    dir_exists d1 (dir_of path) = true /\ (path ∈ d_dirs d1 -> path ∈ d_dirs d \/ path ∈ dirs_of (dir_of path)).
Proof.
  intros ? Hc. unfold EnsureParentDir. cbv zeta. case_bool_decide as E.
  - exists d. unfold dir_exists, dirs_made. rewrite bool_decide_true by done.
    split_and!; try done; by left.
  - rewrite EnsureDir_healthy by done. eexists. split; [done|]. split_and!; try done.
    + apply same_except_with_dirs; [by right|done].
    + right. intros p Hp. cbn. set_solver.
    + unfold dir_exists. rewrite (bool_decide_true (_ ∈ _)); [by rewrite orb_true_r|].
      cbn. apply dir_in_dirs_of in E. set_solver.
    + cbn. set_solver.
Qed.

Lemma Open_existing path size pages d :
  healthy d -> disk_wf d -> path <> "" -> dirs_clear d (dir_of path) ->
  d_files d !! path = Some (file_image size pages) ->
  Forall (fun pg => zlen pg = size) pages -> 0 < size < 2 ^ 63 -> page_room size (zlen pages) ->
  exists d', Open (new_PageManager path size, d) =
      (Ok tt, (mkPageManager path size true (zlen pages), d')) /\
    pm_rep (mkPageManager path size true (zlen pages)) d' pages /\ same_except path d d'.
Proof.
  intros Hd Hwf Hpath Hc Hfile Hall Hsize Hroom.
  destruct (EnsureParentDir_ok path d Hd Hc) as (d1 & E & Hse & Hf & Hmade & _). exists d1.
  assert (healthy d1) by by eapply se_healthy.
  split; [|split; [|done]].
  - unfold Open. rewrite M_bind_eq. cbn [this fst is_open_ new_PageManager file_path_ page_size_].
    rewrite (bool_decide_false (path = "")), (proj2 (Z.eqb_neq size 0)) by (done || lia).
    rewrite M_bind_eq. cbn [orb reject_if mret M_ret]. cbv zeta.
    dunfold. rewrite E, FileExists_healthy by done.
    unfold path_exists. rewrite Hf, Hfile, bool_decide_true by done. cbn [orb].
    rewrite (CheckPageFile_ok path size pages) by (done || by rewrite Hf). done.
  - split; cbn; try done; [by eapply se_wf|by rewrite Hf|lia|by split; [|lia]].
Qed.

Lemma Open_fresh path size d :
  pm_fresh path size d ->
  exists d', Open (new_PageManager path size, d) =
      (Ok tt, (mkPageManager path size true 0, d')) /\
    pm_rep (mkPageManager path size true 0) d' [] /\ same_except path d d'.
Proof.
  intros []. destruct fresh_dir0 as [Hd1 Hd2].
  destruct (EnsureParentDir_ok path d fresh_healthy0 fresh_dirs0)
    as (d1 & E & Hse & Hf & Hmade & Hdir & Hin).
  assert (healthy d1) by by eapply se_healthy.
  assert (path ∉ d_dirs d1) as Hnd by naive_solver.
  set (d2 := set_files <[path := file_image size []]> d1).
  assert (same_except path d1 d2) as Hse2 by by apply same_except_set.
  exists d2. split; [|split; [|by etrans]].
  - unfold Open. rewrite M_bind_eq. cbn [this fst is_open_ new_PageManager file_path_ page_size_].
    rewrite (bool_decide_false (path = "")), (proj2 (Z.eqb_neq size 0)) by (done || lia).
    dunfold. cbn [orb]. rewrite E, FileExists_healthy by done.
    unfold path_exists. rewrite Hf, fresh_file0, !bool_decide_false by (done || by intros [? ?]).
    cbn [orb]. unfold CreatePageFile. dunfold.
    rewrite stream_create_healthy, stream_write_healthy by done.
    rewrite file_content_set. replace (set_files _ (set_files _ d1)) with d2; [|].
    2:{ unfold d2, set_files. cbn [d_files d_dirs d_faults]. by rewrite insert_insert_eq. }
    rewrite (CheckPageFile_ok path size []); try done. apply lookup_insert_eq.
  - split; cbn; try done; [by eapply se_wf, se_wf|apply lookup_insert_eq|lia|].
    split; [done|lia].
Qed.

Lemma pm_reopen pm d pages :
  pm_rep pm d pages ->
  exists d', Open (new_PageManager (file_path_ pm) (page_size_ pm), d) = (Ok tt, (pm, d')) /\
    pm_rep pm d' pages /\ same_except (file_path_ pm) d d'.
Proof.
  intros []. destruct rep_room0.
  destruct (Open_existing (file_path_ pm) (page_size_ pm) pages d) as (d' & E & ? & ?); try done.
  - destruct rep_dirs0 as [->|Hd]; [|by intros p Hp; apply rep_wf0, Hd].
    intros p Hp. cbn in Hp. by apply elem_of_nil in Hp.
  - replace pm with (mkPageManager (file_path_ pm) (page_size_ pm) true (zlen pages));
      [by exists d'|]. rewrite <- rep_count0, <- rep_open0. by destruct pm.
Qed.

Lemma pm_rep_frame pm d d' path pages :
  pm_rep pm d pages -> file_path_ pm <> path -> same_except path d d' -> pm_rep pm d' pages.
Proof.
  intros [] ? [Hd _ Hf Hh Hw]. split; auto.
  - destruct rep_dirs0 as [?|Hp]; [by left|right]. intros p ?. by apply Hd, Hp.
  - by rewrite Hf.
Qed.

#[export] Instance PageManager_laws : PageStoreLaws PageManager.
Proof.
  refine {| ps_path := file_path_; ps_size := page_size_; ps_rep := pm_rep;
            ps_fresh := pm_fresh; ps_room := page_room |}.
  - unfold page_room. intros. nia.
  - unfold page_room, HeaderSize. intros. nia.
  - intros p d pages []. auto.
  - intros p d pages []. by split_and!.
  - intros path size d [Hh Hw Hp Hf Hd Hself Hdirs] Hs. split; try done.
    + split; [done|]. intros Hin. apply Hself. by right.
    + intros p Hin. apply Hdirs. by right.
  - apply pm_rep_frame.
  - intros path size d Hf. destruct (Open_fresh path size d Hf) as (d' & ? & ? & ?). eauto 10.
  - intros p d pages Hr. destruct (pm_reopen p d pages Hr) as (d' & ? & ? & ?). eauto 10.
  - apply ReadPage_ok.
  - intros. eexists. by eapply ReadPage_range.
  - apply WritePage_ok.
  - intros p d pages Hr Hroom. destruct (AllocatePage_ok p d pages Hr Hroom) as (d' & ? & ? & ?).
    eauto 10.
  - intros p d pages []. cbn [ps_flush PageManager_store]. unfold Flush. dunfold. rewrite rep_open0. cbn [negb].
    by rewrite io_check_healthy.
Defined.

(** ** Theorems *)

(** C28. Pages do not interfere: after writing page [i] it reads back as
    written, every other page reads as before, and no other file changes. *)
Theorem page_write_read pm d pages i data :
  pm_rep pm d pages -> 0 <= i < zlen pages -> zlen data = page_size_ pm ->
  exists d', WritePage (mkPage i data) (pm, d) = (Ok tt, (pm, d')) /\
    ReadPage i (pm, d') = (Ok (mkPage i data), (pm, d')) /\
    (forall j, 0 <= j -> j <> i -> (ReadPage j (pm, d')).1 = (ReadPage j (pm, d)).1) /\
    (forall p, p <> file_path_ pm -> d_files d' !! p = d_files d !! p).
Proof.
  intros Hrep Hi Hdata. destruct (WritePage_ok pm d pages i data Hrep Hi Hdata) as (d' & E & Hrep' & Hse).
  exists d'. split_and!; [done| | |apply Hse].
  - eapply ReadPage_ok; [done|]. by apply znth_zset_eq.
  - intros j Hj Hne. destruct (decide (j < zlen pages)).
    + destruct (znth_is_Some pages j) as [old Hold]; [lia|].
      rewrite (ReadPage_ok pm d pages j old Hrep Hold).
      erewrite ReadPage_ok; [done|done|]. rewrite znth_zset_ne by lia. done.
    + rewrite (ReadPage_range pm d pages j Hrep) by lia.
      erewrite ReadPage_range; [|done|]; rewrite zlen_zset; [done|lia].
Qed.

(** A store with two pages on an otherwise empty disk. *)
Definition sample_pages : list bytes := [zreplicate 4 Byte.x61; zreplicate 4 Byte.x62].
Definition sample_pm : PageManager := mkPageManager "t.tbl" 4 true 2.
Definition sample_disk : disk := mkDisk {[ "t.tbl" := file_image 4 sample_pages ]} ∅ [].

Lemma sample_rep : pm_rep sample_pm sample_disk sample_pages.
Proof.
  split; try done.
  - by left.
  - by repeat constructor.
Qed.

Lemma page_write_read_witness :
  exists d', WritePage (mkPage 1 (zreplicate 4 Byte.x7a)) (sample_pm, sample_disk) = (Ok tt, (sample_pm, d')) /\
    ReadPage 1 (sample_pm, d') = (Ok (mkPage 1 (zreplicate 4 Byte.x7a)), (sample_pm, d')) /\
    (forall j, 0 <= j -> j <> 1 ->
       (ReadPage j (sample_pm, d')).1 = (ReadPage j (sample_pm, sample_disk)).1) /\
    (forall p, p <> file_path_ sample_pm -> d_files d' !! p = d_files sample_disk !! p).
Proof.
  apply (page_write_read sample_pm sample_disk sample_pages 1 (zreplicate 4 Byte.x7a)).
  - apply sample_rep.
  - by_computation.
  - reflexivity.
Defined.

(** C29. An allocated page is new, zero-filled and counted: its id is the old
    page count, all earlier pages read as before, and a manager opened on the
    file afterwards reads the same pages. *)
Theorem page_allocate_persists pm d pages :
  pm_rep pm d pages -> page_room (page_size_ pm) (zlen pages + 1) ->
  exists pm' d', AllocatePage (pm, d) = (Ok (zlen pages), (pm', d')) /\
    ReadPage (zlen pages) (pm', d') =
      (Ok (mkPage (zlen pages) (zreplicate (page_size_ pm) Byte.x00)), (pm', d')) /\
    (forall j, 0 <= j < zlen pages -> (ReadPage j (pm', d')).1 = (ReadPage j (pm, d)).1) /\
    exists d'', Open (new_PageManager (file_path_ pm) (page_size_ pm), d') = (Ok tt, (pm', d'')) /\
      forall j, 0 <= j -> (ReadPage j (pm', d'')).1 = (ReadPage j (pm', d')).1.
Proof.
  intros Hrep Hroom. destruct (AllocatePage_ok pm d pages Hrep Hroom) as (d' & E & Hrep' & Hse).
  eexists _, d'. split; [exact E|]. set (zeros := zreplicate _ _) in *. split_and!.
  - eapply ReadPage_ok; [done|]. by rewrite znth_app_r, Z.sub_diag by lia.
  - intros j Hj. destruct (znth_is_Some pages j Hj) as [old Hold].
    rewrite (ReadPage_ok pm d pages j old Hrep Hold).
    erewrite ReadPage_ok; [done|done|]. by rewrite znth_app_l by lia.
  - destruct (pm_reopen _ _ _ Hrep') as (d'' & Eo & Hrep'' & _). exists d''. split; [exact Eo|].
    intros j Hj. destruct (decide (j < zlen (pages ++ [zeros]))).
    + destruct (znth_is_Some (pages ++ [zeros]) j) as [pg Hpg]; [lia|].
      by rewrite (ReadPage_ok _ _ _ _ _ Hrep'' Hpg), (ReadPage_ok _ _ _ _ _ Hrep' Hpg).
    + by rewrite (ReadPage_range _ _ _ _ Hrep''), (ReadPage_range _ _ _ _ Hrep') by lia.
Qed.

Lemma page_allocate_persists_witness :
  exists pm' d', AllocatePage (sample_pm, sample_disk) = (Ok 2, (pm', d')) /\
    ReadPage 2 (pm', d') = (Ok (mkPage 2 (zreplicate 4 Byte.x00)), (pm', d')) /\
    (forall j, 0 <= j < 2 -> (ReadPage j (pm', d')).1 = (ReadPage j (sample_pm, sample_disk)).1) /\
    exists d'', Open (new_PageManager "t.tbl" 4, d') = (Ok tt, (pm', d'')) /\
      forall j, 0 <= j -> (ReadPage j (pm', d'')).1 = (ReadPage j (pm', d')).1.
Proof.
  apply (page_allocate_persists sample_pm sample_disk sample_pages).
  - apply sample_rep.
  - vm_compute. done.
Defined.

(** The same disk with the outcomes of the calls to come. *)
Definition with_faults (fs : list (option string)) (d : disk) : disk :=
  mkDisk (d_files d) (d_dirs d) fs.

(** C30. Allocation is not atomic.  When the appended page reaches the file but
    the header does not, [AllocatePage] reports an I/O error, and the file can
    no longer be opened: its page count disagrees with its length.  Nothing in
    the program repairs it. *)
Theorem allocate_fault_makes_file_unopenable pm d pages m :
  pm_rep pm d pages -> page_room (page_size_ pm) (zlen pages + 1) ->
  exists pm' d',
    AllocatePage (pm, with_faults [None; None; Some m] d) =
      (Err kIoError "Failed to seek to page file header", (pm', d')) /\ healthy d' /\
    (Open (new_PageManager (file_path_ pm) (page_size_ pm), d')).1 =
      Err kInvalidArgument
        ("Page count mismatch: header says " +:+ pretty (zlen pages) +:+
         ", file layout says " +:+ pretty (zlen pages + 1)).
Proof.
  intros Hrep Hroom. pose proof Hrep as []. destruct rep_room0 as [_ Hps].
  set (zeros := zreplicate (page_size_ pm) Byte.x00).
  assert (zlen zeros = page_size_ pm) as Hz by (apply zlen_zreplicate; lia).
  set (d' := set_files <[file_path_ pm := file_image (page_size_ pm) pages ++ zeros]> d).
  assert (same_except (file_path_ pm) d d') as Hse by by eapply same_except_set, file_not_dir.
  exists (set_page_count (u64 (page_count_ pm + 1)) pm), d'. split_and!.
  - unfold AllocatePage, WriteHeader, stream_write. dunfold. rewrite rep_open0. cbn [negb].
    unfold io_check, next_fault. cbn [with_faults d_faults]. fold zeros.
    rewrite !(file_content_eq _ (file_path_ pm) (file_image (page_size_ pm) pages)) by done.
    rewrite splice_end by done. unfold d', set_files. by rewrite <- rep_healthy0.
  - exact rep_healthy0.
  - destruct (EnsureParentDir_ok (file_path_ pm) d') as (d1 & E & Hse1 & Hf & _); [done| |].
    { destruct rep_dirs0 as [->|Hd]; [by intros p Hp%elem_of_nil|].
      intros p Hp. eapply (se_wf _ _ _ Hse); [done|]. by apply Hd. }
    unfold Open. dunfold. cbn [is_open_ new_PageManager file_path_ page_size_].
    rewrite bool_decide_false, (proj2 (Z.eqb_neq (page_size_ pm) 0)) by (done || lia). cbn [orb].
    assert (healthy d1) by by eapply se_healthy.
    rewrite E, FileExists_healthy by done. unfold path_exists. rewrite Hf. cbn [d' set_files d_files].
    rewrite lookup_insert_eq, bool_decide_true by done. cbn [orb].
    rewrite (CheckPageFile_run _ _ (zlen pages) (zlen pages + 1) (concat pages ++ zeros)).
    + rewrite (proj2 (Z.eqb_neq _ _)) by lia. done.
    + done.
    + rewrite Hf. cbn. rewrite lookup_insert_eq. unfold file_image. by rewrite <- app_assoc.
    + rewrite zlen_app, (zlen_concat (page_size_ pm)) by done. lia.
    + lia.
    + unfold in_u64, page_room, HeaderSize in *. pose proof (zlen_nonneg pages). nia.
Qed.

Lemma allocate_fault_makes_file_unopenable_witness :
  exists pm' d',
    AllocatePage (sample_pm, with_faults [None; None; Some "No space left on device"] sample_disk) =
      (Err kIoError "Failed to seek to page file header", (pm', d')) /\ healthy d' /\
    (Open (new_PageManager "t.tbl" 4, d')).1 =
      Err kInvalidArgument
        ("Page count mismatch: header says " +:+ pretty (zlen sample_pages) +:+
         ", file layout says " +:+ pretty (zlen sample_pages + 1)).
Proof.
  apply (allocate_fault_makes_file_unopenable sample_pm sample_disk sample_pages
           "No space left on device").
  - apply sample_rep.
  - vm_compute. done.
Defined.
