(* ===== verification/RowStore.v ===== *)
(** * The row store

    Models [src/storage/row_store.cpp]: rows in data pages of a page store.
    Page 0 holds the metadata; data page number [i] is page [i + 1] and holds
    a header and the serialized rows one after the other.  The store is
    written and proved against the page store interface. *)

From S2P Require Import Prelude BinaryIO Values Serialization Disk PageStore.

Definition kRowStoreMagic : bytes := bytes_of_string "CDBRSTR1".
Definition kRowStoreDataPageMagic : bytes := bytes_of_string "CDBRPAGE".
Definition kRowStoreVersion : Z := 1.
Definition kMetadataPageId : Z := 0.

Record RowStoreMetadata := mkRowStoreMetadata {
  md_version : Z;
  md_next_row_id : Z;
  md_data_page_count : Z;
  md_active_row_count : Z
}.

Record DataPageHeader := mkDataPageHeader {
  dp_version : Z;
  dp_entry_count : Z;
  dp_used_bytes : Z
}.

Definition MetadataPagePayloadOffset : Z := zlen kRowStoreMagic.
Definition DataPagePayloadOffset : Z := zlen kRowStoreDataPageMagic.

(** ** Page formats *)

Definition SerializeMetadata (m : RowStoreMetadata) : bytes :=
  let out := kRowStoreMagic in
  let out := WriteUint32 out (md_version m) in
  let out := WriteUint64 out (md_next_row_id m) in
  let out := WriteUint64 out (md_data_page_count m) in
  WriteUint64 out (md_active_row_count m).

Definition ReadMetadataFields : reader RowStoreMetadata :=
  version ← ReadUint32;
  next_row_id ← ReadUint64;
  data_page_count ← ReadUint64;
  active_row_count ← ReadUint64;
  mret (mkRowStoreMetadata version next_row_id data_page_count active_row_count).

Definition DeserializeMetadata (buf : bytes) : result RowStoreMetadata :=
  _ ← check_not (zlen buf <? MetadataPagePayloadOffset) kInvalidArgument
        "RowStore metadata page is smaller than magic";
  _ ← check_not (negb (bool_decide (ztake (zlen kRowStoreMagic) buf = kRowStoreMagic)))
        kInvalidArgument "Invalid RowStore metadata magic";
  '(m, _) ← ReadMetadataFields buf MetadataPagePayloadOffset;
  Ok m.

Definition SerializeDataPageHeader (h : DataPageHeader) : bytes :=
  let out := kRowStoreDataPageMagic in
  let out := WriteUint32 out (dp_version h) in
  let out := WriteUint32 out (dp_entry_count h) in
  WriteUint32 out (dp_used_bytes h).

Definition ReadDataPageHeaderFields : reader DataPageHeader :=
  version ← ReadUint32;
  entry_count ← ReadUint32;
  used_bytes ← ReadUint32;
  mret (mkDataPageHeader version entry_count used_bytes).

Definition DeserializeDataPageHeader (buf : bytes) : result DataPageHeader :=
  _ ← check_not (zlen buf <? DataPagePayloadOffset) kInvalidArgument
        "RowStore data page is smaller than magic";
  _ ← check_not (negb (bool_decide (ztake (zlen kRowStoreDataPageMagic) buf = kRowStoreDataPageMagic)))
        kInvalidArgument "Invalid RowStore data page magic";
  '(h, _) ← ReadDataPageHeaderFields buf DataPagePayloadOffset;
  Ok h.

Definition SerializeRowEntry (row : Row) : bytes :=
  let row_payload := SerializeRow row [] in
  WriteUint32 [] (u32 (zlen row_payload)) ++ row_payload.

(** The row of an entry: it must take exactly [row_size] bytes. *)
Definition DeserializeEntryRow (row_size : Z) : reader Row := fun buf offset =>
  match EnsureReadable buf offset row_size with
  | Err c m => Err c m
  | Ok _ =>
      '(row, row_offset) ← DeserializeRow buf offset;
      if negb (row_offset - offset =? row_size) then
        Err kInvalidArgument "Row payload size does not match serialized size"
      else Ok (row, row_offset)
  end.

Definition DeserializeRowEntry : reader Row :=
  row_size ← ReadUint32;
  DeserializeEntryRow row_size.

Definition DataPageIdFromOrdinal (ordinal : Z) : Z := u64 (ordinal + 1).

Definition page_header_size : Z := DataPagePayloadOffset + 4 * 3.

(** The entry loop of [LoadPageRows]. *)
Fixpoint LoadEntries (used_end : Z) (count : nat) : reader (list Row) := fun buf offset =>
  match count with
  | O => Ok ([], offset)
  | S n =>
      if used_end <=? offset then
        Err kInvalidArgument "RowStore data page ended before all rows were read"
      else (row ← DeserializeRowEntry; rows ← LoadEntries used_end n; mret (row :: rows)) buf offset
  end.

(** The checks and the loop of [LoadPageRows] on the bytes of a page. *)
Definition ParsePageRows (data : bytes) : result (list Row) :=
  header ← DeserializeDataPageHeader data;
  _ ← check_not (negb (dp_version header =? kRowStoreVersion)) kInvalidArgument
        "Unsupported RowStore data page version";
  _ ← check_not (zlen data <? page_header_size + dp_used_bytes header) kInvalidArgument
        "RowStore data page used bytes exceed page size";
  let used_end := page_header_size + dp_used_bytes header in
  '(rows, offset) ← LoadEntries used_end (Z.to_nat (dp_entry_count header)) data page_header_size;
  _ ← check_not (negb (offset =? used_end)) kInvalidArgument
        "RowStore data page has trailing payload bytes";
  Ok rows.

(** The bytes [WritePageRows] builds. *)
Definition BuildPageRows (page_size : Z) (rows : list Row) : result bytes :=
  let entries_payload := concat (map SerializeRowEntry rows) in
  let header := mkDataPageHeader kRowStoreVersion (u32 (zlen rows)) (u32 (zlen entries_payload)) in
  let header_bytes := SerializeDataPageHeader header in
  _ ← check_not (page_size <? zlen header_bytes + zlen entries_payload) kInvalidArgument
        "Rows do not fit into a single data page";
  Ok (page_image page_size (header_bytes ++ entries_payload)).

(** The batching loop of [RewriteAllRows]. *)
Fixpoint BatchRows (page_size : Z) (rows : list Row) (page_batches : list (list Row))
    (current_batch : list Row) (current_size : Z) : result (list (list Row)) :=
  match rows with
  | [] => Ok (if bool_decide (current_batch = []) then page_batches
              else page_batches ++ [current_batch])
  | row :: rest =>
      let n := zlen (SerializeRowEntry row) in
      if page_size <? page_header_size + n then
        Err kInvalidArgument "Serialized row is too large for a data page"
      else if negb (bool_decide (current_batch = [])) &&
              (page_size <? page_header_size + current_size + n) then
        BatchRows page_size rest (page_batches ++ [current_batch]) [row] n
      else BatchRows page_size rest page_batches (current_batch ++ [row]) (current_size + n)
  end.

Fixpoint FindRowIndexFrom (i : Z) (rows : list Row) (rid_ : Z) : result Z :=
  match rows with
  | [] => Err kNotFound "Row not found"
  | row :: rest => if rid row =? rid_ then Ok i else FindRowIndexFrom (i + 1) rest rid_
  end.
Definition FindRowIndexById (rows : list Row) (rid_ : Z) : result Z :=
  FindRowIndexFrom 0 rows rid_.

(** ** The store *)

Section RowStore.
Context {P : Type} {PS : PageStore P}.

Record RowStore := mkRowStore {
  rs_file_path_ : string;
  rs_page_size_ : Z;
  page_manager_ : P;
  rs_is_open_ : bool;
  next_row_id_ : Z;
  data_page_count_ : Z;
  active_row_count_ : Z
}.

Definition new_RowStore (file_path : string) (page_size : Z) : RowStore :=
  mkRowStore file_path page_size (ps_new file_path page_size) false 0 0 0.

Definition set_page_manager (p : P) (rs : RowStore) : RowStore :=
  mkRowStore (rs_file_path_ rs) (rs_page_size_ rs) p (rs_is_open_ rs) (next_row_id_ rs)
    (data_page_count_ rs) (active_row_count_ rs).
Definition set_counters (next pages active : Z) (rs : RowStore) : RowStore :=
  mkRowStore (rs_file_path_ rs) (rs_page_size_ rs) (page_manager_ rs) (rs_is_open_ rs)
    next pages active.
Definition set_next_row_id (n : Z) (rs : RowStore) : RowStore :=
  set_counters n (data_page_count_ rs) (active_row_count_ rs) rs.
Definition set_data_page_count (n : Z) (rs : RowStore) : RowStore :=
  set_counters (next_row_id_ rs) n (active_row_count_ rs) rs.
Definition set_active_row_count (n : Z) (rs : RowStore) : RowStore :=
  set_counters (next_row_id_ rs) (data_page_count_ rs) n rs.
Definition set_opened (rs : RowStore) : RowStore :=
  mkRowStore (rs_file_path_ rs) (rs_page_size_ rs) (page_manager_ rs) true
    (next_row_id_ rs) (data_page_count_ rs) (active_row_count_ rs).

Definition on_pm {A} (m : M (P * disk) A) : M (RowStore * disk) A :=
  on_part page_manager_ set_page_manager m.

Definition require_open : M (RowStore * disk) unit :=
  rs ← this;
  reject_if (negb (rs_is_open_ rs)) kInternalError "RowStore is not open".

Definition LoadPageRows (page_id : Z) : M (RowStore * disk) (list Row) :=
  page ← on_pm (ps_read page_id);
  lift (ParsePageRows (page_data page)).

Definition WritePageRows (page_id : Z) (rows : list Row) : M (RowStore * disk) unit :=
  rs ← this;
  data ← lift (BuildPageRows (rs_page_size_ rs) rows);
  on_pm (ps_write (mkPage page_id data)).

(** Writing the counters to page 0; the three callers word the error of a
    page that is too small differently. *)
Definition WriteMetadata (msg : string) : M (RowStore * disk) unit :=
  rs ← this;
  let metadata := mkRowStoreMetadata kRowStoreVersion (next_row_id_ rs) (data_page_count_ rs)
                    (active_row_count_ rs) in
  let metadata_bytes := SerializeMetadata metadata in
  _ ← reject_if (rs_page_size_ rs <? zlen metadata_bytes) kInternalError msg;
  on_pm (ps_write (mkPage kMetadataPageId (page_image (rs_page_size_ rs) metadata_bytes))).

Definition WriteMetadataPage : M (RowStore * disk) unit :=
  _ ← require_open;
  WriteMetadata "RowStore metadata does not fit into metadata page".

Definition InitializeStore : M (RowStore * disk) unit :=
  rs ← this;
  metadata_page_id ← on_pm ps_alloc;
  _ ← reject_if (negb (metadata_page_id =? kMetadataPageId)) kInternalError
        "RowStore metadata page must be allocated first";
  let metadata_bytes := SerializeMetadata (mkRowStoreMetadata kRowStoreVersion 0 0 0) in
  _ ← reject_if (rs_page_size_ rs <? zlen metadata_bytes) kInternalError
        "RowStore metadata does not fit into a page";
  _ ← on_pm (ps_write (mkPage metadata_page_id (page_image (rs_page_size_ rs) metadata_bytes)));
  update (set_counters 0 0 0).

(** [page_manager_.ReadPage(kMetadataPageId)] with a missing page told apart
    from the other errors. *)
Definition ReadMetadataPage : M (RowStore * disk) (option Page) := fun s =>
  match on_pm (ps_read kMetadataPageId) s with
  | (Ok page, s') => (Ok (Some page), s')
  | (Err kNotFound _, s') => (Ok None, s')
  | (Err c m, s') => (Err c m, s')
  end.

Definition Open : M (RowStore * disk) unit :=
  rs ← this;
  if rs_is_open_ rs then mret tt else
  _ ← on_pm ps_open;
  metadata_page ← ReadMetadataPage;
  _ ← match metadata_page with
      | None => InitializeStore
      | Some page =>
          metadata ← lift (DeserializeMetadata (page_data page));
          _ ← reject_if (negb (md_version metadata =? kRowStoreVersion)) kInvalidArgument
                "Unsupported RowStore metadata version";
          update (set_counters (md_next_row_id metadata) (md_data_page_count metadata)
                    (md_active_row_count metadata))
      end;
  update set_opened.

Definition Flush : M (RowStore * disk) unit :=
  _ ← require_open;
  on_pm ps_flush.

Fixpoint LoadPagesFrom (ordinal : Z) (n : nat) : M (RowStore * disk) (list Row) :=
  match n with
  | O => mret []
  | S n' =>
      page_rows ← LoadPageRows (DataPageIdFromOrdinal ordinal);
      rest ← LoadPagesFrom (ordinal + 1) n';
      mret (page_rows ++ rest)
  end.

Definition LoadAllRows : M (RowStore * disk) (list Row) :=
  _ ← require_open;
  rs ← this;
  LoadPagesFrom 0 (Z.to_nat (data_page_count_ rs)).

(** [while (data_page_count_ < target)]; every round adds a page. *)
Fixpoint AllocateDataPages (target : Z) (fuel : nat) : M (RowStore * disk) unit :=
  match fuel with
  | O => mret tt
  | S fuel' =>
      rs ← this;
      if data_page_count_ rs <? target then
        _ ← on_pm ps_alloc;
        _ ← update (fun rs => set_data_page_count (u64 (data_page_count_ rs + 1)) rs);
        AllocateDataPages target fuel'
      else mret tt
  end.

(** Data page [i] gets batch [i], the pages behind the last batch none. *)
Fixpoint WriteBatches (page_batches : list (list Row)) (i : Z) (n : nat) : M (RowStore * disk) unit :=
  match n with
  | O => mret tt
  | S n' =>
      _ ← WritePageRows (DataPageIdFromOrdinal i) (default [] (znth page_batches i));
      WriteBatches page_batches (i + 1) n'
  end.

Definition RewriteAllRows (rows : list Row) : M (RowStore * disk) unit :=
  _ ← require_open;
  rs ← this;
  page_batches ← lift (BatchRows (rs_page_size_ rs) rows [] [] 0);
  _ ← AllocateDataPages (zlen page_batches) (length page_batches);
  rs ← this;
  _ ← WriteBatches page_batches 0 (Z.to_nat (data_page_count_ rs));
  WriteMetadata "RowStore metadata does not fit into a page".

(** The search loop of [FindPageWithFreeSpace]. *)
Fixpoint FindFreePage (row_entry_size ordinal : Z) (n : nat) : M (RowStore * disk) (option Z) :=
  match n with
  | O => mret None
  | S n' =>
      rs ← this;
      let page_id := DataPageIdFromOrdinal ordinal in
      page ← on_pm (ps_read page_id);
      header ← lift (DeserializeDataPageHeader (page_data page));
      if page_header_size + dp_used_bytes header + row_entry_size <=? rs_page_size_ rs then
        mret (Some page_id)
      else FindFreePage row_entry_size (ordinal + 1) n'
  end.

Definition FindPageWithFreeSpace (row_entry_size : Z) : M (RowStore * disk) Z :=
  _ ← require_open;
  rs ← this;
  _ ← reject_if (rs_page_size_ rs <? page_header_size + row_entry_size) kInvalidArgument
        "Row entry is too large for a data page";
  found ← FindFreePage row_entry_size 0 (Z.to_nat (data_page_count_ rs));
  match found with
  | Some page_id => mret page_id
  | None =>
      new_page_id ← on_pm ps_alloc;
      _ ← update (fun rs => set_data_page_count (u64 (data_page_count_ rs + 1)) rs);
      _ ← WritePageRows new_page_id [];
      mret new_page_id
  end.

(** ** Row operations *)

Definition Insert (row : Row) : M (RowStore * disk) Z :=
  _ ← require_open;
  rs ← this;
  let row := mkRow (next_row_id_ rs) (tuple row) false in
  let row_entry_size := zlen (SerializeRowEntry row) in
  page_id ← FindPageWithFreeSpace row_entry_size;
  page_rows ← LoadPageRows page_id;
  _ ← WritePageRows page_id (page_rows ++ [row]);
  _ ← update (fun rs => set_next_row_id (u64 (next_row_id_ rs + 1)) rs);
  _ ← update (fun rs => set_active_row_count (u64 (active_row_count_ rs + 1)) rs);
  _ ← WriteMetadataPage;
  mret (rid row).

(** [rows[index]] for an index [FindRowIndexById] returned. *)
Definition row_at (rows : list Row) (index : Z) : Row := default (mkRow 0 [] false) (znth rows index).

Definition GetIncludingDeleted (rid_ : Z) : M (RowStore * disk) Row :=
  _ ← require_open;
  rows ← LoadAllRows;
  index ← lift (FindRowIndexById rows rid_);
  mret (row_at rows index).

Definition Get (rid_ : Z) : M (RowStore * disk) Row :=
  _ ← require_open;
  out ← GetIncludingDeleted rid_;
  _ ← reject_if (deleted out) kNotFound "Row is deleted";
  mret out.

Definition Update (rid_ : Z) (tuple_ : Tuple) : M (RowStore * disk) unit :=
  _ ← require_open;
  all_rows ← LoadAllRows;
  index ← lift (FindRowIndexById all_rows rid_);
  let row := row_at all_rows index in
  _ ← reject_if (deleted row) kNotFound "Row is deleted";
  RewriteAllRows (zset index (mkRow (rid row) tuple_ (deleted row)) all_rows).

Definition Delete (rid_ : Z) : M (RowStore * disk) unit :=
  _ ← require_open;
  all_rows ← LoadAllRows;
  index ← lift (FindRowIndexById all_rows rid_);
  let row := row_at all_rows index in
  if deleted row then mret tt else
  _ ← update (fun rs => set_active_row_count (u64 (active_row_count_ rs - 1)) rs);
  RewriteAllRows (zset index (mkRow (rid row) (tuple row) true) all_rows).

Definition ScanIncludingDeleted : M (RowStore * disk) (list Row) :=
  _ ← require_open;
  LoadAllRows.

Definition Scan : M (RowStore * disk) (list Row) :=
  _ ← require_open;
  all_rows ← LoadAllRows;
  mret (filter (fun row => deleted row = false) all_rows).

Definition Restore (row : Row) : M (RowStore * disk) unit :=
  _ ← require_open;
  all_rows ← LoadAllRows;
  let restored := mkRow (rid row) (tuple row) false in
  all_rows ← match FindRowIndexById all_rows (rid row) with
    | Ok index =>
        _ ← (if deleted (row_at all_rows index) then
               update (fun rs => set_active_row_count (u64 (active_row_count_ rs + 1)) rs)
             else mret tt);
        mret (zset index restored all_rows)
    | Err kNotFound _ =>
        _ ← update (fun rs => set_active_row_count (u64 (active_row_count_ rs + 1)) rs);
        mret (all_rows ++ [restored])
    | Err c m => throw c m
    end;
  _ ← update (fun rs => set_next_row_id (Z.max (next_row_id_ rs) (u64 (rid row + 1))) rs);
  RewriteAllRows all_rows.

End RowStore.

Arguments RowStore P : clear implicits.

(** ** Page formats: round trips *)

Lemma zlen_SerializeMetadata m : zlen (SerializeMetadata m) = 36.
Proof. reflexivity. Qed.

Lemma zlen_SerializeDataPageHeader h : zlen (SerializeDataPageHeader h) = page_header_size.
Proof. reflexivity. Qed.


Definition metadata_ok (m : RowStoreMetadata) : Prop :=
  in_u32 (md_version m) /\ in_u64 (md_next_row_id m) /\ in_u64 (md_data_page_count m) /\
  in_u64 (md_active_row_count m).

Lemma DeserializeMetadata_page m size :
  metadata_ok m -> DeserializeMetadata (page_image size (SerializeMetadata m)) = Ok m.
Proof.
  intros (? & ? & ? & ?). unfold DeserializeMetadata, SerializeMetadata, page_image.
  set (post := zreplicate _ _). to_append.
  set (fields := WriteUint32 [] _ ++ _).
  assert (decodes ReadMetadataFields (WriteUint32 [] (md_version m) ++
    WriteUint64 [] (md_next_row_id m) ++ WriteUint64 [] (md_data_page_count m) ++
    WriteUint64 [] (md_active_row_count m)) m) as Hdec.
  { eapply decodes_bind; [by apply ReadUint32_decodes|].
    do 2 (eapply decodes_bind; [by apply ReadUint64_decodes|]).
    eapply decodes_map; [by apply ReadUint64_decodes|]. by destruct m. }
  specialize (Hdec kRowStoreMagic post). rewrite <- !app_assoc in Hdec. fold fields in Hdec.
  unfold check_not. rewrite (proj2 (Z.ltb_ge _ _)) by (unfold MetadataPagePayloadOffset; zlia).
  rewrite ztake_app_eq, bool_decide_true by done. cbn [mbind result_bind negb].
  unfold MetadataPagePayloadOffset. rewrite Hdec. done.
Qed.

Lemma DeserializeDataPageHeader_page h rest :
  in_u32 (dp_version h) -> in_u32 (dp_entry_count h) -> in_u32 (dp_used_bytes h) ->
  DeserializeDataPageHeader (SerializeDataPageHeader h ++ rest) = Ok h.
Proof.
  intros. unfold DeserializeDataPageHeader, SerializeDataPageHeader. to_append.
  set (fields := WriteUint32 [] _ ++ _).
  assert (decodes ReadDataPageHeaderFields (WriteUint32 [] (dp_version h) ++
    WriteUint32 [] (dp_entry_count h) ++ WriteUint32 [] (dp_used_bytes h)) h) as Hdec.
  { do 2 (eapply decodes_bind; [by apply ReadUint32_decodes|]).
    eapply decodes_map; [by apply ReadUint32_decodes|]. by destruct h. }
  specialize (Hdec kRowStoreDataPageMagic rest). rewrite <- !app_assoc in Hdec. fold fields in Hdec.
  unfold check_not. rewrite (proj2 (Z.ltb_ge _ _)) by (unfold DataPagePayloadOffset; zlia).
  rewrite ztake_app_eq, bool_decide_true by done. cbn [mbind result_bind negb].
  unfold DataPagePayloadOffset. rewrite Hdec. done.
Qed.

(** The bytes the entries of [rows] take. *)
Definition rows_size (rows : list Row) : Z := zlen (concat (map SerializeRowEntry rows)).

Lemma rows_size_app rows rows' : rows_size (rows ++ rows') = rows_size rows + rows_size rows'.
Proof. unfold rows_size. rewrite map_app, concat_app. zlia. Qed.
Lemma rows_size_cons row rows : rows_size (row :: rows) = zlen (SerializeRowEntry row) + rows_size rows.
Proof. unfold rows_size. cbn. zlia. Qed.
Lemma rows_size_nil : rows_size [] = 0.
Proof. reflexivity. Qed.

Lemma zlen_SerializeRowEntry row : zlen (SerializeRowEntry row) = 4 + zlen (SerializeRow row []).
Proof. unfold SerializeRowEntry. rewrite zlen_app. reflexivity. Qed.

Lemma rows_size_bound rows : 0 <= zlen rows <= rows_size rows.
Proof.
  induction rows as [|row rows IH]; [done|].
  rewrite rows_size_cons, zlen_cons, zlen_SerializeRowEntry. zlia.
Qed.

Lemma rows_size_elem row rows : row ∈ rows -> zlen (SerializeRowEntry row) <= rows_size rows.
Proof.
  induction 1 as [row rows|row row' rows _ IH]; rewrite rows_size_cons.
  - pose proof (rows_size_bound rows). lia.
  - pose proof (zlen_nonneg (SerializeRowEntry row')). lia.
Qed.

Lemma DeserializeRowEntry_decodes row :
  row_ok row -> zlen (SerializeRow row []) < 2 ^ 32 ->
  decodes DeserializeRowEntry (SerializeRowEntry row) row.
Proof.
  intros Hrow Hlen. unfold SerializeRowEntry.
  assert (in_u32 (zlen (SerializeRow row []))) by (split; zlia). rewrite u32_id by done.
  eapply decodes_bind; [by apply ReadUint32_decodes|].
  intros pre post. unfold DeserializeEntryRow.
  rewrite (proj2 (EnsureReadable_Ok _ _ _)) by zlia.
  rewrite (DeserializeRow_decodes row Hrow). cbn [mbind result_bind].
  rewrite (proj2 (Z.eqb_eq _ _)) by lia. done.
Qed.

Lemma LoadEntries_ok rows pre post :
  Forall row_ok rows -> rows_size rows < 2 ^ 32 ->
  LoadEntries (zlen pre + rows_size rows) (length rows)
    (pre ++ concat (map SerializeRowEntry rows) ++ post) (zlen pre) =
    Ok (rows, zlen pre + rows_size rows).
Proof.
  revert pre. induction rows as [|row rows IH]; intros pre Hall Hsize.
  { cbn. do 3 f_equal. unfold rows_size. cbn. zlia. }
  apply Forall_cons in Hall as [Hrow Hall]. rewrite rows_size_cons in *.
  pose proof (rows_size_bound rows). pose proof (zlen_SerializeRowEntry row).
  cbn [LoadEntries length map concat].
  rewrite (proj2 (Z.leb_gt _ _)) by zlia.
  rewrite reader_bind_eq, <- app_assoc.
  rewrite (DeserializeRowEntry_decodes row Hrow ltac:(zlia)).
  rewrite reader_bind_eq. specialize (IH (pre ++ SerializeRowEntry row) Hall ltac:(zlia)).
  rewrite zlen_app, <- !app_assoc in IH. rewrite Z.add_assoc, IH. done.
Qed.

(** The page [BuildPageRows] makes of rows that fit. *)
Definition rows_fit (size : Z) (rows : list Row) : Prop := page_header_size + rows_size rows <= size.

Definition rows_page (size : Z) (rows : list Row) : bytes :=
  page_image size (SerializeDataPageHeader
    (mkDataPageHeader kRowStoreVersion (zlen rows) (rows_size rows)) ++
    concat (map SerializeRowEntry rows)).

Lemma rows_fit_u32 size rows :
  rows_fit size rows -> size < 2 ^ 32 -> in_u32 (zlen rows) /\ in_u32 (rows_size rows).
Proof.
  unfold rows_fit, page_header_size, DataPagePayloadOffset, in_u32.
  change (zlen kRowStoreDataPageMagic) with 8. pose proof (rows_size_bound rows). lia.
Qed.

Lemma BuildPageRows_fits size rows :
  rows_fit size rows -> size < 2 ^ 32 -> BuildPageRows size rows = Ok (rows_page size rows).
Proof.
  intros Hfit Hsize. destruct (rows_fit_u32 _ _ Hfit Hsize).
  unfold BuildPageRows. cbv zeta. fold (rows_size rows). rewrite !u32_id by done.
  unfold check_not. rewrite (proj2 (Z.ltb_ge _ _)); [done|].
  rewrite zlen_SerializeDataPageHeader. exact Hfit.
Qed.

Lemma zlen_rows_page size rows : rows_fit size rows -> zlen (rows_page size rows) = size.
Proof.
  intros. apply zlen_page_image. rewrite zlen_app, zlen_SerializeDataPageHeader. done.
Qed.

Lemma rows_page_header size rows :
  rows_fit size rows -> size < 2 ^ 32 ->
  DeserializeDataPageHeader (rows_page size rows) =
    Ok (mkDataPageHeader kRowStoreVersion (zlen rows) (rows_size rows)).
Proof.
  intros Hfit Hsize. destruct (rows_fit_u32 _ _ Hfit Hsize).
  unfold rows_page, page_image. rewrite <- app_assoc. by apply DeserializeDataPageHeader_page.
Qed.

Lemma ParsePageRows_page size rows :
  rows_fit size rows -> size < 2 ^ 32 -> Forall row_ok rows ->
  ParsePageRows (rows_page size rows) = Ok rows.
Proof.
  intros Hfit Hsize Hrows. destruct (rows_fit_u32 _ _ Hfit Hsize) as [? [? ?]].
  unfold ParsePageRows. rewrite rows_page_header by done. cbn [mbind result_bind].
  cbn [dp_version dp_used_bytes dp_entry_count]. unfold check_not.
  rewrite zlen_rows_page, Z.eqb_refl, (proj2 (Z.ltb_ge _ _)) by done. cbn [negb mbind result_bind].
  unfold rows_page, page_image. rewrite <- app_assoc.
  set (hdr := SerializeDataPageHeader _). change page_header_size with (zlen hdr).
  replace (Z.to_nat (zlen rows)) with (length rows) by (unfold zlen; lia).
  rewrite LoadEntries_ok by done.
  cbn [mbind result_bind]. by rewrite Z.eqb_refl.
Qed.

(** ** Batching *)

Lemma BatchRows_ok size rows batches current n out :
  BatchRows size rows batches current n = Ok out ->
  n = rows_size current -> rows_fit size current -> Forall (rows_fit size) batches ->
  concat out = concat batches ++ current ++ rows /\ Forall (rows_fit size) out /\
  zlen out <= zlen batches + (if bool_decide (current = []) then 0 else 1) + zlen rows.
Proof.
  revert batches current n. induction rows as [|row rows IH]; intros batches current n E -> Hcur Hb.
  - injection E as <-. case_bool_decide as Hc.
    + subst. rewrite app_nil_r. split_and!; [done|done|zlia].
    + rewrite concat_app. cbn. rewrite !app_nil_r.
      split_and!; [done|by apply Forall_app_2; [|constructor]|zlia].
  - cbn [BatchRows] in E. cbv zeta in E. destruct (size <? _) eqn:Hbig; [done|]. zbool.
    destruct (negb (bool_decide (current = [])) && _) eqn:Hfull.
    + apply andb_true_iff in Hfull as [Hne _]. zbool. apply bool_decide_eq_false in Hne.
      rewrite bool_decide_false by done. apply IH in E as (-> & ? & Hlen).
      * rewrite bool_decide_false in Hlen by done. rewrite concat_app. cbn.
        rewrite app_nil_r, <- app_assoc. split_and!; [done|done|zlia].
      * rewrite rows_size_cons, rows_size_nil. lia.
      * unfold rows_fit. rewrite rows_size_cons, rows_size_nil. lia.
      * by apply Forall_app_2; [|constructor].
    + apply IH in E as (-> & ? & Hlen).
      * rewrite bool_decide_false in Hlen by (by destruct current). rewrite <- !app_assoc.
        split_and!; [done|done|]. case_bool_decide; zlia.
      * rewrite rows_size_app, rows_size_cons, rows_size_nil. lia.
      * unfold rows_fit in *. rewrite rows_size_app, rows_size_cons, rows_size_nil.
        apply andb_false_iff in Hfull as [Hne|?].
        -- zbool. apply bool_decide_eq_true in Hne as ->. rewrite rows_size_nil. lia.
        -- zbool. lia.
      * done.
Qed.

Lemma BatchRows_total size rows batches current n :
  Forall (fun row => page_header_size + zlen (SerializeRowEntry row) <= size) rows ->
  exists out, BatchRows size rows batches current n = Ok out.
Proof.
  revert batches current n. induction rows as [|row rows IH]; intros batches current n Hall.
  - cbn. eauto.
  - apply Forall_cons in Hall as [? Hall]. cbn [BatchRows]. cbv zeta.
    rewrite (proj2 (Z.ltb_ge _ _)) by done. destruct (_ && _); auto.
Qed.

Lemma BatchRows_too_large size rows batches current n :
  (exists row, row ∈ rows /\ size < page_header_size + zlen (SerializeRowEntry row)) ->
  BatchRows size rows batches current n =
    Err kInvalidArgument "Serialized row is too large for a data page".
Proof.
  revert batches current n. induction rows as [|row rows IH]; intros batches current n (r & Hin & Hbig).
  - by apply elem_of_nil in Hin.
  - cbn [BatchRows]. cbv zeta. destruct (size <? _) eqn:E; [done|]. zbool.
    assert (r ∈ rows) by (apply elem_of_cons in Hin as [->|?]; [lia|done]).
    destruct (_ && _); eauto.
Qed.
