(* ===== verification/RowStoreSpec.v ===== *)
(** * The row store refines a table

    The abstract table is a finite map from row ids to tuples and a deletion
    mark, with the next row id.  [rs_table] relates it to the counters of a
    [RowStore] and the pages on the disk; every operation of the store maps
    related states to related states and returns what the table's operation
    returns. *)

From S2P Require Import Prelude BinaryIO Values Serialization Disk PageStore RowStore.

Section Layout.
Context {P : Type} {PS : PageStore P} {PL : PageStoreLaws P}.
Implicit Types (rs : RowStore P) (d : disk) (rows : list Row).

Definition rs_path rs : string := ps_path (page_manager_ rs).

(** ** The open store and its pages *)

Record rs_view rs d (pgs : list bytes) : Prop := {
  v_open : rs_is_open_ rs = true;
  v_size : rs_page_size_ rs = ps_size (page_manager_ rs);
  v_path : rs_file_path_ rs = rs_path rs;
  v_bounds : 36 <= rs_page_size_ rs < 2 ^ 32;
  v_rep : ps_rep (page_manager_ rs) d pgs;
  v_count : zlen pgs = data_page_count_ rs + 1
}.

Lemma set_page_manager_same rs : set_page_manager (page_manager_ rs) rs = rs.
Proof. by destruct rs. Qed.

Lemma on_pm_read rs d pgs id data :
  rs_view rs d pgs -> znth pgs id = Some data ->
  on_pm (ps_read id) (rs, d) = (Ok (mkPage id data), (rs, d)).
Proof.
  intros [] Hid. unfold on_pm, on_part. cbn [fst snd].
  by rewrite (ps_read_ok _ _ _ _ _ v_rep0 Hid), set_page_manager_same.
Qed.

Lemma on_pm_write rs d pgs id data :
  rs_view rs d pgs -> 0 <= id < zlen pgs -> zlen data = rs_page_size_ rs ->
  exists d', on_pm (ps_write (mkPage id data)) (rs, d) = (Ok tt, (rs, d')) /\
    rs_view rs d' (zset id data pgs) /\ same_except (rs_path rs) d d'.
Proof.
  intros [] Hid Hdata. rewrite v_size0 in Hdata.
  destruct (ps_write_ok _ _ _ _ _ v_rep0 Hid Hdata) as (d' & E & Hrep & Hse).
  exists d'. unfold on_pm, on_part. cbn [fst snd]. rewrite E, set_page_manager_same.
  split_and!; [done| |done]. split; try done. by rewrite zlen_zset.
Qed.

(** The store after a page was allocated and counted. *)
Definition grown (p : P) (n : Z) rs : RowStore P := set_data_page_count n (set_page_manager p rs).

Lemma on_pm_alloc rs d pgs :
  rs_view rs d pgs -> ps_room (rs_page_size_ rs) (zlen pgs + 1) ->
  exists p d', on_pm ps_alloc (rs, d) = (Ok (zlen pgs), (set_page_manager p rs, d')) /\
    rs_view (grown p (u64 (data_page_count_ rs + 1)) rs) d'
      (pgs ++ [zreplicate (rs_page_size_ rs) Byte.x00]) /\
    u64 (data_page_count_ rs + 1) = data_page_count_ rs + 1 /\
    ps_path p = rs_path rs /\ same_except (rs_path rs) d d'.
Proof.
  intros [] Hroom. rewrite v_size0 in Hroom.
  destruct (ps_alloc_ok _ _ _ v_rep0 Hroom) as (p & d' & E & Hrep & Hpath & Hsize & Hse).
  destruct (ps_rep_sizes _ _ _ v_rep0) as [Hpos _].
  pose proof (ps_room_bound _ _ Hpos Hroom). pose proof (zlen_nonneg pgs).
  assert (u64 (data_page_count_ rs + 1) = data_page_count_ rs + 1) as Hu.
  { apply u64_id. unfold in_u64. lia. }
  exists p, d'. unfold on_pm, on_part. cbn [fst snd]. rewrite E.
  split_and!; try done. split; cbn; try done.
  - congruence.
  - unfold rs_path in *. cbn. congruence.
  - by rewrite v_size0.
  - rewrite Hu, zlen_app. change (zlen [_]) with 1. lia.
Qed.

Lemma LoadPageRows_ok rs d pgs id rows :
  rs_view rs d pgs -> znth pgs id = Some (rows_page (rs_page_size_ rs) rows) ->
  rows_fit (rs_page_size_ rs) rows -> Forall row_ok rows ->
  LoadPageRows id (rs, d) = (Ok rows, (rs, d)).
Proof.
  intros Hv Hid Hfit Hrows. unfold LoadPageRows.
  rewrite M_bind_eq, (on_pm_read _ _ _ _ _ Hv Hid). destruct Hv as [].
  unfold lift. cbn [page_data]. rewrite ParsePageRows_page by (done || lia). done.
Qed.

Lemma WritePageRows_ok rs d pgs id rows :
  rs_view rs d pgs -> 0 <= id < zlen pgs -> rows_fit (rs_page_size_ rs) rows ->
  exists d', WritePageRows id rows (rs, d) = (Ok tt, (rs, d')) /\
    rs_view rs d' (zset id (rows_page (rs_page_size_ rs) rows) pgs) /\
    same_except (rs_path rs) d d'.
Proof.
  intros Hv Hid Hfit. pose proof Hv as [].
  destruct (on_pm_write rs d pgs id (rows_page (rs_page_size_ rs) rows) Hv Hid) as (d' & E & ?).
  { by apply zlen_rows_page. }
  exists d'. split; [|done]. unfold WritePageRows, this, lift. rewrite M_bind_eq. cbn [fst].
  rewrite M_bind_eq, BuildPageRows_fits by (done || lia). done.
Qed.

Definition counters rs : RowStoreMetadata :=
  mkRowStoreMetadata kRowStoreVersion (next_row_id_ rs) (data_page_count_ rs) (active_row_count_ rs).
Definition metadata_page rs : bytes := page_image (rs_page_size_ rs) (SerializeMetadata (counters rs)).

Lemma WriteMetadata_ok msg rs d pgs :
  rs_view rs d pgs -> 0 < zlen pgs ->
  exists d', WriteMetadata msg (rs, d) = (Ok tt, (rs, d')) /\
    rs_view rs d' (zset 0 (metadata_page rs) pgs) /\ same_except (rs_path rs) d d'.
Proof.
  intros Hv Hlen. pose proof Hv as [].
  assert (zlen (metadata_page rs) = rs_page_size_ rs).
  { apply zlen_page_image. rewrite zlen_SerializeMetadata. lia. }
  destruct (on_pm_write rs d pgs 0 (metadata_page rs) Hv) as (d' & E & ?); [lia|done|].
  exists d'. split; [|done]. unfold WriteMetadata. rewrite M_bind_eq. cbn [this fst]. cbv zeta.
  rewrite M_bind_eq, zlen_SerializeMetadata. unfold reject_if.
  rewrite (proj2 (Z.ltb_ge _ _)) by lia. done.
Qed.

Lemma require_open_ok rs d : rs_is_open_ rs = true -> require_open (rs, d) = (Ok tt, (rs, d)).
Proof. intros E. unfold require_open. dunfold. by rewrite E. Qed.

(** ** Layouts: the rows of every data page *)

Record rs_layout rs d (layout : list (list Row)) : Prop := {
  l_view : rs_view rs d (metadata_page rs :: map (rows_page (rs_page_size_ rs)) layout);
  l_fit : Forall (rows_fit (rs_page_size_ rs)) layout;
  l_rows : Forall row_ok (concat layout);
  l_counters : metadata_ok (counters rs)
}.

Lemma l_count rs d layout : rs_layout rs d layout -> data_page_count_ rs = zlen layout.
Proof. intros [[]]. zlia. Qed.

Lemma data_page_id i n : 0 <= i < n -> n < 2 ^ 64 - 1 -> DataPageIdFromOrdinal i = i + 1.
Proof. intros. unfold DataPageIdFromOrdinal. apply u64_id. unfold in_u64. lia. Qed.

Lemma znth_data_page size (m : bytes) (layout : list (list Row)) i rows :
  znth layout i = Some rows -> znth (m :: map (rows_page size) layout) (i + 1) = Some (rows_page size rows).
Proof.
  intros H. pose proof (znth_Some_range _ _ _ H).
  by rewrite znth_cons_S, znth_map, H by lia.
Qed.

Lemma layout_pages_bound rs d layout : rs_layout rs d layout -> zlen layout < 2 ^ 64.
Proof. intros H. pose proof (l_count _ _ _ H). destruct H as [_ _ _ (_ & _ & [_ ?] & _)]. cbn in *. lia. Qed.

Lemma LoadPagesFrom_ok rs d front rest :
  rs_layout rs d (front ++ rest) -> zlen (front ++ rest) < 2 ^ 64 - 1 ->
  LoadPagesFrom (zlen front) (length rest) (rs, d) = (Ok (concat rest), (rs, d)).
Proof.
  revert front. induction rest as [|rows rest IH]; intros front Hl Hb; [done|].
  cbn [LoadPagesFrom length concat].
  rewrite M_bind_eq, (data_page_id _ (zlen (front ++ rows :: rest))) by zlia.
  pose proof Hl as []. apply Forall_app in l_fit0 as [_ Hfit]. apply Forall_cons in Hfit as [Hfit _].
  rewrite concat_app in l_rows0. apply Forall_app in l_rows0 as [_ Hrows].
  apply Forall_app in Hrows as [Hrows _].
  rewrite (LoadPageRows_ok _ _ _ _ rows l_view0); [|apply znth_data_page|done|done].
  2:{ rewrite znth_app_r, Z.sub_diag by lia. done. }
  rewrite M_bind_eq. replace (zlen front + 1) with (zlen (front ++ [rows])) by zlia.
  rewrite IH; [done| |]; by rewrite <- app_assoc.
Qed.

Lemma LoadAllRows_ok rs d layout :
  rs_layout rs d layout -> zlen layout < 2 ^ 64 - 1 ->
  LoadAllRows (rs, d) = (Ok (concat layout), (rs, d)).
Proof.
  intros Hl Hb. unfold LoadAllRows. rewrite M_bind_eq, require_open_ok by apply Hl.
  rewrite M_bind_eq. cbn [this fst]. rewrite (l_count _ _ _ Hl).
  replace (Z.to_nat (zlen layout)) with (length layout) by (unfold zlen; lia).
  by apply (LoadPagesFrom_ok rs d []).
Qed.

(** ** Rewriting all pages *)

Lemma grown_same rs : grown (page_manager_ rs) (data_page_count_ rs) rs = rs.
Proof. by destruct rs. Qed.

Lemma AllocateDataPages_ok target fuel rs d pgs :
  rs_view rs d pgs -> target - data_page_count_ rs <= Z.of_nat fuel ->
  ps_room (rs_page_size_ rs) (1 + Z.max (data_page_count_ rs) target) ->
  exists p d' zs,
    AllocateDataPages target fuel (rs, d) =
      (Ok tt, (grown p (Z.max (data_page_count_ rs) target) rs, d')) /\
    rs_view (grown p (Z.max (data_page_count_ rs) target) rs) d' (pgs ++ zs) /\
    ps_path p = rs_path rs /\ same_except (rs_path rs) d d'.
Proof.
  revert rs d pgs. induction fuel as [|fuel IH]; intros rs d pgs Hv Hfuel Hroom.
  - rewrite Z.max_l in * by lia. exists (page_manager_ rs), d, [].
    by rewrite grown_same, app_nil_r.
  - cbn [AllocateDataPages]. rewrite M_bind_eq. cbn [this fst].
    destruct (_ <? target) eqn:Hlt; zbool.
    + assert (0 < rs_page_size_ rs) by (destruct Hv; lia).
      destruct (on_pm_alloc rs d pgs Hv) as (p & d1 & E & Hv1 & Hu & Hp & Hse).
      { eapply ps_room_le; [done|exact Hroom|]. destruct Hv. lia. }
      rewrite M_bind_eq, E, M_bind_eq. unfold update. cbn [fst snd].
      change (set_data_page_count _ (set_page_manager p rs))
        with (grown p (u64 (data_page_count_ rs + 1)) rs). rewrite Hu in *.
      destruct (IH (grown p (data_page_count_ rs + 1) rs) d1 _ Hv1) as (p2 & d2 & zs & E2 & Hv2 & Hp2 & Hse2);
        cbn [grown set_data_page_count set_counters set_page_manager data_page_count_ rs_page_size_] in *.
      { lia. }
      { by replace (Z.max (data_page_count_ rs + 1) target) with (Z.max (data_page_count_ rs) target) by lia. }
      replace (Z.max (data_page_count_ rs + 1) target) with (Z.max (data_page_count_ rs) target) in * by lia.
      exists p2, d2, (zreplicate (rs_page_size_ rs) Byte.x00 :: zs).
      rewrite <- app_assoc in Hv2. unfold rs_path in *. cbn in Hp2, Hse2. rewrite Hp in *.
      split_and!; [exact E2|exact Hv2|done|by etrans].
    + rewrite Z.max_l in * by lia. exists (page_manager_ rs), d, [].
      by rewrite grown_same, app_nil_r.
Qed.

(** The contents the pages get: the batches, then empty pages. *)
Fixpoint pad (batches : list (list Row)) (i : Z) (n : nat) : list (list Row) :=
  match n with
  | O => []
  | S n' => default [] (znth batches i) :: pad batches (i + 1) n'
  end.

Lemma pad_past batches i n : zlen batches <= i -> concat (pad batches i n) = [].
Proof.
  revert i. induction n as [|n IH]; intros i Hi; [done|]. cbn [pad concat].
  rewrite znth_None by done. apply IH. lia.
Qed.

Lemma pad_concat front batches n :
  (length batches <= n)%nat -> concat (pad (front ++ batches) (zlen front) n) = concat batches.
Proof.
  revert front n. induction batches as [|b bs IH]; intros front n Hlen.
  - rewrite app_nil_r. apply pad_past. lia.
  - destruct n as [|n]; [cbn in Hlen; lia|]. cbn [pad concat length] in *.
    rewrite znth_app_r, Z.sub_diag by lia. cbn. f_equal.
    specialize (IH (front ++ [b]) n ltac:(lia)). rewrite <- app_assoc, zlen_app in IH. exact IH.
Qed.

Lemma pad_all batches n : (length batches <= n)%nat -> concat (pad batches 0 n) = concat batches.
Proof. apply (pad_concat []). Qed.

Lemma length_pad batches i n : length (pad batches i n) = n.
Proof. revert i. induction n; intros; cbn; auto. Qed.

Lemma pad_fit size batches i n :
  page_header_size <= size -> Forall (rows_fit size) batches -> Forall (rows_fit size) (pad batches i n).
Proof.
  intros Hs Hall. revert i. induction n as [|n IH]; intros i; constructor; [|apply IH].
  destruct (znth batches i) as [b|] eqn:E; cbn.
  - apply znth_split in E as (? & ? & -> & _). by apply Forall_app in Hall as [_ [? _]%Forall_cons].
  - unfold rows_fit. rewrite rows_size_nil. lia.
Qed.

Lemma WriteBatches_ok batches rs d m front rest :
  rs_view rs d (m :: front ++ rest) -> Forall (rows_fit (rs_page_size_ rs)) batches ->
  zlen (front ++ rest) < 2 ^ 64 - 1 ->
  exists d', WriteBatches batches (zlen front) (length rest) (rs, d) = (Ok tt, (rs, d')) /\
    rs_view rs d' (m :: front ++ map (rows_page (rs_page_size_ rs)) (pad batches (zlen front) (length rest))) /\
    same_except (rs_path rs) d d'.
Proof.
  revert d front. induction rest as [|pg rest IH]; intros d front Hv Hfit Hb; cbn [length pad map].
  - exists d. done.
  - cbn [WriteBatches]. rewrite (data_page_id _ (zlen (front ++ pg :: rest))) by zlia.
    set (rows := default [] (znth batches (zlen front))).
    assert (rows_fit (rs_page_size_ rs) rows) as Hrows.
    { apply (pad_fit _ batches (zlen front) 1) in Hfit; [by apply Forall_cons in Hfit as [? _]|].
      change page_header_size with 20. destruct Hv. lia. }
    destruct (WritePageRows_ok rs d _ (zlen front + 1) rows Hv) as (d1 & E & Hv1 & Hse); [zlia|done|].
    rewrite zset_cons_S, zset_split in Hv1 by (apply zlen_nonneg || done).
    rewrite (cons_middle _ front) in Hv1. rewrite app_assoc in Hv1.
    destruct (IH d1 _ Hv1 Hfit) as (d2 & E2 & Hv2 & Hse2); [zlia|].
    replace (zlen (front ++ [_])) with (zlen front + 1) in * by zlia.
    exists d2. rewrite M_bind_eq, E. rewrite <- app_assoc in Hv2. by split_and!; [| |etrans].
Qed.

(** After a rewrite the pages hold exactly [rows], in this order. *)
Lemma RewriteAllRows_ok rs d m pgs rows :
  rs_view rs d (m :: pgs) -> Forall row_ok rows ->
  Forall (fun row => page_header_size + zlen (SerializeRowEntry row) <= rs_page_size_ rs) rows ->
  in_u64 (next_row_id_ rs) -> in_u64 (active_row_count_ rs) ->
  ps_room (rs_page_size_ rs) (1 + Z.max (data_page_count_ rs) (zlen rows)) ->
  exists p n d' layout,
    RewriteAllRows rows (rs, d) = (Ok tt, (grown p n rs, d')) /\
    rs_layout (grown p n rs) d' layout /\ concat layout = rows /\
    data_page_count_ rs <= n <= Z.max (data_page_count_ rs) (zlen rows) /\
    ps_path p = rs_path rs /\ same_except (rs_path rs) d d'.
Proof.
  intros Hv Hok Hsmall Hnext Hact Hroom. pose proof Hv as [].
  destruct (BatchRows_total (rs_page_size_ rs) rows [] [] 0 Hsmall) as [batches EB].
  destruct (BatchRows_ok _ _ _ _ _ _ EB) as (Hcat & Hfit & Hlen);
    [done|change (rows_fit (rs_page_size_ rs) []) with (20 <= rs_page_size_ rs); lia|done|].
  cbn in Hcat, Hlen. change (zlen []) with 0 in Hlen.
  assert (0 < rs_page_size_ rs) as Hpos by lia. set (n := Z.max (data_page_count_ rs) (zlen batches)).
  assert (0 <= data_page_count_ rs) by zlia.
  pose proof (ps_room_bound _ _ Hpos Hroom) as Hbound.
  destruct (AllocateDataPages_ok (zlen batches) (length batches) rs d _ Hv)
    as (p & d1 & zs & E1 & Hv1 & Hp & Hse1).
  { unfold zlen. lia. }
  { eapply ps_room_le; [done|exact Hroom|]. lia. }
  fold n in E1, Hv1. rewrite <- app_comm_cons in Hv1.
  destruct (WriteBatches_ok batches (grown p n rs) d1 m [] (pgs ++ zs) Hv1 Hfit) as (d2 & E2 & Hv2 & Hse2).
  { destruct Hv1. cbn in *. zlia. }
  destruct (WriteMetadata_ok "RowStore metadata does not fit into a page" _ _ _ Hv2)
    as (d3 & E3 & Hv3 & Hse3); [zlia|].
  exists p, n, d3, (pad batches 0 (length (pgs ++ zs))).
  assert (zlen (pgs ++ zs) = n) as Hn by (destruct Hv1; cbn in *; zlia).
  unfold rs_path in Hse2, Hse3. cbn in Hse2, Hse3. rewrite Hp in Hse2, Hse3.
  split_and!; [| |rewrite pad_all; [done|unfold zlen in *; lia]|lia|lia|done|by do 2 etrans].
  - unfold RewriteAllRows. rewrite M_bind_eq, require_open_ok by done.
    rewrite M_bind_eq. cbn [this fst]. rewrite M_bind_eq. unfold lift at 1. rewrite EB.
    rewrite M_bind_eq, E1, M_bind_eq. cbn [this fst]. rewrite M_bind_eq.
    change (data_page_count_ (grown p n rs)) with n.
    replace (Z.to_nat n) with (length (pgs ++ zs)) by (unfold zlen in Hn; lia).
    change (zlen []) with 0 in E2. rewrite E2. exact E3.
  - split.
    + exact Hv3.
    + apply pad_fit; [change page_header_size with 20; cbn; lia|done].
    + rewrite pad_all by (unfold zlen in *; lia). by rewrite Hcat.
    + split_and!; [done|done|unfold in_u64; cbn; lia|done].
Qed.

(** ** Finding a page with room *)

Lemma layout_at rs d layout i rows :
  rs_layout rs d layout -> znth layout i = Some rows ->
  rows_fit (rs_page_size_ rs) rows /\ Forall row_ok rows.
Proof.
  intros [] E. apply znth_split in E as (l1 & l2 & -> & _).
  apply Forall_app in l_fit0 as [_ [? _]%Forall_cons].
  rewrite concat_app in l_rows0. apply Forall_app in l_rows0 as [_ Hr].
  by apply Forall_app in Hr as [? _].
Qed.

Lemma FindFreePage_ok n rs d front rest :
  rs_layout rs d (front ++ rest) -> zlen (front ++ rest) < 2 ^ 64 - 1 ->
  exists r, FindFreePage n (zlen front) (length rest) (rs, d) = (Ok r, (rs, d)) /\
    match r with
    | None => True
    | Some id => exists i rows, id = i + 1 /\ znth (front ++ rest) i = Some rows /\
        page_header_size + rows_size rows + n <= rs_page_size_ rs
    end.
Proof.
  revert front. induction rest as [|rows rest IH]; intros front Hl Hb; [by exists None|].
  cbn [FindFreePage length]. rewrite M_bind_eq. cbn [this fst]. cbv zeta.
  rewrite (data_page_id _ (zlen (front ++ rows :: rest))) by zlia.
  assert (znth (front ++ rows :: rest) (zlen front) = Some rows) as Hat
    by by rewrite znth_app_r, Z.sub_diag.
  destruct (layout_at _ _ _ _ _ Hl Hat) as [Hfit _].
  assert (rs_page_size_ rs < 2 ^ 32) by apply Hl.
  rewrite M_bind_eq, (on_pm_read _ _ _ _ _ (l_view _ _ _ Hl) (znth_data_page _ _ _ _ _ Hat)).
  rewrite M_bind_eq. unfold lift at 1. cbn [page_data]. rewrite rows_page_header by done.
  cbn [dp_used_bytes]. destruct (_ <=? _) eqn:E; zbool.
  - exists (Some (zlen front + 1)). split; [done|]. by exists (zlen front), rows.
  - replace (zlen front + 1) with (zlen (front ++ [rows])) by zlia.
    replace (front ++ rows :: rest) with ((front ++ [rows]) ++ rest) in * by by rewrite <- app_assoc.
    by apply IH.
Qed.

(** The page for a new entry: an existing one with room, or a new empty one. *)
Lemma FindPageWithFreeSpace_ok n rs d layout :
  rs_layout rs d layout -> page_header_size + n <= rs_page_size_ rs ->
  ps_room (rs_page_size_ rs) (zlen layout + 2) ->
  exists p c d' layout' i rows,
    FindPageWithFreeSpace n (rs, d) = (Ok (i + 1), (grown p c rs, d')) /\
    rs_view (grown p c rs) d' (metadata_page rs :: map (rows_page (rs_page_size_ rs)) layout') /\
    (layout' = layout \/ layout' = layout ++ [[]]) /\ c = zlen layout' /\
    znth layout' i = Some rows /\ page_header_size + rows_size rows + n <= rs_page_size_ rs /\
    ps_path p = rs_path rs /\ same_except (rs_path rs) d d'.
Proof.
  intros Hl Hn Hroom. pose proof (l_count _ _ _ Hl) as Hc. pose proof Hl as [Hv]. pose proof Hv as [].
  assert (0 < rs_page_size_ rs) as Hpos by lia.
  pose proof (ps_room_bound _ _ Hpos Hroom) as Hb.
  destruct (FindFreePage_ok n rs d [] layout Hl ltac:(cbn; lia)) as (r & E & Hr).
  change (zlen []) with 0 in E.
  assert (FindPageWithFreeSpace n (rs, d) = match r with
    | Some id => (Ok id, (rs, d))
    | None => (new_page_id ← on_pm ps_alloc;
        _ ← update (fun rs => set_data_page_count (u64 (data_page_count_ rs + 1)) rs);
        _ ← WritePageRows new_page_id []; mret new_page_id) (rs, d)
    end) as ->.
  { unfold FindPageWithFreeSpace. rewrite M_bind_eq, require_open_ok by done.
    rewrite M_bind_eq. cbn [this fst]. rewrite M_bind_eq. unfold reject_if.
    rewrite (proj2 (Z.ltb_ge _ _)) by done. cbn [mret M_ret].
    rewrite M_bind_eq, Hc. replace (Z.to_nat (zlen layout)) with (length layout) by (unfold zlen; lia).
    rewrite E. by destruct r. }
  destruct r as [id|].
  - destruct Hr as (i & rows & -> & Hi & Hfit).
    exists (page_manager_ rs), (data_page_count_ rs), d, layout, i, rows.
    rewrite grown_same. split_and!; try done. by left.
  - destruct (on_pm_alloc rs d _ Hv) as (p & d1 & Ea & Hv1 & Hu & Hp & Hse).
    { eapply ps_room_le; [done|exact Hroom|]. zlia. }
    rewrite M_bind_eq, Ea, M_bind_eq. unfold update. cbn [fst snd].
    change (set_data_page_count _ (set_page_manager p rs))
      with (grown p (u64 (data_page_count_ rs + 1)) rs). rewrite Hu, Hc in *.
    destruct (WritePageRows_ok _ _ _ (zlen layout + 1) [] Hv1) as (d2 & Ew & Hv2 & Hse2); [zlia| |].
    { unfold rows_fit. rewrite rows_size_nil. change page_header_size with 20. cbn. lia. }
    exists p, (zlen layout + 1), d2, (layout ++ [[]]), (zlen layout), [].
    unfold rs_path in Hse2. cbn in Hse2. rewrite Hp in Hse2.
    replace (zlen (metadata_page rs :: map (rows_page (rs_page_size_ rs)) layout))
      with (zlen layout + 1) by zlia.
    rewrite M_bind_eq, Ew.
    split_and!; [done| |by right|zlia| |rewrite rows_size_nil; lia|done|by etrans].
    + rewrite <- app_comm_cons, zset_cons_S, zset_split in Hv2 by zlia. by rewrite map_app.
    + by rewrite znth_app_r, Z.sub_diag by lia.
Qed.

(** ** Insertion *)

Lemma rs_view_counters rs d pgs next active :
  rs_view rs d pgs -> rs_view (set_counters next (data_page_count_ rs) active rs) d pgs.
Proof. by intros []. Qed.

Lemma concat_zset_app (layout : list (list Row)) i rows row :
  znth layout i = Some rows -> concat (zset i (rows ++ [row]) layout) ≡ₚ concat layout ++ [row].
Proof.
  intros E. apply znth_split in E as (l1 & l2 & -> & Hlen). rewrite zset_split by done.
  rewrite !concat_app. cbn. rewrite <- !app_assoc. do 2 f_equiv. apply Permutation_app_comm.
Qed.

Lemma map_zset {A B} (f : A -> B) i x l : map f (zset i x l) = zset i (f x) (map f l).
Proof. apply list_fmap_insert. Qed.

Lemma Insert_ok row rs d layout :
  let new := mkRow (next_row_id_ rs) (tuple row) false in
  rs_layout rs d layout -> row_ok new ->
  page_header_size + zlen (SerializeRowEntry new) <= rs_page_size_ rs ->
  next_row_id_ rs + 1 < 2 ^ 64 -> active_row_count_ rs + 1 < 2 ^ 64 ->
  ps_room (rs_page_size_ rs) (zlen layout + 2) ->
  exists p n d' layout',
    let rs' := grown p n (set_counters (next_row_id_ rs + 1) (data_page_count_ rs)
                            (active_row_count_ rs + 1) rs) in
    Insert row (rs, d) = (Ok (next_row_id_ rs), (rs', d')) /\ rs_layout rs' d' layout' /\
    concat layout' ≡ₚ concat layout ++ [new] /\ n <= zlen layout + 1 /\
    ps_path p = rs_path rs /\ same_except (rs_path rs) d d'.
Proof.
  intros new Hl Hnew Hfit Hnext Hact Hroom. pose proof Hl as [Hv Hlfit Hlrows (_ & [? _] & _ & [? _])].
  cbn [counters md_next_row_id md_active_row_count] in *.
  destruct (FindPageWithFreeSpace_ok _ _ _ _ Hl Hfit Hroom)
    as (p & n & d1 & layout1 & i & rows & E1 & Hv1 & Hcase & -> & Hi & Hroom1 & Hp & Hse1).
  assert (Forall (rows_fit (rs_page_size_ rs)) layout1 /\ concat layout1 = concat layout /\
    zlen layout1 <= zlen layout + 1) as (Hfit1 & Hcat1 & Hlen1).
  { destruct Hcase as [->| ->]; [split_and!; try done; lia|].
    rewrite concat_app, app_nil_r. split_and!; [|done|zlia]. apply Forall_app_2; [done|].
    repeat constructor. unfold rows_fit. rewrite rows_size_nil. change page_header_size with 20.
    destruct Hv. lia. }
  assert (rows_fit (rs_page_size_ rs) rows /\ Forall row_ok rows) as [Hrfit Hrok].
  { pose proof Hi as Hi'. apply znth_split in Hi' as (l1 & l2 & -> & _).
    apply Forall_app in Hfit1 as [_ [? _]%Forall_cons]. split; [done|].
    rewrite <- Hcat1, concat_app in Hlrows. apply Forall_app in Hlrows as [_ Hr].
    by apply Forall_app in Hr as [? _]. }
  assert (rows_fit (rs_page_size_ rs) (rows ++ [new])) as Hfit2.
  { unfold rows_fit. rewrite rows_size_app, rows_size_cons, rows_size_nil. lia. }
  pose proof (znth_Some_range _ _ _ Hi) as Hir.
  destruct (WritePageRows_ok _ _ _ (i + 1) (rows ++ [new]) Hv1) as (d2 & E2 & Hv2 & Hse2); [zlia|done|].
  apply (rs_view_counters _ _ _ (next_row_id_ rs + 1) (active_row_count_ rs + 1)) in Hv2.
  destruct (WriteMetadata_ok "RowStore metadata does not fit into metadata page" _ _ _ Hv2)
    as (d3 & E3 & Hv3 & Hse3); [zlia|].
  exists p, (zlen layout1), d3, (zset i (rows ++ [new]) layout1). cbv zeta.
  unfold rs_path in Hse2, Hse3. cbn in Hse2, Hse3. rewrite Hp in Hse2, Hse3.
  split_and!; [| |by rewrite concat_zset_app, Hcat1|done|done|by do 2 etrans].
  - unfold Insert. rewrite M_bind_eq, require_open_ok by apply Hv. rewrite M_bind_eq. cbn [this fst].
    cbv zeta. fold new. rewrite M_bind_eq, E1, M_bind_eq.
    rewrite (LoadPageRows_ok _ _ _ _ _ Hv1 (znth_data_page _ _ _ _ _ Hi)) by done.
    rewrite M_bind_eq, E2. rewrite M_bind_eq. unfold update at 1. cbn [fst snd].
    rewrite M_bind_eq. unfold update at 1. cbn [fst snd]. rewrite M_bind_eq.
    unfold WriteMetadataPage. rewrite M_bind_eq, require_open_ok by apply Hv.
    match goal with |- context [WriteMetadata _ (?x, d2)] => change x with
      (set_counters (u64 (next_row_id_ rs + 1)) (zlen layout1) (u64 (active_row_count_ rs + 1))
         (grown p (zlen layout1) rs)) end.
    rewrite !u64_id by (unfold in_u64; lia). cbn [grown set_data_page_count set_counters data_page_count_] in E3.
    rewrite E3. done.
  - split; cbn.
    + rewrite map_zset. rewrite zset_cons_S, zset_cons_0 in Hv3 by lia. exact Hv3.
    + by apply Forall_insert.
    + rewrite concat_zset_app, Hcat1 by done. by apply Forall_app_2; [|constructor].
    + unfold metadata_ok, in_u64. cbn. pose proof (ps_room_bound (rs_page_size_ rs) (zlen layout + 2)
        ltac:(destruct Hv; lia) Hroom). split_and!; [done|lia|lia|zlia|lia|lia|lia].
Qed.

(** ** Opening *)

Lemma Open_new path size d :
  ps_fresh path size d -> 36 <= size < 2 ^ 32 -> ps_room size 1 ->
  exists p d', let rs' := mkRowStore path size p true 0 0 0 in
    Open (new_RowStore path size, d) = (Ok tt, (rs', d')) /\
    rs_layout rs' d' [] /\ rs_path rs' = path /\ same_except path d d'.
Proof.
  intros Hfresh Hsize Hroom.
  destruct (ps_new_open _ _ _ Hfresh) as (p1 & d1 & E1 & Hrep1 & Hp1 & Hs1 & Hse1).
  destruct (ps_read_range _ _ _ kMetadataPageId Hrep1 ltac:(done)) as [msg Er].
  destruct (ps_alloc_ok _ _ _ Hrep1) as (p2 & d2 & E2 & Hrep2 & Hp2 & Hs2 & Hse2);
    [by rewrite Hs1|].
  set (data := page_image size (SerializeMetadata (mkRowStoreMetadata kRowStoreVersion 0 0 0))).
  assert (zlen data = size) by (apply zlen_page_image; rewrite zlen_SerializeMetadata; lia).
  destruct (ps_write_ok _ _ _ 0 data Hrep2) as (d3 & E3 & Hrep3 & Hse3); [cbn; done|congruence|].
  exists p2, d3. cbv zeta. rewrite Hp1, ?Hp2, ?Hp1 in *.
  split_and!; [|split|unfold rs_path; cbn; congruence|by do 2 etrans].
  - unfold Open. dunfold. cbn [rs_is_open_ new_RowStore]. unfold on_pm, on_part. cbn [fst snd page_manager_ new_RowStore].
    rewrite E1. unfold ReadMetadataPage, on_pm, on_part. cbn [fst snd page_manager_ set_page_manager].
    rewrite Er. unfold InitializeStore, on_pm, on_part. dunfold. cbn [fst snd page_manager_ set_page_manager].
    rewrite E2. change (zlen [] =? kMetadataPageId) with true. cbn [negb].
    rewrite zlen_SerializeMetadata. cbn [rs_page_size_ set_page_manager new_RowStore].
    rewrite (proj2 (Z.ltb_ge _ _)) by lia. fold data. cbn [page_manager_ set_page_manager].
    change (zlen []) with 0. rewrite E3. done.
  - split; cbn; try done; unfold rs_path; cbn; congruence.
  - done.
  - done.
  - done.
Qed.

Lemma Open_stored rs d layout :
  rs_layout rs d layout ->
  exists p d', let rs' := set_page_manager p rs in
    Open (new_RowStore (rs_path rs) (rs_page_size_ rs), d) = (Ok tt, (rs', d')) /\
    rs_layout rs' d' layout /\ rs_path rs' = rs_path rs /\ same_except (rs_path rs) d d'.
Proof.
  intros Hl. pose proof Hl as [Hv Hfit Hrows Hc]. pose proof Hv as [].
  destruct (ps_reopen _ _ _ v_rep0) as (p & d' & E & Hrep & Hp & Hs & Hse).
  fold (rs_path rs) in E, Hp, Hse. rewrite <- v_size0 in E.
  exists p, d'. cbv zeta. split_and!; [|split; [split|..]; try done|done|done].
  - unfold Open. dunfold. cbn [rs_is_open_ new_RowStore]. unfold on_pm, on_part.
    cbn [fst snd page_manager_ new_RowStore]. rewrite E.
    unfold ReadMetadataPage, on_pm, on_part. cbn [fst snd page_manager_ set_page_manager].
    rewrite (ps_read_ok _ _ _ kMetadataPageId (metadata_page rs) Hrep) by done.
    cbn [page_data]. unfold metadata_page. rewrite DeserializeMetadata_page by done.
    cbn. do 3 f_equal. unfold set_page_manager, set_opened, set_counters. cbn.
    by rewrite v_open0, v_path0.
  - cbn. congruence.
  - cbn. unfold rs_path. cbn. congruence.
Qed.

End Layout.
