(* ===== verification/RowTable.v ===== *)
(** * The abstract table and the refinement

    [table] is what a row store promises: a finite map from row ids to
    tuples, each live or deleted, and the next row id.  The operations below
    are the specification; the theorems at the end show that the store's
    operations, pages and counters included, implement them. *)

From S2P Require Import Prelude BinaryIO Values Serialization Disk PageStore PageManager.
From S2P Require Import RowStore RowStoreSpec.

(** ** The specification *)

Record table := mkTable { t_rows : gmap Z (Tuple * bool); t_next : Z }.

Definition empty_table : table := mkTable ∅ 0.

(** The row's entry fits into an empty data page. *)
Definition entry_fits (size : Z) (row : Row) : bool :=
  page_header_size + zlen (SerializeRowEntry row) <=? size.

Definition t_set (i : Z) (e : Tuple * bool) (t : table) : table :=
  mkTable (<[i := e]> (t_rows t)) (t_next t).

Definition t_insert (size : Z) (tup : Tuple) (t : table) : result Z * table :=
  if entry_fits size (mkRow (t_next t) tup false) then
    (Ok (t_next t), mkTable (<[t_next t := (tup, false)]> (t_rows t)) (t_next t + 1))
  else (Err kInvalidArgument "Row entry is too large for a data page", t).

Definition t_get (i : Z) (t : table) : result Row :=
  match t_rows t !! i with
  | None => Err kNotFound "Row not found"
  | Some (tup, true) => Err kNotFound "Row is deleted"
  | Some (tup, false) => Ok (mkRow i tup false)
  end.

Definition t_update (size i : Z) (tup : Tuple) (t : table) : result unit * table :=
  match t_rows t !! i with
  | None => (Err kNotFound "Row not found", t)
  | Some (_, true) => (Err kNotFound "Row is deleted", t)
  | Some (_, false) =>
      if entry_fits size (mkRow i tup false) then (Ok tt, t_set i (tup, false) t)
      else (Err kInvalidArgument "Serialized row is too large for a data page", t)
  end.

Definition t_delete (i : Z) (t : table) : result unit * table :=
  match t_rows t !! i with
  | None => (Err kNotFound "Row not found", t)
  | Some (_, true) => (Ok tt, t)
  | Some (tup, false) => (Ok tt, t_set i (tup, true) t)
  end.

Definition t_restore (i : Z) (tup : Tuple) (t : table) : table :=
  mkTable (<[i := (tup, false)]> (t_rows t)) (Z.max (t_next t) (i + 1)).

(** The live rows, each once, in some order. *)
Definition is_scan (rows : list Row) (t : table) : Prop :=
  NoDup rows /\
  forall r, r ∈ rows <-> deleted r = false /\ t_rows t !! rid r = Some (tuple r, false).

(** ** Runs

    A run is a sequence of client calls, closing and reopening the file
    included; its trace is the list of what the calls return. *)

Inductive op :=
  | OpInsert (tup : Tuple)
  | OpGet (i : Z)
  | OpUpdate (i : Z) (tup : Tuple)
  | OpDelete (i : Z)
  | OpRestore (i : Z) (tup : Tuple)
  | OpReopen.

Inductive outcome :=
  | OutUnit (r : result unit)
  | OutId (r : result Z)
  | OutRow (r : result Row).

Definition spec_op (size : Z) (o : op) (t : table) : outcome * table :=
  match o with
  | OpInsert tup => let '(r, t') := t_insert size tup t in (OutId r, t')
  | OpGet i => (OutRow (t_get i t), t)
  | OpUpdate i tup => let '(r, t') := t_update size i tup t in (OutUnit r, t')
  | OpDelete i => let '(r, t') := t_delete i t in (OutUnit r, t')
  | OpRestore i tup => (OutUnit (Ok tt), t_restore i tup t)
  | OpReopen => (OutUnit (Ok tt), t)
  end.

Fixpoint spec_run (size : Z) (os : list op) (t : table) : list outcome * table :=
  match os with
  | [] => ([], t)
  | o :: os' =>
      let '(r, t1) := spec_op size o t in
      let '(rs, t2) := spec_run size os' t1 in (r :: rs, t2)
  end.

Section Runs.
Context {P : Type} {PS : PageStore P}.

Definition store_op (o : op) (s : RowStore P * disk) : outcome * (RowStore P * disk) :=
  match o with
  | OpInsert tup => let '(r, s') := Insert (mkRow 0 tup false) s in (OutId r, s')
  | OpGet i => let '(r, s') := Get i s in (OutRow r, s')
  | OpUpdate i tup => let '(r, s') := Update i tup s in (OutUnit r, s')
  | OpDelete i => let '(r, s') := Delete i s in (OutUnit r, s')
  | OpRestore i tup => let '(r, s') := Restore (mkRow i tup false) s in (OutUnit r, s')
  | OpReopen =>
      let '(r, s') := Open (new_RowStore (rs_file_path_ s.1) (rs_page_size_ s.1), s.2) in
      (OutUnit r, s')
  end.

Fixpoint store_run (os : list op) (s : RowStore P * disk) : list outcome * (RowStore P * disk) :=
  match os with
  | [] => ([], s)
  | o :: os' =>
      let '(r, s1) := store_op o s in
      let '(rs, s2) := store_run os' s1 in (r :: rs, s2)
  end.

End Runs.

(** The calls a client can make: representable tuples; a restored row has a
    63-bit id and fits into a page. *)
Definition op_ok (size : Z) (o : op) : Prop :=
  match o with
  | OpInsert tup | OpUpdate _ tup => tuple_ok tup
  | OpRestore i tup =>
      tuple_ok tup /\ 0 <= i < 2 ^ 63 /\ entry_fits size (mkRow i tup false) = true
  | OpGet _ | OpDelete _ | OpReopen => True
  end.

(** ** Rows as a table *)

Definition to_rows (rows : list Row) : gmap Z (Tuple * bool) :=
  list_to_map (map (fun r => (rid r, (tuple r, deleted r))) rows).

Definition live_count (rows : list Row) : Z := zlen (filter (fun r => deleted r = false) rows).

(** [rows] lists the table [t]. *)
Record lists (rows : list Row) (t : table) : Prop := {
  lists_nodup : NoDup (map rid rows);
  lists_rows : t_rows t = to_rows rows;
  lists_next : Forall (fun r => rid r < t_next t) rows
}.

Lemma to_rows_keys rows :
  (map (fun r => (rid r, (tuple r, deleted r))) rows).*1 = map rid rows.
Proof. induction rows as [|r rows IH]; [done|]. cbn. f_equal. exact IH. Qed.

Lemma to_rows_perm rows rows' :
  NoDup (map rid rows) -> rows ≡ₚ rows' -> to_rows rows = to_rows rows'.
Proof.
  intros Hnd Hp. apply list_to_map_proper; [by rewrite to_rows_keys|].
  by apply Permutation_map.
Qed.

Lemma to_rows_cons r rows : to_rows (r :: rows) = <[rid r := (tuple r, deleted r)]> (to_rows rows).
Proof. reflexivity. Qed.

Lemma to_rows_lookup rows r :
  NoDup (map rid rows) ->
  r ∈ rows <-> to_rows rows !! rid r = Some (tuple r, deleted r).
Proof.
  intros Hnd. unfold to_rows. rewrite <- elem_of_list_to_map by by rewrite to_rows_keys.
  rewrite list_elem_of_In, list_elem_of_In, in_map_iff. split; [eauto|].
  intros ([i t b] & E & Hin). destruct r. cbn in E. by simplify_eq.
Qed.

Lemma to_rows_none rows i : to_rows rows !! i = None <-> i ∉ map rid rows.
Proof.
  unfold to_rows. rewrite <- not_elem_of_list_to_map. by rewrite to_rows_keys.
Qed.

Lemma live_count_cons r rows :
  live_count (r :: rows) = (if deleted r then 0 else 1) + live_count rows.
Proof. unfold live_count. rewrite filter_cons. destruct (deleted r); case_decide; done || zlia. Qed.

Lemma live_count_perm rows rows' : rows ≡ₚ rows' -> live_count rows = live_count rows'.
Proof. intros Hp. unfold live_count, zlen. by rewrite Hp. Qed.

Lemma live_count_bound rows : 0 <= live_count rows <= zlen rows.
Proof. unfold live_count, zlen. pose proof (length_filter (fun r => deleted r = false) rows). lia. Qed.

Lemma live_count_live r rows : r ∈ rows -> deleted r = false -> 0 < live_count rows.
Proof.
  intros Hin Hd. unfold live_count. assert (r ∈ filter (fun r => deleted r = false) rows) as H.
  { by apply list_elem_of_filter. }
  destruct (filter _ rows); [by apply elem_of_nil in H|]. zlia.
Qed.

(** ** Finding and replacing a row *)

Lemma FindRowIndexFrom_spec rows i k :
  match FindRowIndexFrom k rows i with
  | Ok n => exists l1 r l2, rows = l1 ++ r :: l2 /\ rid r = i /\ n = k + zlen l1
  | Err c m => c = kNotFound /\ m = "Row not found" /\ i ∉ map rid rows
  end.
Proof.
  revert k. induction rows as [|r rows IH]; intros k; cbn [FindRowIndexFrom].
  - split_and!; try done. cbn. apply not_elem_of_nil.
  - destruct (rid r =? i) eqn:E; zbool.
    + exists [], r, rows. split_and!; [done|done|]. zlia.
    + specialize (IH (k + 1)). destruct (FindRowIndexFrom _ _ _).
      * destruct IH as (l1 & r' & l2 & -> & ? & ->). exists (r :: l1), r', l2.
        split_and!; [done|done|]. zlia.
      * destruct IH as (-> & -> & ?). split_and!; try done. cbn. set_solver.
Qed.

Lemma FindRowIndexById_found rows t i tup b :
  lists rows t -> t_rows t !! i = Some (tup, b) ->
  exists l1 l2, rows = l1 ++ mkRow i tup b :: l2 /\ FindRowIndexById rows i = Ok (zlen l1) /\
    row_at rows (zlen l1) = mkRow i tup b.
Proof.
  intros [Hnd Hrows _] Hi. rewrite Hrows in Hi. pose proof (FindRowIndexFrom_spec rows i 0) as H.
  unfold FindRowIndexById. destruct (FindRowIndexFrom 0 rows i) as [n|].
  - destruct H as (l1 & r & l2 & -> & <- & ->).
    assert (r = mkRow (rid r) tup b) as Hr.
    { assert (to_rows (l1 ++ r :: l2) !! rid r = Some (tuple r, deleted r)) as Hr.
      { apply to_rows_lookup; [done|]. set_solver. }
      rewrite Hr in Hi. injection Hi as <- <-. by destruct r. }
    exists l1, l2. rewrite <- Hr. split_and!; [done|done|].
    unfold row_at. by rewrite znth_app_r, Z.sub_diag by lia.
  - destruct H as (_ & _ & H). apply to_rows_none in H. congruence.
Qed.

Lemma FindRowIndexById_missing rows t i :
  lists rows t -> t_rows t !! i = None -> FindRowIndexById rows i = Err kNotFound "Row not found".
Proof.
  intros [Hnd Hrows _] Hi. rewrite Hrows in Hi. pose proof (FindRowIndexFrom_spec rows i 0) as H.
  unfold FindRowIndexById. destruct (FindRowIndexFrom 0 rows i) as [n|c m].
  - destruct H as (l1 & r & l2 & -> & <- & _). apply to_rows_none in Hi. destruct Hi.
    rewrite map_app. cbn. set_solver.
  - by destruct H as (-> & -> & _).
Qed.

Lemma lists_perm rows rows' t : lists rows t -> rows ≡ₚ rows' -> lists rows' t.
Proof.
  intros [Hnd Hrows Hnext] Hp. split.
  - by rewrite <- Hp.
  - rewrite Hrows. by apply to_rows_perm.
  - by rewrite <- Hp.
Qed.

Lemma lists_replace l1 r l2 t tup b :
  lists (l1 ++ r :: l2) t -> lists (l1 ++ mkRow (rid r) tup b :: l2) (t_set (rid r) (tup, b) t).
Proof.
  intros Hl. apply (lists_perm _ (r :: l1 ++ l2)) in Hl; [|by rewrite Permutation_middle].
  apply (lists_perm (mkRow (rid r) tup b :: l1 ++ l2)); [|by rewrite Permutation_middle].
  destruct Hl as [Hnd Hrows Hnext]. split.
  - exact Hnd.
  - unfold t_set. cbn [t_rows]. rewrite Hrows, !to_rows_cons. cbn. by rewrite insert_insert_eq.
  - apply Forall_cons in Hnext as [? ?]. by constructor.
Qed.

Lemma lists_add rows t r next :
  lists rows t -> t_rows t !! rid r = None -> t_next t <= next -> rid r < next ->
  lists (rows ++ [r]) (mkTable (<[rid r := (tuple r, deleted r)]> (t_rows t)) next).
Proof.
  intros [Hnd Hrows Hnext] Hi ? ?. apply (lists_perm (r :: rows)); [|apply Permutation_cons_append].
  rewrite Hrows in Hi. apply to_rows_none in Hi. split.
  - cbn. by constructor.
  - cbn [t_rows]. by rewrite Hrows, to_rows_cons.
  - cbn. constructor; [done|]. eapply Forall_impl; [done|]. cbn. lia.
Qed.

Lemma lists_next_fresh rows t : lists rows t -> t_rows t !! t_next t = None.
Proof.
  intros [Hnd Hrows Hnext]. rewrite Hrows. apply to_rows_none.
  intros (r & E & Hin)%list_elem_of_fmap. eapply Forall_forall in Hin; [|exact Hnext]. cbn in Hin. lia.
Qed.

Lemma lists_size rows t : lists rows t -> zlen rows = Z.of_nat (size (t_rows t)).
Proof.
  intros [Hnd Hrows _]. rewrite Hrows. unfold to_rows, zlen. f_equal.
  rewrite map_size_list_to_map by by rewrite to_rows_keys. by rewrite length_map.
Qed.

(** ** Refinement *)

Section Refinement.
Context {P : Type} {PS : PageStore P} {PL : PageStoreLaws P}.
Implicit Types (rs : RowStore P) (d : disk) (t : table).

(** The pages of the store list the table; its counters agree with it. *)
Definition rs_table rs d t : Prop :=
  exists layout, rs_layout rs d layout /\ lists (concat layout) t /\
    t_next t = next_row_id_ rs /\ active_row_count_ rs = live_count (concat layout).

(** The pages the next operation may need can be addressed. *)
Definition room_for rs t : Prop :=
  ps_room (rs_page_size_ rs) (2 + Z.max (data_page_count_ rs) (Z.of_nat (size (t_rows t)))).

(** The same file with the same page size, and at most as many data pages as
    the operation could need. *)
Definition same_store t rs rs' : Prop :=
  rs_path rs' = rs_path rs /\ rs_page_size_ rs' = rs_page_size_ rs /\
  data_page_count_ rs' <= 1 + Z.max (data_page_count_ rs) (Z.of_nat (size (t_rows t))).

Lemma same_store_refl rs t : same_store t rs rs.
Proof. unfold same_store. split_and!; [done|done|lia]. Qed.
#[local] Hint Resolve same_store_refl : core.

Lemma layout_entries_fit rs d layout :
  rs_layout rs d layout ->
  Forall (fun row => page_header_size + zlen (SerializeRowEntry row) <= rs_page_size_ rs) (concat layout).
Proof.
  intros [_ Hfit _ _]. apply Forall_forall. intros row Hin.
  apply list_elem_of_In, in_concat in Hin as (rows & H1 & H2).
  apply list_elem_of_In in H1, H2. eapply Forall_forall in Hfit; [|exact H1].
  pose proof (rows_size_elem _ _ H2). unfold rows_fit in Hfit. lia.
Qed.

Lemma entry_row_ok i tup b size :
  in_u64 i -> tuple_ok tup -> size < 2 ^ 32 -> entry_fits size (mkRow i tup b) = true ->
  row_ok (mkRow i tup b).
Proof.
  unfold entry_fits. intros ? ? ? E. zbool. rewrite zlen_SerializeRowEntry in E.
  split_and!; [done|done|]. unfold SerializeRow in E. cbv zeta in E. cbn [tuple rid deleted] in *.
  change page_header_size with 20 in E. zlia.
Qed.

Lemma rs_table_bounds rs d t :
  rs_table rs d t -> 36 <= rs_page_size_ rs < 2 ^ 32 /\ in_u64 (next_row_id_ rs) /\
    0 <= data_page_count_ rs.
Proof.
  intros (layout & Hl & _). pose proof (l_count _ _ _ Hl). destruct Hl as [[] _ _ (_ & ? & ? & _)].
  split_and!; try done; zlia || lia.
Qed.

(** A table is untouched by changes of other files. *)
Lemma rs_table_frame rs d d' t path :
  rs_table rs d t -> rs_path rs <> path -> same_except path d d' -> rs_table rs d' t.
Proof.
  intros (layout & [[] ? ? ?] & Hrest) Hne Hse. exists layout. split; [|done]. split; try done. split; try done.
  by eapply ps_rep_frame.
Qed.

Lemma room_bound rs d t : rs_table rs d t -> room_for rs t ->
  2 + Z.max (data_page_count_ rs) (Z.of_nat (size (t_rows t))) < 2 ^ 63.
Proof.
  intros Ht Hr. apply rs_table_bounds in Ht. eapply ps_room_bound; [|exact Hr]. lia.
Qed.

(** Loading the rows of a store that represents a table. *)
Lemma LoadAllRows_table rs d layout :
  rs_layout rs d layout -> data_page_count_ rs < 2 ^ 64 - 1 ->
  LoadAllRows (rs, d) = (Ok (concat layout), (rs, d)).
Proof. intros Hl ?. apply LoadAllRows_ok; [done|]. by rewrite <- (l_count _ _ _ Hl). Qed.

Lemma Insert_refines row rs d t :
  rs_table rs d t -> room_for rs t -> tuple_ok (tuple row) -> t_next t + 1 < 2 ^ 64 ->
  exists rs' d', Insert row (rs, d) =
      ((t_insert (rs_page_size_ rs) (tuple row) t).1, (rs', d')) /\
    rs_table rs' d' (t_insert (rs_page_size_ rs) (tuple row) t).2 /\
    same_store t rs rs' /\ same_except (rs_path rs) d d'.
Proof.
  intros Ht Hroom Htup Hnext. pose proof (rs_table_bounds _ _ _ Ht) as (Hsize & Hu & ?).
  pose proof (room_bound _ _ _ Ht Hroom) as Hb.
  destruct Ht as (layout & Hl & Hlist & En & Ea). pose proof (l_count _ _ _ Hl) as Hc.
  pose proof (lists_size _ _ Hlist) as Hsz. pose proof (live_count_bound (concat layout)) as Hlc.
  unfold t_insert. rewrite En in *. destruct (entry_fits _ _) eqn:Efit; cbn [fst snd].
  - pose proof (entry_row_ok _ _ _ (rs_page_size_ rs) Hu Htup ltac:(lia) Efit) as Hrow.
    unfold entry_fits in Efit. zbool.
    destruct (Insert_ok row rs d layout Hl Hrow Efit) as (p & n & d' & layout' & E & Hl' & Hp & Hn & Hpath & Hse);
      [lia|lia|eapply ps_room_le; [|exact Hroom|]; lia|].
    eexists _, d'. split_and!; [exact E| |split_and!; [exact Hpath|done|cbn; lia]|done].
    exists layout'. split_and!; [done| |done|].
    + eapply lists_perm; [|symmetry; exact Hp].
      apply (lists_add _ t (mkRow (next_row_id_ rs) (tuple row) false)); cbn; try done; try lia.
      rewrite <- En. by eapply lists_next_fresh.
    + cbn. rewrite (live_count_perm _ _ Hp).
      rewrite (live_count_perm _ (mkRow (next_row_id_ rs) (tuple row) false :: concat layout))
        by (symmetry; apply Permutation_cons_append).
      rewrite live_count_cons. cbn. lia.
  - unfold entry_fits in Efit. zbool. exists rs, d.
    split_and!; [|by exists layout|auto|done].
    unfold Insert. rewrite M_bind_eq, require_open_ok by apply Hl. rewrite M_bind_eq. cbn [this fst].
    cbv zeta. rewrite M_bind_eq. unfold FindPageWithFreeSpace.
    rewrite M_bind_eq, require_open_ok by apply Hl. rewrite M_bind_eq. cbn [this fst].
    rewrite M_bind_eq. unfold reject_if. rewrite (proj2 (Z.ltb_lt _ _)) by done. done.
Qed.

Lemma GetIncludingDeleted_refines i rs d t :
  rs_table rs d t -> room_for rs t ->
  GetIncludingDeleted i (rs, d) =
    (match t_rows t !! i with
     | None => Err kNotFound "Row not found"
     | Some (tup, b) => Ok (mkRow i tup b)
     end, (rs, d)).
Proof.
  intros Ht Hroom. pose proof (room_bound _ _ _ Ht Hroom).
  destruct Ht as (layout & Hl & Hlist & En & Ea).
  unfold GetIncludingDeleted. rewrite M_bind_eq, require_open_ok by apply Hl.
  rewrite M_bind_eq, (LoadAllRows_table _ _ _ Hl) by lia. rewrite M_bind_eq. unfold lift.
  destruct (t_rows t !! i) as [[tup b]|] eqn:Ei.
  - destruct (FindRowIndexById_found _ _ _ _ _ Hlist Ei) as (l1 & l2 & _ & -> & Hr).
    cbn. by rewrite Hr.
  - by rewrite (FindRowIndexById_missing _ _ _ Hlist Ei).
Qed.

Lemma Get_refines i rs d t :
  rs_table rs d t -> room_for rs t -> Get i (rs, d) = (t_get i t, (rs, d)).
Proof.
  intros Ht Hroom. unfold Get, t_get. rewrite M_bind_eq, require_open_ok.
  2:{ destruct Ht as (layout & Hl & _). apply Hl. }
  rewrite M_bind_eq, (GetIncludingDeleted_refines i rs d t) by done.
  by destruct (t_rows t !! i) as [[tup []]|].
Qed.

(** Rewriting the store with rows that list another table. *)
Lemma RewriteAllRows_table rs d layout next active rows t t' :
  rs_layout rs d layout -> lists rows t' -> zlen rows <= 1 + Z.of_nat (size (t_rows t)) -> Forall row_ok rows ->
  Forall (fun row => page_header_size + zlen (SerializeRowEntry row) <= rs_page_size_ rs) rows ->
  t_next t' = next -> active = live_count rows -> in_u64 next ->
  ps_room (rs_page_size_ rs) (1 + Z.max (data_page_count_ rs) (zlen rows)) ->
  exists rs' d',
    RewriteAllRows rows (set_counters next (data_page_count_ rs) active rs, d) = (Ok tt, (rs', d')) /\
    rs_table rs' d' t' /\ same_store t rs rs' /\ same_except (rs_path rs) d d'.
Proof.
  intros Hl Hlist Hlen Hok Hfit En Ea Hnext Hroom. pose proof (l_view _ _ _ Hl) as Hv.
  pose proof (rs_view_counters _ _ _ next active Hv) as Hv'.
  assert (0 < rs_page_size_ rs) as Hpos by (destruct Hv; lia).
  pose proof (ps_room_bound _ _ Hpos Hroom). pose proof (live_count_bound rows).
  destruct (RewriteAllRows_ok _ d _ _ rows Hv') as (p & n & d' & layout' & E & Hl' & Hcat & Hn & Hp & Hse);
    [done|done|done|unfold in_u64; cbn; lia|done|].
  eexists _, d'. split_and!; [exact E| |split_and!; [exact Hp|done|cbn in *; lia]|exact Hse].
  exists layout'. rewrite Hcat. by split_and!.
Qed.

Lemma Forall_replace {A} (Q : A -> Prop) l1 x y l2 :
  Forall Q (l1 ++ x :: l2) -> Q y -> Forall Q (l1 ++ y :: l2).
Proof. rewrite !Forall_app, !Forall_cons. tauto. Qed.

Lemma live_count_replace l1 r r' l2 :
  live_count (l1 ++ r' :: l2) =
    live_count (l1 ++ r :: l2) - (if deleted r then 0 else 1) + (if deleted r' then 0 else 1).
Proof.
  rewrite !(live_count_perm (l1 ++ _ :: l2) (_ :: l1 ++ l2)) by by rewrite Permutation_middle.
  rewrite !live_count_cons. lia.
Qed.

Lemma set_counters_same rs :
  set_counters (next_row_id_ rs) (data_page_count_ rs) (active_row_count_ rs) rs = rs.
Proof. by destruct rs. Qed.

Lemma row_in_range rows t i e : lists rows t -> t_rows t !! i = Some e -> i < t_next t.
Proof.
  intros Hl Hi. destruct e as [tup b].
  destruct (FindRowIndexById_found _ _ _ _ _ Hl Hi) as (l1 & l2 & -> & _).
  destruct Hl as [_ _ Hn]. by apply Forall_app in Hn as [_ [? _]%Forall_cons].
Qed.

(** Every stored row fits a page, and its tuple can be written. *)
Lemma rs_table_row rs d t i tup b :
  rs_table rs d t -> t_rows t !! i = Some (tup, b) ->
  in_u64 i /\ tuple_ok tup /\ entry_fits (rs_page_size_ rs) (mkRow i tup b) = true /\ i < t_next t.
Proof.
  intros (layout & Hl & Hlist & _) Hi.
  assert (exists r, r ∈ concat layout /\ rid r = i /\ tuple r = tup /\ deleted r = b) as (r & Hr & <- & <- & <-).
  { destruct Hlist as [Hnd Hrows _]. rewrite Hrows in Hi. unfold to_rows in Hi.
    apply elem_of_list_to_map_2 in Hi. apply list_elem_of_fmap in Hi as (r & [= -> -> ->] & Hr). eauto. }
  pose proof (layout_entries_fit _ _ _ Hl) as Hfit. eapply Forall_forall in Hfit; [|exact Hr].
  pose proof (l_rows _ _ _ Hl) as Hok. eapply Forall_forall in Hok; [|exact Hr]. destruct Hok as (? & ? & ?).
  split_and!; try done; [|by eapply row_in_range].
  unfold entry_fits. destruct r. cbn in *. zlia.
Qed.

Lemma entry_size_deleted i tup b b' :
  zlen (SerializeRowEntry (mkRow i tup b)) = zlen (SerializeRowEntry (mkRow i tup b')).
Proof. rewrite !zlen_SerializeRowEntry. unfold SerializeRow. cbv zeta. cbn [rid tuple deleted]. by to_append. Qed.

Lemma Update_refines i tup rs d t :
  rs_table rs d t -> room_for rs t -> tuple_ok tup ->
  exists rs' d', Update i tup (rs, d) = ((t_update (rs_page_size_ rs) i tup t).1, (rs', d')) /\
    rs_table rs' d' (t_update (rs_page_size_ rs) i tup t).2 /\
    same_store t rs rs' /\ same_except (rs_path rs) d d'.
Proof.
  intros Ht Hroom Htup. pose proof (rs_table_bounds _ _ _ Ht) as (Hsize & Hu & ?).
  pose proof (room_bound _ _ _ Ht Hroom) as Hb. pose proof Ht as (layout & Hl & Hlist & En & Ea).
  unfold t_update, Update. rewrite M_bind_eq, require_open_ok by apply Hl.
  rewrite M_bind_eq, (LoadAllRows_table _ _ _ Hl) by lia. rewrite M_bind_eq. unfold lift at 1.
  destruct (t_rows t !! i) as [[old b]|] eqn:Ei.
  2:{ rewrite (FindRowIndexById_missing _ _ _ Hlist Ei). by exists rs, d. }
  pose proof (row_in_range _ _ _ _ Hlist Ei) as Hi.
  destruct (FindRowIndexById_found _ _ _ _ _ Hlist Ei) as (l1 & l2 & Hrows & -> & Hr).
  cbv zeta. rewrite Hr. rewrite M_bind_eq. cbn [deleted rid].
  destruct b; [by exists rs, d|]. cbn [reject_if mret M_ret].
  rewrite Hrows, zset_split by done.
  pose proof (layout_entries_fit _ _ _ Hl) as Hfits. pose proof (l_rows _ _ _ Hl) as Hok.
  rewrite Hrows in Hlist, Hok, Hfits.
  assert (in_u64 i) as Hiu.
  { apply Forall_app in Hok as [_ [(? & _) _]%Forall_cons]. done. }
  destruct (entry_fits _ _) eqn:Efit; cbn [fst snd].
  - pose proof (entry_row_ok _ _ _ (rs_page_size_ rs) Hiu Htup ltac:(lia) Efit).
    unfold entry_fits in Efit. zbool.
    destruct (RewriteAllRows_table rs d layout (next_row_id_ rs) (active_row_count_ rs)
      (l1 ++ mkRow i tup false :: l2) t (t_set i (tup, false) t)) as (rs' & d' & E & ?); try done.
    + by apply (lists_replace l1 (mkRow i old false) l2).
    + apply lists_size in Hlist. revert Hlist. rewrite !zlen_app, !zlen_cons. lia.
    + by eapply Forall_replace.
    + by eapply Forall_replace.
    + rewrite (live_count_replace l1 (mkRow i old false)), <- Hrows. cbn. lia.
    + eapply ps_room_le; [|exact Hroom|]; [lia|].
      apply lists_size in Hlist. revert Hlist. rewrite !zlen_app, !zlen_cons. lia.
    + exists rs', d'. rewrite set_counters_same in E. done.
  - exists rs, d. split_and!; try done. unfold entry_fits in Efit. zbool.
    unfold RewriteAllRows. rewrite M_bind_eq, require_open_ok by apply Hl.
    rewrite M_bind_eq. cbn [this fst]. rewrite M_bind_eq. unfold lift.
    rewrite BatchRows_too_large; [done|]. eexists. split; [|exact Efit]. set_solver.
Qed.

Lemma Delete_refines i rs d t :
  rs_table rs d t -> room_for rs t ->
  exists rs' d', Delete i (rs, d) = ((t_delete i t).1, (rs', d')) /\
    rs_table rs' d' (t_delete i t).2 /\ same_store t rs rs' /\ same_except (rs_path rs) d d'.
Proof.
  intros Ht Hroom. pose proof (rs_table_bounds _ _ _ Ht) as (Hsize & Hu & ?).
  pose proof (room_bound _ _ _ Ht Hroom) as Hb. pose proof Ht as (layout & Hl & Hlist & En & Ea).
  unfold t_delete, Delete. rewrite M_bind_eq, require_open_ok by apply Hl.
  rewrite M_bind_eq, (LoadAllRows_table _ _ _ Hl) by lia. rewrite M_bind_eq. unfold lift at 1.
  destruct (t_rows t !! i) as [[tup b]|] eqn:Ei.
  2:{ rewrite (FindRowIndexById_missing _ _ _ Hlist Ei). by exists rs, d. }
  destruct (FindRowIndexById_found _ _ _ _ _ Hlist Ei) as (l1 & l2 & Hrows & -> & Hr).
  cbv zeta. rewrite Hr. cbn [deleted rid tuple]. destruct b; [by exists rs, d|].
  rewrite M_bind_eq. unfold update at 1. cbn [fst snd]. rewrite Hrows, zset_split by done.
  pose proof (layout_entries_fit _ _ _ Hl) as Hfits. pose proof (l_rows _ _ _ Hl) as Hok.
  assert (0 < live_count (concat layout)).
  { apply (live_count_live (mkRow i tup false)); [|done]. rewrite Hrows. set_solver. }
  pose proof (live_count_bound (concat layout)). pose proof (lists_size _ _ Hlist).
  rewrite Hrows in Hlist, Hok, Hfits. unfold set_active_row_count. rewrite u64_id by (unfold in_u64; lia).
  apply (RewriteAllRows_table rs d layout); try done.
  - by apply (lists_replace l1 (mkRow i tup false) l2).
  - apply lists_size in Hlist. revert Hlist. rewrite !zlen_app, !zlen_cons. lia.
  - eapply Forall_replace; [done|]. by apply Forall_app in Hok as [_ [? _]%Forall_cons].
  - eapply Forall_replace; [done|]. apply Forall_app in Hfits as [_ [Hf _]%Forall_cons].
    by rewrite (entry_size_deleted i tup true false).
  - rewrite (live_count_replace l1 (mkRow i tup false)), <- Hrows. cbn. lia.
  - eapply ps_room_le; [|exact Hroom|]; [lia|].
    apply lists_size in Hlist. revert Hlist. rewrite !zlen_app, !zlen_cons. lia.
Qed.

Lemma Scan_refines rs d t :
  rs_table rs d t -> room_for rs t ->
  exists rows, Scan (rs, d) = (Ok rows, (rs, d)) /\ is_scan rows t.
Proof.
  intros Ht Hroom. pose proof (room_bound _ _ _ Ht Hroom) as Hb.
  destruct Ht as (layout & Hl & [Hnd Hrows _] & _ & _).
  eexists. split.
  { unfold Scan. rewrite M_bind_eq, require_open_ok by apply Hl.
    rewrite M_bind_eq, (LoadAllRows_table _ _ _ Hl) by lia. done. }
  split.
  - apply NoDup_filter. by eapply NoDup_fmap_1.
  - intros r. rewrite list_elem_of_filter, Hrows. rewrite (to_rows_lookup _ _ Hnd).
    split; intros [E H]; (split; [done|]); by rewrite E in *.
Qed.

Lemma Restore_refines row rs d t :
  rs_table rs d t -> room_for rs t -> tuple_ok (tuple row) -> 0 <= rid row < 2 ^ 64 - 1 ->
  entry_fits (rs_page_size_ rs) (mkRow (rid row) (tuple row) false) = true ->
  exists rs' d', Restore row (rs, d) = (Ok tt, (rs', d')) /\
    rs_table rs' d' (t_restore (rid row) (tuple row) t) /\
    same_store t rs rs' /\ same_except (rs_path rs) d d'.
Proof.
  intros Ht Hroom Htup Hrid Efit. pose proof (rs_table_bounds _ _ _ Ht) as (Hsize & Hu & ?).
  pose proof (room_bound _ _ _ Ht Hroom) as Hb. pose proof Ht as (layout & Hl & Hlist & En & Ea).
  assert (in_u64 (rid row)) as Hiu by (unfold in_u64; lia).
  pose proof (entry_row_ok _ _ _ (rs_page_size_ rs) Hiu Htup ltac:(lia) Efit).
  unfold entry_fits in Efit. zbool.
  pose proof (layout_entries_fit _ _ _ Hl) as Hfits. pose proof (l_rows _ _ _ Hl) as Hok.
  pose proof (live_count_bound (concat layout)). pose proof (lists_size _ _ Hlist) as Hsz.
  assert (in_u64 (Z.max (next_row_id_ rs) (rid row + 1))) by (unfold in_u64 in *; lia).
  unfold t_restore, Restore. rewrite M_bind_eq, require_open_ok by apply Hl.
  rewrite M_bind_eq, (LoadAllRows_table _ _ _ Hl) by lia. cbv zeta. rewrite M_bind_eq.
  rewrite (u64_id (rid row + 1)) by (unfold in_u64; lia).
  destruct (t_rows t !! rid row) as [[old b]|] eqn:Ei.
  - destruct (FindRowIndexById_found _ _ _ _ _ Hlist Ei) as (l1 & l2 & Hrows & -> & Hr).
    rewrite Hr. cbn [deleted]. rewrite Hrows, zset_split in * by done.
    edestruct (RewriteAllRows_table rs d layout (Z.max (next_row_id_ rs) (rid row + 1))
      (live_count (l1 ++ mkRow (rid row) (tuple row) false :: l2))
      (l1 ++ mkRow (rid row) (tuple row) false :: l2) t (t_restore (rid row) (tuple row) t))
      as (rs' & d' & E & Hpost); try done.
    + apply (lists_replace _ _ _ _ (tuple row) false) in Hlist. destruct Hlist as [? Hr' Hn'].
      split; [done|exact Hr'|]. cbn in *. eapply Forall_impl; [done|]. cbn. lia.
    + revert Hsz. rewrite !zlen_app, !zlen_cons. lia.
    + by eapply Forall_replace.
    + by eapply Forall_replace.
    + cbn. by rewrite En.
    + eapply ps_room_le; [|exact Hroom|]; [lia|].
      revert Hsz. rewrite !zlen_app, !zlen_cons. lia.
    + exists rs', d'. split; [|done]. rewrite (live_count_replace l1 (mkRow (rid row) old b)), <- Ea in E.
      cbn [deleted] in E. destruct b.
      * dunfold. rewrite u64_id by (unfold in_u64; lia). rewrite Z.sub_0_r in E. exact E.
      * rewrite Z.sub_add in E. exact E.
  - rewrite (FindRowIndexById_missing _ _ _ Hlist Ei).
    edestruct (RewriteAllRows_table rs d layout (Z.max (next_row_id_ rs) (rid row + 1))
      (active_row_count_ rs + 1) (concat layout ++ [mkRow (rid row) (tuple row) false])
      t (t_restore (rid row) (tuple row) t)) as (rs' & d' & E & Hpost); try done.
    + apply (lists_add _ t (mkRow (rid row) (tuple row) false)); cbn; try done; lia.
    + rewrite zlen_app. change (zlen [_]) with 1. lia.
    + by apply Forall_app_2; [|constructor].
    + by apply Forall_app_2; [|constructor].
    + cbn. by rewrite En.
    + rewrite (live_count_perm _ (_ :: concat layout)) by (symmetry; apply Permutation_cons_append).
      rewrite live_count_cons. cbn. lia.
    + eapply ps_room_le; [|exact Hroom|]; [lia|]. rewrite zlen_app. change (zlen [_]) with 1. lia.
    + exists rs', d'. split; [|done]. dunfold. rewrite u64_id by (unfold in_u64; lia). exact E.
Qed.

Lemma Open_new_refines path size d :
  ps_fresh path size d -> 36 <= size < 2 ^ 32 -> ps_room size 1 ->
  exists rs d', Open (new_RowStore path size, d) = (Ok tt, (rs, d')) /\
    rs_table rs d' empty_table /\ rs_path rs = path /\ rs_page_size_ rs = size /\
    data_page_count_ rs = 0 /\ same_except path d d'.
Proof.
  intros Hf Hs Hr. destruct (Open_new path size d Hf Hs Hr) as (p & d' & E & Hl & Hp & Hse).
  eexists _, d'. split_and!; [exact E| |done|done|done|done].
  exists []. split_and!; try done. split; [constructor|done|constructor].
Qed.

Lemma Reopen_refines rs d t :
  rs_table rs d t ->
  exists rs' d', Open (new_RowStore (rs_path rs) (rs_page_size_ rs), d) = (Ok tt, (rs', d')) /\
    rs_table rs' d' t /\ same_store t rs rs' /\ same_except (rs_path rs) d d'.
Proof.
  intros (layout & Hl & Hlist & En & Ea).
  destruct (Open_stored rs d layout Hl) as (p & d' & E & Hl' & Hp & Hse).
  eexists _, d'. split_and!; [exact E|by exists layout|split_and!; [exact Hp|done|cbn; lia]|done].
Qed.

(** ** Runs refine *)

Lemma spec_op_grows size o t :
  Z.of_nat (base.size (t_rows (spec_op size o t).2)) <= 1 + Z.of_nat (base.size (t_rows t)) /\
  (op_ok size o -> t_next (spec_op size o t).2 <= 1 + Z.max (t_next t) (2 ^ 63)).
Proof.
  assert (forall i (e : Tuple * bool),
    Z.of_nat (base.size (<[i := e]> (t_rows t))) <= 1 + Z.of_nat (base.size (t_rows t))) as Hins.
  { intros i e. rewrite map_size_insert. destruct (t_rows t !! i); cbn; lia. }
  destruct o; cbn.
  - unfold t_insert. destruct (entry_fits _ _); cbn; split; auto; lia.
  - lia.
  - unfold t_update. destruct (t_rows t !! i) as [[? []]|]; [| |]; try destruct (entry_fits _ _);
      cbn; split; auto; lia.
  - unfold t_delete. destruct (t_rows t !! i) as [[? []]|]; cbn; split; auto; lia.
  - split; [auto|]. intros (_ & ? & _). lia.
  - lia.
Qed.

Lemma store_op_refines o rs d t :
  rs_table rs d t -> room_for rs t -> op_ok (rs_page_size_ rs) o -> t_next t + 1 < 2 ^ 64 ->
  exists rs' d', store_op o (rs, d) = ((spec_op (rs_page_size_ rs) o t).1, (rs', d')) /\
    rs_table rs' d' (spec_op (rs_page_size_ rs) o t).2 /\ same_store t rs rs' /\ same_except (rs_path rs) d d'.
Proof.
  intros Ht Hroom Hok Hnext. destruct o as [tup|i|i tup|i|i tup|]; cbn [store_op spec_op op_ok] in *.
  - destruct (Insert_refines (mkRow 0 tup false) rs d t Ht Hroom Hok Hnext) as (rs' & d' & -> & ? & ? & ?).
    cbn in *. destruct (t_insert _ _ _). by exists rs', d'.
  - rewrite (Get_refines i rs d t) by done. by exists rs, d.
  - destruct (Update_refines i tup rs d t Ht Hroom Hok) as (rs' & d' & -> & ? & ? & ?).
    destruct (t_update _ _ _ _). by exists rs', d'.
  - destruct (Delete_refines i rs d t Ht Hroom) as (rs' & d' & -> & ? & ? & ?).
    destruct (t_delete _ _). by exists rs', d'.
  - destruct Hok as (? & ? & ?).
    destruct (Restore_refines (mkRow i tup false) rs d t Ht Hroom) as (rs' & d' & -> & ? & ? & ?);
      [done|cbn; lia|done|]. by exists rs', d'.
  - destruct (Reopen_refines rs d t Ht) as (rs' & d' & E & ? & ? & ?).
    cbn [fst snd]. replace (rs_file_path_ rs) with (rs_path rs).
    + rewrite E. by exists rs', d'.
    + by destruct Ht as (? & [[]] & _).
Qed.

Lemma store_run_refines os rs d t :
  rs_table rs d t -> Forall (op_ok (rs_page_size_ rs)) os ->
  let n := Z.max (data_page_count_ rs) (Z.of_nat (base.size (t_rows t))) in
  ps_room (rs_page_size_ rs) (2 + n + zlen os) -> Z.max (t_next t) (2 ^ 63) + zlen os < 2 ^ 64 - 1 ->
  exists rs' d', store_run os (rs, d) = ((spec_run (rs_page_size_ rs) os t).1, (rs', d')) /\
    rs_table rs' d' (spec_run (rs_page_size_ rs) os t).2 /\
    data_page_count_ rs' <= n + zlen os /\ rs_page_size_ rs' = rs_page_size_ rs /\
    Z.of_nat (base.size (t_rows (spec_run (rs_page_size_ rs) os t).2)) <= n + zlen os.
Proof.
  revert rs d t. induction os as [|o os IH]; intros rs d t Ht Hok n Hroom Hnext.
  { exists rs, d. cbn. split_and!; try done; subst n; zlia. }
  apply Forall_cons in Hok as [Ho Hok]. cbn [store_run spec_run]. rewrite zlen_cons in *.
  assert (0 < rs_page_size_ rs) by (apply rs_table_bounds in Ht; lia).
  pose proof (zlen_nonneg os).
  destruct (store_op_refines o rs d t) as (rs1 & d1 & -> & Ht1 & (Hp & Hs & Hc) & _);
    [done|eapply ps_room_le; [done|exact Hroom|lia]|done|lia|].
  destruct (spec_op_grows (rs_page_size_ rs) o t) as [Hsize Hnx]. specialize (Hnx Ho).
  destruct (spec_op _ o t) as [r t1]; cbn [fst snd] in *. rewrite <- Hs in Hok, Hroom |- *.
  destruct (IH rs1 d1 t1 Ht1 Hok) as (rs2 & d2 & -> & Ht2 & Hc2 & Hs2 & Hsz2).
  { eapply ps_room_le; [by rewrite Hs|exact Hroom|]. lia. }
  { lia. }
  destruct (spec_run _ os t1) as [res t2]; cbn [fst snd] in *.
  exists rs2, d2. split_and!; try done; lia.
Qed.

End Refinement.

(** ** Theorems *)

(** C5. The row store implements the abstract table.  Take a fresh place on a
    healthy disk, open a store there, and run any sequence of inserts, reads,
    updates, deletions, restores and reopenings of the file on it: every call
    returns what the table's operation returns, errors included, and a final
    scan returns the table's live rows, each once.  Page contents, the choice
    of pages, the packing of rows into pages, the counters and the metadata
    page are invisible to the client. *)
Theorem row_store_implements_table path size d os :
  pm_fresh path size d -> 36 <= size < 2 ^ 32 -> Forall (op_ok size) os ->
  page_room size (2 + zlen os) -> zlen os < 2 ^ 62 ->
  exists rs0 d0 rs d' rows,
    Open (new_RowStore (P:=PageManager) path size, d) = (Ok tt, (rs0, d0)) /\
    store_run os (rs0, d0) = ((spec_run size os empty_table).1, (rs, d')) /\
    Scan (rs, d') = (Ok rows, (rs, d')) /\
    is_scan rows (spec_run size os empty_table).2.
Proof.
  intros Hf Hs Hok Hroom Hlen. pose proof (zlen_nonneg os).
  destruct (Open_new_refines (PL:=PageManager_laws) path size d Hf Hs)
    as (rs0 & d0 & E0 & Ht0 & _ & Hs0 & Hc0 & _).
  { cbn. unfold page_room, HeaderSize in *. nia. }
  rewrite <- Hs0 in Hok, Hroom |- *.
  destruct (store_run_refines os rs0 d0 empty_table Ht0 Hok) as (rs & d' & E & Ht & Hc & Hsz & Hn);
    rewrite ?Hc0; [exact Hroom|cbn; lia|].
  assert (Z.max (data_page_count_ rs0) (Z.of_nat (base.size (t_rows empty_table))) = 0) as Hz
    by by rewrite Hc0.
  rewrite Hz in Hc, Hn.
  destruct (Scan_refines rs d' _ Ht) as (rows & Es & Hscan).
  { eapply ps_room_le; [rewrite Hsz; lia|rewrite Hsz; exact Hroom|]. lia. }
  exists rs0, d0, rs, d', rows. rewrite Hs0 in E, Hscan |- *. done.
Qed.

Definition sample_ops : list op :=
  [OpInsert [VInt 7; VString "ann"]; OpInsert [VInt 8; VBool true]; OpGet 0;
   OpUpdate 1 [VInt 9; VNull]; OpDelete 0; OpGet 0; OpReopen; OpInsert [VInt (-1); VString "zoe"];
   OpRestore 0 [VInt 7; VString "ann"]; OpGet 5; OpDelete 5].

Lemma row_store_implements_table_witness :
  exists rs0 d0 rs d' rows,
    Open (new_RowStore (P:=PageManager) "data/t.tbl" 80, empty_disk) = (Ok tt, (rs0, d0)) /\
    store_run sample_ops (rs0, d0) = ((spec_run 80 sample_ops empty_table).1, (rs, d')) /\
    Scan (rs, d') = (Ok rows, (rs, d')) /\
    is_scan rows (spec_run 80 sample_ops empty_table).2.
Proof.
  apply (row_store_implements_table "data/t.tbl" 80 empty_disk sample_ops).
  - apply empty_disk_fresh; [done|lia|]. apply (bool_decide_unpack _). vm_compute. done.
  - lia.
  - unfold sample_ops. repeat constructor; try (vm_compute; done || discriminate).
  - vm_compute. done.
  - vm_compute. done.
Defined.
