(* ===== verification/TableStorage.v ===== *)
(** * Table storage

    Models [src/storage/table_storage.cpp]: a row store behind a table
    descriptor whose schema every written tuple is checked against. *)

From S2P Require Import Prelude BinaryIO Values Serialization Disk PageStore PageManager.
From S2P Require Import RowStore RowStoreSpec RowTable.

Definition ValidateValueAgainstColumn (value : Value) (column : ColumnSchema) : result unit :=
  let name := "Column '" +:+ col_name column +:+ "'" in
  if is_null value then
    check_not (not_null column) kInvalidArgument (name +:+ " does not allow NULL values")
  else
    match col_type column with
    | ctInt => check_not (negb (bool_decide (type value = vtInt))) kInvalidArgument
                 (name +:+ " expects INT value")
    | ctBool => check_not (negb (bool_decide (type value = vtBool))) kInvalidArgument
                  (name +:+ " expects BOOL value")
    | ctString => check_not (negb (bool_decide (type value = vtString))) kInvalidArgument
                    (name +:+ " expects STRING value")
    | ctOther _ => Ok tt
    end.

(** The value column [column] gets when the input has none for it. *)
Definition DefaultForColumn (column : ColumnSchema) : result Value :=
  match default_value column with
  | None =>
      _ ← check_not (not_null column) kInvalidArgument
            ("Missing value for required column '" +:+ col_name column +:+ "'");
      Ok VNull
  | Some candidate =>
      _ ← ValidateValueAgainstColumn candidate column;
      Ok candidate
  end.

(** The loop over the columns of the schema. *)
Fixpoint PrepareValues (input : Tuple) (columns : TableSchema) : result Tuple :=
  match columns with
  | [] => Ok []
  | column :: columns' =>
      match input with
      | candidate :: input' =>
          _ ← ValidateValueAgainstColumn candidate column;
          out ← PrepareValues input' columns';
          Ok (candidate :: out)
      | [] =>
          candidate ← DefaultForColumn column;
          out ← PrepareValues [] columns';
          Ok (candidate :: out)
      end
  end.

Definition PrepareTupleForWrite (descriptor : TableDescriptor) (input : Tuple) : result Tuple :=
  let schema := schema descriptor in
  _ ← check_not (bool_decide (schema = [])) kInternalError "Table schema in descriptor is empty";
  _ ← check_not (zlen schema <? zlen input) kInvalidArgument "Got tuple with too many columns";
  PrepareValues input schema.

Section TableStorage.
Context {P : Type} {PS : PageStore P}.

Record TableStorage := mkTableStorage {
  descriptor_ : TableDescriptor;
  row_store_ : RowStore P;
  ts_is_open_ : bool
}.

Definition new_TableStorage (descriptor : TableDescriptor) (page_size : Z) : TableStorage :=
  mkTableStorage descriptor (new_RowStore (data_file descriptor) page_size) false.

Definition set_row_store (rs : RowStore P) (ts : TableStorage) : TableStorage :=
  mkTableStorage (descriptor_ ts) rs (ts_is_open_ ts).

Definition on_rows {A} (m : M (RowStore P * disk) A) : M (TableStorage * disk) A :=
  on_part row_store_ set_row_store m.

Definition ts_require_open : M (TableStorage * disk) unit :=
  ts ← this;
  reject_if (negb (ts_is_open_ ts)) kInternalError "TableStorage is not opened".

Definition ts_Open : M (TableStorage * disk) unit :=
  ts ← this;
  if ts_is_open_ ts then mret tt else
  _ ← reject_if (bool_decide (data_file (descriptor_ ts) = "")) kInvalidArgument
        "Table data file path is empty";
  _ ← on_rows Open;
  update (fun ts => mkTableStorage (descriptor_ ts) (row_store_ ts) true).

Definition ts_Insert (tuple_ : Tuple) : M (TableStorage * disk) Z :=
  _ ← ts_require_open;
  ts ← this;
  prepared ← lift (PrepareTupleForWrite (descriptor_ ts) tuple_);
  on_rows (Insert (mkRow 0 prepared false)).

Definition ts_Update (rid_ : Z) (tuple_ : Tuple) : M (TableStorage * disk) unit :=
  _ ← ts_require_open;
  ts ← this;
  prepared ← lift (PrepareTupleForWrite (descriptor_ ts) tuple_);
  on_rows (Update rid_ prepared).

Definition ts_Get (rid_ : Z) : M (TableStorage * disk) Row :=
  _ ← ts_require_open;
  on_rows (Get rid_).

Definition ts_Scan : M (TableStorage * disk) (list Row) :=
  _ ← ts_require_open;
  on_rows Scan.

Definition ts_Delete (rid_ : Z) : M (TableStorage * disk) unit :=
  _ ← ts_require_open;
  on_rows (Delete rid_).

Definition ts_Restore (rid_ : Z) (tuple_ : Tuple) : M (TableStorage * disk) unit :=
  _ ← ts_require_open;
  ts ← this;
  prepared ← lift (PrepareTupleForWrite (descriptor_ ts) tuple_);
  on_rows (Restore (mkRow rid_ prepared false)).

End TableStorage.

Arguments TableStorage P : clear implicits.

(** ** What a stored tuple satisfies *)

(** The value has the column's type, or is NULL where the column allows it.  A
    type number outside the enumeration accepts every value. *)
Definition value_fits (c : ColumnSchema) (v : Value) : Prop :=
  match v with
  | VNull => not_null c = false
  | VInt _ => match col_type c with ctInt | ctOther _ => True | _ => False end
  | VString _ => match col_type c with ctString | ctOther _ => True | _ => False end
  | VBool _ => match col_type c with ctBool | ctOther _ => True | _ => False end
  end.

(** One value per column, each fitting its column. *)
Definition conforms (s : TableSchema) (t : Tuple) : Prop := Forall2 value_fits s t.

(** What a column without a value is filled with. *)
Definition column_default (c : ColumnSchema) : Value := default VNull (default_value c).

Lemma ValidateValueAgainstColumn_Ok v c u :
  ValidateValueAgainstColumn v c = Ok u <-> value_fits c v.
Proof.
  unfold ValidateValueAgainstColumn, check_not. destruct u.
  destruct v; cbn; [destruct (not_null c)|destruct (col_type c)..]; cbn; split; done.
Qed.

Lemma ValidateValueAgainstColumn_code v c code m :
  ValidateValueAgainstColumn v c = Err code m -> code = kInvalidArgument.
Proof.
  unfold ValidateValueAgainstColumn, check_not. intros E. repeat case_match; simplify_eq/=; done.
Qed.

Lemma DefaultForColumn_Ok c v :
  DefaultForColumn c = Ok v <-> v = column_default c /\ value_fits c v.
Proof.
  unfold DefaultForColumn, column_default. destruct (default_value c) as [w|]; cbn.
  - rewrite result_bind_Ok. setoid_rewrite ValidateValueAgainstColumn_Ok. naive_solver.
  - unfold check_not. destruct (not_null c) eqn:E; cbn; split.
    + done.
    + intros [-> H]. cbn in H. congruence.
    + by intros [= <-].
    + by intros [-> _].
Qed.

(** Success of the loop: the input is a prefix of the output, the rest are
    the defaults, and the output conforms. *)
Lemma PrepareValues_Ok columns input out :
  (length input <= length columns)%nat ->
  PrepareValues input columns = Ok out <->
  out = input ++ map column_default (drop (length input) columns) /\ conforms columns out.
Proof.
  revert input out. induction columns as [|c cs IH]; intros [|v vs] out Hlen; cbn in Hlen; try lia.
  - cbn. split; [intros [= <-]; split; [done|constructor]|]. by intros [-> _].
  - cbn [PrepareValues]. split.
    + intros H. apply result_bind_Ok in H as (w & Hw & H). apply DefaultForColumn_Ok in Hw as [-> ?].
      apply result_bind_Ok in H as (o & Ho & [= <-]). apply IH in Ho as [-> ?]; [|cbn; lia]. split; [done|by constructor].
    + intros [-> H]. inversion H as [|? ? ? ? Hv Hvs]; subst.
      rewrite (proj2 (DefaultForColumn_Ok c _)) by done. cbn [mbind result_bind].
      by rewrite (proj2 (IH [] (map column_default cs) ltac:(cbn; lia))).
  - cbn [PrepareValues]. split.
    + intros H. apply result_bind_Ok in H as (w & Hw & H). apply ValidateValueAgainstColumn_Ok in Hw.
      apply result_bind_Ok in H as (o & Ho & [= <-]). apply IH in Ho as [-> ?]; [|lia]. split; [done|by constructor].
    + intros [-> H]. inversion H as [|? ? ? ? Hv Hvs]; subst.
      rewrite (proj2 (ValidateValueAgainstColumn_Ok v c tt)) by done. cbn [mbind result_bind].
      by rewrite (proj2 (IH vs (vs ++ map column_default (drop (length vs) cs)) ltac:(lia))).
Qed.

(** The prepared tuple as a function of schema and input. *)
Definition prepared (s : TableSchema) (input : Tuple) : Tuple :=
  input ++ map column_default (drop (length input) s).

Lemma PrepareTupleForWrite_Ok desc input out :
  PrepareTupleForWrite desc input = Ok out <->
  schema desc <> [] /\ zlen input <= zlen (schema desc) /\
  out = prepared (schema desc) input /\ conforms (schema desc) out.
Proof.
  unfold PrepareTupleForWrite, check_not. cbv zeta. case_bool_decide as Es; [cbn; naive_solver|].
  cbn [mbind result_bind]. destruct (_ <? _) eqn:El; zbool; cbn [mbind result_bind].
  - split; [done|]. intros (_ & ? & _). lia.
  - rewrite PrepareValues_Ok by (unfold zlen in El; lia). unfold prepared. naive_solver.
Qed.

(** Every row of the table, deleted ones included, conforms to the schema. *)
Definition typed_table (s : TableSchema) (t : table) : Prop :=
  forall i tup b, t_rows t !! i = Some (tup, b) -> conforms s tup.

(** The schema's defaults are representable and a row of it is not too long. *)
Definition schema_fits (s : TableSchema) : Prop :=
  zlen s <= kMaxTupleValues /\ Forall (fun c => value_ok (column_default c)) s.

Lemma prepared_ok desc input out :
  schema_fits (schema desc) -> Forall value_ok input ->
  PrepareTupleForWrite desc input = Ok out -> tuple_ok out.
Proof.
  intros [Hlen Hdef] Hin (_ & Hle & -> & Hc)%PrepareTupleForWrite_Ok. split.
  - apply Forall2_length in Hc. unfold zlen in *. lia.
  - apply Forall_app_2; [done|]. apply Forall_fmap. by apply Forall_drop.
Qed.

Lemma typed_insert s t i tup b next :
  typed_table s t -> conforms s tup -> typed_table s (mkTable (<[i := (tup, b)]> (t_rows t)) next).
Proof.
  intros Ht Hc j tup' b' Hj. cbn in Hj. destruct (decide (i = j)) as [->|].
  - rewrite lookup_insert_eq in Hj. by simplify_eq.
  - rewrite lookup_insert_ne in Hj by done. eauto.
Qed.

(** ** Runs of a table *)

(** The table's operations behind the check of the tuple. *)
Definition checked_op (desc : TableDescriptor) (size : Z) (o : op) (t : table) : outcome * table :=
  match o with
  | OpInsert tup =>
      match PrepareTupleForWrite desc tup with
      | Ok tup' => spec_op size (OpInsert tup') t
      | Err c m => (OutId (Err c m), t)
      end
  | OpUpdate i tup =>
      match PrepareTupleForWrite desc tup with
      | Ok tup' => spec_op size (OpUpdate i tup') t
      | Err c m => (OutUnit (Err c m), t)
      end
  | OpRestore i tup =>
      match PrepareTupleForWrite desc tup with
      | Ok tup' => spec_op size (OpRestore i tup') t
      | Err c m => (OutUnit (Err c m), t)
      end
  | OpGet _ | OpDelete _ | OpReopen => spec_op size o t
  end.

Fixpoint checked_run (desc : TableDescriptor) (size : Z) (os : list op) (t : table)
    : list outcome * table :=
  match os with
  | [] => ([], t)
  | o :: os' =>
      let '(r, t1) := checked_op desc size o t in
      let '(rs, t2) := checked_run desc size os' t1 in (r :: rs, t2)
  end.

Definition ts_op {P} `{PageStore P} (o : op) (s : TableStorage P * disk)
    : outcome * (TableStorage P * disk) :=
  match o with
  | OpInsert tup => let '(r, s') := ts_Insert tup s in (OutId r, s')
  | OpGet i => let '(r, s') := ts_Get i s in (OutRow r, s')
  | OpUpdate i tup => let '(r, s') := ts_Update i tup s in (OutUnit r, s')
  | OpDelete i => let '(r, s') := ts_Delete i s in (OutUnit r, s')
  | OpRestore i tup => let '(r, s') := ts_Restore i tup s in (OutUnit r, s')
  | OpReopen =>
      let '(r, s') := ts_Open (new_TableStorage (descriptor_ s.1) (rs_page_size_ (row_store_ s.1)), s.2) in
      (OutUnit r, s')
  end.

Fixpoint ts_run {P} `{PageStore P} (os : list op) (s : TableStorage P * disk)
    : list outcome * (TableStorage P * disk) :=
  match os with
  | [] => ([], s)
  | o :: os' =>
      let '(r, s1) := ts_op o s in
      let '(rs, s2) := ts_run os' s1 in (r :: rs, s2)
  end.

#[export] Instance op_eq_dec : EqDecision op.
Proof. solve_decision. Defined.

(** The calls a client can make on a table. *)
Definition call_ok (desc : TableDescriptor) (size : Z) (o : op) : Prop :=
  match o with
  | OpInsert tup | OpUpdate _ tup => Forall value_ok tup
  | OpRestore i tup =>
      Forall value_ok tup /\ 0 <= i < 2 ^ 63 /\
      (forall tup', PrepareTupleForWrite desc tup = Ok tup' -> entry_fits size (mkRow i tup' false) = true)
  | OpGet _ | OpDelete _ | OpReopen => True
  end.

Lemma spec_op_typed s size o t :
  typed_table s t ->
  match o with OpInsert tup | OpUpdate _ tup | OpRestore _ tup => conforms s tup | _ => True end ->
  typed_table s (spec_op size o t).2.
Proof.
  intros Ht Ho. destruct o; cbn; try done.
  - unfold t_insert. destruct (entry_fits _ _); [by apply typed_insert|done].
  - unfold t_update. destruct (t_rows t !! i) as [[? []]|]; try done.
    destruct (entry_fits _ _); [by apply typed_insert|done].
  - unfold t_delete. destruct (t_rows t !! i) as [[? []]|] eqn:E; try done.
    apply typed_insert; eauto.
  - by apply typed_insert.
Qed.

Section Typed.
Context {P : Type} {PS : PageStore P} {PL : PageStoreLaws P}.
Implicit Types (ts : TableStorage P) (d : disk) (t : table).

(** An open table storage that represents [t]. *)
Record ts_table ts d t : Prop := {
  tt_open : ts_is_open_ ts = true;
  tt_rows : rs_table (row_store_ ts) d t;
  tt_path : data_file (descriptor_ ts) = rs_path (row_store_ ts) /\ data_file (descriptor_ ts) <> "";
  tt_typed : typed_table (schema (descriptor_ ts)) t
}.

(** Calls on the row store through the table storage. *)
Lemma ts_open_run {A} (m : M (TableStorage P * disk) A) ts d :
  ts_is_open_ ts = true -> (_ ← ts_require_open; m) (ts, d) = m (ts, d).
Proof. intros E. rewrite M_bind_eq. unfold ts_require_open. dunfold. by rewrite E. Qed.

(** The call on the row store a call on the table comes down to. *)
Definition row_call (desc : TableDescriptor) (o : op) : option op :=
  match o with
  | OpInsert tup => match PrepareTupleForWrite desc tup with Ok t => Some (OpInsert t) | _ => None end
  | OpUpdate i tup => match PrepareTupleForWrite desc tup with Ok t => Some (OpUpdate i t) | _ => None end
  | OpRestore i tup => match PrepareTupleForWrite desc tup with Ok t => Some (OpRestore i t) | _ => None end
  | OpGet _ | OpDelete _ => Some o
  | OpReopen => None
  end.

Lemma ts_op_lift o o' ts d :
  ts_is_open_ ts = true -> row_call (descriptor_ ts) o = Some o' ->
  ts_op o (ts, d) =
    let '(r, (rs', d')) := store_op o' (row_store_ ts, d) in (r, (set_row_store rs' ts, d')).
Proof.
  intros Ho E. destruct o as [tup|i|i tup|i|i tup|]; cbn [row_call] in E; try done;
    try (destruct (PrepareTupleForWrite _ tup) as [tup'|] eqn:Ep; [|done]); injection E as <-;
    cbn [ts_op store_op].
  - unfold ts_Insert. rewrite ts_open_run by done. dunfold. rewrite Ep. unfold on_rows, on_part. cbn [fst snd].
    by destruct (Insert _ _) as [r [rs' d']].
  - unfold ts_Get. rewrite ts_open_run by done. unfold on_rows, on_part. cbn [fst snd].
    by destruct (Get _ _) as [r [rs' d']].
  - unfold ts_Update. rewrite ts_open_run by done. dunfold. rewrite Ep. unfold on_rows, on_part. cbn [fst snd].
    by destruct (Update _ _ _) as [r [rs' d']].
  - unfold ts_Delete. rewrite ts_open_run by done. unfold on_rows, on_part. cbn [fst snd].
    by destruct (Delete _ _) as [r [rs' d']].
  - unfold ts_Restore. rewrite ts_open_run by done. dunfold. rewrite Ep. unfold on_rows, on_part. cbn [fst snd].
    by destruct (Restore _ _) as [r [rs' d']].
Qed.

(** A write the check refuses changes nothing. *)
Lemma ts_op_refused o ts d size t :
  ts_is_open_ ts = true -> row_call (descriptor_ ts) o = None -> o <> OpReopen ->
  ts_op o (ts, d) = ((checked_op (descriptor_ ts) size o t).1, (ts, d)) /\
  (checked_op (descriptor_ ts) size o t).2 = t.
Proof.
  intros Ho E ?. destruct o as [tup|i|i tup|i|i tup|]; cbn [row_call checked_op ts_op] in *; try done;
    destruct (PrepareTupleForWrite _ tup) eqn:Ep; try done.
  - unfold ts_Insert. rewrite ts_open_run by done. dunfold. by rewrite Ep.
  - unfold ts_Update. rewrite ts_open_run by done. dunfold. by rewrite Ep.
  - unfold ts_Restore. rewrite ts_open_run by done. dunfold. by rewrite Ep.
Qed.

Lemma row_call_spec desc size o o' t :
  schema_fits (schema desc) -> call_ok desc size o -> row_call desc o = Some o' ->
  checked_op desc size o t = spec_op size o' t /\ op_ok size o' /\
  match o' with OpInsert tup | OpUpdate _ tup | OpRestore _ tup => conforms (schema desc) tup | _ => True end.
Proof.
  intros Hs Hok E.
  destruct o as [tup|i|i tup|i|i tup|]; cbn [row_call checked_op call_ok] in *; try done;
    try (destruct (PrepareTupleForWrite _ tup) as [tup'|] eqn:Ep; [|done]); injection E as <-; try done.
  - split_and!; [done|by eapply prepared_ok|by apply PrepareTupleForWrite_Ok in Ep as (_ & _ & _ & ?)].
  - split_and!; [done|by eapply prepared_ok|by apply PrepareTupleForWrite_Ok in Ep as (_ & _ & _ & ?)].
  - destruct Hok as (? & ? & ?). cbn [op_ok].
    split_and!; try done; try lia; [by eapply prepared_ok|auto|by apply PrepareTupleForWrite_Ok in Ep as (_ & _ & _ & ?)].
Qed.

Lemma ts_op_refines o ts d t :
  let size := rs_page_size_ (row_store_ ts) in
  ts_table ts d t -> room_for (row_store_ ts) t -> schema_fits (schema (descriptor_ ts)) ->
  call_ok (descriptor_ ts) size o -> t_next t + 1 < 2 ^ 64 ->
  exists ts' d', ts_op o (ts, d) = ((checked_op (descriptor_ ts) size o t).1, (ts', d')) /\
    ts_table ts' d' (checked_op (descriptor_ ts) size o t).2 /\
    same_store t (row_store_ ts) (row_store_ ts') /\ descriptor_ ts' = descriptor_ ts /\
    same_except (rs_path (row_store_ ts)) d d'.
Proof.
  intros size Ht Hroom Hs Hok Hnext. pose proof Ht as [Ho Hr [Hp Hne] Hty].
  destruct (row_call (descriptor_ ts) o) as [o'|] eqn:Ec.
  - destruct (row_call_spec _ size _ _ t Hs Hok Ec) as (Espec & Hok' & Hconf).
    destruct (store_op_refines o' _ _ _ Hr Hroom Hok' Hnext) as (rs' & d' & Es & Ht' & Hss & ?).
    exists (set_row_store rs' ts), d'. rewrite (ts_op_lift _ _ _ _ Ho Ec), Es, Espec.
    split_and!; try done. split; cbn; try done.
    + split; [|done]. destruct Hss as [-> _]. done.
    + by apply spec_op_typed.
  - destruct (decide (o = OpReopen)) as [->|Hre].
    + destruct (Reopen_refines _ _ _ Hr) as (rs' & d' & Eo & Ht' & Hss & ?).
      exists (mkTableStorage (descriptor_ ts) rs' true), d'. cbn [ts_op checked_op spec_op fst snd].
      split_and!; try done.
      * unfold ts_Open. dunfold. cbn [new_TableStorage ts_is_open_ descriptor_ row_store_].
        rewrite bool_decide_false by done. unfold on_rows, on_part. cbn [fst snd row_store_].
        unfold new_TableStorage. cbn [row_store_]. by rewrite Hp, Eo.
      * split; cbn; try done. split; [|done]. destruct Hss as [-> _]. done.
    + destruct (ts_op_refused o ts d size t Ho Ec Hre) as [-> ->].
      exists ts, d. split_and!; try done. apply same_store_refl.
Qed.

Lemma ts_table_frame ts d d' t path :
  ts_table ts d t -> data_file (descriptor_ ts) <> path -> same_except path d d' -> ts_table ts d' t.
Proof. intros [? ? [E ?] ?] Hne Hse. split; try done. eapply rs_table_frame; [done| |done]. congruence. Qed.

Lemma spec_op_size size o t :
  Z.of_nat (base.size (t_rows (spec_op size o t).2)) <= 1 + Z.of_nat (base.size (t_rows t)).
Proof. apply spec_op_grows. Qed.

Lemma checked_op_grows desc size o t :
  call_ok desc size o -> schema_fits (schema desc) ->
  Z.of_nat (base.size (t_rows (checked_op desc size o t).2)) <= 1 + Z.of_nat (base.size (t_rows t)) /\
  t_next (checked_op desc size o t).2 <= 1 + Z.max (t_next t) (2 ^ 63).
Proof.
  intros Hok Hs. destruct (row_call desc o) as [o'|] eqn:Ec.
  - destruct (row_call_spec _ _ _ _ t Hs Hok Ec) as (-> & Hok' & _).
    destruct (spec_op_grows size o' t). auto.
  - destruct o as [tup|i|i tup|i|i tup|]; cbn [row_call checked_op] in *; try done;
      try destruct (PrepareTupleForWrite _ _); try done; cbn; lia.
Qed.

Lemma ts_run_refines os ts d t :
  let size := rs_page_size_ (row_store_ ts) in
  ts_table ts d t -> schema_fits (schema (descriptor_ ts)) ->
  Forall (call_ok (descriptor_ ts) size) os ->
  let n := Z.max (data_page_count_ (row_store_ ts)) (Z.of_nat (base.size (t_rows t))) in
  ps_room size (2 + n + zlen os) -> Z.max (t_next t) (2 ^ 63) + zlen os < 2 ^ 64 - 1 ->
  exists ts' d', ts_run os (ts, d) = ((checked_run (descriptor_ ts) size os t).1, (ts', d')) /\
    ts_table ts' d' (checked_run (descriptor_ ts) size os t).2 /\
    room_for (row_store_ ts') (checked_run (descriptor_ ts) size os t).2 /\
    descriptor_ ts' = descriptor_ ts.
Proof.
  revert ts d t. induction os as [|o os IH]; intros ts d t size Ht Hs Hok n Hroom Hnext.
  { exists ts, d. split_and!; try done. cbn. eapply ps_room_le; [|exact Hroom|].
    - destruct Ht as [_ Hr _ _]. apply rs_table_bounds in Hr. subst size. lia.
    - subst n. zlia. }
  apply Forall_cons in Hok as [Ho Hok]. cbn [ts_run checked_run]. rewrite zlen_cons in *.
  assert (0 < size) by (destruct Ht as [_ Hr _ _]; apply rs_table_bounds in Hr; subst size; lia).
  pose proof (zlen_nonneg os).
  destruct (ts_op_refines o ts d t Ht) as (ts1 & d1 & -> & Ht1 & (Hp & Hsz & Hc) & Hd & _);
    [eapply ps_room_le; [done|exact Hroom|]; lia|done|done|lia|].
  destruct (checked_op_grows (descriptor_ ts) size o t Ho Hs) as [Hsize Hnx]. fold size in Ht1 |- *.
  destruct (checked_op _ size o t) as [r t1]; cbn [fst snd] in *.
  specialize (IH ts1 d1 t1). rewrite Hd, Hsz in IH. fold size in IH.
  destruct (IH Ht1 Hs Hok) as (ts2 & d2 & -> & Ht2 & Hr2 & Hd2);
    [eapply ps_room_le; [done|exact Hroom|]; lia|lia|].
  destruct (checked_run _ size os t1) as [res t2]; cbn [fst snd] in *.
  by exists ts2, d2.
Qed.

Lemma ts_Open_new desc size d :
  ps_fresh (data_file desc) size d -> 36 <= size < 2 ^ 32 -> ps_room size 1 -> data_file desc <> "" ->
  exists ts d', ts_Open (new_TableStorage desc size, d) = (Ok tt, (ts, d')) /\
    ts_table ts d' empty_table /\ descriptor_ ts = desc /\
    rs_page_size_ (row_store_ ts) = size /\ data_page_count_ (row_store_ ts) = 0 /\
    same_except (data_file desc) d d'.
Proof.
  intros Hf Hs Hr Hne.
  destruct (Open_new_refines _ _ _ Hf Hs Hr) as (rs & d' & E & Ht & Hp & Hsz & Hc & ?).
  exists (mkTableStorage desc rs true), d'. split_and!; try done.
  - unfold ts_Open. dunfold. cbn [new_TableStorage ts_is_open_ descriptor_].
    rewrite bool_decide_false by done. unfold on_rows, on_part, new_TableStorage. cbn [fst snd row_store_].
    by rewrite E.
Qed.

End Typed.

(** ** Theorems *)

(** C13. A table storage implements the abstract table behind the schema check,
    and keeps it typed.  Open a table storage on a fresh file and run any
    sequence of calls: each returns what the checked table operation returns
    (the check's error, or the table operation on the tuple completed with the
    column defaults), and every row a final scan returns has one value per
    column, of the column's type, and NULL only where the column allows it. *)
Theorem table_storage_typed desc size d os :
  pm_fresh (data_file desc) size d -> 36 <= size < 2 ^ 32 -> schema_fits (schema desc) ->
  Forall (call_ok desc size) os -> page_room size (2 + zlen os) -> zlen os < 2 ^ 62 ->
  exists ts0 d0 ts d' rows,
    ts_Open (new_TableStorage (P:=PageManager) desc size, d) = (Ok tt, (ts0, d0)) /\
    ts_run os (ts0, d0) = ((checked_run desc size os empty_table).1, (ts, d')) /\
    ts_Scan (ts, d') = (Ok rows, (ts, d')) /\
    is_scan rows (checked_run desc size os empty_table).2 /\
    Forall (fun r => conforms (schema desc) (tuple r)) rows.
Proof.
  intros Hf Hs Hfit Hok Hroom Hlen. pose proof (zlen_nonneg os).
  destruct (ts_Open_new (PL:=PageManager_laws) desc size d Hf Hs) as (ts0 & d0 & E0 & Ht0 & Hd & Hsz & Hc & _).
  { cbn. unfold page_room, HeaderSize in *. nia. }
  { apply Hf. }
  assert (Z.max (data_page_count_ (row_store_ ts0)) (Z.of_nat (base.size (t_rows empty_table))) = 0) as Hz
    by by rewrite Hc.
  destruct (ts_run_refines os ts0 d0 empty_table Ht0) as (ts & d' & E & Ht & Hr & Hd');
    rewrite ?Hd, ?Hsz, ?Hz; try done; [cbn; lia|].
  rewrite Hd, Hsz in E, Ht, Hr. pose proof Ht as [Ho Hrows _ Hty].
  destruct (Scan_refines _ _ _ Hrows Hr) as (rows & Es & Hscan).
  exists ts0, d0, ts, d', rows. split_and!; try done.
  - unfold ts_Scan. rewrite ts_open_run by done. unfold on_rows, on_part. cbn [fst snd].
    rewrite Es. by destruct ts.
  - apply Forall_forall. intros r Hin. apply Hscan in Hin as [_ Hi]. apply Hty in Hi.
    by rewrite Hd', Hd in Hi.
Qed.

Definition sample_schema : TableSchema :=
  [mkColumnSchema "id" ctInt true true None;
   mkColumnSchema "name" ctString false false (Some (VString "none"));
   mkColumnSchema "active" ctBool false false None].
Definition sample_table : TableDescriptor :=
  mkTableDescriptor "db" "users" "data/db/users.tbl" "data/db/users_idx" sample_schema [].
Definition sample_calls : list op :=
  [OpInsert [VInt 1]; OpInsert [VString "no"]; OpInsert [VInt 2; VString "bo"; VBool true];
   OpUpdate 0 [VInt 1; VNull]; OpDelete 1; OpReopen; OpGet 0; OpRestore 1 [VInt 2; VString "bo"];
   OpInsert [VNull]; OpInsert [VInt 3; VNull; VNull; VNull]].

Lemma table_storage_typed_witness :
  exists ts0 d0 ts d' rows,
    ts_Open (new_TableStorage (P:=PageManager) sample_table 128, empty_disk) = (Ok tt, (ts0, d0)) /\
    ts_run sample_calls (ts0, d0) = ((checked_run sample_table 128 sample_calls empty_table).1, (ts, d')) /\
    ts_Scan (ts, d') = (Ok rows, (ts, d')) /\
    is_scan rows (checked_run sample_table 128 sample_calls empty_table).2 /\
    Forall (fun r => conforms (schema sample_table) (tuple r)) rows.
Proof.
  apply (table_storage_typed sample_table 128 empty_disk sample_calls).
  - apply empty_disk_fresh; [done|lia|]. apply (bool_decide_unpack _). vm_compute. done.
  - lia.
  - split; [vm_compute; discriminate|]. repeat apply Forall_cons_2; try apply Forall_nil_2; vm_compute; done.
  - repeat apply Forall_cons_2; try apply Forall_nil_2; cbn [call_ok];
      try (split_and!; [|lia|lia|]);
      lazymatch goal with
      | |- Forall _ _ => repeat apply Forall_cons_2; try apply Forall_nil_2; vm_compute; done
      | |- value_ok _ => vm_compute; done
      | |- True => done
      | _ => idtac
      end.
    intros tup' E. vm_compute in E. injection E as <-. vm_compute. done.
  - vm_compute. done.
  - vm_compute. done.
Defined.
