(* ===== verification/VersionLog.v ===== *)
(** * The version log

    Models [src/versioning/version_log.cpp]: a file with a 12-byte header and
    length-prefixed version records, appended to and read back in order. *)

From S2P Require Import Prelude BinaryIO Values Serialization Disk.

(** [static_cast<VersionOp>(raw)] of a number that is no enumerator is
    [voOther raw]. *)
Inductive VersionOp := voInsert | voUpdate | voDelete | voOther (raw : Z).
#[export] Instance VersionOp_eq_dec : EqDecision VersionOp.
Proof. solve_decision. Defined.

Definition VersionOp_raw (op : VersionOp) : Z :=
  match op with voInsert => 0 | voUpdate => 1 | voDelete => 2 | voOther raw => raw end.
Definition VersionOp_of_raw (raw : Z) : VersionOp :=
  if raw =? 0 then voInsert else if raw =? 1 then voUpdate else if raw =? 2 then voDelete
  else voOther raw.

Record VersionRecord := mkVersionRecord {
  timestamp_ms : Z;
  vr_table_name : string;
  vr_rid : Z;
  vr_op : VersionOp;
  before : Tuple;
  after : Tuple
}.
#[export] Instance VersionRecord_eq_dec : EqDecision VersionRecord.
Proof. solve_decision. Defined.

Definition kVersionLogMagic : bytes := bytes_of_string "CDBVLOG1".
Definition kVersionLogVersion : Z := 1.
Definition LogHeaderSize : Z := zlen kVersionLogMagic + 4.

Definition IsValidVersionOp (op : VersionOp) : bool :=
  match op with voInsert | voUpdate | voDelete => true | voOther _ => false end.

Definition log_header : bytes := WriteUint32 kVersionLogMagic kVersionLogVersion.

(** ** Records *)

Definition ValidateRecord (record : VersionRecord) : result unit :=
  _ ← check_not (bool_decide (vr_table_name record = "")) kInvalidArgument
        "Version record table_name must not be empty";
  check_not (negb (IsValidVersionOp (vr_op record))) kInvalidArgument
    "Version record has invalid operation".

Definition SerializeRecord (record : VersionRecord) : bytes :=
  let out := WriteInt64 [] (timestamp_ms record) in
  let out := WriteString out (vr_table_name record) in
  let out := WriteUint64 out (vr_rid record) in
  let out := WriteUint32 out (u32 (VersionOp_raw (vr_op record))) in
  let out := SerializeTuple (before record) out in
  SerializeTuple (after record) out.

Definition DeserializeRecord : reader VersionRecord :=
  timestamp_ms ← ReadInt64;
  table_name ← ReadString;
  rid ← ReadUint64;
  raw_op ← ReadUint32;
  if negb (IsValidVersionOp (VersionOp_of_raw raw_op)) then
    fail_read kInvalidArgument "Version record contains invalid operation"
  else
    before ← DeserializeTuple;
    after ← DeserializeTuple;
    mret (mkVersionRecord timestamp_ms table_name rid (VersionOp_of_raw raw_op) before after).

(** ** The log *)

Record VersionLog := mkVersionLog { vl_file_path_ : string; vl_is_open_ : bool }.

Definition new_VersionLog (file_path : string) : VersionLog := mkVersionLog file_path false.

(** [std::filesystem::path::parent_path]. *)
Definition parent_path (path : string) : string :=
  if bool_decide (dir_of path = "") && String.prefix "/" path then "/" else dir_of path.

Definition InitializeLogFile (path : string) : M disk unit :=
  _ ← (if bool_decide (parent_path path = "") then mret tt else EnsureDir (parent_path path));
  _ ← stream_create path kIoError "Failed to create version log file";
  stream_write path 0 log_header kIoError "Failed to write version log header".

Definition ValidateLogHeader (path : string) : M disk unit :=
  _ ← io_check kIoError "Failed to seek to version log header";
  header ← stream_read path 0 LogHeaderSize;
  _ ← reject_if (negb (zlen header =? LogHeaderSize)) kInvalidArgument
        "Version log header is truncated";
  _ ← reject_if (negb (bool_decide (ztake (zlen kVersionLogMagic) header = kVersionLogMagic)))
        kInvalidArgument "Invalid version log magic";
  '(version, _) ← lift (ReadUint32 header (zlen kVersionLogMagic));
  reject_if (negb (version =? kVersionLogVersion)) kInvalidArgument
    "Unsupported version log version".

Definition vl_require_open : M (VersionLog * disk) unit :=
  log ← this;
  reject_if (negb (vl_is_open_ log)) kInternalError "VersionLog is not open".

Definition WriteLogHeader : M (VersionLog * disk) unit :=
  _ ← vl_require_open;
  log ← this;
  _ ← on_disk (io_check kIoError "Failed to seek to version log header for write");
  on_disk (stream_write (vl_file_path_ log) 0 log_header kIoError
             "Failed to write version log header").

Definition vl_Open : M (VersionLog * disk) unit :=
  log ← this;
  if vl_is_open_ log then mret tt else
  let path := vl_file_path_ log in
  _ ← reject_if (bool_decide (path = "")) kInvalidArgument "VersionLog file path is empty";
  exists_ ← on_disk (FileExists path);
  _ ← (if (exists_ : bool) then mret tt else on_disk (InitializeLogFile path));
  _ ← on_disk (stream_open path kIoError "Failed to open version log file");
  _ ← on_disk (ValidateLogHeader path);
  update (fun log => mkVersionLog (vl_file_path_ log) true).

Definition vl_Flush : M (VersionLog * disk) unit :=
  _ ← vl_require_open;
  on_disk (io_check kIoError "Failed to flush version log file").

Definition Append (record : VersionRecord) : M (VersionLog * disk) unit :=
  _ ← vl_require_open;
  log ← this;
  _ ← lift (ValidateRecord record);
  let payload := SerializeRecord record in
  _ ← reject_if (2 ^ 32 - 1 <? zlen payload) kInvalidArgument
        "Serialized version record is too large";
  let entry := WriteUint32 [] (u32 (zlen payload)) ++ payload in
  _ ← on_disk (io_check kIoError "Failed to seek to end of version log");
  d ← on_disk get;
  on_disk (stream_write (vl_file_path_ log) (zlen (file_content d (vl_file_path_ log))) entry
             kIoError "Failed to append version record").

(** The record in [payload], which must be used up. *)
Definition ParsePayload (payload : bytes) : result VersionRecord :=
  '(record, offset) ← DeserializeRecord payload 0;
  _ ← check_not (negb (offset =? zlen payload)) kInvalidArgument
        "Version log record has trailing payload bytes";
  Ok record.

(** The loop of [ReadAll] at stream position [pos].  Every round moves the
    position by at least four bytes; [fuel] bounds the rounds. *)
Fixpoint ReadRecords (path : string) (fuel : nat) (pos : Z) : M disk (list VersionRecord) :=
  match fuel with
  | O => throw kInternalError "ReadRecords: out of fuel"
  | S fuel' =>
      size_bytes ← stream_read path pos 4;
      if zlen size_bytes =? 0 then mret [] else
      _ ← reject_if (negb (zlen size_bytes =? 4)) kInvalidArgument
            "Truncated version log record size";
      '(record_size, _) ← lift (ReadUint32 size_bytes 0);
      payload ← stream_read path (pos + 4) record_size;
      _ ← reject_if (negb (zlen payload =? record_size)) kInvalidArgument
            "Truncated version log record payload";
      record ← lift (ParsePayload payload);
      rest ← ReadRecords path fuel' (pos + 4 + record_size);
      mret (record :: rest)
  end.

Definition ReadAll : M (VersionLog * disk) (list VersionRecord) :=
  _ ← vl_require_open;
  log ← this;
  _ ← on_disk (io_check kIoError "Failed to seek past version log header");
  d ← on_disk get;
  on_disk (ReadRecords (vl_file_path_ log) (S (length (file_content d (vl_file_path_ log))))
             LogHeaderSize).

(** ** Records round trip *)

Definition record_ok (r : VersionRecord) : Prop :=
  in_i64 (timestamp_ms r) /\ string_fits (vr_table_name r) /\ in_u64 (vr_rid r) /\
  IsValidVersionOp (vr_op r) = true /\ tuple_ok (before r) /\ tuple_ok (after r).
#[export] Instance record_ok_dec r : Decision (record_ok r) := _.

Lemma VersionOp_of_raw_raw op : IsValidVersionOp op = true -> VersionOp_of_raw (VersionOp_raw op) = op.
Proof. by destruct op. Qed.
Lemma VersionOp_raw_of_raw raw : VersionOp_raw (VersionOp_of_raw raw) = raw.
Proof. unfold VersionOp_of_raw. repeat case_match; zbool; done. Qed.
Lemma VersionOp_valid_u32 op : IsValidVersionOp op = true -> in_u32 (VersionOp_raw op).
Proof. by destruct op. Qed.

Lemma SerializeRecord_eq r :
  SerializeRecord r = WriteInt64 [] (timestamp_ms r) ++ WriteString [] (vr_table_name r) ++
    WriteUint64 [] (vr_rid r) ++ WriteUint32 [] (u32 (VersionOp_raw (vr_op r))) ++
    SerializeTuple (before r) [] ++ SerializeTuple (after r) [].
Proof.
  unfold SerializeRecord. cbv zeta.
  rewrite (SerializeTuple_append (after r)), (SerializeTuple_append (before r)). by to_append.
Qed.

Lemma DeserializeRecord_decodes r : record_ok r -> decodes DeserializeRecord (SerializeRecord r) r.
Proof.
  intros (Hts & Hname & Hrid & Hop & Hb & Ha). rewrite SerializeRecord_eq.
  pose proof (VersionOp_valid_u32 _ Hop). rewrite u32_id by done.
  eapply decodes_bind; [by apply ReadInt64_decodes|].
  eapply decodes_bind; [by apply ReadString_decodes|].
  eapply decodes_bind; [by apply ReadUint64_decodes|].
  eapply decodes_bind; [by apply ReadUint32_decodes|].
  rewrite VersionOp_of_raw_raw, Hop by done. cbn [negb].
  eapply decodes_bind; [by apply DeserializeTuple_decodes|].
  eapply decodes_map; [by apply DeserializeTuple_decodes|]. by destruct r.
Qed.

Lemma DeserializeRecord_consumes :
  consumes DeserializeRecord (fun r e => record_ok r /\ e = SerializeRecord r).
Proof.
  eapply consumes_weaken.
  - eapply consumes_bind; [apply ReadInt64_consumes|]. intros ts _ _.
    eapply consumes_bind; [apply ReadString_consumes|]. intros name _ _.
    eapply consumes_bind; [apply ReadUint64_consumes|]. intros rd _ _.
    eapply (consumes_bind _ _ _ (fun raw r e => exists b a,
      r = mkVersionRecord ts name rd (VersionOp_of_raw raw) b a /\ tuple_ok b /\ tuple_ok a /\
      IsValidVersionOp (VersionOp_of_raw raw) = true /\ e = SerializeTuple b [] ++ SerializeTuple a []));
      [apply ReadUint32_consumes|]. intros raw _ _.
    destruct (IsValidVersionOp _) eqn:Hop; cbn [negb]; [|apply consumes_fail].
    eapply consumes_weaken.
    + eapply consumes_bind; [apply DeserializeTuple_consumes|]. intros b _ _.
      eapply consumes_bind; [apply DeserializeTuple_consumes|]. intros. apply consumes_ret.
    + intros r e (b & ? & ? & -> & [? ->] & a & ? & ? & -> & [? ->] & -> & ->).
      exists b, a. rewrite app_nil_r. by split_and!.
  - intros r e (ts & ? & ? & -> & [? ->] & name & ? & ? & -> & [? ->] & rd & ? & ? & -> & [? ->] &
      raw & ? & ? & -> & [? ->] & b & a & -> & ? & ? & ? & ->).
    split; [done|]. rewrite SerializeRecord_eq.
    cbn [timestamp_ms vr_table_name vr_rid vr_op before after].
    by rewrite VersionOp_raw_of_raw, u32_id.
Qed.

(** ** The file *)

Definition log_entry (r : VersionRecord) : bytes :=
  WriteUint32 [] (zlen (SerializeRecord r)) ++ SerializeRecord r.
Definition log_image (rs : list VersionRecord) : bytes := log_header ++ concat (map log_entry rs).

(** The records [Append] accepts. *)
Definition entry_ok (r : VersionRecord) : Prop :=
  record_ok r /\ vr_table_name r <> "" /\ zlen (SerializeRecord r) < 2 ^ 32.
#[export] Instance entry_ok_dec r : Decision (entry_ok r) := _.

Record vl_rep (log : VersionLog) (d : disk) (rs : list VersionRecord) : Prop := {
  vr_open : vl_is_open_ log = true;
  vr_healthy : healthy d;
  vr_wf : disk_wf d;
  vr_path : vl_file_path_ log <> "";
  vr_file : d_files d !! vl_file_path_ log = Some (log_image rs);
  vr_records : Forall entry_ok rs
}.

Lemma zlen_log_entry r : zlen (log_entry r) = 4 + zlen (SerializeRecord r).
Proof. unfold log_entry. rewrite zlen_app. reflexivity. Qed.

Lemma ReadUint32_at z post : in_u32 z -> ReadUint32 (le_bytes 4 z ++ post) 0 = Ok (z, 4).
Proof. intros Hz. apply (ReadUint32_decodes z Hz [] post). Qed.

Lemma ParsePayload_ok r : record_ok r -> ParsePayload (SerializeRecord r) = Ok r.
Proof.
  intros Hr. unfold ParsePayload.
  pose proof (DeserializeRecord_decodes r Hr [] []) as E. rewrite app_nil_r, app_nil_l in E.
  change (zlen []) with 0 in E. rewrite E. cbn. by rewrite Z.eqb_refl.
Qed.

(** One round of the loop on an intact entry. *)
Lemma ReadRecords_entry path fuel pre r post d :
  healthy d -> d_files d !! path = Some (pre ++ log_entry r ++ post) -> entry_ok r ->
  ReadRecords path (S fuel) (zlen pre) d =
    (rest ← ReadRecords path fuel (zlen pre + zlen (log_entry r)); mret (r :: rest)) d.
Proof.
  intros Hd Hfile (Hr & _ & Hsmall). assert (in_u32 (zlen (SerializeRecord r))) by (split; zlia).
  cbn [ReadRecords]. rewrite M_bind_eq, stream_read_healthy, (file_content_eq _ _ _ Hfile) by done.
  rewrite zdrop_app_eq by done. unfold log_entry at 1 2 3. rewrite <- app_assoc.
  rewrite ztake_app_eq by done. change (zlen (WriteUint32 [] _)) with 4. cbn [Z.eqb Pos.eqb negb].
  rewrite M_bind_eq. cbn [reject_if mret M_ret]. rewrite M_bind_eq. unfold lift at 1.
  unfold WriteUint32, WriteBytes at 1. rewrite app_nil_l.
  pose proof (ReadUint32_at (zlen (SerializeRecord r)) [] ltac:(done)) as E. rewrite app_nil_r in E.
  rewrite E. rewrite M_bind_eq, stream_read_healthy, (file_content_eq _ _ _ Hfile) by done.
  assert (zdrop (zlen pre + 4) (pre ++ log_entry r ++ post) = SerializeRecord r ++ post) as ->.
  { unfold log_entry. rewrite <- app_assoc, app_assoc. apply zdrop_app_eq. rewrite zlen_app. done. }
  rewrite ztake_app_eq, Z.eqb_refl by done. cbn [negb]. rewrite M_bind_eq. cbn [reject_if mret M_ret].
  rewrite M_bind_eq. unfold lift at 1. rewrite ParsePayload_ok by done.
  rewrite zlen_log_entry. rewrite Z.add_assoc. done.
Qed.

Lemma ReadRecords_ok path rs pre fuel d :
  healthy d -> d_files d !! path = Some (pre ++ concat (map log_entry rs)) ->
  Forall entry_ok rs -> (length rs < fuel)%nat ->
  ReadRecords path fuel (zlen pre) d = (Ok rs, d).
Proof.
  intros Hd. revert pre fuel. induction rs as [|r rs IH]; intros pre fuel Hfile Hok Hfuel;
    (destruct fuel as [|fuel]; [cbn in Hfuel; lia|]).
  - cbn [ReadRecords]. rewrite M_bind_eq, stream_read_healthy, (file_content_eq _ _ _ Hfile) by done.
    cbn [map concat]. by rewrite app_nil_r, zdrop_all.
  - apply Forall_cons in Hok as [Hr Hok]. cbn [map concat] in Hfile.
    rewrite (ReadRecords_entry _ _ _ _ _ _ Hd Hfile Hr), M_bind_eq.
    rewrite app_assoc in Hfile. specialize (IH (pre ++ log_entry r) fuel Hfile Hok).
    rewrite zlen_app in IH. rewrite IH; [done|]. cbn in Hfuel. lia.
Qed.

Lemma length_log_image rs : (length rs <= length (log_image rs))%nat.
Proof.
  unfold log_image. rewrite length_app. enough (length rs <= length (concat (map log_entry rs)))%nat by lia.
  induction rs as [|r rs IH]; [done|]. cbn [map concat length]. rewrite length_app.
  pose proof (zlen_log_entry r). unfold zlen in *. lia.
Qed.

Lemma ReadAll_ok log d rs : vl_rep log d rs -> ReadAll (log, d) = (Ok rs, (log, d)).
Proof.
  intros []. unfold ReadAll, vl_require_open. dunfold. rewrite vr_open0. cbn [negb].
  rewrite io_check_healthy by done. rewrite (file_content_eq _ _ _ vr_file0).
  change LogHeaderSize with (zlen log_header).
  rewrite (ReadRecords_ok _ rs log_header); [done|done|done|done|].
  pose proof (length_log_image rs). lia.
Qed.

Lemma Append_ok log d rs r :
  vl_rep log d rs -> entry_ok r ->
  exists d', Append r (log, d) = (Ok tt, (log, d')) /\ vl_rep log d' (rs ++ [r]) /\
    same_except (vl_file_path_ log) d d'.
Proof.
  intros [] Hr. pose proof Hr as ((_ & _ & _ & Hop & _) & Hname & Hsmall).
  set (d' := set_files <[vl_file_path_ log := log_image (rs ++ [r])]> d).
  assert (same_except (vl_file_path_ log) d d') as Hse by by eapply same_except_set, file_not_dir.
  exists d'. split_and!; [|split; try done|done].
  - unfold Append, vl_require_open. dunfold. rewrite vr_open0. cbn [negb].
    unfold ValidateRecord. rewrite bool_decide_false, Hop by done. cbn [check_not mbind result_bind negb].
    rewrite (proj2 (Z.ltb_ge _ _)) by lia. rewrite io_check_healthy, stream_write_healthy by done.
    rewrite (file_content_eq _ _ _ vr_file0), splice_end by done.
    rewrite u32_id by (split; zlia). fold (log_entry r).
    unfold d', log_image. rewrite map_app, concat_app. cbn [map concat].
    by rewrite app_nil_r, app_assoc.
  - by eapply se_wf.
  - apply lookup_insert_eq.
  - by apply Forall_app_2; [|constructor].
Qed.

Lemma vl_rep_frame log d d' rs path :
  vl_rep log d rs -> vl_file_path_ log <> path -> same_except path d d' -> vl_rep log d' rs.
Proof. intros [] Hne [? ? Hf ? ?]. split; auto. by rewrite Hf. Qed.

Lemma vl_Open_existing log d rs :
  vl_rep log d rs -> vl_Open (new_VersionLog (vl_file_path_ log), d) = (Ok tt, (log, d)).
Proof.
  intros []. unfold vl_Open. dunfold. cbn [vl_is_open_ new_VersionLog vl_file_path_].
  rewrite bool_decide_false by done. rewrite FileExists_healthy by done.
  unfold path_exists. rewrite vr_file0, bool_decide_true by done. cbn [orb].
  rewrite (stream_open_healthy _ _ _ _ _ vr_healthy0 vr_file0).
  unfold ValidateLogHeader. dunfold. rewrite io_check_healthy, stream_read_healthy by done.
  rewrite (file_content_eq _ _ _ vr_file0), zdrop_0. unfold log_image.
  rewrite ztake_app_eq by done. change (zlen log_header =? LogHeaderSize) with true. cbn [negb].
  change (ztake (zlen kVersionLogMagic) log_header) with kVersionLogMagic.
  rewrite bool_decide_true by done. cbn [negb].
  change (ReadUint32 log_header (zlen kVersionLogMagic)) with (Ok (1, 12) : result (Z * Z)).
  cbn. destruct log. cbn in *. by subst.
Qed.

Record vl_fresh (path : string) (d : disk) : Prop := {
  vf_healthy : healthy d;
  vf_wf : disk_wf d;
  vf_path : path <> "";
  vf_file : d_files d !! path = None;
  vf_dir : (path ∉ d_dirs d) /\ (path ∉ dirs_of (parent_path path));
  vf_dirs : dirs_clear d (parent_path path)
}.

Lemma vl_fresh_free path d : free_path d path -> vl_fresh path d.
Proof.
  intros [? ? ? ? ? Hself Hdirs]. assert (forall p, p ∈ dirs_of (parent_path path) -> p ∈ parent_dirs path) as Hsub.
  { intros p Hp. unfold parent_path in Hp. case_match; [apply list_elem_of_singleton in Hp as ->; left|by right]. }
  split; try done; [split; [done|auto]|]. intros p Hp. auto.
Qed.

Lemma InitializeLogFile_ok path d :
  vl_fresh path d ->
  exists d', InitializeLogFile path d = (Ok tt, d') /\
    d_files d' = <[path := log_header]> (d_files d) /\ same_except path d d'.
Proof.
  intros []. destruct vf_dir0 as [Hd1 Hd2].
  set (d1 := if bool_decide (parent_path path = "") then d else with_dirs (parent_path path) d).
  assert ((if bool_decide (parent_path path = "") then mret tt else EnsureDir (parent_path path)) d
    = (Ok tt, d1)) as E1.
  { unfold d1. case_bool_decide; [done|]. by apply EnsureDir_healthy. }
  assert (same_except path d d1) as Hse1.
  { unfold d1. case_bool_decide; [done|]. apply same_except_with_dirs; [|done].
    intros p Hp. unfold parent_path in Hp. case_match; [apply list_elem_of_singleton in Hp as ->; left|by right]. }
  assert (d_files d1 = d_files d) as Hf by by unfold d1; case_bool_decide.
  assert (healthy d1) by by eapply se_healthy.
  assert (path ∉ d_dirs d1) as Hnd.
  { unfold d1. case_bool_decide; [done|]. cbn. set_solver. }
  assert (dir_exists d1 (dir_of path) = true) as Hdir.
  { unfold dir_exists. destruct (decide (dir_of path = "")) as [->|Hne]; [done|].
    rewrite (bool_decide_true (_ ∈ _)); [by rewrite orb_true_r|].
    assert (parent_path path = dir_of path) as Hp by (unfold parent_path; by rewrite bool_decide_false).
    unfold d1. rewrite Hp, bool_decide_false by done. cbn. apply dir_in_dirs_of in Hne. set_solver. }
  exists (set_files <[path := log_header]> d1). split_and!.
  - unfold InitializeLogFile. rewrite M_bind_eq, E1, M_bind_eq.
    rewrite stream_create_healthy, stream_write_healthy by done.
    rewrite file_content_set. unfold set_files. cbn [d_files d_dirs d_faults].
    by rewrite insert_insert_eq.
  - cbn. by rewrite Hf.
  - etrans; [done|]. by apply same_except_set.
Qed.

Lemma vl_Open_fresh path d :
  vl_fresh path d ->
  exists d', vl_Open (new_VersionLog path, d) = (Ok tt, (mkVersionLog path true, d')) /\
    vl_rep (mkVersionLog path true) d' [] /\ same_except path d d'.
Proof.
  intros Hf. pose proof Hf as [].
  destruct (InitializeLogFile_ok path d Hf) as (d' & E & Hfiles & Hse).
  assert (d_files d' !! path = Some (log_image [])) as Hfile
    by by rewrite Hfiles, lookup_insert_eq.
  assert (vl_rep (mkVersionLog path true) d' []) as Hrep.
  { split; try done; [by eapply se_healthy|by eapply se_wf]. }
  exists d'. split_and!; [|done|done].
  pose proof (vl_Open_existing _ _ _ Hrep) as Eo. revert Eo. unfold vl_Open. dunfold.
  cbn [vl_is_open_ new_VersionLog vl_file_path_]. rewrite bool_decide_false by done.
  assert (healthy d') by by eapply se_healthy.
  assert (path_exists d path = false) as Hne.
  { unfold path_exists. rewrite vf_file0, !bool_decide_false; [done|apply vf_dir0|by intros [? ?]]. }
  assert (path_exists d' path = true) as Hpe.
  { unfold path_exists. by rewrite Hfile, bool_decide_true. }
  rewrite !FileExists_healthy, Hne, Hpe by done. rewrite E. auto.
Qed.

(** ** Theorems *)

Fixpoint AppendAll (rs : list VersionRecord) : M (VersionLog * disk) unit :=
  match rs with
  | [] => mret tt
  | r :: rs' => _ ← Append r; AppendAll rs'
  end.

Lemma AppendAll_ok rs log d rs0 :
  vl_rep log d rs0 -> Forall entry_ok rs ->
  exists d', AppendAll rs (log, d) = (Ok tt, (log, d')) /\ vl_rep log d' (rs0 ++ rs).
Proof.
  revert d rs0. induction rs as [|r rs IH]; intros d rs0 Hrep Hok.
  - exists d. by rewrite app_nil_r.
  - apply Forall_cons in Hok as [Hr Hok].
    destruct (Append_ok log d rs0 r Hrep Hr) as (d1 & E & Hrep1 & _).
    destruct (IH d1 _ Hrep1 Hok) as (d2 & E2 & Hrep2). rewrite <- app_assoc in Hrep2.
    exists d2. cbn [AppendAll]. by rewrite M_bind_eq, E.
Qed.

(** C26. The version log keeps the history: records appended to a fresh log are
    read back completely, unchanged and in order, from this log and from a log
    opened on the file later. *)
Theorem version_log_reads_back path d rs :
  vl_fresh path d -> Forall entry_ok rs ->
  exists log d0 d1,
    vl_Open (new_VersionLog path, d) = (Ok tt, (log, d0)) /\
    AppendAll rs (log, d0) = (Ok tt, (log, d1)) /\
    ReadAll (log, d1) = (Ok rs, (log, d1)) /\
    vl_Open (new_VersionLog path, d1) = (Ok tt, (log, d1)).
Proof.
  intros Hf Hok. destruct (vl_Open_fresh path d Hf) as (d0 & E0 & Hrep0 & _).
  destruct (AppendAll_ok rs _ _ _ Hrep0 Hok) as (d1 & E1 & Hrep1).
  eexists _, d0, d1. split_and!; [exact E0|exact E1|by apply ReadAll_ok|].
  exact (vl_Open_existing _ _ _ Hrep1).
Qed.

Definition sample_records : list VersionRecord :=
  [mkVersionRecord 1700000000000 "users" 0 voInsert [] [VInt 1; VString "ann"];
   mkVersionRecord 1700000000500 "users" 0 voUpdate [VInt 1; VString "ann"] [VInt 1; VString "bo"];
   mkVersionRecord 1700000000900 "users" 0 voDelete [VInt 1; VString "bo"] []].

Lemma version_log_reads_back_witness :
  exists log d0 d1,
    vl_Open (new_VersionLog "data/users.vlog", mkDisk ∅ ∅ []) = (Ok tt, (log, d0)) /\
    AppendAll sample_records (log, d0) = (Ok tt, (log, d1)) /\
    ReadAll (log, d1) = (Ok sample_records, (log, d1)) /\
    vl_Open (new_VersionLog "data/users.vlog", d1) = (Ok tt, (log, d1)).
Proof.
  apply (version_log_reads_back "data/users.vlog" (mkDisk ∅ ∅ []) sample_records).
  - split; try done. split; by_computation.
  - by_computation.
Defined.

Lemma DeserializeRecord_rejects : rejects DeserializeRecord.
Proof. unfold DeserializeRecord. auto 12 with rejects. Qed.

Lemma ParsePayload_code payload c m : ParsePayload payload = Err c m -> c = kInvalidArgument.
Proof.
  unfold ParsePayload. destruct (DeserializeRecord payload 0) as [[r off]|c' m'] eqn:E; cbn.
  - unfold check_not. destruct (negb _); cbn; [by intros [= <- <-]|done].
  - intros [= <- <-]. by eapply DeserializeRecord_rejects.
Qed.

Lemma stream_read_cases path off n d :
  exists b d', stream_read path off n d = (Ok b, d') /\ d_files d' = d_files d /\
    (b = [] \/ b = ztake n (zdrop off (file_content d path))).
Proof.
  unfold stream_read, next_fault. destruct (d_faults d) as [|[m|] fs]; eauto 10.
Qed.

Lemma segment_bound {A} (l : list A) off n :
  0 <= off -> 0 < n -> zlen (ztake n (zdrop off l)) = n -> off + n <= zlen l.
Proof. unfold zlen, ztake, zdrop. rewrite length_take, length_drop. lia. Qed.

Lemma ReadRecords_fuel path fuel pos d :
  0 <= pos -> (0 < fuel)%nat -> zlen (file_content d path) - pos < Z.of_nat fuel ->
  (ReadRecords path fuel pos d).1 <> Err kInternalError "ReadRecords: out of fuel".
Proof.
  revert pos d. induction fuel as [|fuel IH]; intros pos d Hpos Hf Hm; [lia|].
  cbn [ReadRecords]. destruct (stream_read_cases path pos 4 d) as (sb & d1 & E1 & Hd1 & Hsb).
  rewrite M_bind_eq, E1. destruct (zlen sb =? 0) eqn:E0; [done|]. zbool.
  rewrite M_bind_eq. destruct (zlen sb =? 4) eqn:E4; [|done]. zbool. cbn [negb reject_if mret M_ret].
  destruct Hsb as [->|Hsb]; [done|]. rewrite Hsb in E4. apply segment_bound in E4; [|lia|lia].
  rewrite M_bind_eq. unfold lift at 1. destruct (ReadUint32 sb 0) as [[size o]|c e] eqn:Er.
  2:{ cbn. intros [= -> ->]. assert (rejects ReadUint32) as Hrej by auto with rejects.
      by apply Hrej in Er. }
  assert (0 <= size) as Hsize.
  { apply ReadUint32_consumes in Er as (? & ? & ? & _ & _ & _ & [? _] & _); [done|zlia]. }
  rewrite M_bind_eq. destruct (stream_read_cases path (pos + 4) size d1) as (pl & d2 & E2 & Hd2 & Hpl).
  rewrite E2, M_bind_eq. destruct (zlen pl =? size) eqn:Es; [|done]. zbool.
  cbn [negb reject_if mret M_ret]. rewrite M_bind_eq. unfold lift at 1.
  destruct (ParsePayload pl) as [r|c e] eqn:Ep.
  2:{ cbn. intros [= -> ->]. by apply ParsePayload_code in Ep. }
  assert (file_content d2 path = file_content d path) as Hc by (unfold file_content; congruence).
  assert (pos + 4 + size <= zlen (file_content d path)).
  { destruct (decide (size = 0)) as [->|]; [lia|].
    destruct Hpl as [->|Hpl]; [done|]. rewrite Hpl in Es.
    replace (file_content d1 path) with (file_content d path) in Es by (unfold file_content; congruence).
    apply segment_bound in Es; lia. }
  rewrite M_bind_eq. specialize (IH (pos + 4 + size) d2). rewrite Hc in IH.
  destruct (ReadRecords path fuel _ d2) as [[rest|c e] d3] eqn:Erec; [done|].
  cbn in IH |- *. apply IH; lia.
Qed.

(** C27. [ReadAll] terminates on every file, intact or not, and whatever I/O
    errors occur: the loop never runs out of the rounds the file's length
    allows. *)
Theorem version_log_read_terminates log d :
  (ReadAll (log, d)).1 <> Err kInternalError "ReadRecords: out of fuel".
Proof.
  unfold ReadAll, vl_require_open. dunfold. destruct (negb (vl_is_open_ log)); [done|].
  unfold io_check. destruct (next_fault d) as [[m|] d1] eqn:E; [done|].
  set (n := length _). pose proof (ReadRecords_fuel (vl_file_path_ log) (S n) LogHeaderSize d1) as H.
  destruct (ReadRecords _ _ _ d1) as [r d2]. cbn in *. apply H; [done|lia|].
  unfold zlen. fold n. unfold LogHeaderSize. change (zlen kVersionLogMagic) with 8. lia.
Qed.
