(* ===== verification/Catalog.v ===== *)
(** * The catalog

    Models [src/catalog/catalog_manager.cpp].  Below the root directory each
    database has a directory with the subdirectories [catalog], [tables],
    [indexes] and [versions]; the catalog of a database is one metadata file
    per table.  The state of a [CatalogManager] is its root directory. *)

From stdpp Require Import sorting.
From S2P Require Import Prelude BinaryIO Values Serialization Disk.

(** ** Paths *)

Definition DatabasePath (root_dir db_name : string) : string := root_dir +:+ "/" +:+ db_name.
Definition CatalogDirPath (root_dir db_name : string) : string :=
  DatabasePath root_dir db_name +:+ "/catalog".
Definition TablesDirPath (root_dir db_name : string) : string :=
  DatabasePath root_dir db_name +:+ "/tables".
Definition IndexesDirPath (root_dir db_name : string) : string :=
  DatabasePath root_dir db_name +:+ "/indexes".
Definition VersionsDirPath (root_dir db_name : string) : string :=
  DatabasePath root_dir db_name +:+ "/versions".
Definition TableMetaPath (root_dir db_name table_name : string) : string :=
  CatalogDirPath root_dir db_name +:+ "/" +:+ table_name +:+ ".meta".
Definition DefaultTableDataPath (root_dir db_name table_name : string) : string :=
  TablesDirPath root_dir db_name +:+ "/" +:+ table_name +:+ ".tbl".
Definition DefaultTableIndexDir (root_dir db_name table_name : string) : string :=
  IndexesDirPath root_dir db_name +:+ "/" +:+ table_name.
Definition DefaultIndexFilePath (index_dir index_name : string) : string :=
  index_dir +:+ "/" +:+ index_name +:+ ".idx".

(** ** Validation *)

Fixpoint IsValidName_loop (has_non_space prev_dot : bool) (name : string) : bool :=
  match name with
  | EmptyString => has_non_space
  | String ch name' =>
      if bool_decide (ch = "/"%char) || bool_decide (ch = "\"%char) then false
      else if bool_decide (ch = "."%char) && prev_dot then false
      else IsValidName_loop (has_non_space || negb (isspace ch)) (bool_decide (ch = "."%char)) name'
  end.
Definition IsValidName (name : string) : bool :=
  if bool_decide (name = "") then false else IsValidName_loop false false name.

Definition ValidateDatabaseName (db_name : string) : result unit :=
  check_not (negb (IsValidName db_name)) kInvalidArgument "Invalid database name".
Definition ValidateTableName (table_name : string) : result unit :=
  check_not (negb (IsValidName table_name)) kInvalidArgument "Invalid table name".

Definition ValidateColumnSchema (column : ColumnSchema) : result unit :=
  _ ← check_not (negb (IsValidName (col_name column))) kInvalidArgument "Invalid column name";
  match default_value column with
  | None => Ok tt
  | Some v =>
      _ ← check_not (bool_decide (col_type column = ctInt) && negb (bool_decide (type v = vtInt)))
            kInvalidArgument "Invalid default value for int column";
      _ ← check_not
            (bool_decide (col_type column = ctString) && negb (bool_decide (type v = vtString)))
            kInvalidArgument "Invalid default value for string column";
      check_not (bool_decide (col_type column = ctBool) && negb (bool_decide (type v = vtBool)))
        kInvalidArgument "Invalid default value for bool column"
  end.

Fixpoint ValidateColumns (seen_columns : gset string) (columns : TableSchema) : result unit :=
  match columns with
  | [] => Ok tt
  | column :: rest =>
      _ ← ValidateColumnSchema column;
      _ ← check_not (bool_decide (col_name column ∈ seen_columns)) kInvalidArgument
            "Duplicate column name";
      ValidateColumns ({[col_name column]} ∪ seen_columns) rest
  end.
Definition ValidateTableSchema (columns : TableSchema) : result unit :=
  _ ← check_not (bool_decide (columns = [])) kInvalidArgument
        "Table schema must have at least one column";
  ValidateColumns ∅ columns.

Definition ValidateIndexDescriptor (index : IndexDescriptor) (columns : TableSchema)
    (table : string) : result unit :=
  _ ← check_not (negb (IsValidName (idx_name index))) kInvalidArgument "Invalid index name";
  _ ← check_not (negb (bool_decide (idx_table_name index = table))) kInvalidArgument
        "Index table name does not match table descriptor";
  _ ← check_not (FindColumn columns (idx_column_name index) <? 0) kInvalidArgument
        "Index column does not exist in table schema";
  check_not (bool_decide (idx_file_path index = "")) kInvalidArgument "Index file path is empty".

Fixpoint ValidateIndexes (seen_indexes : gset string) (columns : TableSchema) (table : string)
    (indexes : list IndexDescriptor) : result unit :=
  match indexes with
  | [] => Ok tt
  | index :: rest =>
      _ ← ValidateIndexDescriptor index columns table;
      _ ← check_not (bool_decide (idx_name index ∈ seen_indexes)) kInvalidArgument
            "Duplicate index name";
      ValidateIndexes ({[idx_name index]} ∪ seen_indexes) columns table rest
  end.

Definition ValidateTableDescriptor (desc : TableDescriptor) : result unit :=
  _ ← ValidateDatabaseName (database_name desc);
  _ ← ValidateTableName (table_name desc);
  _ ← ValidateTableSchema (schema desc);
  _ ← ValidateIndexes ∅ (schema desc) (table_name desc) (indexes desc);
  _ ← check_not (bool_decide (data_file desc = "")) kInvalidArgument "Table data file path is empty";
  check_not (bool_decide (index_dir desc = "")) kInvalidArgument
    "Table index directory path is empty".

(** ** The metadata files *)

(** [DatabaseExists] and [TableMetaExists] take a failing call for [false]. *)
Definition DatabaseExists (root_dir db_name : string) : M disk bool :=
  e ← fs_query (fun d => path_exists d (DatabasePath root_dir db_name));
  if (e : bool) then fs_query (is_directory (DatabasePath root_dir db_name)) else mret false.
Definition TableMetaExists (root_dir db_name table_name : string) : M disk bool := fun d =>
  match FileExists (TableMetaPath root_dir db_name table_name) d with
  | (Ok e, d') => (Ok e, d')
  | (Err _ _, d') => (Ok false, d')
  end.

Definition NormalizeIndex (table dir : string) (index : IndexDescriptor) : IndexDescriptor :=
  mkIndexDescriptor (idx_name index)
    (if bool_decide (idx_table_name index = "") then table else idx_table_name index)
    (idx_column_name index)
    (if bool_decide (idx_file_path index = "") then DefaultIndexFilePath dir (idx_name index)
     else idx_file_path index)
    (unique index).
Definition NormalizeTableDescriptor (root_dir : string) (desc : TableDescriptor) : TableDescriptor :=
  let data_file :=
    if bool_decide (data_file desc = "")
    then DefaultTableDataPath root_dir (database_name desc) (table_name desc)
    else data_file desc in
  let index_dir :=
    if bool_decide (index_dir desc = "")
    then DefaultTableIndexDir root_dir (database_name desc) (table_name desc)
    else index_dir desc in
  mkTableDescriptor (database_name desc) (table_name desc) data_file index_dir (schema desc)
    (map (NormalizeIndex (table_name desc) index_dir) (indexes desc)).

Definition WriteTableMetaFile (path : string) (desc : TableDescriptor) : M disk unit :=
  WriteAllBytes path (SerializeTableDescriptor desc []).

Definition ReadTableMetaFile (path : string) : M disk TableDescriptor :=
  bytes ← ReadAllBytes path;
  '(out, offset) ← lift (DeserializeTableDescriptor bytes 0);
  _ ← reject_if (negb (offset =? zlen bytes)) kInvalidArgument
        "Corrupted metadata: trailing bytes after table descriptor";
  _ ← lift (ValidateTableDescriptor out);
  mret out.

(** ** The operations *)

Definition CreateDatabase (root_dir db_name : string) : M disk unit :=
  _ ← lift (ValidateDatabaseName db_name);
  _ ← EnsureDir root_dir;
  exists_ ← DatabaseExists root_dir db_name;
  _ ← reject_if exists_ kAlreadyExists "Database already exists";
  _ ← EnsureDir (DatabasePath root_dir db_name);
  _ ← EnsureDir (CatalogDirPath root_dir db_name);
  _ ← EnsureDir (TablesDirPath root_dir db_name);
  _ ← EnsureDir (IndexesDirPath root_dir db_name);
  EnsureDir (VersionsDirPath root_dir db_name).

Definition DropDatabase (root_dir db_name : string) : M disk unit :=
  _ ← lift (ValidateDatabaseName db_name);
  exists_ ← DatabaseExists root_dir db_name;
  _ ← reject_if (negb exists_) kNotFound "Database not found";
  _ ← io_check kIoError "Failed to remove database directory";
  modify (remove_all (DatabasePath root_dir db_name)).

Definition CreateTable (root_dir : string) (table : TableDescriptor) : M disk unit :=
  exists_ ← DatabaseExists root_dir (database_name table);
  _ ← reject_if (negb exists_) kNotFound "Database not found";
  let normalized := NormalizeTableDescriptor root_dir table in
  _ ← lift (ValidateTableDescriptor normalized);
  meta_exists ← TableMetaExists root_dir (database_name normalized) (table_name normalized);
  _ ← reject_if meta_exists kAlreadyExists "Table already exists";
  WriteTableMetaFile (TableMetaPath root_dir (database_name normalized) (table_name normalized))
    normalized.

(** The checks [DropTable] and [GetTable] share. *)
Definition FindTableMeta (root_dir db_name table_name : string) : M disk string :=
  _ ← lift (ValidateDatabaseName db_name);
  _ ← lift (ValidateTableName table_name);
  db_exists ← DatabaseExists root_dir db_name;
  _ ← reject_if (negb db_exists) kNotFound "Database not found";
  let meta_path := TableMetaPath root_dir db_name table_name in
  exists_ ← FileExists meta_path;
  _ ← reject_if (negb exists_) kNotFound "Table metadata not found";
  mret meta_path.

Definition DropTable (root_dir db_name table_name : string) : M disk unit :=
  meta_path ← FindTableMeta root_dir db_name table_name;
  RemoveFile meta_path.

Definition GetTable (root_dir db_name table_name : string) : M disk TableDescriptor :=
  meta_path ← FindTableMeta root_dir db_name table_name;
  ReadTableMetaFile meta_path.

(** [entry.path().extension() == ".meta"] for a file of the directory [dir]. *)
Definition has_meta_extension (dir path : string) : bool :=
  let n := String.length path in
  (Nat.ltb (String.length dir + 6) n) && bool_decide (String.substring (n - 5) 5 path = ".meta").

Fixpoint ReadMetaFiles (dir : string) (entries : list string) : M disk (list TableDescriptor) :=
  match entries with
  | [] => mret []
  | path :: rest =>
      if negb (has_meta_extension dir path) then ReadMetaFiles dir rest else
      desc ← ReadTableMetaFile path;
      out ← ReadMetaFiles dir rest;
      mret (desc :: out)
  end.

Definition by_table_name (a b : TableDescriptor) : Prop :=
  string_ltb (table_name b) (table_name a) = false.
#[export] Instance by_table_name_dec : RelDecision by_table_name := fun a b => decide (_ = false).

(** [order] is the order in which the file system lists a directory.  When the
    directory cannot be opened the iterator is the end iterator: the check of
    the error code is inside the loop. *)
Definition ListTables (order : list string -> list string) (root_dir db_name : string)
  : M disk (list TableDescriptor) :=
  _ ← lift (ValidateDatabaseName db_name);
  db_exists ← DatabaseExists root_dir db_name;
  _ ← reject_if (negb db_exists) kNotFound "Database not found";
  let catalog_dir := CatalogDirPath root_dir db_name in
  e ← fs_query (fun d => path_exists d catalog_dir);
  is_dir ← (if (e : bool) then fs_query (is_directory catalog_dir) else mret false);
  _ ← reject_if (negb is_dir) kNotFound "Catalog directory not found";
  opened ← fs_query (fun _ => true);
  d ← get;
  out ← ReadMetaFiles catalog_dir (if (opened : bool) then order (files_in d catalog_dir) else []);
  mret (merge_sort by_table_name out).
