(* ===== verification/CatalogSpec.v ===== *)
(** * What the catalog promises

    An abstract catalog, a map from database names to maps from table names to
    descriptors, and the proof that the operations of [Catalog] implement it on
    the files and directories below the root. *)

From stdpp Require Import sorting.
From S2P Require Import Prelude BinaryIO Values Serialization Disk Catalog.

(** ** Paths *)

Fixpoint no_slash (s : string) : bool :=
  match s with
  | EmptyString => true
  | String c s' => negb (bool_decide (c = "/"%char)) && no_slash s'
  end.

Lemma no_slash_app s t : no_slash (s +:+ t) = no_slash s && no_slash t.
Proof.
  induction s as [|c s IH]; [done|]. change (String c s +:+ t) with (String c (s +:+ t)).
  cbn [no_slash]. rewrite IH. by destruct (negb _).
Qed.

Lemma IsValidName_loop_no_slash h p s : IsValidName_loop h p s = true -> no_slash s = true.
Proof.
  revert h p. induction s as [|c s IH]; intros h p; [done|]. cbn [IsValidName_loop no_slash].
  destruct (bool_decide (c = "/"%char)); [done|]. destruct (bool_decide (c = "\"%char)); [done|].
  destruct (_ && p); [done|]. cbn. apply IH.
Qed.
Lemma IsValidName_no_slash s : IsValidName s = true -> no_slash s = true.
Proof. unfold IsValidName. case_bool_decide; [done|]. apply IsValidName_loop_no_slash. Qed.

Lemma string_length_app s t : String.length (s +:+ t) = (String.length s + String.length t)%nat.
Proof. induction s as [|c s IH]; [done|]. exact (f_equal S IH). Qed.

Lemma dir_of_aux_plain best acc x : no_slash x = true -> dir_of_aux best acc x = best.
Proof.
  revert best acc. induction x as [|c x IH]; intros best acc; [done|].
  cbn [no_slash dir_of_aux]. destruct (bool_decide _); [done|]. cbn. apply IH.
Qed.

Lemma dir_of_aux_join best acc s x :
  no_slash x = true -> dir_of_aux best acc (s +:+ "/" +:+ x) = acc +:+ s.
Proof.
  intros Hx. revert best acc. induction s as [|c s IH]; intros best acc.
  - change ("" +:+ "/" +:+ x) with (String "/" x). cbn [dir_of_aux].
    rewrite bool_decide_true, dir_of_aux_plain by done. by rewrite string_app_nil_r.
  - change (String c s +:+ "/" +:+ x) with (String c (s +:+ "/" +:+ x)). cbn [dir_of_aux].
    rewrite IH. by rewrite string_app_assoc.
Qed.
Lemma dir_of_join s x : no_slash x = true -> dir_of (s +:+ "/" +:+ x) = s.
Proof. intros. by apply (dir_of_aux_join "" ""). Qed.

Lemma split_last_slash s :
  no_slash s = true \/ exists u x, s = u +:+ "/" +:+ x /\ no_slash x = true.
Proof.
  induction s as [|c s [IH|(u & x & -> & Hx)]]; [by left| |right; by exists (String c u), x].
  destruct (decide (c = "/"%char)) as [->|Hc]; [right; by exists "", s|left].
  cbn. by rewrite bool_decide_false.
Qed.

Lemma dir_of_split p : dir_of p <> "" -> exists x, no_slash x = true /\ p = dir_of p +:+ "/" +:+ x.
Proof.
  destruct (split_last_slash p) as [Hp|(u & x & -> & Hx)].
  - intros H. exfalso. apply H. by apply dir_of_aux_plain.
  - rewrite dir_of_join by done. eauto.
Qed.

Lemma string_app_inj s t u : s +:+ t = s +:+ u -> t = u.
Proof. induction s as [|c s IH]; [done|]. intros [= E]. by apply IH. Qed.

Lemma join_inj p q x y :
  no_slash x = true -> no_slash y = true -> p +:+ "/" +:+ x = q +:+ "/" +:+ y -> p = q /\ x = y.
Proof.
  intros Hx Hy E. pose proof (f_equal dir_of E) as Hd. rewrite (dir_of_join p x Hx), (dir_of_join q y Hy) in Hd. subst.
  split; [done|]. apply string_app_inj in E. by injection E.
Qed.

(** The prefixes of a path are the paths it is below of. *)
Lemma elem_of_path_prefixes x acc s :
  x ∈ path_prefixes acc s <->
  exists u, x = acc +:+ u /\ (s = u \/ exists v, s = u +:+ "/" +:+ v).
Proof.
  revert acc. induction s as [|c s IH]; intros acc; cbn [path_prefixes].
  - rewrite list_elem_of_singleton. split.
    + intros ->. exists "". rewrite string_app_nil_r. auto.
    + intros (u & -> & [<-|[v E]]); [apply string_app_nil_r|]. by destruct u.
  - rewrite elem_of_app, IH. split.
    + intros [Hx|(u & -> & Hu)].
      * case_bool_decide; [|by apply elem_of_nil in Hx]. apply list_elem_of_singleton in Hx as ->.
        exists "". rewrite string_app_nil_r. subst c. eauto.
      * exists (String c u). rewrite string_app_assoc. split; [done|].
        destruct Hu as [->|[v ->]]; [by left|right]. by exists v.
    + intros (u & -> & Hu). destruct u as [|c' u].
      * destruct Hu as [[=]|[v [= -> ->]]]. left. rewrite bool_decide_true by done.
        rewrite string_app_nil_r. left.
      * right. exists u. rewrite string_app_assoc.
        destruct Hu as [[= <- <-]|[v [= <- ->]]]; [by eauto|]. split; [done|]. right. by exists v.
Qed.

Lemma string_prefix_spec s t : String.prefix s t = true <-> exists u, t = s +:+ u.
Proof.
  revert t. induction s as [|c s IH]; intros t.
  - split; [by exists t|by destruct t].
  - destruct t as [|c' t]; cbn [String.prefix].
    + split; [done|]. by intros [u [=]].
    + destruct (ascii_dec c c') as [->|Hne].
      * rewrite IH. split; intros [u E]; exists u; [by rewrite E|by injection E].
      * split; [done|]. intros [u [= E _]]. by destruct Hne.
Qed.

Lemma below_spec dir path : below dir path = true <-> dir ∈ path_prefixes "" path.
Proof.
  unfold below. rewrite orb_true_iff, bool_decide_eq_true, string_prefix_spec, elem_of_path_prefixes.
  split.
  - intros [->|[u ->]]; exists dir; (split; [done|]); [by left|right].
    exists u. by rewrite string_app_assoc.
  - intros (u & -> & [->|[v ->]]); [by left|right]. exists v. by rewrite string_app_assoc.
Qed.

Lemma path_prefixes_join acc p x :
  no_slash x = true ->
  path_prefixes acc (p +:+ "/" +:+ x) = path_prefixes acc p ++ [acc +:+ p +:+ "/" +:+ x].
Proof.
  assert (forall acc x, no_slash x = true -> path_prefixes acc x = [acc +:+ x]) as Hplain.
  { clear. intros acc x. revert acc. induction x as [|c x IH]; intros acc.
    - cbn. by rewrite string_app_nil_r.
    - cbn [no_slash path_prefixes]. destruct (bool_decide _); [done|]. cbn. intros.
      rewrite IH by done. by rewrite string_app_assoc. }
  intros Hx. revert acc. induction p as [|c p IH]; intros acc.
  - change ("" +:+ "/" +:+ x) with (String "/" x). cbn [path_prefixes].
    rewrite bool_decide_true, Hplain by done. by rewrite string_app_assoc.
  - change (String c p +:+ "/" +:+ x) with (String c (p +:+ "/" +:+ x)). cbn [path_prefixes].
    rewrite IH, app_assoc. do 2 f_equal. by rewrite string_app_assoc.
Qed.

Lemma below_join dir p x :
  no_slash x = true ->
  below dir (p +:+ "/" +:+ x) = true <-> below dir p = true \/ dir = p +:+ "/" +:+ x.
Proof.
  intros. by rewrite !below_spec, path_prefixes_join, elem_of_app, list_elem_of_singleton by done.
Qed.

Lemma below_length dir p : below dir p = true -> (String.length dir <= String.length p)%nat.
Proof.
  unfold below. rewrite orb_true_iff, bool_decide_eq_true, string_prefix_spec.
  intros [->|[u ->]]; [done|]. rewrite !string_length_app. lia.
Qed.

Lemma below_refl p : below p p = true.
Proof. unfold below. by rewrite bool_decide_true. Qed.

(** [EnsureDir] creates the directories the path is below of. *)
Lemma elem_of_dirs_of x p : x ∈ dirs_of p <-> x <> "" /\ below x p = true.
Proof. unfold dirs_of. by rewrite list_elem_of_filter, below_spec. Qed.

(** ** Database paths *)

Section paths.
Context (root : string).

Lemma DatabasePath_longer n : below (DatabasePath root n) root = false.
Proof.
  apply not_true_iff_false. intros H%below_length. unfold DatabasePath in H.
  rewrite !string_length_app in H. change (String.length "/") with 1%nat in H. lia.
Qed.

Lemma below_database n m :
  IsValidName m = true -> below (DatabasePath root n) (DatabasePath root m) = true <-> n = m.
Proof.
  intros Hm%IsValidName_no_slash. unfold DatabasePath at 2. rewrite below_join by done.
  rewrite DatabasePath_longer. split.
  - intros [[=]|E]. unfold DatabasePath in E. apply string_app_inj in E. by injection E.
  - intros ->. by right.
Qed.

(** Nothing in the directory of one database is below another's. *)
Lemma below_database_sub n m x :
  IsValidName n = true -> IsValidName m = true -> no_slash x = true ->
  below (DatabasePath root n) (DatabasePath root m +:+ "/" +:+ x) = true <-> n = m.
Proof.
  intros Hn Hm Hx. rewrite below_join, below_database by done. split; [|auto].
  intros [?|E]; [done|]. apply join_inj in E as [E _]; [|by apply IsValidName_no_slash|done].
  assert (below (DatabasePath root m) root = true) as Hb by (rewrite <- E; apply below_refl).
  by rewrite DatabasePath_longer in Hb.
Qed.

Lemma no_slash_meta t : no_slash t = true -> no_slash (t +:+ ".meta") = true.
Proof. intros H. by rewrite no_slash_app, H. Qed.

Lemma below_meta n m t :
  IsValidName n = true -> IsValidName m = true -> IsValidName t = true ->
  below (DatabasePath root n) (TableMetaPath root m t) = true <-> n = m.
Proof.
  intros Hn Hm Ht%IsValidName_no_slash%no_slash_meta. unfold TableMetaPath.
  rewrite below_join by done. change (CatalogDirPath root m) with (DatabasePath root m +:+ "/" +:+ "catalog").
  rewrite below_database_sub by done. split; [|auto]. intros [?|E]; [done|].
  apply join_inj in E as [E _]; [|by apply IsValidName_no_slash|done].
  assert (below (DatabasePath root m) (DatabasePath root m +:+ "/" +:+ "catalog") = true) as Hb.
  { rewrite below_join by done. left. apply below_refl. }
  by rewrite <- E, DatabasePath_longer in Hb.
Qed.

Lemma TableMetaPath_inj n m t u :
  IsValidName n = true -> IsValidName m = true -> IsValidName t = true -> IsValidName u = true ->
  TableMetaPath root n t = TableMetaPath root m u -> n = m /\ t = u.
Proof.
  intros Hn Hm Ht Hu E. split.
  - apply (below_meta n m u); [done..|]. rewrite <- E. by apply below_meta.
  - unfold TableMetaPath in E.
    apply join_inj in E as [_ E]; [|by apply no_slash_meta, IsValidName_no_slash..].
    revert E. clear. revert u. induction t as [|c t IH]; intros [|c' u] E; try done.
    + apply (f_equal String.length) in E. rewrite !string_length_app in E.
      cbn [String.length] in E. lia.
    + apply (f_equal String.length) in E. rewrite !string_length_app in E.
      cbn [String.length] in E. lia.
    + injection E as -> E. f_equal. by apply IH.
Qed.
End paths.

(** ** The abstract catalog *)

Abbreviation catalog := (gmap string (gmap string TableDescriptor)).

Definition not_found {A} : result A := Err kNotFound "Database not found".

Definition c_create_database (n : string) (cat : catalog) : result unit * catalog :=
  if negb (IsValidName n) then (Err kInvalidArgument "Invalid database name", cat) else
  match cat !! n with
  | Some _ => (Err kAlreadyExists "Database already exists", cat)
  | None => (Ok tt, <[n := ∅]> cat)
  end.

Definition c_drop_database (n : string) (cat : catalog) : result unit * catalog :=
  if negb (IsValidName n) then (Err kInvalidArgument "Invalid database name", cat) else
  match cat !! n with
  | Some _ => (Ok tt, delete n cat)
  | None => (not_found, cat)
  end.

(** [desc] is the descriptor with its default paths filled in. *)
Definition c_create_table (desc : TableDescriptor) (cat : catalog) : result unit * catalog :=
  match cat !! database_name desc with
  | None => (not_found, cat)
  | Some tables =>
      match ValidateTableDescriptor desc with
      | Err c m => (Err c m, cat)
      | Ok _ =>
          match tables !! table_name desc with
          | Some _ => (Err kAlreadyExists "Table already exists", cat)
          | None => (Ok tt, <[database_name desc := <[table_name desc := desc]> tables]> cat)
          end
      end
  end.

Definition c_get_table (n t : string) (cat : catalog) : result TableDescriptor :=
  _ ← ValidateDatabaseName n;
  _ ← ValidateTableName t;
  match cat !! n with
  | None => not_found
  | Some tables =>
      match tables !! t with
      | None => Err kNotFound "Table metadata not found"
      | Some desc => Ok desc
      end
  end.

Definition c_drop_table (n t : string) (cat : catalog) : result unit * catalog :=
  match c_get_table n t cat with
  | Err c m => (Err c m, cat)
  | Ok _ => (Ok tt, alter (delete t) n cat)
  end.

Definition c_list_tables (n : string) (cat : catalog) : result (list TableDescriptor) :=
  _ ← ValidateDatabaseName n;
  match cat !! n with
  | None => not_found
  | Some tables => Ok (merge_sort by_table_name (map_to_list tables).*2)
  end.

(** ** Representation *)

(** A stored descriptor: valid, encodable and filed under its own names. *)
Definition stored_table (n t : string) (desc : TableDescriptor) : Prop :=
  IsValidName t = true /\ database_name desc = n /\ table_name desc = t /\
  ValidateTableDescriptor desc = Ok tt /\ descriptor_ok desc.

Record cat_rep (root : string) (d : disk) (cat : catalog) : Prop := {
  cr_healthy : healthy d;
  cr_wf : disk_wf d;
  cr_root : root <> "";
  cr_root_clear : dirs_clear d root;
  cr_names : forall n tables, cat !! n = Some tables ->
    IsValidName n = true /\ DatabasePath root n ∈ d_dirs d /\ CatalogDirPath root n ∈ d_dirs d;
  cr_absent : forall n p, IsValidName n = true -> cat !! n = None ->
    below (DatabasePath root n) p = true -> d_files d !! p = None /\ (p ∉ d_dirs d);
  cr_tables : forall n tables t, cat !! n = Some tables -> IsValidName t = true ->
    d_files d !! TableMetaPath root n t = (fun desc => SerializeTableDescriptor desc []) <$> tables !! t /\
    (TableMetaPath root n t ∉ d_dirs d);
  cr_stored : forall n tables t desc, cat !! n = Some tables -> tables !! t = Some desc ->
    stored_table n t desc;
  cr_meta : forall n tables p, cat !! n = Some tables -> is_Some (d_files d !! p) ->
    dir_of p = CatalogDirPath root n -> has_meta_extension (CatalogDirPath root n) p = true ->
    exists t, IsValidName t = true /\ p = TableMetaPath root n t
}.

Lemma cat_rep_empty root d :
  healthy d -> disk_wf d -> root <> "" -> dirs_clear d root ->
  (forall p n, IsValidName n = true -> below (DatabasePath root n) p = true ->
     d_files d !! p = None /\ (p ∉ d_dirs d)) ->
  cat_rep root d ∅.
Proof.
  intros ???? Hp. split; try done; intros *; try (by rewrite lookup_empty). intros Hn _. by apply Hp.
Qed.

(** ** The queries *)

Section ops.
Context (root : string) (d : disk) (cat : catalog) (R : cat_rep root d cat).

Lemma fs_query_healthy q d0 : healthy d0 -> fs_query q d0 = (Ok (q d0), d0).
Proof. unfold fs_query, next_fault. by intros ->. Qed.

Lemma database_dir n : IsValidName n = true ->
  (is_directory (DatabasePath root n) d = true <-> is_Some (cat !! n)).
Proof.
  intros Hn. unfold is_directory. rewrite bool_decide_eq_true. split.
  - intros Hd. destruct (cat !! n) eqn:E; [by eexists|].
    destruct (cr_absent _ _ _ R n (DatabasePath root n) Hn E (below_refl _)) as [_ []]. done.
  - intros [tables E]. by apply (cr_names _ _ _ R n tables).
Qed.

Lemma DatabaseExists_ok n : IsValidName n = true ->
  DatabaseExists root n d = (Ok (bool_decide (is_Some (cat !! n))), d).
Proof.
  intros Hn. pose proof (cr_healthy _ _ _ R). unfold DatabaseExists.
  rewrite M_bind_eq, fs_query_healthy by done.
  pose proof (database_dir n Hn) as Hd. unfold is_directory in Hd.
  unfold path_exists. destruct (cat !! n) eqn:E.
  - rewrite (proj2 Hd) by done. rewrite orb_true_r, fs_query_healthy by done.
    unfold is_directory. by rewrite (proj2 Hd).
  - destruct (cr_absent _ _ _ R n (DatabasePath root n) Hn E (below_refl _)) as [-> ?].
    by rewrite !bool_decide_false by (by intros [? ?] || done).
Qed.

Lemma FileExists_meta n t tables :
  cat !! n = Some tables -> IsValidName t = true ->
  FileExists (TableMetaPath root n t) d = (Ok (bool_decide (is_Some (tables !! t))), d).
Proof.
  intros E Ht. pose proof (cr_healthy _ _ _ R). rewrite FileExists_healthy by done.
  unfold path_exists. destruct (cr_tables _ _ _ R n tables t E Ht) as [-> ?].
  rewrite (bool_decide_false (_ ∈ _)), orb_false_r by done. do 2 f_equal.
  apply bool_decide_ext. by rewrite fmap_is_Some.
Qed.

Lemma FindTableMeta_ok n t :
  FindTableMeta root n t d =
    (match c_get_table n t cat with Ok _ => Ok (TableMetaPath root n t) | Err c m => Err c m end, d).
Proof.
  unfold FindTableMeta, c_get_table, ValidateDatabaseName, ValidateTableName, check_not.
  rewrite M_bind_eq. unfold lift at 1. destruct (IsValidName n) eqn:Hn; [|done]. cbn [negb].
  rewrite M_bind_eq. unfold lift at 1. destruct (IsValidName t) eqn:Ht; [|done]. cbn [negb].
  rewrite M_bind_eq, DatabaseExists_ok by done. cbn [mbind result_bind].
  destruct (cat !! n) as [tables|] eqn:E; [|done]. rewrite bool_decide_true by done.
  rewrite M_bind_eq. cbn [negb reject_if mret M_ret]. cbv zeta.
  rewrite M_bind_eq, (FileExists_meta n t tables) by done.
  destruct (tables !! t) eqn:Et; [|done]. by rewrite bool_decide_true.
Qed.
End ops.

(** ** Tables *)

Lemma ReadTableMetaFile_ok path desc d :
  healthy d -> d_files d !! path = Some (SerializeTableDescriptor desc []) ->
  descriptor_ok desc -> ValidateTableDescriptor desc = Ok tt ->
  ReadTableMetaFile path d = (Ok desc, d).
Proof.
  intros Hd Hf Hok Hv. unfold ReadTableMetaFile.
  rewrite M_bind_eq, (ReadAllBytes_healthy _ _ _ Hd Hf), M_bind_eq. unfold lift at 1.
  pose proof (DeserializeTableDescriptor_decodes desc Hok [] []) as E.
  rewrite app_nil_r, app_nil_l in E. change (zlen []) with 0 in E. rewrite E.
  rewrite Z.add_0_l, Z.eqb_refl. munfold. by rewrite Hv.
Qed.

(** Setting or removing one metadata file. *)
Lemma cat_rep_set root d cat n t tables (o : option TableDescriptor) d' :
  cat_rep root d cat -> cat !! n = Some tables -> IsValidName t = true ->
  (forall desc, o = Some desc -> stored_table n t desc) ->
  d_dirs d' = d_dirs d -> d_faults d' = d_faults d ->
  d_files d' = partial_alter (fun _ => (fun desc => SerializeTableDescriptor desc []) <$> o)
                 (TableMetaPath root n t) (d_files d) ->
  cat_rep root d' (<[n := partial_alter (fun _ => o) t tables]> cat).
Proof.
  intros R En Ht Ho Hdirs Hfaults Hfiles. destruct (cr_names _ _ _ R n tables En) as (Hn & Hndir & _).
  destruct (cr_tables _ _ _ R n tables t En Ht) as [_ Hnd].
  assert (forall p, p <> TableMetaPath root n t -> d_files d' !! p = d_files d !! p) as Hother
    by (intros; by rewrite Hfiles, lookup_partial_alter_ne).
  assert (forall m ts, <[n := partial_alter (fun _ => o) t tables]> cat !! m = Some ts ->
    exists ts0, cat !! m = Some ts0) as Hdom.
  { intros m ts. destruct (decide (m = n)) as [->|]; [eauto|]. rewrite lookup_insert_ne; eauto. }
  split.
  - unfold healthy. rewrite Hfaults. apply (cr_healthy _ _ _ R).
  - intros p Hp. rewrite Hdirs in Hp. rewrite Hother by (intros ->; done). by apply (cr_wf _ _ _ R).
  - apply (cr_root _ _ _ R).
  - intros p Hp. rewrite Hother; [by apply (cr_root_clear _ _ _ R)|]. intros ->.
    apply elem_of_dirs_of in Hp as [_ Hb%below_length].
    unfold TableMetaPath, CatalogDirPath, DatabasePath in Hb. rewrite !string_length_app in Hb.
    cbn [String.length] in Hb. lia.
  - intros m ts [ts0 E]%Hdom. rewrite Hdirs. by apply (cr_names _ _ _ R m ts0).
  - intros m p Hm E Hb. rewrite Hdirs. assert (m <> n) by (intros ->; by rewrite lookup_insert_eq in E).
    rewrite lookup_insert_ne in E by done. rewrite Hother; [by apply (cr_absent _ _ _ R m)|].
    intros ->. by apply below_meta in Hb.
  - intros m ts u E Hu. rewrite Hdirs. destruct (decide (m = n)) as [->|Hne].
    + rewrite lookup_insert_eq in E. injection E as <-.
      destruct (cr_tables _ _ _ R n tables u En Hu) as [Ef ?]. split; [|done].
      destruct (decide (u = t)) as [->|]; [by rewrite Hfiles, !lookup_partial_alter_eq|].
      rewrite lookup_partial_alter_ne by done. rewrite Hother; [done|].
      intros [_ ?]%TableMetaPath_inj; done.
    + rewrite lookup_insert_ne in E by done. pose proof (cr_names _ _ _ R m ts E) as [Hm _].
      rewrite Hother; [by apply (cr_tables _ _ _ R)|]. intros [? _]%TableMetaPath_inj; done.
  - intros m ts u desc E Eu. destruct (decide (m = n)) as [->|Hne].
    + rewrite lookup_insert_eq in E. injection E as <-. destruct (decide (u = t)) as [->|].
      * rewrite lookup_partial_alter_eq in Eu. by apply Ho.
      * rewrite lookup_partial_alter_ne in Eu by done. by apply (cr_stored _ _ _ R n tables).
    + rewrite lookup_insert_ne in E by done. by apply (cr_stored _ _ _ R m ts).
  - intros m ts p [ts0 E]%Hdom Hp Hdir Hext.
    destruct (decide (p = TableMetaPath root n t)) as [->|Hne].
    + exists t. split; [done|]. unfold TableMetaPath in Hdir at 1. apply IsValidName_no_slash, no_slash_meta in Ht.
      rewrite dir_of_join in Hdir by done. unfold TableMetaPath. by rewrite Hdir.
    + rewrite Hother in Hp by done. by apply (cr_meta _ _ _ R m ts0).
Qed.

Lemma GetTable_ok root d cat n t :
  cat_rep root d cat -> GetTable root n t d = (c_get_table n t cat, d).
Proof.
  intros R. unfold GetTable. rewrite M_bind_eq, (FindTableMeta_ok _ _ _ R).
  destruct (c_get_table n t cat) as [desc|] eqn:E; [|done].
  unfold c_get_table in E. apply result_bind_Ok in E as ([] & _ & E).
  apply result_bind_Ok in E as ([] & Ht & E).
  unfold ValidateTableName, check_not in Ht. destruct (IsValidName t) eqn:Hvt; [|done].
  destruct (cat !! n) as [tables|] eqn:En; [|done]. destruct (tables !! t) eqn:Et; [|done]. simplify_eq.
  destruct (cr_stored _ _ _ R n tables t desc En Et) as (_ & _ & _ & ? & ?).
  destruct (cr_tables _ _ _ R n tables t En Hvt) as [Hf _]. rewrite Et in Hf.
  apply ReadTableMetaFile_ok; [apply (cr_healthy _ _ _ R)|done..].
Qed.

Lemma DropTable_ok root d cat n t :
  cat_rep root d cat ->
  exists d', DropTable root n t d = ((c_drop_table n t cat).1, d') /\
    cat_rep root d' (c_drop_table n t cat).2.
Proof.
  intros R. unfold DropTable, c_drop_table. rewrite M_bind_eq, (FindTableMeta_ok _ _ _ R).
  destruct (c_get_table n t cat) as [desc|] eqn:E; [|by exists d].
  unfold c_get_table, ValidateTableName, check_not in E. apply result_bind_Ok in E as ([] & _ & E).
  destruct (IsValidName t) eqn:Ht; [|done]. cbn [negb mbind result_bind] in E.
  destruct (cat !! n) as [tables|] eqn:En; [|done].
  destruct (cr_tables _ _ _ R n tables t En Ht) as [_ Hnd].
  unfold RemoveFile. rewrite M_bind_eq, io_check_ec_healthy by apply (cr_healthy _ _ _ R).
  munfold. rewrite bool_decide_false by done. cbn [andb]. eexists. split; [done|].
  replace (alter (delete t) n cat) with (<[n := delete t tables]> cat).
  2:{ apply map_eq. intros m. destruct (decide (m = n)) as [->|].
      - by rewrite lookup_insert_eq, lookup_alter_eq, En.
      - by rewrite lookup_insert_ne, lookup_alter_ne. }
  apply (cat_rep_set root d cat n t tables None); try done.
  cbn. apply leibniz_equiv. set_solver.
Qed.

Lemma database_name_normalize root desc : database_name (NormalizeTableDescriptor root desc) = database_name desc.
Proof. done. Qed.

Lemma CreateTable_ok root d cat desc :
  cat_rep root d cat -> IsValidName (database_name desc) = true ->
  descriptor_ok (NormalizeTableDescriptor root desc) ->
  exists d', CreateTable root desc d =
      ((c_create_table (NormalizeTableDescriptor root desc) cat).1, d') /\
    cat_rep root d' (c_create_table (NormalizeTableDescriptor root desc) cat).2 /\
    same_except (TableMetaPath root (database_name desc) (table_name desc)) d d'.
Proof.
  intros R Hn Hok. unfold CreateTable, c_create_table.
  rewrite M_bind_eq, (DatabaseExists_ok _ _ _ R) by done. rewrite database_name_normalize. cbv zeta.
  destruct (cat !! database_name desc) as [tables|] eqn:En; [|by exists d].
  rewrite bool_decide_true, M_bind_eq by done. cbn [negb reject_if mret M_ret].
  set (desc' := NormalizeTableDescriptor root desc) in *. rewrite M_bind_eq. unfold lift at 1.
  destruct (ValidateTableDescriptor desc') as [[]|] eqn:Hv; [|by exists d].
  assert (IsValidName (table_name desc') = true) as Ht.
  { revert Hv. unfold ValidateTableDescriptor, ValidateTableName, check_not.
    intros (? & _ & H)%result_bind_Ok. by destruct (IsValidName (table_name desc')). }
  destruct (cr_tables _ _ _ R _ _ _ En Ht) as [_ Hnd]. destruct (cr_names _ _ _ R _ _ En) as (_ & _ & Hcd).
  rewrite M_bind_eq. unfold TableMetaExists.
  rewrite (FileExists_meta _ _ _ R (database_name desc') _ tables) by done.
  destruct (tables !! table_name desc') eqn:Et; [by exists d|].
  rewrite bool_decide_false, M_bind_eq by (by intros [? ?]). cbn [reject_if mret M_ret].
  unfold WriteTableMetaFile. rewrite WriteAllBytes_healthy; [|apply (cr_healthy _ _ _ R)| |done].
  - eexists. split_and!; [done| |by apply same_except_set].
    apply (cat_rep_set root d cat _ _ tables (Some desc')); try done. by intros ? [= <-].
  - unfold TableMetaPath. rewrite dir_of_join by by apply no_slash_meta, IsValidName_no_slash.
    unfold dir_exists. rewrite (bool_decide_true (_ ∈ _)); [apply orb_true_r|done].
Qed.

(** ** Listing *)

#[export] Instance by_table_name_trans : Transitive by_table_name.
Proof.
  unfold by_table_name. intros a b c H1 H2. apply not_true_iff_false. intros Hca.
  destruct (string_ltb_total (table_name a) (table_name b)) as [H|[H|H]]; [|congruence|congruence].
  rewrite (string_ltb_trans _ _ _ Hca H) in H2. done.
Qed.
#[export] Instance by_table_name_total : Total by_table_name.
Proof.
  intros a b. unfold by_table_name.
  destruct (string_ltb (table_name b) (table_name a)) eqn:E; [right|by left].
  apply not_true_iff_false. intros E'. pose proof (string_ltb_trans _ _ _ E E') as H.
  by rewrite string_ltb_irrefl in H.
Qed.

(** Sorting by name does not depend on the order of the input when the names
    are distinct. *)
Lemma merge_sort_by_name l k :
  l ≡ₚ k -> (forall a b, a ∈ l -> b ∈ l -> table_name a = table_name b -> a = b) ->
  merge_sort by_table_name l = merge_sort by_table_name k.
Proof.
  intros Hp Hinj. apply (StronglySorted_unique_strong by_table_name).
  - intros a b Ha Hb H1 H2. rewrite merge_sort_Permutation in Ha, Hb. rewrite <- Hp in Hb.
    apply Hinj; [done..|]. unfold by_table_name in *.
    destruct (string_ltb_total (table_name a) (table_name b)) as [H|[H|H]]; congruence.
  - apply StronglySorted_merge_sort; apply _.
  - apply StronglySorted_merge_sort; apply _.
  - by rewrite !merge_sort_Permutation.
Qed.

Lemma ReadMetaFiles_ok dir entries (pairs : list (string * TableDescriptor)) d :
  healthy d -> filter (fun p => has_meta_extension dir p = true) entries = pairs.*1 ->
  Forall (fun pd => d_files d !! pd.1 = Some (SerializeTableDescriptor pd.2 []) /\
                    descriptor_ok pd.2 /\ ValidateTableDescriptor pd.2 = Ok tt) pairs ->
  ReadMetaFiles dir entries d = (Ok pairs.*2, d).
Proof.
  intros Hd. revert pairs. induction entries as [|e entries IH]; intros pairs E Hp.
  - by destruct pairs.
  - cbn [ReadMetaFiles]. rewrite filter_cons in E. destruct (has_meta_extension dir e); cbn [negb].
    + rewrite decide_True in E by done. destruct pairs as [|[p desc] pairs]; [done|].
      injection E as -> E. apply Forall_cons in Hp as [(Hf & Hok & Hv) Hp].
      rewrite M_bind_eq, (ReadTableMetaFile_ok _ desc) by done. by rewrite M_bind_eq, (IH pairs).
    + rewrite decide_False in E by done. by apply IH.
Qed.

Lemma substring_end s t : String.substring (String.length s) (String.length t) (s +:+ t) = t.
Proof.
  induction s as [|c s IH]; cbn [String.length].
  - change ("" +:+ t) with t. induction t as [|c t IH]; [done|].
    cbn [String.substring String.length]. by rewrite IH.
  - exact IH.
Qed.

Lemma has_meta_extension_meta root n t :
  IsValidName t = true -> has_meta_extension (CatalogDirPath root n) (TableMetaPath root n t) = true.
Proof.
  intros Ht. assert (0 < String.length t)%nat by by destruct t; [|cbn; lia].
  unfold has_meta_extension, TableMetaPath. set (dir := CatalogDirPath root n).
  rewrite <- !string_app_assoc. set (s := (dir +:+ "/") +:+ t).
  assert (String.length (s +:+ ".meta") = String.length dir + 1 + String.length t + 5)%nat as Hlen.
  { unfold s. by rewrite !string_length_app. }
  apply andb_true_iff. split; [apply Nat.ltb_lt; lia|]. apply bool_decide_eq_true.
  replace (String.length (s +:+ ".meta") - 5)%nat with (String.length s).
  - apply (substring_end s ".meta").
  - rewrite string_length_app. cbn [String.length]. lia.
Qed.

Lemma elem_of_files_in d dir p : p ∈ files_in d dir <-> is_Some (d_files d !! p) /\ dir_of p = dir.
Proof.
  unfold files_in. rewrite list_elem_of_filter, list_elem_of_fmap.
  split; [intros [? H]|intros [H ?]]; split; try done.
  - destruct H as ([q c] & -> & Hin). apply elem_of_map_to_list in Hin. by eexists.
  - destruct H as [c Hc]. exists (p, c). split; [done|]. by apply elem_of_map_to_list.
Qed.

Section listing.
Context (root : string) (d : disk) (cat : catalog) (R : cat_rep root d cat).
Context (n : string) (tables : gmap string TableDescriptor) (En : cat !! n = Some tables).

Definition meta_pairs : list (string * TableDescriptor) :=
  prod_map (TableMetaPath root n) id <$> map_to_list tables.

Lemma meta_pairs_stored p desc :
  (p, desc) ∈ meta_pairs <->
  exists t, p = TableMetaPath root n t /\ tables !! t = Some desc.
Proof.
  unfold meta_pairs. rewrite list_elem_of_fmap. split.
  - intros ([t desc'] & [= -> ->] & H%elem_of_map_to_list). by exists t.
  - intros (t & -> & H). exists (t, desc). split; [done|]. by apply elem_of_map_to_list.
Qed.

Lemma meta_files_Permutation :
  filter (fun p => has_meta_extension (CatalogDirPath root n) p = true)
    (files_in d (CatalogDirPath root n)) ≡ₚ meta_pairs.*1.
Proof.
  apply NoDup_Permutation.
  - apply NoDup_filter, NoDup_filter, NoDup_fst_map_to_list.
  - unfold meta_pairs. rewrite <- list_fmap_compose.
    rewrite (list_fmap_ext _ (TableMetaPath root n ∘ fst)) by by intros ? [].
    rewrite list_fmap_compose. apply NoDup_fmap_2_strong; [|apply NoDup_fst_map_to_list].
    intros t u Ht Hu E. apply list_elem_of_fmap in Ht as ([t' x] & -> & Ht%elem_of_map_to_list).
    apply list_elem_of_fmap in Hu as ([u' y] & -> & Hu%elem_of_map_to_list).
    pose proof (cr_names _ _ _ R n tables En) as [Hn _].
    apply (TableMetaPath_inj root n n); [done|done| | |done];
      [eapply (cr_stored _ _ _ R n tables t' x)|eapply (cr_stored _ _ _ R n tables u' y)]; done.
  - intros p. rewrite list_elem_of_filter, elem_of_files_in, list_elem_of_fmap. split.
    + intros (Hext & Hp & Hdir). destruct (cr_meta _ _ _ R n tables p En Hp Hdir Hext) as (t & Ht & ->).
      destruct (cr_tables _ _ _ R n tables t En Ht) as [Hf _]. rewrite Hf in Hp.
      destruct (tables !! t) as [desc|] eqn:Et; [|by destruct Hp].
      exists (TableMetaPath root n t, desc). split; [done|]. apply meta_pairs_stored. eauto.
    + intros ([p' desc] & -> & (t & E & Et)%meta_pairs_stored). cbn [fst] in *. subst p'.
      destruct (cr_stored _ _ _ R n tables t desc En Et) as (Ht & _).
      split; [by apply has_meta_extension_meta|].
      destruct (cr_tables _ _ _ R n tables t En Ht) as [-> _]. rewrite Et. split; [by eexists|].
      unfold TableMetaPath. by apply dir_of_join, no_slash_meta, IsValidName_no_slash.
Qed.

Lemma meta_pairs_readable (pairs : list (string * TableDescriptor)) :
  meta_pairs ≡ₚ pairs ->
  Forall (fun pd => d_files d !! pd.1 = Some (SerializeTableDescriptor pd.2 []) /\
                    descriptor_ok pd.2 /\ ValidateTableDescriptor pd.2 = Ok tt) pairs.
Proof.
  intros Hp. rewrite <- Hp. apply Forall_forall. intros [p desc] (t & -> & Et)%meta_pairs_stored.
  destruct (cr_stored _ _ _ R n tables t desc En Et) as (Ht & _ & _ & ? & ?).
  destruct (cr_tables _ _ _ R n tables t En Ht) as [Hf _]. rewrite Et in Hf. done.
Qed.

Lemma table_names_distinct a b :
  a ∈ (map_to_list tables).*2 -> b ∈ (map_to_list tables).*2 -> table_name a = table_name b -> a = b.
Proof.
  intros ([t x] & -> & Ht%elem_of_map_to_list)%list_elem_of_fmap
         ([u y] & -> & Hu%elem_of_map_to_list)%list_elem_of_fmap. cbn [snd]. intros E.
  destruct (cr_stored _ _ _ R n tables t x En Ht) as (_ & _ & Hx & _).
  destruct (cr_stored _ _ _ R n tables u y En Hu) as (_ & _ & Hy & _). congruence.
Qed.
End listing.

Lemma ListTables_ok order root d cat n :
  cat_rep root d cat -> (forall l, order l ≡ₚ l) ->
  ListTables order root n d = (c_list_tables n cat, d).
Proof.
  intros R Hord. pose proof (cr_healthy _ _ _ R) as Hd.
  unfold ListTables, c_list_tables, ValidateDatabaseName, check_not.
  rewrite M_bind_eq. unfold lift at 1. destruct (IsValidName n) eqn:Hn; [|done]. cbn [negb].
  rewrite M_bind_eq, (DatabaseExists_ok _ _ _ R) by done. destruct (cat !! n) as [tables|] eqn:En; [|done].
  rewrite bool_decide_true by done. dunfold. cbn [negb result_bind]. rewrite fs_query_healthy by done.
  destruct (cr_names _ _ _ R _ _ En) as (_ & _ & Hcd).
  unfold path_exists. rewrite (bool_decide_true (_ ∈ _)), orb_true_r by done.
  rewrite !fs_query_healthy by done. unfold is_directory. rewrite bool_decide_true by done. cbn [negb].
  rewrite fs_query_healthy by done.
  pose proof (meta_files_Permutation root d cat R n tables En) as Hperm.
  rewrite <- (Hord (files_in _ _)) in Hperm. apply Permutation_map_inv in Hperm as (pairs & Hpairs & Hperm).
  rewrite (ReadMetaFiles_ok _ _ pairs); [|done|done|by eapply meta_pairs_readable].
  f_equal. f_equal. symmetry. apply merge_sort_by_name.
  - transitivity (meta_pairs root n tables).*2; [|by rewrite Hperm].
    unfold meta_pairs. rewrite <- list_fmap_compose. rewrite (list_fmap_ext (snd ∘ prod_map _ id) snd); [done|]. by intros ? [].
  - by eapply table_names_distinct.
Qed.

(** ** Databases *)

(** The directories of a database. *)
Definition database_dirs (root n : string) : list string :=
  [DatabasePath root n; CatalogDirPath root n; TablesDirPath root n; IndexesDirPath root n;
   VersionsDirPath root n].

Lemma TableMetaPath_length root n t :
  String.length (TableMetaPath root n t) = (String.length (DatabasePath root n) + String.length t + 14)%nat.
Proof.
  unfold TableMetaPath, CatalogDirPath. rewrite !string_length_app. cbn [String.length]. lia.
Qed.

Lemma database_dirs_spec root n p :
  p ∈ database_dirs root n ->
  p = DatabasePath root n \/ exists x, no_slash x = true /\ (String.length x <= 8)%nat /\
    p = DatabasePath root n +:+ "/" +:+ x.
Proof.
  unfold database_dirs. rewrite !elem_of_cons, elem_of_nil.
  intros [->|[->|[->|[->|[->|[]]]]]]; [by left|right..];
    [exists "catalog"|exists "tables"|exists "indexes"|exists "versions"]; (split_and!; [done|cbn; lia|done]).
Qed.

Lemma database_dirs_below root n m p :
  IsValidName n = true -> IsValidName m = true ->
  p ∈ database_dirs root n -> below (DatabasePath root m) p = true -> m = n.
Proof.
  intros Hn Hm [->|(x & Hx & _ & ->)]%database_dirs_spec Hb;
    [by apply below_database in Hb|by apply below_database_sub in Hb].
Qed.

Lemma database_dirs_self root n p : p ∈ database_dirs root n -> below (DatabasePath root n) p = true.
Proof.
  intros [->|(x & Hx & _ & ->)]%database_dirs_spec; [apply below_refl|].
  rewrite below_join by done. left. apply below_refl.
Qed.

Lemma database_dirs_not_meta root n m t p :
  IsValidName n = true -> IsValidName m = true -> IsValidName t = true ->
  p ∈ database_dirs root n -> p <> TableMetaPath root m t.
Proof.
  intros Hn Hm Ht Hp ->. assert (m = n) as -> by (by eapply database_dirs_below; [..|apply below_meta]).
  assert (String.length (TableMetaPath root n t) <= String.length (DatabasePath root n) + 9)%nat.
  { apply database_dirs_spec in Hp as [->|(x & _ & ? & ->)]; [lia|].
    rewrite !string_length_app. cbn [String.length]. lia. }
  rewrite TableMetaPath_length in H. lia.
Qed.

Lemma root_dirs_short root n p : p ∈ dirs_of root -> below (DatabasePath root n) p = false.
Proof.
  intros [_ Hp%below_length]%elem_of_dirs_of. apply not_true_iff_false. intros Hb%below_length.
  unfold DatabasePath in Hb. rewrite !string_length_app in Hb. cbn [String.length] in Hb. lia.
Qed.

Lemma root_dirs_not_meta root n t p :
  IsValidName n = true -> IsValidName t = true -> p ∈ dirs_of root -> p <> TableMetaPath root n t.
Proof.
  intros ?? Hp%(root_dirs_short _ n) ->. apply not_true_iff_false in Hp. apply Hp. by apply below_meta.
Qed.

(** Creating directories above the root and those of one database. *)
Lemma cat_rep_dirs root d cat d' (new : list string) :
  cat_rep root d cat -> d_files d' = d_files d -> d_faults d' = d_faults d ->
  (forall p, p ∈ d_dirs d' <-> p ∈ d_dirs d \/ p ∈ new) ->
  (forall p, p ∈ new -> d_files d !! p = None) ->
  (forall p m, p ∈ new -> IsValidName m = true -> cat !! m = None -> below (DatabasePath root m) p = false) ->
  (forall p m t, p ∈ new -> IsValidName m = true -> IsValidName t = true -> p <> TableMetaPath root m t) ->
  cat_rep root d' cat.
Proof.
  intros R Hfiles Hfaults Hdirs Hnew Hbelow Hmeta. split.
  - unfold healthy. rewrite Hfaults. apply (cr_healthy _ _ _ R).
  - intros p [Hp|Hp]%Hdirs; rewrite Hfiles; [by apply (cr_wf _ _ _ R)|by apply Hnew].
  - apply (cr_root _ _ _ R).
  - intros p Hp. rewrite Hfiles. by apply (cr_root_clear _ _ _ R).
  - intros m ts E. destruct (cr_names _ _ _ R m ts E) as (? & ? & ?).
    split_and!; [done|apply Hdirs; by left..].
  - intros m p Hm E Hb. destruct (cr_absent _ _ _ R m p Hm E Hb) as [? ?]. rewrite Hfiles.
    split; [done|]. intros [?|Hp]%Hdirs; [done|]. by rewrite (Hbelow p m) in Hb.
  - intros m ts t E Ht. destruct (cr_tables _ _ _ R m ts t E Ht) as [? ?]. rewrite Hfiles.
    split; [done|]. intros [?|Hp]%Hdirs; [done|].
    by apply (Hmeta _ m t Hp); [eapply (cr_names _ _ _ R m ts)| |].
  - apply (cr_stored _ _ _ R).
  - intros m ts p E. rewrite Hfiles. by apply (cr_meta _ _ _ R m ts).
Qed.

Lemma cat_rep_with_root root d cat : cat_rep root d cat -> cat_rep root (with_dirs root d) cat.
Proof.
  intros R. apply (cat_rep_dirs root d cat _ (dirs_of root)); try done.
  - intros p. cbn. rewrite elem_of_union. by rewrite elem_of_list_to_set.
  - apply (cr_root_clear _ _ _ R).
  - intros p m ???. by apply root_dirs_short.
  - intros p m t ???. by apply root_dirs_not_meta.
Qed.

(** An existing directory with no metadata files is an empty database. *)
Lemma cat_rep_insert root d cat n :
  cat_rep root d cat -> IsValidName n = true -> cat !! n = None ->
  forall d', d_files d' = d_files d -> d_faults d' = d_faults d ->
  (forall p, p ∈ d_dirs d' <-> p ∈ d_dirs d \/ p ∈ database_dirs root n) ->
  cat_rep root d' (<[n := ∅]> cat).
Proof.
  intros R Hn En d' Hfiles Hfaults Hdirs.
  assert (forall p, below (DatabasePath root n) p = true -> d_files d !! p = None) as Hnone
    by (intros p Hb; by apply (cr_absent _ _ _ R n)).
  assert (forall m ts, <[n := ∅]> cat !! m = Some ts -> (m = n /\ ts = ∅) \/ (m <> n /\ cat !! m = Some ts))
    as Hcase.
  { intros m ts. destruct (decide (m = n)) as [->|]; [rewrite lookup_insert_eq|rewrite lookup_insert_ne by done];
      naive_solver. }
  split.
  - unfold healthy. rewrite Hfaults. apply (cr_healthy _ _ _ R).
  - intros p [Hp|Hp]%Hdirs; rewrite Hfiles; [by apply (cr_wf _ _ _ R)|].
    by apply Hnone, database_dirs_self.
  - apply (cr_root _ _ _ R).
  - intros p Hp. rewrite Hfiles. by apply (cr_root_clear _ _ _ R).
  - intros m ts [[-> ->]|[Hne E]]%Hcase.
    + split_and!; [done|apply Hdirs; right; set_solver..].
    + destruct (cr_names _ _ _ R m ts E) as (? & ? & ?). split_and!; [done|apply Hdirs; by left..].
  - intros m p Hm E Hb. assert (m <> n) by (intros ->; by rewrite lookup_insert_eq in E).
    rewrite lookup_insert_ne in E by done. destruct (cr_absent _ _ _ R m p Hm E Hb). rewrite Hfiles.
    split; [done|]. intros [?|Hp]%Hdirs; [done|]. by apply (database_dirs_below _ n m) in Hb.
  - intros m ts t [[-> ->]|[Hne E]]%Hcase Ht; rewrite Hfiles.
    + rewrite lookup_empty. assert (below (DatabasePath root n) (TableMetaPath root n t) = true) as Hb
        by by apply below_meta. destruct (cr_absent _ _ _ R n _ Hn En Hb). split; [done|].
      intros [?|Hp]%Hdirs; [done|]. by apply (database_dirs_not_meta _ _ n t) in Hp.
    + destruct (cr_tables _ _ _ R m ts t E Ht). split; [done|]. intros [?|Hp]%Hdirs; [done|].
      apply (database_dirs_not_meta _ _ m t) in Hp; [done|done|by eapply (cr_names _ _ _ R m ts)|done].
  - intros m ts t desc [[-> ->]|[Hne E]]%Hcase; [by rewrite lookup_empty|]. by apply (cr_stored _ _ _ R).
  - intros m ts p [[-> ->]|[Hne E]]%Hcase [c Hp] Hdir Hext; rewrite Hfiles in Hp.
    + exfalso. enough (below (DatabasePath root n) p = true) as Hb by (apply Hnone in Hb; congruence).
      destruct (dir_of_split p) as (x & Hx & ->); [rewrite Hdir; by destruct root|].
      rewrite Hdir, below_join by done. left. apply database_dirs_self. set_solver.
    + by apply (cr_meta _ _ _ R m ts).
Qed.

Lemma database_dirs_clear root d cat n p :
  cat_rep root d cat -> IsValidName n = true -> cat !! n = None ->
  p ∈ database_dirs root n -> dirs_clear d p.
Proof.
  intros R Hn En Hp q [Hq Hb]%elem_of_dirs_of.
  assert (forall q, q <> "" -> below q (DatabasePath root n) = true -> d_files d !! q = None) as Hdb.
  { intros q' Hne [Hb'| ->]%below_join; [| |by apply IsValidName_no_slash].
    - apply (cr_root_clear _ _ _ R), elem_of_dirs_of. done.
    - apply (cr_absent _ _ _ R n _ Hn En), below_refl. }
  pose proof (database_dirs_self _ _ _ Hp) as Hself.
  apply database_dirs_spec in Hp as [->|(x & Hx & _ & ->)]; [by apply Hdb|].
  apply below_join in Hb as [Hb| ->]; [by apply Hdb| |done]. by apply (cr_absent _ _ _ R n).
Qed.

Lemma dirs_of_join p x :
  no_slash x = true -> dirs_of (p +:+ "/" +:+ x) = dirs_of p ++ [p +:+ "/" +:+ x].
Proof.
  intros Hx. unfold dirs_of. rewrite path_prefixes_join, filter_app by done. f_equal.
  rewrite filter_cons, decide_True; [done|]. by destruct p.
Qed.

Lemma make_database_dirs root n d p :
  IsValidName n = true ->
  p ∈ d_dirs (with_dirs (VersionsDirPath root n) (with_dirs (IndexesDirPath root n)
        (with_dirs (TablesDirPath root n) (with_dirs (CatalogDirPath root n)
           (with_dirs (DatabasePath root n) (with_dirs root d)))))) <->
  p ∈ d_dirs (with_dirs root d) \/ p ∈ database_dirs root n.
Proof.
  intros Hn%IsValidName_no_slash. cbn [d_dirs with_dirs].
  assert (dirs_of (DatabasePath root n) = dirs_of root ++ [DatabasePath root n]) as Edb
    by by apply dirs_of_join.
  pose proof (fun x Hx => dirs_of_join (DatabasePath root n) x Hx) as Esub. rewrite Edb in Esub.
  change (VersionsDirPath root n) with (DatabasePath root n +:+ "/" +:+ "versions").
  change (IndexesDirPath root n) with (DatabasePath root n +:+ "/" +:+ "indexes").
  change (TablesDirPath root n) with (DatabasePath root n +:+ "/" +:+ "tables").
  change (CatalogDirPath root n) with (DatabasePath root n +:+ "/" +:+ "catalog").
  rewrite !Esub, Edb by done. unfold database_dirs.
  change (VersionsDirPath root n) with (DatabasePath root n +:+ "/" +:+ "versions").
  change (IndexesDirPath root n) with (DatabasePath root n +:+ "/" +:+ "indexes").
  change (TablesDirPath root n) with (DatabasePath root n +:+ "/" +:+ "tables").
  change (CatalogDirPath root n) with (DatabasePath root n +:+ "/" +:+ "catalog").
  set_solver.
Qed.

Lemma CreateDatabase_ok root d cat n :
  cat_rep root d cat ->
  exists d', CreateDatabase root n d = ((c_create_database n cat).1, d') /\
    cat_rep root d' (c_create_database n cat).2.
Proof.
  intros R. unfold CreateDatabase, c_create_database, ValidateDatabaseName, check_not.
  rewrite M_bind_eq. unfold lift at 1. destruct (IsValidName n) eqn:Hn; [|by exists d]. cbn [negb].
  pose proof (cat_rep_with_root _ _ _ R) as R1. pose proof (cr_healthy _ _ _ R) as Hd.
  rewrite M_bind_eq, EnsureDir_healthy by (done || apply (cr_root _ _ _ R) || apply (cr_root_clear _ _ _ R)).
  rewrite M_bind_eq, (DatabaseExists_ok _ _ _ R1) by done.
  destruct (cat !! n) as [ts|] eqn:En; [by exists (with_dirs root d)|].
  rewrite bool_decide_false, M_bind_eq by (by intros [? ?]). cbn [reject_if mret M_ret].
  assert (forall p, p ∈ database_dirs root n -> forall d1, d_files d1 = d_files d -> healthy d1 ->
    EnsureDir p d1 = (Ok tt, with_dirs p d1)) as Hmake.
  { intros p Hp d1 Hf Hd1. apply EnsureDir_healthy; [done| |].
    - pose proof (cr_root _ _ _ R). apply database_dirs_spec in Hp as [->|(x & _ & _ & ->)]; by destruct root.
    - intros q Hq. rewrite Hf. by eapply (database_dirs_clear root d cat n p). }
  do 4 (rewrite M_bind_eq, Hmake; [|set_solver|done|done]). rewrite Hmake; [|set_solver|done|done].
  eexists. split; [done|]. apply (cat_rep_insert root (with_dirs root d) cat n R1 Hn En); [done|done|].
  intros p. by apply make_database_dirs.
Qed.

Lemma remove_all_files path d p :
  d_files (remove_all path d) !! p = (if below path p then None else d_files d !! p).
Proof.
  cbn. rewrite map_lookup_filter. destruct (d_files d !! p) as [c|]; cbn; [|by destruct (below path p)].
  destruct (below path p) eqn:E; [rewrite option_guard_False by (cbn; congruence); done|].
  by rewrite option_guard_True.
Qed.
Lemma remove_all_dirs path d p :
  p ∈ d_dirs (remove_all path d) <-> below path p = false /\ p ∈ d_dirs d.
Proof. cbn [d_dirs remove_all]. by rewrite elem_of_filter. Qed.

Lemma cat_rep_remove root d cat n :
  cat_rep root d cat -> IsValidName n = true ->
  cat_rep root (remove_all (DatabasePath root n) d) (delete n cat).
Proof.
  intros R Hn.
  assert (forall m ts, delete n cat !! m = Some ts -> m <> n /\ cat !! m = Some ts) as Hcase
    by (intros m ts [? ?]%lookup_delete_Some; auto).
  split.
  - apply (cr_healthy _ _ _ R).
  - intros p [Hb Hp]%remove_all_dirs. rewrite remove_all_files, Hb. by apply (cr_wf _ _ _ R).
  - apply (cr_root _ _ _ R).
  - intros p Hp. rewrite remove_all_files, root_dirs_short by done. by apply (cr_root_clear _ _ _ R).
  - intros m ts [Hne E]%Hcase. destruct (cr_names _ _ _ R m ts E) as (Hm & ? & ?).
    assert (forall p, p ∈ database_dirs root m -> below (DatabasePath root n) p = false) as Hnb.
    { intros p Hp. apply not_true_iff_false. intros Hb. by apply (database_dirs_below root m) in Hb. }
    split_and!; [done|apply remove_all_dirs; split; [apply Hnb; set_solver|done]..].
  - intros m p Hm E Hb. rewrite remove_all_files, remove_all_dirs.
    destruct (decide (m = n)) as [->|Hne]; [rewrite Hb; naive_solver|].
    rewrite lookup_delete_ne in E by done. destruct (cr_absent _ _ _ R m p Hm E Hb) as [-> ?].
    split; [by destruct (below (DatabasePath root n) p)|naive_solver].
  - intros m ts t [Hne E]%Hcase Ht. destruct (cr_tables _ _ _ R m ts t E Ht) as [Hf ?].
    pose proof (cr_names _ _ _ R m ts E) as [Hm _]. rewrite remove_all_files, remove_all_dirs.
    assert (below (DatabasePath root n) (TableMetaPath root m t) = false) as ->; [|naive_solver].
    apply not_true_iff_false. by intros ->%below_meta.
  - intros m ts t desc [Hne E]%Hcase. by apply (cr_stored _ _ _ R).
  - intros m ts p [Hne E]%Hcase [c Hp] Hdir Hext. rewrite remove_all_files in Hp.
    destruct (below (DatabasePath root n) p); [done|]. by apply (cr_meta _ _ _ R m ts).
Qed.

Lemma DropDatabase_ok root d cat n :
  cat_rep root d cat ->
  exists d', DropDatabase root n d = ((c_drop_database n cat).1, d') /\
    cat_rep root d' (c_drop_database n cat).2.
Proof.
  intros R. unfold DropDatabase, c_drop_database, ValidateDatabaseName, check_not.
  rewrite M_bind_eq. unfold lift at 1. destruct (IsValidName n) eqn:Hn; [|by exists d]. cbn [negb].
  rewrite M_bind_eq, (DatabaseExists_ok _ _ _ R) by done.
  destruct (cat !! n) as [ts|] eqn:En; [|by exists d]. rewrite bool_decide_true by done.
  munfold. cbn [negb]. rewrite io_check_healthy by apply (cr_healthy _ _ _ R).
  eexists. split; [done|]. by apply cat_rep_remove.
Qed.

(** ** Theorems *)

Inductive cat_op :=
  | coCreateDatabase (n : string)
  | coDropDatabase (n : string)
  | coCreateTable (desc : TableDescriptor)
  | coDropTable (n t : string)
  | coGetTable (n t : string)
  | coListTables (n : string).

Inductive cat_outcome :=
  | cuStatus (r : result unit)
  | cuTable (r : result TableDescriptor)
  | cuTables (r : result (list TableDescriptor)).

(** The abstract catalog's answers. *)
Definition c_op (root : string) (o : cat_op) (cat : catalog) : cat_outcome * catalog :=
  match o with
  | coCreateDatabase n => prod_map cuStatus id (c_create_database n cat)
  | coDropDatabase n => prod_map cuStatus id (c_drop_database n cat)
  | coCreateTable desc => prod_map cuStatus id (c_create_table (NormalizeTableDescriptor root desc) cat)
  | coDropTable n t => prod_map cuStatus id (c_drop_table n t cat)
  | coGetTable n t => (cuTable (c_get_table n t cat), cat)
  | coListTables n => (cuTables (c_list_tables n cat), cat)
  end.

(** The catalog manager's. *)
Definition cm_op order (root : string) (o : cat_op) (d : disk) : cat_outcome * disk :=
  match o with
  | coCreateDatabase n => prod_map cuStatus id (CreateDatabase root n d)
  | coDropDatabase n => prod_map cuStatus id (DropDatabase root n d)
  | coCreateTable desc => prod_map cuStatus id (CreateTable root desc d)
  | coDropTable n t => prod_map cuStatus id (DropTable root n t d)
  | coGetTable n t => prod_map cuTable id (GetTable root n t d)
  | coListTables n => prod_map cuTables id (ListTables order root n d)
  end.

Fixpoint run_ops {S A B} (f : A -> S -> B * S) (os : list A) (s : S) : list B * S :=
  match os with
  | [] => ([], s)
  | o :: os' => let '(r, s1) := f o s in let '(rs, s2) := run_ops f os' s1 in (r :: rs, s2)
  end.

(** Descriptors that fit the file format, filed under a valid database name. *)
Definition cat_op_ok (root : string) (o : cat_op) : Prop :=
  match o with
  | coCreateTable desc =>
      IsValidName (database_name desc) = true /\ descriptor_ok (NormalizeTableDescriptor root desc)
  | _ => True
  end.

Lemma cm_op_refines order root o d cat :
  (forall l, order l ≡ₚ l) -> cat_rep root d cat -> cat_op_ok root o ->
  exists d', cm_op order root o d = ((c_op root o cat).1, d') /\ cat_rep root d' (c_op root o cat).2.
Proof.
  intros Hord R Hok. destruct o as [n|n|desc|n t|n t|n]; cbn [cm_op c_op].
  - destruct (CreateDatabase_ok root d cat n R) as (d' & -> & ?). by exists d'.
  - destruct (DropDatabase_ok root d cat n R) as (d' & -> & ?). by exists d'.
  - destruct Hok. destruct (CreateTable_ok root d cat desc R) as (d' & -> & ? & _); [done..|]. by exists d'.
  - destruct (DropTable_ok root d cat n t R) as (d' & -> & ?). by exists d'.
  - rewrite (GetTable_ok root d cat n t R). by exists d.
  - rewrite (ListTables_ok order root d cat n R Hord). by exists d.
Qed.


Definition sample_users : TableDescriptor :=
  mkTableDescriptor "shop" "users" "" "" [mkColumnSchema "id" ctInt true false None]
    [mkIndexDescriptor "by_id" "" "id" "" true].
Definition sample_cat_ops : list cat_op :=
  [coCreateDatabase "shop"; coCreateTable sample_users; coCreateTable sample_users;
   coGetTable "shop" "users"; coListTables "shop"; coDropTable "shop" "users";
   coListTables "shop"; coDropDatabase "shop"; coDropDatabase "shop"].

Lemma empty_root_rep : cat_rep "data" (mkDisk ∅ ∅ []) ∅.
Proof. by apply cat_rep_empty. Qed.


(** A catalog directory that cannot be opened is listed as empty: when the
    directory iterator fails, [ListTables] reports success and no tables, since
    the error code is only looked at inside the loop. *)
Theorem unreadable_catalog_lists_empty order root d cat n msg :
  cat_rep root d cat -> is_Some (cat !! n) ->
  exists d', ListTables order root n
    (mkDisk (d_files d) (d_dirs d) [None; None; None; None; Some msg]) = (Ok [], d').
Proof.
  intros R [ts En]. destruct (cr_names _ _ _ R n ts En) as (Hn & Hdb & Hcd).
  eexists. unfold ListTables, ValidateDatabaseName, check_not. rewrite Hn.
  unfold DatabaseExists, fs_query, next_fault. dunfold. cbn [negb d_faults].
  unfold path_exists, is_directory. cbn [d_dirs d_files].
  repeat first [rewrite (bool_decide_true (_ ∈ _)) by done|rewrite orb_true_r|progress cbn].
  reflexivity.
Qed.

Definition shop_disk : disk := (CreateDatabase "data" "shop" (mkDisk ∅ ∅ [])).2.
Lemma shop_disk_rep : cat_rep "data" shop_disk (<["shop" := ∅]> ∅).
Proof.
  destruct (CreateDatabase_ok "data" (mkDisk ∅ ∅ []) ∅ "shop" empty_root_rep) as (d' & E & R).
  unfold shop_disk. by rewrite E.
Qed.

Lemma unreadable_catalog_lists_empty_witness :
  exists d', ListTables id "data" "shop"
    (mkDisk (d_files shop_disk) (d_dirs shop_disk) [None; None; None; None; Some "EACCES"]) = (Ok [], d').
Proof.
  apply (unreadable_catalog_lists_empty id "data" shop_disk (<["shop" := ∅]> ∅) "shop" "EACCES").
  - apply shop_disk_rep.
  - by eexists.
Defined.
