(* ===== verification/Locks.v ===== *)
(** * Locks and transactions

    Models [src/transaction/lock_manager.cpp] and
    [src/transaction/transaction_manager.cpp]: a lock table with shared and
    exclusive row locks, the index from transactions to the rows they lock, and
    the life of a transaction.  Each method runs under the manager's mutex, so a
    concurrent execution is an interleaving of whole calls.  Lock requests never
    wait: a conflicting request is refused. *)

From S2P Require Import Prelude.

(** ** Data *)

Inductive IsolationLevel := kReadCommitted | kRepeatableRead | kSerializable.
Inductive TransactionState := kActive | kCommitted | kAborted.
#[export] Instance TransactionState_eq_dec : EqDecision TransactionState.
Proof. solve_decision. Defined.

Record Transaction := mkTransaction {
  txn_id : Z;
  isolation : IsolationLevel;
  txn_state : TransactionState
}.

Record LockEntry := mkLockEntry { shared_holders : gset Z; exclusive_holder : option Z }.
Definition no_locks : LockEntry := mkLockEntry ∅ None.

Record LockManager := mkLockManager {
  lock_table_ : gmap Z LockEntry;
  txn_locks_ : gmap Z (gset Z)
}.
Definition new_LockManager : LockManager := mkLockManager ∅ ∅.

(** ** The lock manager *)

Definition CanAcquireLocks (txn : Transaction) : bool := bool_decide (txn_state txn = kActive).
Definition CanUnlock (txn : Transaction) : bool :=
  bool_decide (txn_state txn = kActive) || bool_decide (txn_state txn = kCommitted) ||
  bool_decide (txn_state txn = kAborted).

Definition RememberTxnLockOwnership (id rid_value : Z) (txn_locks : gmap Z (gset Z)) : gmap Z (gset Z) :=
  <[id := {[rid_value]} ∪ default ∅ (txn_locks !! id)]> txn_locks.

Definition ForgetTxnLockOwnership (id rid_value : Z) (txn_locks : gmap Z (gset Z)) : gmap Z (gset Z) :=
  match txn_locks !! id with
  | None => txn_locks
  | Some rids =>
      if bool_decide (rids ∖ {[rid_value]} = ∅) then delete id txn_locks
      else <[id := rids ∖ {[rid_value]}]> txn_locks
  end.

(** Storing an entry and remembering its owner. *)
Definition grant (id rid_value : Z) (entry : LockEntry) (lm : LockManager) : LockManager :=
  mkLockManager (<[rid_value := entry]> (lock_table_ lm))
    (RememberTxnLockOwnership id rid_value (txn_locks_ lm)).

(** [lock_table_[rid]] creates an empty entry when there is none. *)
Definition LockShared (txn : Transaction) (rid : Z) : M LockManager unit :=
  _ ← reject_if (negb (CanAcquireLocks txn)) kTransactionError "transaction is not active";
  lm ← get;
  let entry := default no_locks (lock_table_ lm !! rid) in
  _ ← put (mkLockManager (<[rid := entry]> (lock_table_ lm)) (txn_locks_ lm));
  _ ← reject_if (match exclusive_holder entry with
                 | Some holder => negb (holder =? txn_id txn)
                 | None => false
                 end) kTransactionError "shared lock conflict";
  modify (grant (txn_id txn) rid
            (mkLockEntry ({[txn_id txn]} ∪ shared_holders entry) (exclusive_holder entry))).

Definition LockExclusive (txn : Transaction) (rid : Z) : M LockManager unit :=
  _ ← reject_if (negb (CanAcquireLocks txn)) kTransactionError "transaction is not active";
  lm ← get;
  let entry := default no_locks (lock_table_ lm !! rid) in
  _ ← put (mkLockManager (<[rid := entry]> (lock_table_ lm)) (txn_locks_ lm));
  if bool_decide (exclusive_holder entry = Some (txn_id txn)) then
    modify (grant (txn_id txn) rid entry)
  else
    _ ← reject_if (match exclusive_holder entry with
                   | Some holder => negb (holder =? txn_id txn)
                   | None => false
                   end) kTransactionError "exclusive lock conflict";
    if bool_decide (shared_holders entry = ∅) then
      modify (grant (txn_id txn) rid (mkLockEntry (shared_holders entry) (Some (txn_id txn))))
    else
      let holds_only_shared_lock :=
        bool_decide (size (shared_holders entry) = 1%nat) &&
        bool_decide (txn_id txn ∈ shared_holders entry) in
      if holds_only_shared_lock then
        modify (grant (txn_id txn) rid
                  (mkLockEntry (shared_holders entry ∖ {[txn_id txn]}) (Some (txn_id txn))))
      else throw kTransactionError "cannot upgrade shared lock to exclusive".

(** The entry without the locks of [id]; an empty entry is erased. *)
Definition release_entry (id : Z) (entry : LockEntry) : option LockEntry :=
  let holder := if bool_decide (exclusive_holder entry = Some id) then None else exclusive_holder entry in
  let holders := shared_holders entry ∖ {[id]} in
  if bool_decide (holder = None) && bool_decide (holders = ∅) then None
  else Some (mkLockEntry holders holder).
Definition release (id rid_value : Z) (lock_table : gmap Z LockEntry) : gmap Z LockEntry :=
  match lock_table !! rid_value with
  | None => lock_table
  | Some entry =>
      match release_entry id entry with
      | None => delete rid_value lock_table
      | Some entry' => <[rid_value := entry']> lock_table
      end
  end.

Definition Unlock (txn : Transaction) (rid : Z) : M LockManager unit :=
  _ ← reject_if (negb (CanUnlock txn)) kTransactionError "transaction state cannot unlock";
  modify (fun lm => mkLockManager (release (txn_id txn) rid (lock_table_ lm))
                      (ForgetTxnLockOwnership (txn_id txn) rid (txn_locks_ lm))).

Definition UnlockAll (txn : Transaction) : M LockManager unit :=
  _ ← reject_if (negb (CanUnlock txn)) kTransactionError "transaction state cannot unlock";
  lm ← get;
  match txn_locks_ lm !! txn_id txn with
  | None => mret tt
  | Some held_rids =>
      put (mkLockManager (foldr (release (txn_id txn)) (lock_table_ lm) (elements held_rids))
             (delete (txn_id txn) (txn_locks_ lm)))
  end.

(** ** The transaction manager *)

(** [lock_manager_] may be null; a call on it runs on the manager's state. *)
Record TransactionManager := mkTransactionManager {
  lock_manager_ : option LockManager;
  next_txn_id_ : Z
}.
Definition new_TransactionManager (lm : option LockManager) : TransactionManager :=
  mkTransactionManager lm 1.

Definition Begin (isolation : IsolationLevel) (tm : TransactionManager) : Transaction * TransactionManager :=
  (mkTransaction (next_txn_id_ tm) isolation kActive,
   mkTransactionManager (lock_manager_ tm) (u64 (next_txn_id_ tm + 1))).

Definition FinishTransaction (target_state : TransactionState) : M (Transaction * TransactionManager) unit :=
  '(txn, tm) ← get;
  _ ← reject_if (negb (bool_decide (txn_state txn = kActive))) kTransactionError
        "transaction is not active";
  let txn' := mkTransaction (txn_id txn) (isolation txn) target_state in
  match lock_manager_ tm with
  | None => put (txn', tm)
  | Some lm =>
      let '(unlock_status, lm') := UnlockAll txn' lm in
      _ ← put (txn', mkTransactionManager (Some lm') (next_txn_id_ tm));
      lift unlock_status
  end.

Definition Commit : M (Transaction * TransactionManager) unit := FinishTransaction kCommitted.
Definition Rollback : M (Transaction * TransactionManager) unit := FinishTransaction kAborted.

(** ** The locks that are held *)

(** The lock of [t] in an entry: [Some true] exclusive, [Some false] shared. *)
Definition entry_mode (e : LockEntry) (t : Z) : option bool :=
  if bool_decide (exclusive_holder e = Some t) then Some true
  else if bool_decide (t ∈ shared_holders e) then Some false else None.
Definition mode_of (lm : LockManager) (t r : Z) : option bool :=
  lock_table_ lm !! r ≫= fun e => entry_mode e t.

Definition entry_wf (e : LockEntry) : Prop :=
  forall t, exclusive_holder e = Some t -> shared_holders e ⊆ {[t]}.

(** The exclusive holder excludes all others, the index lists exactly the locks
    in the table, and no empty entries stay behind. *)
Record lock_inv (lm : LockManager) : Prop := {
  li_entry : forall r e, lock_table_ lm !! r = Some e -> entry_wf e /\ exists t, is_Some (entry_mode e t);
  li_owner : forall t r, is_Some (mode_of lm t r) <-> r ∈ default ∅ (txn_locks_ lm !! t);
  li_txn : forall t rids, txn_locks_ lm !! t = Some rids -> rids <> ∅
}.

Lemma lock_inv_new : lock_inv new_LockManager.
Proof.
  split; cbn; [done| |done]. intros t r. unfold mode_of. cbn. rewrite lookup_empty. cbn.
  split; [by intros [? [=]]|set_solver].
Qed.

Lemma entry_mode_exclusive e t t' :
  entry_wf e -> entry_mode e t = Some true -> is_Some (entry_mode e t') -> t' = t.
Proof.
  unfold entry_mode. intros Hwf. repeat case_bool_decide; try done.
  - congruence.
  - intros _ _. apply Hwf in H. set_solver.
Qed.

(** ** Granting *)

Lemma Remember_lookup id r m t :
  default ∅ (RememberTxnLockOwnership id r m !! t) =
    (if bool_decide (t = id) then {[r]} else ∅) ∪ default ∅ (m !! t).
Proof.
  unfold RememberTxnLockOwnership. case_bool_decide as E.
  - subst. by rewrite lookup_insert_eq.
  - rewrite lookup_insert_ne by done. by rewrite (left_id_L ∅ (∪)).
Qed.

Lemma mode_of_grant id r e lm t r' :
  mode_of (grant id r e lm) t r' = if bool_decide (r' = r) then entry_mode e t else mode_of lm t r'.
Proof.
  unfold mode_of, grant. cbn. case_bool_decide; [subst; by rewrite lookup_insert_eq|].
  by rewrite lookup_insert_ne.
Qed.

Lemma grant_inv id r e lm :
  lock_inv lm -> entry_wf e -> is_Some (entry_mode e id) ->
  (forall t, t <> id -> entry_mode e t = mode_of lm t r) -> lock_inv (grant id r e lm).
Proof.
  intros [He Ho Ht] Hwf Hid Hother. split.
  - intros r' e'. cbn. destruct (decide (r' = r)) as [->|]; [rewrite lookup_insert_eq|rewrite lookup_insert_ne by done; apply He].
    intros [= <-]. eauto.
  - intros t r'. rewrite mode_of_grant. cbn [txn_locks_ grant].
    rewrite Remember_lookup, elem_of_union, <- Ho.
    destruct (decide (r' = r)) as [->|Hr]; [rewrite (bool_decide_true (r = r)) by done|rewrite (bool_decide_false (r' = r)) by done];
      (case_bool_decide; [subst|rewrite ?Hother by done]); set_solver.
  - intros t rids. cbn. unfold RememberTxnLockOwnership.
    destruct (decide (t = id)) as [->|]; [rewrite lookup_insert_eq|rewrite lookup_insert_ne by done; by apply Ht].
    intros [= <-]. set_solver.
Qed.

(** ** Releasing *)

Lemma entry_mode_release id e t :
  release_entry id e ≫= (fun e => entry_mode e t) = if bool_decide (t = id) then None else entry_mode e t.
Proof.
  unfold release_entry, entry_mode. destruct e as [sh ex]. cbn.
  destruct (decide (t = id)) as [->|Hne].
  - rewrite (bool_decide_true (id = id)) by done. case_match; [done|]. cbn.
    repeat case_bool_decide; try done; set_solver.
  - rewrite (bool_decide_false (t = id)) by done. case_match eqn:E; cbn.
    + apply andb_true_iff in E as [E1%bool_decide_eq_true E2%bool_decide_eq_true].
      repeat case_bool_decide; try done; try congruence; set_solver.
    + repeat case_bool_decide; try done; try congruence; set_solver.
Qed.

Lemma release_entry_wf id e e' :
  entry_wf e -> release_entry id e = Some e' -> entry_wf e' /\ exists t, is_Some (entry_mode e' t).
Proof.
  unfold release_entry. intros Hwf. case_match eqn:E; [done|]. intros [= <-].
  destruct e as [sh ex]. cbn in *. split.
  - intros t. cbn. destruct (bool_decide (ex = Some id)); [by intros [=]|]. intros Ht. pose proof (Hwf t Ht). cbn in *. set_solver.
  - apply andb_false_iff in E. unfold entry_mode. cbn.
    destruct (decide ((if bool_decide (ex = Some id) then None else ex) = None)) as [E1|E1].
    + destruct E as [E%bool_decide_eq_false|E%bool_decide_eq_false]; [done|].
      apply set_choose_L in E as [t Ht]. exists t. rewrite E1, bool_decide_false by done.
      by rewrite bool_decide_true.
    + destruct (if bool_decide (ex = Some id) then None else ex) as [t|] eqn:E2; [|done].
      exists t. by rewrite bool_decide_true.
Qed.

Lemma release_lookup id r table r' :
  release id r table !! r' =
    if bool_decide (r' = r) then table !! r ≫= release_entry id else table !! r'.
Proof.
  unfold release. destruct (table !! r) as [e|] eqn:E.
  - case_bool_decide; subst; cbn; destruct (release_entry id e);
      by rewrite ?lookup_insert_eq, ?lookup_delete_eq, ?lookup_insert_ne, ?lookup_delete_ne.
  - by case_bool_decide; subst.
Qed.

Lemma release_all_lookup id rids table r :
  NoDup rids ->
  foldr (release id) table rids !! r =
    if bool_decide (r ∈ rids) then table !! r ≫= release_entry id else table !! r.
Proof.
  induction 1 as [|r0 rids Hr0 _ IH]; [done|]. cbn [foldr]. rewrite release_lookup.
  destruct (decide (r = r0)) as [->|Hne].
  - rewrite !bool_decide_true by set_solver. by rewrite IH, bool_decide_false.
  - rewrite (bool_decide_false (r = r0)), IH by done. by rewrite (bool_decide_ext (r ∈ r0 :: rids) (r ∈ rids)) by set_solver.
Qed.

Lemma Forget_lookup id r m t :
  (forall t rids, m !! t = Some rids -> rids <> ∅) ->
  default ∅ (ForgetTxnLockOwnership id r m !! t) =
    (if bool_decide (t = id) then default ∅ (m !! t) ∖ {[r]} else default ∅ (m !! t)) /\
  (forall rids, ForgetTxnLockOwnership id r m !! t = Some rids -> rids <> ∅).
Proof.
  intros Hm. unfold ForgetTxnLockOwnership.
  destruct (decide (t = id)) as [->|Hne].
  - rewrite bool_decide_true by done. destruct (m !! id) as [rids|] eqn:E; [|rewrite E; cbn; split; [set_solver|done]].
    case_bool_decide as Hr; [rewrite lookup_delete_eq|rewrite lookup_insert_eq]; cbn.
    + split; [by rewrite Hr|done].
    + split; [done|]. by intros ? [= <-].
  - rewrite (bool_decide_false (t = id)) by done.
    destruct (m !! id) as [rids|] eqn:E; [|split; [done|apply Hm]].
    case_bool_decide; [rewrite lookup_delete_ne by done|rewrite lookup_insert_ne by done];
      (split; [done|apply Hm]).
Qed.

(** Dropping the locks of [id] on the rows in [rids]. *)
Lemma release_inv id (gone : Z -> bool) lm lm' :
  lock_inv lm ->
  (forall r, lock_table_ lm' !! r =
     if gone r then lock_table_ lm !! r ≫= release_entry id else lock_table_ lm !! r) ->
  (forall t r, r ∈ default ∅ (txn_locks_ lm' !! t) <->
     r ∈ default ∅ (txn_locks_ lm !! t) /\ ~ (t = id /\ gone r = true)) ->
  (forall t rids, txn_locks_ lm' !! t = Some rids -> rids <> ∅) ->
  lock_inv lm' /\
  (forall t r, mode_of lm' t r = if bool_decide (t = id) && gone r then None else mode_of lm t r).
Proof.
  intros [He Ho Ht] Htable Howner Htxn.
  assert (forall t r, mode_of lm' t r =
    if bool_decide (t = id) && gone r then None else mode_of lm t r) as Hmode.
  { intros t r. unfold mode_of. rewrite Htable. destruct (gone r); [|by rewrite andb_false_r].
    rewrite andb_true_r. destruct (lock_table_ lm !! r) as [e|]; cbn; [apply entry_mode_release|].
    by case_bool_decide. }
  split; [split|done].
  - intros r e. rewrite Htable. destruct (gone r); [|by apply He].
    destruct (lock_table_ lm !! r) as [e0|] eqn:E; [|done]. cbn.
    apply release_entry_wf. by apply (He r).
  - intros t r. rewrite Hmode, Howner, <- Ho.
    case_bool_decide as Hid; destruct (gone r); cbn; split; naive_solver.
  - done.
Qed.

Lemma release_one_inv id r lm :
  lock_inv lm ->
  let lm' := mkLockManager (release id r (lock_table_ lm)) (ForgetTxnLockOwnership id r (txn_locks_ lm)) in
  lock_inv lm' /\
  (forall t r', mode_of lm' t r' = if bool_decide (t = id) && bool_decide (r' = r) then None else mode_of lm t r').
Proof.
  intros H lm'. pose proof (fun t => Forget_lookup id r (txn_locks_ lm) t (li_txn _ H)) as HF.
  apply (release_inv id (fun r' => bool_decide (r' = r))); [done| | |].
  - intros r'. cbn. rewrite release_lookup. by case_bool_decide; subst.
  - intros t r'. cbn. rewrite (proj1 (HF t)). repeat case_bool_decide; set_solver.
  - intros t. cbn. apply (HF t).
Qed.

Lemma release_all_inv id rids lm :
  lock_inv lm -> txn_locks_ lm !! id = Some rids ->
  let lm' := mkLockManager (foldr (release id) (lock_table_ lm) (elements rids)) (delete id (txn_locks_ lm)) in
  lock_inv lm' /\
  (forall t r, mode_of lm' t r = if bool_decide (t = id) then None else mode_of lm t r).
Proof.
  intros H E lm'. destruct (release_inv id (fun r => bool_decide (r ∈ rids)) lm lm') as [Hinv Hmode]; [done| | | |].
  - intros r. cbn. rewrite release_all_lookup by apply NoDup_elements.
    by rewrite (bool_decide_ext (r ∈ elements rids) (r ∈ rids)) by set_solver.
  - intros t r. cbn. destruct (decide (t = id)) as [->|Hne].
    + rewrite lookup_delete_eq, E. cbn. rewrite bool_decide_eq_true. set_solver.
    + rewrite lookup_delete_ne by done. naive_solver.
  - intros t ?. cbn. intros [_ ?]%lookup_delete_Some. by eapply (li_txn _ H).
  - split; [done|]. intros t r. rewrite Hmode. case_bool_decide as Ht; [|done]. subst. cbn.
    case_bool_decide as Hr; [done|]. destruct (mode_of lm id r) eqn:Em; [|done].
    exfalso. apply Hr. assert (is_Some (mode_of lm id r)) as Hs by by rewrite Em.
    apply (li_owner _ H) in Hs. by rewrite E in Hs.
Qed.

(** ** The abstract lock table

    The locks held, by transaction and row; [true] is exclusive. *)

Abbreviation locks := (gmap (Z * Z) bool).

Definition other_exclusive (t r : Z) (held : locks) : Prop :=
  map_Exists (fun k m => k.2 = r /\ k.1 <> t /\ m = true) held.
Definition other_holder (t r : Z) (held : locks) : Prop :=
  map_Exists (fun k _ => k.2 = r /\ k.1 <> t) held.

Inductive lock_call :=
  | lcShared (txn : Transaction) (r : Z)
  | lcExclusive (txn : Transaction) (r : Z)
  | lcUnlock (txn : Transaction) (r : Z)
  | lcUnlockAll (txn : Transaction).

(** What a call answers and which locks it leaves. *)
Definition lock_spec (c : lock_call) (held : locks) : result unit * locks :=
  match c with
  | lcShared txn r =>
      if negb (CanAcquireLocks txn) then (Err kTransactionError "transaction is not active", held)
      else if bool_decide (other_exclusive (txn_id txn) r held)
      then (Err kTransactionError "shared lock conflict", held)
      else (Ok tt, <[(txn_id txn, r) := default false (held !! (txn_id txn, r))]> held)
  | lcExclusive txn r =>
      if negb (CanAcquireLocks txn) then (Err kTransactionError "transaction is not active", held)
      else if bool_decide (other_exclusive (txn_id txn) r held)
      then (Err kTransactionError "exclusive lock conflict", held)
      else if bool_decide (other_holder (txn_id txn) r held)
      then (Err kTransactionError "cannot upgrade shared lock to exclusive", held)
      else (Ok tt, <[(txn_id txn, r) := true]> held)
  | lcUnlock txn r => (Ok tt, delete (txn_id txn, r) held)
  | lcUnlockAll txn => (Ok tt, filter (fun kv => kv.1.1 <> txn_id txn) held)
  end.

Definition lock_step (c : lock_call) (lm : LockManager) : result unit * LockManager :=
  match c with
  | lcShared txn r => LockShared txn r lm
  | lcExclusive txn r => LockExclusive txn r lm
  | lcUnlock txn r => Unlock txn r lm
  | lcUnlockAll txn => UnlockAll txn lm
  end.

Definition lock_rep (lm : LockManager) (held : locks) : Prop :=
  lock_inv lm /\ forall t r, mode_of lm t r = held !! (t, r).

Lemma CanUnlock_always txn : CanUnlock txn = true.
Proof. unfold CanUnlock. by destruct (txn_state txn). Qed.

Lemma LockManager_eta lm : mkLockManager (lock_table_ lm) (txn_locks_ lm) = lm.
Proof. by destruct lm. Qed.

Section requests.
Context (lm : LockManager) (held : locks) (R : lock_rep lm held) (t r : Z).

Lemma other_exclusive_spec :
  other_exclusive t r held <-> exists t', t' <> t /\ mode_of lm t' r = Some true.
Proof.
  destruct R as [_ Hm]. unfold other_exclusive. split.
  - intros ([t' r'] & m & E & Hr & Ht & Htrue). cbn in *. subst. exists t'. by rewrite Hm.
  - intros (t' & Ht & E). exists (t', r), true. by rewrite <- Hm.
Qed.
Lemma other_holder_spec : other_holder t r held <-> exists t', t' <> t /\ is_Some (mode_of lm t' r).
Proof.
  destruct R as [_ Hm]. unfold other_holder. split.
  - intros ([t' r'] & m & E & Hr & Ht). cbn in *. subst. exists t'. rewrite Hm. eauto.
  - intros (t' & Ht & [m E]). exists (t', r), m. by rewrite <- Hm.
Qed.

(** The entry of the row: the code tests are about the other holders. *)
Let entry := default no_locks (lock_table_ lm !! r).

Lemma entry_mode_of t' : entry_mode entry t' = mode_of lm t' r.
Proof.
  unfold entry, mode_of. destruct (lock_table_ lm !! r); [done|]. unfold entry_mode. cbn.
  rewrite (bool_decide_false (_ ∈ ∅)); [done|apply not_elem_of_empty].
Qed.
Lemma entry_entry_wf : entry_wf entry.
Proof.
  destruct R as [H _]. unfold entry. destruct (lock_table_ lm !! r) eqn:E; [by apply (li_entry _ H r)|done].
Qed.

Lemma exclusive_conflict :
  (match exclusive_holder entry with Some h => negb (h =? t) | None => false end) =
    bool_decide (other_exclusive t r held).
Proof.
  apply eq_true_iff_eq. rewrite bool_decide_eq_true, other_exclusive_spec. split.
  - destruct (exclusive_holder entry) as [h|] eqn:E; [|done]. intros Hh. exists h. zbool.
    split; [done|]. rewrite <- entry_mode_of. unfold entry_mode. by rewrite bool_decide_true.
  - intros (t' & Hne & E). rewrite <- entry_mode_of in E. unfold entry_mode in E.
    repeat case_bool_decide; try done. rewrite H. by apply negb_true_iff, Z.eqb_neq.
Qed.

(** A refused request leaves the table as it was. *)
Lemma touch_entry t' :
  is_Some (mode_of lm t' r) ->
  mkLockManager (<[r := entry]> (lock_table_ lm)) (txn_locks_ lm) = lm.
Proof.
  unfold mode_of, entry. destruct (lock_table_ lm !! r) eqn:E; [|by intros [? [=]]].
  intros _. cbn. rewrite insert_id by done. apply LockManager_eta.
Qed.

Lemma grant_touch id e :
  grant id r e (mkLockManager (<[r := entry]> (lock_table_ lm)) (txn_locks_ lm)) = grant id r e lm.
Proof. unfold grant. cbn. by rewrite insert_insert_eq. Qed.

(** A granted request. *)
Lemma grant_rep e m :
  entry_wf e -> entry_mode e t = Some m -> (forall t', t' <> t -> entry_mode e t' = mode_of lm t' r) ->
  lock_rep (grant t r e lm) (<[(t, r) := m]> held).
Proof.
  destruct R as [H Hm]. intros Hwf Ht Hother. split; [by apply grant_inv|].
  intros t' r'. rewrite mode_of_grant. case_bool_decide as Hr; [subst|].
  - destruct (decide (t' = t)) as [->|]; [by rewrite lookup_insert_eq|].
    rewrite lookup_insert_ne by congruence. by rewrite Hother.
  - by rewrite lookup_insert_ne by congruence.
Qed.
End requests.

Lemma LockShared_refines txn r lm held :
  lock_rep lm held ->
  exists lm', LockShared txn r lm = ((lock_spec (lcShared txn r) held).1, lm') /\
    lock_rep lm' (lock_spec (lcShared txn r) held).2.
Proof.
  intros R. cbn [lock_spec]. unfold LockShared. munfold. destruct (CanAcquireLocks txn); [|by exists lm].
  cbn [negb]. set (t := txn_id txn). rewrite (exclusive_conflict lm held R t r).
  case_bool_decide as Hx; cbn [fst snd].
  - apply (other_exclusive_spec lm held R) in Hx as (t' & _ & E). exists lm.
    rewrite (touch_entry lm r t') by by rewrite E. done.
  - eexists. split; [done|]. rewrite grant_touch. pose proof (entry_entry_wf lm held R r) as Hwf.
    pose proof (entry_mode_of lm r) as Hmode. set (entry := default no_locks _) in *.
    assert (forall t', exclusive_holder entry = Some t' -> t' = t) as Hown.
    { intros t' E. destruct (decide (t' = t)); [done|]. destruct Hx.
      apply (other_exclusive_spec lm held R). exists t'. split; [done|].
      rewrite <- Hmode. unfold entry_mode. by rewrite bool_decide_true. }
    apply grant_rep; [done| | |].
    + intros t' E. cbn in *. pose proof (Hown t' E) as ->. pose proof (Hwf t E). set_solver.
    + destruct R as [_ Hm]. rewrite <- Hm, <- Hmode. unfold entry_mode. cbn.
      repeat case_bool_decide; try done; set_solver.
    + intros t' Hne. rewrite <- Hmode. unfold entry_mode. cbn.
      repeat case_bool_decide; try done; set_solver.
Qed.

Lemma no_other_holder lm held t r :
  lock_rep lm held -> shared_holders (default no_locks (lock_table_ lm !! r)) ⊆ {[t]} ->
  ~ other_exclusive t r held -> ~ other_holder t r held.
Proof.
  intros R Hsh Hx (t' & Hne & [m E])%(other_holder_spec lm held R). apply Hx.
  apply (other_exclusive_spec lm held R). exists t'. split; [done|]. rewrite <- entry_mode_of in *.
  unfold entry_mode in *. repeat case_bool_decide; try done; set_solver.
Qed.

(** The test for a lone shared lock. *)
Lemma only_holder (s : gset Z) t :
  bool_decide (size s = 1%nat) && bool_decide (t ∈ s) = true -> s = {[t]}.
Proof.
  intros [H1%bool_decide_eq_true H2%bool_decide_eq_true]%andb_true_iff.
  apply size_1_elem_of in H1 as [t' H1]. set_solver.
Qed.
Lemma some_other_holder (s : gset Z) t :
  s <> ∅ -> bool_decide (size s = 1%nat) && bool_decide (t ∈ s) = false ->
  exists t', t' <> t /\ t' ∈ s.
Proof.
  intros Hne Hb. destruct (decide (s ∖ {[t]} = ∅)) as [E|[t' Ht']%set_choose_L]; [|set_solver].
  apply set_choose_L in Hne as [x Hx].
  assert (forall y, y ∈ s -> y = t) as Hall.
  { intros y Hy. destruct (decide (y = t)); [done|]. exfalso.
    apply (not_elem_of_empty (C:=gset Z) y). rewrite <- E. set_solver. }
  assert (s = {[t]}) as ->.
  { apply leibniz_equiv. intros y. rewrite elem_of_singleton. split; [apply Hall|]. intros ->.
    by rewrite <- (Hall x Hx). }
  by rewrite size_singleton, !bool_decide_true in Hb by (done || by apply elem_of_singleton).
Qed.

(** Taking the exclusive lock of a row nobody else locks. *)
Lemma exclusive_take lm held t r sh :
  lock_rep lm held -> let entry := default no_locks (lock_table_ lm !! r) in
  exclusive_holder entry = None -> shared_holders entry ⊆ {[t]} -> sh ⊆ shared_holders entry -> t ∉ sh ->
  lock_rep (grant t r (mkLockEntry sh (Some t)) lm) (<[(t, r) := true]> held).
Proof.
  intros R entry Hex Hsub Hsh Ht. apply (grant_rep lm held R).
  - intros t' [= <-]. cbn. by etrans.
  - unfold entry_mode. cbn. by rewrite bool_decide_true.
  - intros t' Hne. rewrite <- entry_mode_of. fold entry. unfold entry_mode. rewrite Hex. cbn.
    rewrite (bool_decide_false (Some t = Some t')) by congruence.
    by rewrite (bool_decide_false (t' ∈ sh)), (bool_decide_false (t' ∈ shared_holders entry)) by set_solver.
Qed.

(** The holder of the exclusive lock has no competitor. *)
Lemma exclusive_alone lm held t r :
  lock_rep lm held -> exclusive_holder (default no_locks (lock_table_ lm !! r)) = Some t ->
  ~ other_exclusive t r held /\ ~ other_holder t r held.
Proof.
  intros R E. pose proof (entry_entry_wf lm held R r t E) as Hsub.
  assert (~ other_exclusive t r held) as Hx; [|by split; [|by apply (no_other_holder lm)]].
  intros (t' & Hne & Ex)%(other_exclusive_spec lm held R). rewrite <- entry_mode_of in Ex.
  unfold entry_mode in Ex. rewrite E in Ex. repeat case_bool_decide; congruence.
Qed.

Lemma LockExclusive_refines txn r lm held :
  lock_rep lm held ->
  exists lm', LockExclusive txn r lm = ((lock_spec (lcExclusive txn r) held).1, lm') /\
    lock_rep lm' (lock_spec (lcExclusive txn r) held).2.
Proof.
  intros R. cbn [lock_spec]. unfold LockExclusive. munfold. destruct (CanAcquireLocks txn); [|by exists lm].
  cbn [negb]. set (t := txn_id txn). rewrite (exclusive_conflict lm held R t r).
  case_bool_decide as Hme.
  { destruct (exclusive_alone lm held t r R Hme). rewrite !bool_decide_false by done.
    eexists. split; [done|]. rewrite grant_touch. apply (grant_rep lm held R); [by eapply entry_entry_wf| |].
    - unfold entry_mode. by rewrite bool_decide_true.
    - intros. apply entry_mode_of. }
  case_bool_decide as Hx.
  { apply (other_exclusive_spec lm held R) in Hx as (t' & _ & E). exists lm.
    by rewrite (touch_entry lm r t') by by rewrite E. }
  assert (exclusive_holder (default no_locks (lock_table_ lm !! r)) = None) as Hex.
  { pose proof (exclusive_conflict lm held R t r) as Hc. rewrite bool_decide_false in Hc by done.
    destruct (exclusive_holder _); [|done]. zbool. congruence. }
  case_bool_decide as Hemp.
  { rewrite bool_decide_false by (apply (no_other_holder lm); [done|by rewrite Hemp|done]).
    eexists. split; [done|]. rewrite grant_touch. rewrite Hemp. apply exclusive_take; try done. by rewrite Hemp. }
  destruct (_ && _) eqn:Honly.
  - apply only_holder in Honly as Hs.
    rewrite bool_decide_false by (apply (no_other_holder lm); [done|by rewrite Hs|done]).
    eexists. split; [done|]. rewrite grant_touch. apply exclusive_take; [done|done|by rewrite Hs|set_solver|set_solver].
  - apply some_other_holder in Honly as (t' & Hne & Ht'); [|done].
    assert (is_Some (mode_of lm t' r)) as Hs.
    { rewrite <- entry_mode_of. unfold entry_mode. rewrite Hex. by rewrite (bool_decide_true (t' ∈ _)). }
    rewrite bool_decide_true by (apply (other_holder_spec lm held R); eauto).
    exists lm. by rewrite (touch_entry lm r t').
Qed.

Lemma Unlock_refines txn r lm held :
  lock_rep lm held ->
  exists lm', Unlock txn r lm = (Ok tt, lm') /\ lock_rep lm' (delete (txn_id txn, r) held).
Proof.
  intros [H Hm]. unfold Unlock. rewrite CanUnlock_always. munfold. cbn [negb].
  destruct (release_one_inv (txn_id txn) r lm H) as [Hinv Hmode]. eexists. split; [done|].
  split; [done|]. intros t r'. rewrite Hmode, Hm.
  destruct (decide ((t, r') = (txn_id txn, r))) as [[= -> ->]|Hne].
  - by rewrite !bool_decide_true, lookup_delete_eq.
  - rewrite lookup_delete_ne by done. repeat case_bool_decide; subst; done.
Qed.

Lemma UnlockAll_refines txn lm held :
  lock_rep lm held ->
  exists lm', UnlockAll txn lm = (Ok tt, lm') /\
    lock_rep lm' (filter (fun kv => kv.1.1 <> txn_id txn) held).
Proof.
  intros [H Hm]. unfold UnlockAll. rewrite CanUnlock_always. munfold. cbn [negb].
  assert (forall lm', lock_inv lm' ->
    (forall t r, mode_of lm' t r = if bool_decide (t = txn_id txn) then None else mode_of lm t r) ->
    lock_rep lm' (filter (fun kv => kv.1.1 <> txn_id txn) held)) as Hall.
  { intros lm' Hinv Hmode. split; [done|]. intros t r. rewrite Hmode, Hm, map_lookup_filter.
    destruct (held !! (t, r)); cbn; case_bool_decide as Ht; cbn; try done.
    - by rewrite option_guard_False by auto.
    - by rewrite option_guard_True. }
  destruct (txn_locks_ lm !! txn_id txn) as [rids|] eqn:E.
  - destruct (release_all_inv (txn_id txn) rids lm H E) as [Hinv Hmode]. eauto.
  - exists lm. split; [done|]. apply Hall; [done|]. intros t r. case_bool_decide as Ht; [|done]. subst.
    destruct (mode_of lm (txn_id txn) r) eqn:Em; [|done].
    assert (is_Some (mode_of lm (txn_id txn) r)) as Hs%(li_owner _ H) by by rewrite Em.
    rewrite E in Hs. set_solver.
Qed.

Lemma lock_step_refines c lm held :
  lock_rep lm held ->
  exists lm', lock_step c lm = ((lock_spec c held).1, lm') /\ lock_rep lm' (lock_spec c held).2.
Proof.
  destruct c; [apply LockShared_refines|apply LockExclusive_refines|apply Unlock_refines|apply UnlockAll_refines].
Qed.

Lemma lock_rep_new : lock_rep new_LockManager ∅.
Proof. split; [apply lock_inv_new|]. intros t r. unfold mode_of. cbn. by rewrite !lookup_empty. Qed.

(** ** Theorems *)

Fixpoint lock_run {S} (step : lock_call -> S -> result unit * S) (cs : list lock_call) (s : S)
  : list (result unit) * S :=
  match cs with
  | [] => ([], s)
  | c :: cs' => let '(r, s1) := step c s in let '(rs, s2) := lock_run step cs' s1 in (r :: rs, s2)
  end.

(** C15. The lock manager implements the table of held locks: for every
    interleaving of calls of any transactions, each request is granted exactly
    when no other transaction holds a conflicting lock on the row, a refused
    request changes nothing, and after the run the locks in the entries are the
    locks of the table. *)
Theorem lock_manager_implements_table cs :
  let '(rs, lm) := lock_run lock_step cs new_LockManager in
  let '(rs', held) := lock_run lock_spec cs ∅ in
  rs = rs' /\ forall t r, mode_of lm t r = held !! (t, r).
Proof.
  assert (forall lm held, lock_rep lm held ->
    (lock_run lock_step cs lm).1 = (lock_run lock_spec cs held).1 /\
    lock_rep (lock_run lock_step cs lm).2 (lock_run lock_spec cs held).2) as H.
  { induction cs as [|c cs IH]; intros lm held R; [done|]. cbn [lock_run].
    destruct (lock_step_refines c lm held R) as (lm' & -> & R').
    destruct (lock_spec c held) as [r held']. cbn [fst snd] in *. destruct (IH lm' held' R') as [E R2].
    destruct (lock_run lock_step cs lm'), (lock_run lock_spec cs held'). cbn in *. by subst. }
  destruct (H _ _ lock_rep_new) as [E [_ Hm]].
  destruct (lock_run lock_step cs new_LockManager), (lock_run lock_spec cs ∅). cbn in *. done.
Qed.

(** ** The transaction system

    Transactions begin, call the lock manager and finish in any order. *)

Record system := mkSystem { sys_txns : gmap Z Transaction; sys_tm : TransactionManager }.

Definition call_txn (c : lock_call) : Transaction :=
  match c with
  | lcShared txn _ | lcExclusive txn _ | lcUnlock txn _ | lcUnlockAll txn => txn
  end.

Inductive sys_step : system -> system -> Prop :=
  | step_begin txns tm iso txn tm' :
      Begin iso tm = (txn, tm') -> sys_step (mkSystem txns tm) (mkSystem (<[txn_id txn := txn]> txns) tm')
  | step_lock txns lm next c res lm' :
      txns !! txn_id (call_txn c) = Some (call_txn c) -> lock_step c lm = (res, lm') ->
      sys_step (mkSystem txns (mkTransactionManager (Some lm) next))
        (mkSystem txns (mkTransactionManager (Some lm') next))
  | step_finish txns tm id txn target res txn' tm' :
      txns !! id = Some txn -> target = kCommitted \/ target = kAborted ->
      FinishTransaction target (txn, tm) = (res, (txn', tm')) ->
      sys_step (mkSystem txns tm) (mkSystem (<[id := txn']> txns) tm').

Definition new_system : system := mkSystem ∅ (new_TransactionManager (Some new_LockManager)).

Inductive reaches : nat -> system -> Prop :=
  | reaches_start : reaches 0 new_system
  | reaches_step n s s' : reaches n s -> sys_step s s' -> reaches (S n) s'.

(** Only active transactions hold locks. *)
Record sys_inv (n : nat) (s : system) (lm : LockManager) (held : locks) : Prop := {
  si_manager : lock_manager_ (sys_tm s) = Some lm;
  si_rep : lock_rep lm held;
  si_next : 1 <= next_txn_id_ (sys_tm s) <= Z.of_nat n + 1;
  si_ids : forall id txn, sys_txns s !! id = Some txn -> txn_id txn = id /\ id < next_txn_id_ (sys_tm s);
  si_active : forall t r, is_Some (held !! (t, r)) ->
    exists txn, sys_txns s !! t = Some txn /\ txn_state txn = kActive
}.

Lemma lock_spec_active c held t r :
  is_Some ((lock_spec c held).2 !! (t, r)) ->
  is_Some (held !! (t, r)) \/ (t = txn_id (call_txn c) /\ txn_state (call_txn c) = kActive).
Proof.
  assert (forall txn r0 m, CanAcquireLocks txn = true ->
    is_Some (<[(txn_id txn, r0) := m]> held !! (t, r)) ->
    is_Some (held !! (t, r)) \/ (t = txn_id txn /\ txn_state txn = kActive)) as Hins.
  { intros txn r0 m Ha%bool_decide_eq_true. destruct (decide ((txn_id txn, r0) = (t, r))) as [[= <- <-]|Hne]; [auto|].
    rewrite lookup_insert_ne by done. auto. }
  destruct c as [txn r0|txn r0|txn r0|txn]; cbn [lock_spec call_txn].
  - destruct (CanAcquireLocks txn) eqn:E; cbn [negb]; [|auto]. case_bool_decide; cbn; [auto|by apply Hins].
  - destruct (CanAcquireLocks txn) eqn:E; cbn [negb]; [|auto].
    case_bool_decide; cbn; [auto|]. case_bool_decide; cbn; [auto|by apply Hins].
  - cbn. intros [m [_ ?]%lookup_delete_Some]. eauto.
  - cbn. intros [m [? _]%map_lookup_filter_Some]. eauto.
Qed.

Lemma sys_inv_begin n txns tm iso lm held :
  Z.of_nat n < 2 ^ 64 - 2 -> sys_inv n (mkSystem txns tm) lm held ->
  sys_inv (S n) (mkSystem (<[next_txn_id_ tm := (Begin iso tm).1]> txns) (Begin iso tm).2) lm held.
Proof.
  intros Hn [Hlm Hrep Hnext Hids Hact]. cbn in *. rewrite u64_id by (split; lia).
  split; cbn; [done|done|lia| |].
  - intros id txn.
    destruct (decide (id = next_txn_id_ tm)) as [->|]; [rewrite lookup_insert_eq|rewrite lookup_insert_ne by done].
    + intros [= <-]. cbn. lia.
    + intros [? ?]%Hids. lia.
  - intros t r (txn & E & Ha)%Hact. exists txn. split; [|done]. rewrite lookup_insert_ne; [done|].
    intros <-. apply Hids in E as [_ ?]. lia.
Qed.

Lemma sys_inv_finish n txns tm id txn target res txn' tm' lm held :
  sys_inv n (mkSystem txns tm) lm held -> txns !! id = Some txn ->
  FinishTransaction target (txn, tm) = (res, (txn', tm')) ->
  exists lm' held', sys_inv (S n) (mkSystem (<[id := txn']> txns) tm') lm' held'.
Proof.
  intros [Hlm Hrep Hnext Hids Hact] Eid. cbn in *. unfold FinishTransaction. munfold.
  assert (txn_id txn = id) as Hid by by apply Hids.
  case_bool_decide as Ha; cbn [negb].
  - rewrite Hlm. destruct (UnlockAll_refines (mkTransaction (txn_id txn) (isolation txn) target) lm held Hrep)
      as (lm' & -> & Hrep'). intros [= <- <- <-]. cbn [txn_id] in Hrep'. do 2 eexists.
    split; cbn; [done|exact Hrep'|lia| |].
    + intros id' t'. destruct (decide (id' = id)) as [->|]; [rewrite lookup_insert_eq|rewrite lookup_insert_ne by done; apply Hids].
      intros [= <-]. cbn. split; [done|]. by apply (Hids id txn).
    + intros t r [m [E Hne]%map_lookup_filter_Some]. cbn in Hne.
      destruct (Hact t r) as (txn1 & ? & ?); [by rewrite E|].
      exists txn1. by rewrite lookup_insert_ne by congruence.
  - intros [= <- <- <-]. exists lm, held. rewrite insert_id by done. split; cbn; [done|done|lia|done|done].
Qed.

Lemma reaches_inv n s :
  reaches n s -> Z.of_nat n < 2 ^ 64 - 1 -> exists lm held, sys_inv n s lm held.
Proof.
  induction 1 as [|n s s' _ IH Hstep]; intros Hn.
  - exists new_LockManager, ∅. split; cbn; [done|apply lock_rep_new|lia| |].
    + intros id txn. by rewrite lookup_empty.
    + intros t r. rewrite lookup_empty. by intros [? [=]].
  - destruct IH as (lm & held & Hinv); [lia|]. destruct Hstep as
      [txns tm iso txn tm' E|txns lm0 next c res lm' Ec E|txns tm id txn target res txn' tm' Eid _ E].
    + injection E as <- <-. exists lm, held. cbn [txn_id]. apply (sys_inv_begin n txns tm iso); [lia|done].
    + destruct Hinv as [[= ->] Hrep Hnext Hids Hact]. cbn in *.
      destruct (lock_step_refines c lm held Hrep) as (lm1 & E1 & Hrep1). rewrite E in E1. injection E1 as -> ->.
      do 2 eexists. split; cbn; [done|exact Hrep1|lia|done|].
      intros t r [?|[-> ?]]%lock_spec_active; [by eapply Hact|eauto].
    + by eapply sys_inv_finish.
Qed.

(** C14. Locks are exclusive and strict: in every reachable state of the
    transaction system, after fewer than 2^64 - 1 steps, a row locked
    exclusively by one transaction is locked by no other, and every lock is held
    by a transaction that has neither committed nor rolled back. *)
Theorem locks_exclusive_and_strict n s :
  reaches n s -> Z.of_nat n < 2 ^ 64 - 1 ->
  exists lm, lock_manager_ (sys_tm s) = Some lm /\
    forall t r m, mode_of lm t r = Some m ->
      (exists txn, sys_txns s !! t = Some txn /\ txn_state txn = kActive) /\
      (m = true -> forall t', t' <> t -> mode_of lm t' r = None).
Proof.
  intros Hr Hn. destruct (reaches_inv n s Hr Hn) as (lm & held & [Hlm [Hinv Hm] _ _ Hact]).
  exists lm. split; [done|]. intros t r m E. split; [apply (Hact t r); by rewrite <- Hm, E|].
  intros -> t' Hne. destruct (mode_of lm t' r) eqn:E'; [|done]. exfalso. apply Hne.
  unfold mode_of in *. destruct (lock_table_ lm !! r) as [e|] eqn:Ee; [|done]. cbn in *.
  eapply entry_mode_exclusive; [by apply (li_entry _ Hinv r)|done|by rewrite E'].
Qed.

(** Two transactions; the first locks row 7, the second is refused, the first
    commits, and the second gets the lock. *)
Definition t1 : Transaction := mkTransaction 1 kSerializable kActive.
Definition t2 : Transaction := mkTransaction 2 kSerializable kActive.
Definition after_lock (c : lock_call) (s : system) : system :=
  match lock_manager_ (sys_tm s) with
  | Some lm => mkSystem (sys_txns s)
                 (mkTransactionManager (Some (lock_step c lm).2) (next_txn_id_ (sys_tm s)))
  | None => s
  end.
Definition after_commit (txn : Transaction) (s : system) : system :=
  let '(_, (txn', tm')) := FinishTransaction kCommitted (txn, sys_tm s) in
  mkSystem (<[txn_id txn := txn']> (sys_txns s)) tm'.
Definition after_begin (s : system) : system :=
  let '(txn, tm') := Begin kSerializable (sys_tm s) in mkSystem (<[txn_id txn := txn]> (sys_txns s)) tm'.

Definition sample_system : system :=
  after_lock (lcExclusive t2 7) (after_commit t1 (after_lock (lcShared t2 7)
    (after_lock (lcExclusive t1 7) (after_begin (after_begin new_system))))).

Lemma reaches_lock n s c :
  reaches n s -> is_Some (lock_manager_ (sys_tm s)) ->
  sys_txns s !! txn_id (call_txn c) = Some (call_txn c) -> reaches (S n) (after_lock c s).
Proof.
  intros Hr [lm Elm] E. destruct s as [txns [o next]]. cbn in *. subst.
  eapply reaches_step; [done|]. eapply step_lock; [done|]. apply surjective_pairing.
Qed.
Lemma reaches_commit n s txn :
  reaches n s -> sys_txns s !! txn_id txn = Some txn -> reaches (S n) (after_commit txn s).
Proof.
  intros Hr E. destruct s as [txns tm]. eapply reaches_step; [done|]. unfold after_commit. cbn [sys_tm sys_txns].
  destruct (FinishTransaction kCommitted (txn, tm)) as [res [txn' tm']] eqn:Ef.
  eapply step_finish; [done|by left|done].
Qed.
Lemma reaches_begin n s : reaches n s -> reaches (S n) (after_begin s).
Proof. intros Hr. destruct s as [txns tm]. eapply reaches_step; [done|]. by eapply step_begin. Qed.

Lemma sample_reaches : reaches 6 sample_system.
Proof.
  repeat first [apply reaches_lock|apply reaches_commit|apply reaches_begin|apply reaches_start];
    (reflexivity || by eexists).
Qed.

Lemma locks_exclusive_and_strict_witness :
  exists lm, lock_manager_ (sys_tm sample_system) = Some lm /\ mode_of lm 2 7 = Some true /\
    forall t r m, mode_of lm t r = Some m ->
      (exists txn, sys_txns sample_system !! t = Some txn /\ txn_state txn = kActive) /\
      (m = true -> forall t', t' <> t -> mode_of lm t' r = None).
Proof.
  destruct (locks_exclusive_and_strict 6 sample_system) as (lm & E & H).
  - apply sample_reaches.
  - done.
  - exists lm. split; [done|]. split; [|exact H].
    vm_compute in E. injection E as <-. vm_compute. reflexivity.
Defined.
