(* ===== verification/KeyEncoder.v ===== *)
(** * Index key encoding

    Models [src/index/key_encoder.cpp].  The encoding carries no type tag: the
    type is a parameter of [Decode]. *)

From S2P Require Import Prelude BinaryIO Values.

Definition Encode (value : Value) : bytes :=
  match value with
  | VNull => []
  | VInt z => WriteInt64 [] z
  | VString s => bytes_of_string s
  | VBool b => WriteBool [] b
  end.

Definition Decode (data : bytes) (type : ValueType) : result Value :=
  match type with
  | vtNull =>
      _ ← check_not (negb (bool_decide (data = []))) kInvalidArgument "NULL key payload must be empty";
      Ok VNull
  | vtInt =>
      _ ← check_not (negb (zlen data =? 8)) kInvalidArgument "INT key payload must be 8 bytes";
      '(value, _) ← ReadInt64 data 0;
      Ok (VInt value)
  | vtString => Ok (VString (string_of_bytes data))
  | vtBool =>
      _ ← check_not (negb (zlen data =? 1)) kInvalidArgument "BOOL key payload must be 1 byte";
      let b := default 0 (Z_of_byte <$> head data) in
      _ ← check_not (negb (b =? 0) && negb (b =? 1)) kInvalidArgument
            "BOOL key payload must be 0 or 1";
      Ok (VBool (b =? 1))
  end.

Lemma Encode_Decode v : value_ok v -> Decode (Encode v) (type v) = Ok v.
Proof.
  destruct v as [|z|s|b]; cbn [Encode Decode type]; intros Hv.
  - done.
  - pose proof (ReadInt64_decodes z Hv [] []) as E. rewrite app_nil_r, app_nil_l in E.
    change (zlen []) with 0 in E. unfold WriteInt64, WriteBytes. rewrite app_nil_l.
    rewrite zlen_le_bytes. cbn [Z.of_nat Z.eqb check_not negb mbind result_bind]. by rewrite E.
  - by rewrite String.string_of_list_byte_of_string.
  - by destruct b.
Qed.

Lemma Decode_Encode data t v : Decode data t = Ok v -> type v = t /\ Encode v = data /\ (t = vtInt -> value_ok v).
Proof.
  destruct t; cbn [Decode]; intros E.
  - destruct (bool_decide (data = [])) eqn:Ed; [|done]. apply bool_decide_eq_true in Ed. by simplify_eq/=.
  - destruct (zlen data =? 8) eqn:El; [|done]. zbool. cbn [negb check_not mbind result_bind] in E.
    destruct (ReadInt64 data 0) as [[z o]|] eqn:Er; [|done]. cbn in E. simplify_eq.
    apply ReadInt64_consumes in Er as (pre & e & post & -> & Hp & Ho & Hz & He); [|lia].
    destruct pre; [|zlia]. split; [done|]. rewrite He in *. cbn [Encode].
    assert (post = []) as ->; [|by rewrite app_nil_r].
    destruct post; [done|]. rewrite !zlen_app, zlen_cons, zlen_le_bytes in El. zlia.
  - simplify_eq. split; [done|]. split; [apply String.list_byte_of_string_of_list_byte|done].
  - destruct (zlen data =? 1) eqn:El; [|done]. zbool. destruct data as [|b [|]]; [zlia| |zlia].
    change (default 0 (Z_of_byte <$> head [b])) with (Z_of_byte b) in E. cbv zeta in E.
    cbn [negb check_not mbind result_bind] in E. destruct (Z_of_byte b =? 0) eqn:E0; [|destruct (Z_of_byte b =? 1) eqn:E1; [|done]]; zbool;
      rewrite ?E0, ?E1 in E; cbn in E; simplify_eq; (split; [done|split; [|done]]);
      rewrite <- (byte_of_Z_of_byte b), ?E0, ?E1; done.
Qed.

(** C34. Index keys round trip: decoding the encoding of a value with its own
    type gives the value back, and every payload that decodes is the encoding of
    its result, so no two keys of one type share an encoding. *)
Theorem key_encoding_roundtrip v data t w :
  value_ok v ->
  Decode (Encode v) (type v) = Ok v /\
  (Decode data t = Ok w -> Encode w = data /\ type w = t).
Proof.
  intros Hv. split; [by apply Encode_Decode|]. intros E. by apply Decode_Encode in E as (? & ? & _).
Qed.

Lemma key_encoding_roundtrip_witness :
  Decode (Encode (VInt (-5))) vtInt = Ok (VInt (-5)) /\
  (Decode [Byte.x01] vtBool = Ok (VBool true) -> Encode (VBool true) = [Byte.x01] /\ vtBool = vtBool).
Proof. by apply (key_encoding_roundtrip (VInt (-5)) [Byte.x01] vtBool (VBool true)). Defined.
