(* ===== verification/BStarTree.v ===== *)
(** * The B*-tree index

    Models [src/index/bstar_tree.cpp]: a search tree of pages in a page store.
    Page 0 holds the metadata.  A leaf holds sorted entries and the page of the
    next leaf, an internal node separator keys and one child more.

    A search path is kept with its last link first, so that [path.back()] is the
    head and the recursion towards the root is structural.  The loops that follow
    page numbers take a [fuel] argument, the number of pages they may read.
    Indexing a vector out of its range, which C++ leaves undefined, is an error
    of its own here. *)

From S2P Require Import Prelude BinaryIO Values Disk PageStore KeyEncoder.

Definition kTreeMetadataMagic : bytes := bytes_of_string "CDBB*+MT".
Definition kTreeNodeMagic : bytes := bytes_of_string "CDBB*+ND".
Definition kTreeVersion : Z := 3.
Definition kInvalidPageIdValue : Z := 2 ^ 64 - 1.
Definition InvalidPageId : Z := kInvalidPageIdValue.
Definition IsInvalidPageId (page_id : Z) : bool := page_id =? kInvalidPageIdValue.

Definition MetadataHeaderSize : Z := zlen kTreeMetadataMagic + 4 + 4 + 8 + 8 + 8 + 8 + 8.
Definition NodeHeaderSize : Z := zlen kTreeNodeMagic + 4 + 4 + 8 + 8 + 1.

(** ** Data *)

Record KeyRange := mkKeyRange {
  low : option Value;
  high : option Value;
  include_low : bool;
  include_high : bool
}.

Inductive NodeType := ntInternal | ntLeaf.
#[export] Instance NodeType_eq_dec : EqDecision NodeType.
Proof. solve_decision. Defined.
Definition NodeType_raw (t : NodeType) : Z := match t with ntInternal => 1 | ntLeaf => 2 end.

Record TreeMetadata := mkTreeMetadata {
  tm_version : Z;
  root_page_id : Z;
  first_leaf_page_id : Z;
  tm_min_degree : Z;
  tm_max_key_payload_bytes : Z;
  tree_height : Z
}.

Record NodeHeader := mkNodeHeader {
  node_type : NodeType;
  key_count : Z;
  parent_page_id : Z;
  next_leaf_page_id : Z;
  is_root : bool
}.

Record LeafEntry := mkLeafEntry { entry_key : Value; entry_rid : Z }.
Record InternalNodeData := mkInternalNodeData {
  separator_keys : list Value;
  child_page_ids : list Z
}.
Record SearchPathEntry := mkSearchPathEntry { link_page_id : Z; child_index : Z }.

Definition set_parent (p : Z) (h : NodeHeader) : NodeHeader :=
  mkNodeHeader (node_type h) (key_count h) p (next_leaf_page_id h) (is_root h).
Definition set_next (p : Z) (h : NodeHeader) : NodeHeader :=
  mkNodeHeader (node_type h) (key_count h) (parent_page_id h) p (is_root h).
Definition set_root (b : bool) (h : NodeHeader) : NodeHeader :=
  mkNodeHeader (node_type h) (key_count h) (parent_page_id h) (next_leaf_page_id h) b.

(** ** Helpers *)

Definition FitsInRange (key : Value) (range : KeyRange) : bool :=
  match low range with
  | Some l => if include_low range then negb (value_ltb key l) else value_gtb key l
  | None => true
  end &&
  match high range with
  | Some h => if include_high range then negb (value_gtb key h) else value_ltb key h
  | None => true
  end.

Definition size_distance (left_count right_count : Z) : Z :=
  if right_count <? left_count then left_count - right_count else right_count - left_count.

(** [best] is [best_index] with [best_distance]. *)
Fixpoint ChooseBalancedSplit_loop (total_size : Z) (fits : Z -> Z -> bool) (best : option (Z * Z))
    (split : Z) (rounds : nat) : option (Z * Z) :=
  match rounds with
  | O => best
  | S n =>
      let left_count := split in
      let right_count := total_size - split in
      let distance := size_distance left_count right_count in
      let best' :=
        if negb (fits left_count right_count) then best
        else match best with
             | None => Some (split, distance)
             | Some (_, best_distance) =>
                 if distance <? best_distance then Some (split, distance) else best
             end in
      ChooseBalancedSplit_loop total_size fits best' (split + 1) n
  end.
Definition ChooseBalancedSplit (total_size : Z) (fits : Z -> Z -> bool) : option Z :=
  fst <$> ChooseBalancedSplit_loop total_size fits None 1 (Z.to_nat (total_size - 1)).

Definition ResolveMaxEncodedKeySize (key_type : ValueType) (max_variable_key_payload_bytes : Z)
  : result Z :=
  _ ← check_not (max_variable_key_payload_bytes =? 0) kInvalidArgument
        "max_variable_key_payload_bytes must be greater than zero";
  match key_type with
  | vtInt => Ok 8
  | vtBool => Ok 1
  | vtString => Ok max_variable_key_payload_bytes
  | vtNull => Err kInvalidArgument "NULL is not a valid BStarTree key type"
  end.

Definition ComputeMinDegreeForPage (page_size max_encoded_key_size : Z) : result Z :=
  _ ← check_not (max_encoded_key_size =? 0) kInvalidArgument
        "max_encoded_key_size must be greater than zero";
  let header_size := NodeHeaderSize in
  let leaf_entry_size := u64 (4 + max_encoded_key_size + 8) in
  let internal_bundle_size := u64 (4 + max_encoded_key_size + 8) in
  _ ← check_not (page_size <=? header_size + 8) kInvalidArgument
        "Page size is too small for BStarTree node headers";
  let leaf_max_keys := (page_size - header_size) / leaf_entry_size in
  let internal_max_keys := (page_size - header_size - 8) / internal_bundle_size in
  let max_keys := Z.min leaf_max_keys internal_max_keys in
  _ ← check_not (max_keys <? 3) kInvalidArgument
        "Page size is too small to support BStarTree min_degree >= 2";
  Ok ((max_keys + 1) / 2).

(** [std::lower_bound] on the keys: halving the range [first, first + len). *)
Fixpoint lower_bound (fuel : nat) (entries : list LeafEntry) (key : Value) (first len : Z) : Z :=
  match fuel with
  | O => first
  | S n =>
      if len <=? 0 then first else
      let half := len / 2 in
      match znth entries (first + half) with
      | Some e =>
          if value_ltb (entry_key e) key then lower_bound n entries key (first + half + 1) (len - half - 1)
          else lower_bound n entries key first half
      | None => first
      end
  end.
Definition FindEntryPosition (entries : list LeafEntry) (key : Value) : Z :=
  lower_bound (length entries) entries key 0 (zlen entries).

Fixpoint ChooseChildIndex_from (i : Z) (separators : list Value) (key : Value) : Z :=
  match separators with
  | [] => i
  | s :: rest => if value_ltb key s then i else ChooseChildIndex_from (i + 1) rest key
  end.
Definition ChooseChildIndex (internal : InternalNodeData) (key : Value) : Z :=
  ChooseChildIndex_from 0 (separator_keys internal) key.

(** [vector::insert] and [vector::erase] at an index. *)
Definition zinsert {A} (i : Z) (x : A) (l : list A) : list A := ztake i l ++ x :: zdrop i l.
Definition zerase {A} (i : Z) (l : list A) : list A := ztake i l ++ zdrop (i + 1) l.

(** ** Page formats *)

Definition reader_of {A} (r : result A) : reader A := fun _ offset =>
  match r with Ok a => Ok (a, offset) | Err c m => Err c m end.

Definition SerializeMetadata (key_type : ValueType) (m : TreeMetadata) : bytes :=
  let out := kTreeMetadataMagic in
  let out := WriteUint32 out (tm_version m) in
  let out := WriteUint32 out (u32 (ValueType_int key_type)) in
  let out := WriteUint64 out (root_page_id m) in
  let out := WriteUint64 out (first_leaf_page_id m) in
  let out := WriteUint64 out (tm_min_degree m) in
  let out := WriteUint64 out (tm_max_key_payload_bytes m) in
  WriteUint64 out (tree_height m).

Definition ReadTreeMetadata (key_type : ValueType) (min_degree max_key_payload_bytes : Z)
  : reader TreeMetadata :=
  version ← ReadUint32;
  raw_key_type ← ReadUint32;
  if negb (version =? kTreeVersion) then
    fail_read kInvalidArgument "Unsupported BStarTree version"
  else if negb (raw_key_type =? ValueType_int key_type) then
    fail_read kInvalidArgument "Index key type does not match tree metadata"
  else
    root ← ReadUint64;
    first_leaf ← ReadUint64;
    degree ← ReadUint64;
    if negb (degree =? min_degree) then
      fail_read kInvalidArgument "Index min_degree does not match tree metadata"
    else
      payload ← ReadUint64;
      if negb (payload =? max_key_payload_bytes) then
        fail_read kInvalidArgument "Index key payload policy does not match tree metadata"
      else
        height ← ReadUint64;
        mret (mkTreeMetadata version root first_leaf degree payload height).

Definition DeserializeMetadata (key_type : ValueType) (min_degree max_key_payload_bytes : Z)
    (data : bytes) : result TreeMetadata :=
  _ ← check_not (zlen data <? MetadataHeaderSize) kInvalidArgument "Metadata page is too small";
  _ ← check_not (negb (bool_decide (ztake (zlen kTreeMetadataMagic) data = kTreeMetadataMagic)))
        kInvalidArgument "Invalid BStarTree metadata magic";
  '(m, _) ← ReadTreeMetadata key_type min_degree max_key_payload_bytes data (zlen kTreeMetadataMagic);
  Ok m.

Definition SerializeNodeHeader (header : NodeHeader) : bytes :=
  let out := kTreeNodeMagic in
  let out := WriteUint32 out (NodeType_raw (node_type header)) in
  let out := WriteUint32 out (key_count header) in
  let out := WriteUint64 out (parent_page_id header) in
  let out := WriteUint64 out (next_leaf_page_id header) in
  WriteUint8 out (if is_root header then 1 else 0).

Definition ReadNodeHeader : reader NodeHeader :=
  raw_type ← ReadUint32;
  key_count ← ReadUint32;
  parent ← ReadUint64;
  next_leaf ← ReadUint64;
  is_root ← ReadUint8;
  if negb (raw_type =? NodeType_raw ntLeaf) && negb (raw_type =? NodeType_raw ntInternal) then
    fail_read kInvalidArgument "Invalid BStarTree node type"
  else
    mret (mkNodeHeader (if raw_type =? NodeType_raw ntLeaf then ntLeaf else ntInternal)
            key_count parent next_leaf (negb (is_root =? 0))).

Definition DeserializeNodeHeader (data : bytes) : result NodeHeader :=
  _ ← check_not (zlen data <? NodeHeaderSize) kInvalidArgument "Node page is too small";
  _ ← check_not (negb (bool_decide (ztake (zlen kTreeNodeMagic) data = kTreeNodeMagic)))
        kInvalidArgument "Invalid BStarTree node magic";
  '(header, _) ← ReadNodeHeader data (zlen kTreeNodeMagic);
  Ok header.

Definition SerializeSeparatorKey (key : Value) : bytes :=
  let key_bytes := Encode key in
  WriteUint32 [] (u32 (zlen key_bytes)) ++ key_bytes.
Definition SerializeLeafEntry (entry : LeafEntry) : bytes :=
  let key_bytes := Encode (entry_key entry) in
  WriteUint64 (WriteUint32 [] (u32 (zlen key_bytes)) ++ key_bytes) (entry_rid entry).

Definition DeserializeSeparatorKey (key_type : ValueType) : reader Value :=
  key_size ← ReadUint32;
  key_bytes ← ReadPod key_size;
  reader_of (Decode key_bytes key_type).
Definition DeserializeLeafEntry (key_type : ValueType) : reader LeafEntry :=
  key_size ← ReadUint32;
  key_bytes ← ReadPod key_size;
  key ← reader_of (Decode key_bytes key_type);
  rid ← ReadUint64;
  mret (mkLeafEntry key rid).

Definition ParseLeafPage (key_type : ValueType) (page : Page) : result (NodeHeader * list LeafEntry) :=
  header ← DeserializeNodeHeader (page_data page);
  _ ← check_not (negb (bool_decide (node_type header = ntLeaf))) kInvalidArgument "Expected leaf page";
  '(entries, _) ← read_loop (DeserializeLeafEntry key_type) (Z.to_nat (key_count header))
                    (page_data page) NodeHeaderSize;
  Ok (header, entries).

Definition BuildLeafPage (page_size page_id : Z) (header : NodeHeader) (entries : list LeafEntry)
  : result Page :=
  let actual_header := mkNodeHeader ntLeaf (u32 (zlen entries)) (parent_page_id header)
                         (next_leaf_page_id header) (is_root header) in
  let bytes := SerializeNodeHeader actual_header ++ concat (map SerializeLeafEntry entries) in
  _ ← check_not (page_size <? zlen bytes) kInvalidArgument "Leaf page does not fit into page size";
  Ok (mkPage page_id (page_image page_size bytes)).

(** The loop over separators and the children behind them. *)
Definition ReadChild (key_type : ValueType) : reader (Value * Z) :=
  separator ← DeserializeSeparatorKey key_type;
  child ← ReadUint64;
  mret (separator, child).

Definition ParseInternalPage (key_type : ValueType) (page : Page)
  : result (NodeHeader * InternalNodeData) :=
  header ← DeserializeNodeHeader (page_data page);
  _ ← check_not (negb (bool_decide (node_type header = ntInternal))) kInvalidArgument
        "Expected internal page";
  '(first, offset) ← ReadUint64 (page_data page) NodeHeaderSize;
  '(rest, _) ← read_loop (ReadChild key_type) (Z.to_nat (key_count header)) (page_data page) offset;
  Ok (header, mkInternalNodeData rest.*1 (first :: rest.*2)).

Definition WriteChild (sc : Value * Z) : bytes := WriteUint64 (SerializeSeparatorKey sc.1) sc.2.

Definition BuildInternalPage (page_size page_id : Z) (header : NodeHeader)
    (internal : InternalNodeData) : result Page :=
  match child_page_ids internal with
  | first :: rest =>
      _ ← check_not (negb (zlen (child_page_ids internal) =? zlen (separator_keys internal) + 1))
            kInvalidArgument "Internal node must contain exactly key_count + 1 child pointers";
      let actual_header := mkNodeHeader ntInternal (u32 (zlen (separator_keys internal)))
                             (parent_page_id header) InvalidPageId (is_root header) in
      let bytes := WriteUint64 (SerializeNodeHeader actual_header) first ++
                   concat (map WriteChild (zip (separator_keys internal) rest)) in
      _ ← check_not (page_size <? zlen bytes) kInvalidArgument
            "Internal page does not fit into page size";
      Ok (mkPage page_id (page_image page_size bytes))
  | [] => Err kInvalidArgument "Internal node must contain exactly key_count + 1 child pointers"
  end.

(** ** The tree *)

Section BStarTree.
Context {P : Type} {PS : PageStore P}.

Record BStarTree := mkBStarTree {
  index_file_ : string;
  key_type_ : ValueType;
  bt_page_size_ : Z;
  min_degree_ : Z;
  max_key_payload_bytes_ : Z;
  bt_page_manager_ : P;
  bt_is_open_ : bool;
  metadata_ : TreeMetadata
}.

Definition new_BStarTree (index_file : string) (key_type : ValueType)
    (page_size min_degree max_variable_key_payload_bytes : Z) : BStarTree :=
  let max_key_payload_bytes :=
    match ResolveMaxEncodedKeySize key_type max_variable_key_payload_bytes with
    | Ok n => n
    | Err _ _ => 0
    end in
  let min_degree :=
    if (min_degree =? 0) && negb (max_key_payload_bytes =? 0) then
      match ComputeMinDegreeForPage page_size max_key_payload_bytes with
      | Ok n => n
      | Err _ _ => min_degree
      end
    else min_degree in
  mkBStarTree index_file key_type page_size min_degree max_key_payload_bytes
    (ps_new index_file page_size) false
    (mkTreeMetadata kTreeVersion InvalidPageId InvalidPageId min_degree max_key_payload_bytes 0).

Definition set_pages (p : P) (t : BStarTree) : BStarTree :=
  mkBStarTree (index_file_ t) (key_type_ t) (bt_page_size_ t) (min_degree_ t)
    (max_key_payload_bytes_ t) p (bt_is_open_ t) (metadata_ t).
Definition set_metadata (m : TreeMetadata) (t : BStarTree) : BStarTree :=
  mkBStarTree (index_file_ t) (key_type_ t) (bt_page_size_ t) (min_degree_ t)
    (max_key_payload_bytes_ t) (bt_page_manager_ t) (bt_is_open_ t) m.
Definition set_tree_open (t : BStarTree) : BStarTree :=
  mkBStarTree (index_file_ t) (key_type_ t) (bt_page_size_ t) (min_degree_ t)
    (max_key_payload_bytes_ t) (bt_page_manager_ t) true (metadata_ t).
(** Assigning the root, first leaf and height of [metadata_]. *)
Definition set_tree (root first height : Z) (t : BStarTree) : BStarTree :=
  set_metadata (mkTreeMetadata (tm_version (metadata_ t)) root first (tm_min_degree (metadata_ t))
                  (tm_max_key_payload_bytes (metadata_ t)) height) t.

Abbreviation T := (M (BStarTree * disk)).

Definition on_pages {A} (m : M (P * disk) A) : T A := on_part bt_page_manager_ set_pages m.

Definition ReadPage (page_id : Z) : T Page := on_pages (ps_read page_id).
Definition WritePage (page : Page) : T unit :=
  _ ← on_pages (ps_write page);
  on_pages ps_flush.
Definition AllocateNodePage : T Z :=
  page_id ← on_pages ps_alloc;
  _ ← on_pages ps_flush;
  mret page_id.

(** Reading and writing nodes. *)
Definition ParseLeaf (page : Page) : T (NodeHeader * list LeafEntry) :=
  t ← this; lift (ParseLeafPage (key_type_ t) page).
Definition ParseInternal (page : Page) : T (NodeHeader * InternalNodeData) :=
  t ← this; lift (ParseInternalPage (key_type_ t) page).
Definition StoreLeaf (page_id : Z) (header : NodeHeader) (entries : list LeafEntry) : T unit :=
  t ← this;
  page ← lift (BuildLeafPage (bt_page_size_ t) page_id header entries);
  WritePage page.
Definition StoreInternal (page_id : Z) (header : NodeHeader) (internal : InternalNodeData) : T unit :=
  t ← this;
  page ← lift (BuildInternalPage (bt_page_size_ t) page_id header internal);
  WritePage page.
Definition LoadLeaf (page_id : Z) : T (NodeHeader * list LeafEntry) :=
  page ← ReadPage page_id; ParseLeaf page.
Definition LoadInternal (page_id : Z) : T (NodeHeader * InternalNodeData) :=
  page ← ReadPage page_id; ParseInternal page.

(** [v[i]]. *)
Definition at_index {A} (l : list A) (i : Z) : T A :=
  lift (match znth l i with Some x => Ok x | None => Err kInternalError "undefined: index out of range" end).

Definition MaxKeysPerNode (t : BStarTree) : Z := u64 (2 * min_degree_ t - 1).
Definition MinKeysPerNonRootNode (t : BStarTree) : Z := u64 (min_degree_ t - 1).
Definition IsLeafUnderfull (t : BStarTree) (header : NodeHeader) (entries : list LeafEntry) : bool :=
  if is_root header then false else zlen entries <? MinKeysPerNonRootNode t.
Definition IsInternalUnderfull (t : BStarTree) (header : NodeHeader) (internal : InternalNodeData) : bool :=
  if is_root header then false else zlen (separator_keys internal) <? MinKeysPerNonRootNode t.

Definition ValidateKeyType (key : Value) : T unit :=
  t ← this;
  _ ← reject_if (is_null key) kInvalidArgument "NULL keys are not supported in BStarTree";
  _ ← reject_if (negb (bool_decide (type key = key_type_ t))) kInvalidArgument
        "Key type does not match index key type";
  reject_if (max_key_payload_bytes_ t <? zlen (Encode key)) kInvalidArgument
    "Encoded index key exceeds configured maximum payload size".

Definition ValidateRange (range : KeyRange) : T unit :=
  _ ← match low range with Some l => ValidateKeyType l | None => mret tt end;
  _ ← match high range with Some h => ValidateKeyType h | None => mret tt end;
  match low range, high range with
  | Some l, Some h =>
      reject_if (value_ltb h l) kInvalidArgument "Range high bound is smaller than low bound"
  | _, _ => mret tt
  end.

Definition WriteMetadata : T unit :=
  t ← this;
  let bytes := SerializeMetadata (key_type_ t) (metadata_ t) in
  _ ← reject_if (bt_page_size_ t <? zlen bytes) kInternalError
        "Metadata page does not fit into page size";
  WritePage (mkPage 0 (page_image (bt_page_size_ t) bytes)).

Definition InitializeTree : T unit :=
  metadata_page_id ← on_pages ps_alloc;
  _ ← reject_if (negb (metadata_page_id =? 0)) kInternalError "Metadata page must be page 0";
  _ ← update (fun t => set_metadata (mkTreeMetadata kTreeVersion InvalidPageId InvalidPageId
                                       (min_degree_ t) (max_key_payload_bytes_ t) 0) t);
  WriteMetadata.

Definition LoadMetadata : T unit :=
  t ← this;
  page ← ReadPage 0;
  m ← lift (DeserializeMetadata (key_type_ t) (min_degree_ t) (max_key_payload_bytes_ t) (page_data page));
  update (set_metadata m).

(** The metadata page is missing exactly when reading page 0 reports
    [kNotFound]. *)
Definition bt_Open : T unit := fun s =>
  let t := s.1 in
  if bt_is_open_ t then (Ok tt, s)
  else if bool_decide (index_file_ t = "") then (Err kInvalidArgument "Index file path is empty", s)
  else if max_key_payload_bytes_ t =? 0 then
    (Err kInvalidArgument "BStarTree key payload policy must be greater than zero", s)
  else if min_degree_ t <? 2 then
    (Err kInvalidArgument "BStarTree min_degree must be at least 2", s)
  else
    (_ ← on_pages ps_open;
     _ ← (fun s => match ReadPage 0 s with
                   | (Err c m, s') =>
                       if bool_decide (c = kNotFound) then InitializeTree s' else (Err c m, s')
                   | (Ok _, s') => LoadMetadata s'
                   end);
     update set_tree_open) s.

(** ** Search *)

(** The loop of [FindPathToLeaf]; [path] is the path walked so far. *)
Fixpoint FindPath_loop (fuel : nat) (key : Value) (path : list SearchPathEntry) (current_page_id : Z)
  : T (list SearchPathEntry * Z * option Z) :=
  match fuel with
  | O => throw kInternalError "out of fuel"
  | S n =>
      page ← ReadPage current_page_id;
      header ← lift (DeserializeNodeHeader (page_data page));
      if bool_decide (node_type header = ntLeaf) then
        '(_, entries) ← ParseLeaf page;
        let existing_rid :=
          match znth entries (FindEntryPosition entries key) with
          | Some e => if value_eqb (entry_key e) key then Some (entry_rid e) else None
          | None => None
          end in
        mret (path, current_page_id, existing_rid)
      else
        '(_, internal) ← ParseInternal page;
        let child_index := ChooseChildIndex internal key in
        child ← at_index (child_page_ids internal) child_index;
        FindPath_loop n key (mkSearchPathEntry current_page_id child_index :: path) child
  end.

Definition FindPathToLeaf (fuel : nat) (key : Value) : T (list SearchPathEntry * Z * option Z) :=
  t ← this;
  if IsInvalidPageId (root_page_id (metadata_ t)) then mret ([], InvalidPageId, None)
  else FindPath_loop fuel key [] (root_page_id (metadata_ t)).

Fixpoint FindMinimumKey_loop (fuel : nat) (current_page_id : Z) : T Value :=
  match fuel with
  | O => throw kInternalError "out of fuel"
  | S n =>
      page ← ReadPage current_page_id;
      header ← lift (DeserializeNodeHeader (page_data page));
      if bool_decide (node_type header = ntLeaf) then
        '(_, entries) ← ParseLeaf page;
        match entries with
        | [] => throw kInternalError "Leaf node is unexpectedly empty"
        | e :: _ => mret (entry_key e)
        end
      else
        '(_, internal) ← ParseInternal page;
        child ← at_index (child_page_ids internal) 0;
        FindMinimumKey_loop n child
  end.
Definition FindMinimumKey (fuel : nat) (subtree_root : Z) : T Value :=
  _ ← reject_if (IsInvalidPageId subtree_root) kInvalidArgument "subtree root is invalid";
  FindMinimumKey_loop fuel subtree_root.

Definition tree_require_open : T unit :=
  t ← this;
  reject_if (negb (bt_is_open_ t)) kInternalError "BStarTree is not open".

Definition bt_Find (fuel : nat) (key : Value) : T (option Z) :=
  _ ← tree_require_open;
  _ ← ValidateKeyType key;
  t ← this;
  if IsInvalidPageId (root_page_id (metadata_ t)) then mret None
  else
    '(_, _, existing_rid) ← FindPathToLeaf fuel key;
    mret existing_rid.

(** The loop over the entries of one leaf: the rows found and whether the
    search ends here. *)
Definition above_high (key : Value) (range : KeyRange) : bool :=
  match high range with
  | Some h => if include_high range then value_gtb key h else negb (value_ltb key h)
  | None => false
  end.
Fixpoint ScanEntries (range : KeyRange) (entries : list LeafEntry) : list Z * bool :=
  match entries with
  | [] => ([], false)
  | e :: rest =>
      if above_high (entry_key e) range then ([], true)
      else
        let '(rids, stop) := ScanEntries range rest in
        (if FitsInRange (entry_key e) range then entry_rid e :: rids else rids, stop)
  end.

Fixpoint RangeSearch_loop (fuel : nat) (range : KeyRange) (current_leaf_page_id : Z) : T (list Z) :=
  if IsInvalidPageId current_leaf_page_id then mret [] else
  match fuel with
  | O => throw kInternalError "out of fuel"
  | S n =>
      '(header, entries) ← LoadLeaf current_leaf_page_id;
      let '(rids, stop) := ScanEntries range entries in
      if (stop : bool) then mret rids
      else
        rest ← RangeSearch_loop n range (next_leaf_page_id header);
        mret (rids ++ rest)
  end.

Definition bt_RangeSearch (fuel : nat) (range : KeyRange) : T (list Z) :=
  _ ← tree_require_open;
  _ ← ValidateRange range;
  t ← this;
  if IsInvalidPageId (root_page_id (metadata_ t)) then mret []
  else
    first ← match low range with
            | Some l => '(_, leaf, _) ← FindPathToLeaf fuel l; mret leaf
            | None => mret (first_leaf_page_id (metadata_ t))
            end;
    RangeSearch_loop fuel range first.

(** ** Separators and parents *)

Fixpoint UpdateParentSeparatorAfterChildChange (path : list SearchPathEntry) (replacement_key : Value)
  : T unit :=
  match path with
  | [] => mret tt
  | parent_link :: parent_path =>
      if child_index parent_link =? 0 then
        UpdateParentSeparatorAfterChildChange parent_path replacement_key
      else
        '(parent_header, parent) ← LoadInternal (link_page_id parent_link);
        StoreInternal (link_page_id parent_link) parent_header
          (mkInternalNodeData (zset (child_index parent_link - 1) replacement_key (separator_keys parent))
             (child_page_ids parent))
  end.

(** Giving a child its new parent.  [ParseLeafPage] and [ParseInternalPage]
    overwrite the header with the one on the page. *)
Definition RewriteChildParent (parent child : Z) : T unit :=
  page ← ReadPage child;
  header ← lift (DeserializeNodeHeader (page_data page));
  let child_header := set_parent parent header in
  if bool_decide (node_type child_header = ntLeaf) then
    '(child_header, entries) ← ParseLeaf page;
    StoreLeaf child child_header entries
  else
    '(child_header, internal) ← ParseInternal page;
    StoreInternal child child_header internal.
Fixpoint rewrite_child_parent (children : list Z) (parent : Z) : T unit :=
  match children with
  | [] => mret tt
  | child :: rest => _ ← RewriteChildParent parent child; rewrite_child_parent rest parent
  end.

(** The entries of [entries] and of the right sibling on two pages again. *)
Definition LeafSplitFits (t : BStarTree) (left_id right_id : Z) (left_header right_header : NodeHeader)
    (combined : list LeafEntry) (left_count right_count : Z) : bool :=
  let min_keys := MinKeysPerNonRootNode t in
  let max_keys := MaxKeysPerNode t in
  if (left_count <? min_keys) || (max_keys <? left_count) then false
  else if (right_count <? min_keys) || (max_keys <? right_count) then false
  else is_ok (BuildLeafPage (bt_page_size_ t) left_id left_header (ztake left_count combined)) &&
       is_ok (BuildLeafPage (bt_page_size_ t) right_id right_header (zdrop left_count combined)).

Definition RedistributeLeafWithRightSibling (leaf_page_id : Z) (path : list SearchPathEntry)
    (expanded_leaf : list LeafEntry) : T bool :=
  match path with
  | [] => mret false
  | parent_link :: _ =>
      '(parent_header, parent) ← LoadInternal (link_page_id parent_link);
      if zlen (child_page_ids parent) <=? child_index parent_link + 1 then mret false
      else
        right_page_id ← at_index (child_page_ids parent) (child_index parent_link + 1);
        current_page ← ReadPage leaf_page_id;
        right_page ← ReadPage right_page_id;
        '(current_header, _) ← ParseLeaf current_page;
        '(right_header, right_leaf) ← ParseLeaf right_page;
        let combined := expanded_leaf ++ right_leaf in
        t ← this;
        match ChooseBalancedSplit (zlen combined)
                (LeafSplitFits t leaf_page_id right_page_id current_header right_header combined) with
        | None => mret false
        | Some split_index =>
            let left_leaf := ztake split_index combined in
            let new_right_leaf := zdrop split_index combined in
            _ ← StoreLeaf leaf_page_id (set_next right_page_id current_header) left_leaf;
            _ ← StoreLeaf right_page_id right_header new_right_leaf;
            front ← at_index new_right_leaf 0;
            _ ← StoreInternal (link_page_id parent_link) parent_header
                  (mkInternalNodeData (zset (child_index parent_link) (entry_key front) (separator_keys parent))
                     (child_page_ids parent));
            _ ← match left_leaf with
                | first :: _ =>
                    if child_index parent_link =? 0 then
                      UpdateParentSeparatorAfterChildChange path (entry_key first)
                    else mret tt
                | [] => mret tt
                end;
            mret true
        end
  end.

(** The node left and right of separator number [middle]. *)
Definition left_part (middle : Z) (all : InternalNodeData) : InternalNodeData :=
  mkInternalNodeData (ztake middle (separator_keys all)) (ztake (middle + 1) (child_page_ids all)).
Definition right_part (middle : Z) (all : InternalNodeData) : InternalNodeData :=
  mkInternalNodeData (zdrop (middle + 1) (separator_keys all)) (zdrop (middle + 1) (child_page_ids all)).

Definition InternalSplitFits (t : BStarTree) (left_id right_id : Z)
    (left_header right_header : NodeHeader) (all : InternalNodeData) (middle right_count : Z) : bool :=
  let min_keys := MinKeysPerNonRootNode t in
  let max_keys := MaxKeysPerNode t in
  if (max_keys <? middle) || (right_count <? min_keys) || (max_keys <? right_count) then false
  else is_ok (BuildInternalPage (bt_page_size_ t) left_id left_header (left_part middle all)) &&
       is_ok (BuildInternalPage (bt_page_size_ t) right_id right_header (right_part middle all)).

(** The loop over [middle]; [best] is [best_middle] with [best_distance]. *)
Fixpoint ChooseMiddle_loop (key_total : Z) (fits : Z -> Z -> bool) (best : option (Z * Z))
    (middle : Z) (rounds : nat) : option (Z * Z) :=
  match rounds with
  | O => best
  | S n =>
      let right_count := key_total - middle - 1 in
      let distance := size_distance middle right_count in
      let best' :=
        if negb (fits middle right_count) then best
        else match best with
             | None => Some (middle, distance)
             | Some (_, best_distance) =>
                 if distance <? best_distance then Some (middle, distance) else best
             end in
      ChooseMiddle_loop key_total fits best' (middle + 1) n
  end.
Definition ChooseMiddle (min_keys key_total : Z) (fits : Z -> Z -> bool) : option Z :=
  fst <$> ChooseMiddle_loop key_total fits None min_keys (Z.to_nat (key_total - min_keys)).

Definition RedistributeInternalWithRightSibling (internal_page_id : Z) (path : list SearchPathEntry)
    (expanded_internal : InternalNodeData) : T bool :=
  match path with
  | [] => mret false
  | parent_link :: _ =>
      '(parent_header, parent) ← LoadInternal (link_page_id parent_link);
      if zlen (child_page_ids parent) <=? child_index parent_link + 1 then mret false
      else
        right_page_id ← at_index (child_page_ids parent) (child_index parent_link + 1);
        current_page ← ReadPage internal_page_id;
        right_page ← ReadPage right_page_id;
        '(current_header, _) ← ParseInternal current_page;
        '(right_header, right_internal) ← ParseInternal right_page;
        parent_separator ← at_index (separator_keys parent) (child_index parent_link);
        let all := mkInternalNodeData
          (separator_keys expanded_internal ++ [parent_separator] ++ separator_keys right_internal)
          (child_page_ids expanded_internal ++ child_page_ids right_internal) in
        t ← this;
        match ChooseMiddle (MinKeysPerNonRootNode t) (zlen (separator_keys all))
                (InternalSplitFits t internal_page_id right_page_id current_header right_header all) with
        | None => mret false
        | Some middle =>
            let left_internal := left_part middle all in
            let new_right_internal := right_part middle all in
            replacement_separator ← at_index (separator_keys all) middle;
            _ ← StoreInternal internal_page_id current_header left_internal;
            _ ← StoreInternal right_page_id right_header new_right_internal;
            _ ← StoreInternal (link_page_id parent_link) parent_header
                  (mkInternalNodeData
                     (zset (child_index parent_link) replacement_separator (separator_keys parent))
                     (child_page_ids parent));
            _ ← rewrite_child_parent (child_page_ids left_internal) internal_page_id;
            _ ← rewrite_child_parent (child_page_ids new_right_internal) right_page_id;
            mret true
        end
  end.

(** ** Insertion *)

(** [NodeHeader{kInternal, InvalidPageId(), InvalidPageId(), true}]. *)
Definition new_root_header : NodeHeader := mkNodeHeader ntInternal 0 InvalidPageId InvalidPageId true.

(** [SplitInternal]; [insert_parent] is the call of [InsertIntoInternal] on the
    parent. *)
Definition SplitInternal (internal_page_id : Z) (path : list SearchPathEntry)
    (expanded_internal : InternalNodeData) (insert_parent : Value -> Z -> T unit) : T unit :=
  t ← this;
  _ ← reject_if (negb (zlen (separator_keys expanded_internal) =? u64 (MaxKeysPerNode t + 1)))
        kInternalError "Internal split requires exactly max_keys + 1 separator keys";
  '(current_header, _) ← LoadInternal internal_page_id;
  let middle := u64 (min_degree_ t - 1) in
  promoted_separator ← at_index (separator_keys expanded_internal) middle;
  let left_internal := left_part middle expanded_internal in
  let right_internal := right_part middle expanded_internal in
  _ ← reject_if (bool_decide (child_page_ids left_internal = []) ||
                 bool_decide (child_page_ids right_internal = []))
        kInternalError "Split produced an invalid internal node";
  right_page_id ← AllocateNodePage;
  let parent := match path with [] => InvalidPageId | link :: _ => link_page_id link end in
  let left_header := set_next InvalidPageId (set_parent parent (set_root false current_header)) in
  let right_header := left_header in
  match path with
  | [] =>
      root_page_id ← AllocateNodePage;
      _ ← StoreInternal internal_page_id (set_parent root_page_id left_header) left_internal;
      _ ← StoreInternal right_page_id (set_parent root_page_id right_header) right_internal;
      _ ← rewrite_child_parent (child_page_ids left_internal) internal_page_id;
      _ ← rewrite_child_parent (child_page_ids right_internal) right_page_id;
      _ ← StoreInternal root_page_id new_root_header
            (mkInternalNodeData [promoted_separator] [internal_page_id; right_page_id]);
      _ ← update (fun t => set_tree root_page_id (first_leaf_page_id (metadata_ t))
                             (u64 (tree_height (metadata_ t) + 1)) t);
      WriteMetadata
  | _ :: _ =>
      _ ← StoreInternal internal_page_id left_header left_internal;
      _ ← StoreInternal right_page_id right_header right_internal;
      _ ← rewrite_child_parent (child_page_ids left_internal) internal_page_id;
      _ ← rewrite_child_parent (child_page_ids right_internal) right_page_id;
      insert_parent promoted_separator right_page_id
  end.

Fixpoint InsertIntoInternal (path : list SearchPathEntry) (internal_page_id left_child_index : Z)
    (separator_key : Value) (right_child_page_id : Z) : T unit :=
  '(header, internal) ← LoadInternal internal_page_id;
  let internal := mkInternalNodeData (zinsert left_child_index separator_key (separator_keys internal))
                    (zinsert (left_child_index + 1) right_child_page_id (child_page_ids internal)) in
  t ← this;
  if zlen (separator_keys internal) <=? MaxKeysPerNode t then
    _ ← StoreInternal internal_page_id header internal;
    RewriteChildParent internal_page_id right_child_page_id
  else
    redistributed ← RedistributeInternalWithRightSibling internal_page_id path internal;
    if (redistributed : bool) then mret tt
    else
      SplitInternal internal_page_id path internal
        (fun promoted right =>
           match path with
           | [] => mret tt
           | link :: parent_path =>
               InsertIntoInternal parent_path (link_page_id link) (child_index link) promoted right
           end).

Definition SplitLeaf (leaf_page_id : Z) (path : list SearchPathEntry) (expanded_leaf : list LeafEntry)
  : T unit :=
  t ← this;
  _ ← reject_if (negb (zlen expanded_leaf =? u64 (MaxKeysPerNode t + 1))) kInternalError
        "Leaf split requires exactly max_keys + 1 entries";
  '(current_header, _) ← LoadLeaf leaf_page_id;
  let split_index := min_degree_ t in
  let left_leaf := ztake split_index expanded_leaf in
  let right_leaf := zdrop split_index expanded_leaf in
  match left_leaf, right_leaf with
  | _ :: _, front :: _ =>
      right_page_id ← AllocateNodePage;
      let parent := match path with [] => InvalidPageId | link :: _ => link_page_id link end in
      let right_header := set_parent parent (set_root false current_header) in
      let left_header := set_next right_page_id right_header in
      match path with
      | [] =>
          root_page_id ← AllocateNodePage;
          _ ← StoreLeaf leaf_page_id (set_parent root_page_id left_header) left_leaf;
          _ ← StoreLeaf right_page_id (set_parent root_page_id right_header) right_leaf;
          _ ← StoreInternal root_page_id new_root_header
                (mkInternalNodeData [entry_key front] [leaf_page_id; right_page_id]);
          _ ← update (fun t => set_tree root_page_id leaf_page_id
                                 (u64 (tree_height (metadata_ t) + 1)) t);
          WriteMetadata
      | link :: parent_path =>
          _ ← StoreLeaf leaf_page_id left_header left_leaf;
          _ ← StoreLeaf right_page_id right_header right_leaf;
          InsertIntoInternal parent_path (link_page_id link) (child_index link) (entry_key front)
            right_page_id
      end
  | _, _ => throw kInternalError "Split produced an empty leaf"
  end.

Definition InsertIntoLeaf (leaf_page_id : Z) (path : list SearchPathEntry) (key : Value) (rid : Z)
  : T unit :=
  '(header, entries) ← LoadLeaf leaf_page_id;
  let pos := FindEntryPosition entries key in
  let entries := zinsert pos (mkLeafEntry key rid) entries in
  t ← this;
  if zlen entries <=? MaxKeysPerNode t then
    _ ← StoreLeaf leaf_page_id header entries;
    if pos =? 0 then
      front ← at_index entries 0;
      UpdateParentSeparatorAfterChildChange path (entry_key front)
    else mret tt
  else
    redistributed ← RedistributeLeafWithRightSibling leaf_page_id path entries;
    if (redistributed : bool) then mret tt
    else SplitLeaf leaf_page_id path entries.

Definition bt_Insert (fuel : nat) (key : Value) (rid : Z) : T unit :=
  _ ← tree_require_open;
  _ ← ValidateKeyType key;
  t ← this;
  if IsInvalidPageId (root_page_id (metadata_ t)) then
    new_root ← AllocateNodePage;
    _ ← StoreLeaf new_root (mkNodeHeader ntLeaf 0 InvalidPageId InvalidPageId true)
          [mkLeafEntry key rid];
    _ ← update (set_tree new_root new_root 1);
    WriteMetadata
  else
    '(path, leaf_page_id, existing_rid) ← FindPathToLeaf fuel key;
    match existing_rid with
    | Some _ => throw kAlreadyExists "Index key already exists"
    | None => InsertIntoLeaf leaf_page_id path key rid
    end.

(** ** Deletion *)

(** Removing the right child of separator [i] from the parent. *)
Definition remove_child (i : Z) (parent : InternalNodeData) : InternalNodeData :=
  mkInternalNodeData (zerase i (separator_keys parent)) (zerase (i + 1) (child_page_ids parent)).

(** Storing the parent after a merge; [rebalance_parent] is the call of
    [RebalanceAfterDelete] on it. *)
Definition StoreMergedParent (parent_id : Z) (parent_header : NodeHeader) (parent : InternalNodeData)
    (rebalance_parent : T unit) : T bool :=
  _ ← StoreInternal parent_id parent_header parent;
  t ← this;
  _ ← (if negb (is_root parent_header) && (zlen (separator_keys parent) <? MinKeysPerNonRootNode t)
       then rebalance_parent else mret tt);
  mret true.

(** A page that cannot be built means that the nodes are not merged. *)
Definition MergeLeafWithRightSibling (leaf_page_id : Z) (parent_link : SearchPathEntry)
    (rebalance_parent : T unit) : T bool :=
  '(parent_header, parent) ← LoadInternal (link_page_id parent_link);
  if zlen (child_page_ids parent) <=? child_index parent_link + 1 then mret false
  else
    right_page_id ← at_index (child_page_ids parent) (child_index parent_link + 1);
    left_page ← ReadPage leaf_page_id;
    right_page ← ReadPage right_page_id;
    '(left_header, left_leaf) ← ParseLeaf left_page;
    '(right_header, right_leaf) ← ParseLeaf right_page;
    let left_leaf := left_leaf ++ right_leaf in
    let left_header := set_next (next_leaf_page_id right_header) left_header in
    t ← this;
    match BuildLeafPage (bt_page_size_ t) leaf_page_id left_header left_leaf with
    | Err _ _ => mret false
    | Ok rebuilt_left_page =>
        _ ← WritePage rebuilt_left_page;
        let parent := remove_child (child_index parent_link) parent in
        if is_root parent_header && bool_decide (separator_keys parent = []) then
          _ ← StoreLeaf leaf_page_id (set_root true (set_parent InvalidPageId left_header)) left_leaf;
          _ ← update (set_tree leaf_page_id leaf_page_id 1);
          _ ← WriteMetadata;
          mret true
        else StoreMergedParent (link_page_id parent_link) parent_header parent rebalance_parent
    end.

Definition MergeInternalWithRightSibling (internal_page_id : Z) (parent_link : SearchPathEntry)
    (rebalance_parent : T unit) : T bool :=
  '(parent_header, parent) ← LoadInternal (link_page_id parent_link);
  if zlen (child_page_ids parent) <=? child_index parent_link + 1 then mret false
  else
    right_page_id ← at_index (child_page_ids parent) (child_index parent_link + 1);
    left_page ← ReadPage internal_page_id;
    right_page ← ReadPage right_page_id;
    '(left_header, left_internal) ← ParseInternal left_page;
    '(right_header, right_internal) ← ParseInternal right_page;
    parent_separator ← at_index (separator_keys parent) (child_index parent_link);
    let left_internal := mkInternalNodeData
      (separator_keys left_internal ++ [parent_separator] ++ separator_keys right_internal)
      (child_page_ids left_internal ++ child_page_ids right_internal) in
    t ← this;
    match BuildInternalPage (bt_page_size_ t) internal_page_id left_header left_internal with
    | Err _ _ => mret false
    | Ok rebuilt_left_page =>
        _ ← WritePage rebuilt_left_page;
        _ ← rewrite_child_parent (child_page_ids left_internal) internal_page_id;
        let parent := remove_child (child_index parent_link) parent in
        if is_root parent_header && bool_decide (separator_keys parent = []) then
          _ ← StoreInternal internal_page_id (set_root true (set_parent InvalidPageId left_header))
                left_internal;
          _ ← update (fun t =>
                let h := tree_height (metadata_ t) in
                set_tree internal_page_id (first_leaf_page_id (metadata_ t))
                  (if 0 <? h then h - 1 else h) t);
          _ ← WriteMetadata;
          mret true
        else StoreMergedParent (link_page_id parent_link) parent_header parent rebalance_parent
    end.

(** Moving entries over from, or merging with, the right sibling of the node at
    [link]: whether one of the two was done. *)
Definition RedistributeOrMerge (node : NodeType) (page : Page) (page_id : Z) (link : SearchPathEntry)
    (parent_path : list SearchPathEntry) (rebalance_parent : T unit) : T bool :=
  if bool_decide (node = ntLeaf) then
    '(_, entries) ← ParseLeaf page;
    redistributed ← RedistributeLeafWithRightSibling page_id (link :: parent_path) entries;
    if (redistributed : bool) then mret true
    else MergeLeafWithRightSibling page_id link rebalance_parent
  else
    '(_, internal) ← ParseInternal page;
    redistributed ← RedistributeInternalWithRightSibling page_id (link :: parent_path) internal;
    if (redistributed : bool) then mret true
    else MergeInternalWithRightSibling page_id link rebalance_parent.

Definition IsUnderfull (header : NodeHeader) (page : Page) : T bool :=
  t ← this;
  if bool_decide (node_type header = ntLeaf) then
    '(h, entries) ← ParseLeaf page; mret (IsLeafUnderfull t h entries)
  else
    '(h, internal) ← ParseInternal page; mret (IsInternalUnderfull t h internal).

Fixpoint RebalanceAfterDelete (path : list SearchPathEntry) (page_id : Z) : T unit :=
  match path with
  | [] => mret tt
  | parent_link :: parent_path =>
      let rebalance_parent := RebalanceAfterDelete parent_path (link_page_id parent_link) in
      current_page ← ReadPage page_id;
      current_header ← lift (DeserializeNodeHeader (page_data current_page));
      underfull ← IsUnderfull current_header current_page;
      if negb underfull then mret tt
      else
        '(_, parent) ← LoadInternal (link_page_id parent_link);
        fixed ← (if child_index parent_link + 1 <? zlen (child_page_ids parent) then
                   RedistributeOrMerge (node_type current_header) current_page page_id parent_link
                     parent_path rebalance_parent
                 else mret false);
        if (fixed : bool) then mret tt
        else if child_index parent_link =? 0 then mret tt
        else
          let left_link := mkSearchPathEntry (link_page_id parent_link) (child_index parent_link - 1) in
          left_sibling_page_id ← at_index (child_page_ids parent) (child_index parent_link - 1);
          left_page ← ReadPage left_sibling_page_id;
          left_header ← lift (DeserializeNodeHeader (page_data left_page));
          _ ← RedistributeOrMerge (node_type left_header) left_page left_sibling_page_id left_link
                parent_path rebalance_parent;
          mret tt
  end.

Definition DeleteFromLeaf (leaf_page_id : Z) (path : list SearchPathEntry) (key : Value) : T unit :=
  '(header, entries) ← LoadLeaf leaf_page_id;
  let pos := FindEntryPosition entries key in
  _ ← reject_if (match znth entries pos with
                 | Some e => negb (value_eqb (entry_key e) key)
                 | None => true
                 end) kNotFound "Index key not found";
  let removed_first := pos =? 0 in
  let entries := zerase pos entries in
  if is_root header && bool_decide (entries = []) then
    _ ← update (set_tree InvalidPageId InvalidPageId 0);
    WriteMetadata
  else
    _ ← StoreLeaf leaf_page_id header entries;
    _ ← match entries with
        | front :: _ =>
            if removed_first then UpdateParentSeparatorAfterChildChange path (entry_key front)
            else mret tt
        | [] => mret tt
        end;
    if is_root header then mret tt
    else
      t ← this;
      if IsLeafUnderfull t header entries then RebalanceAfterDelete path leaf_page_id else mret tt.

Definition bt_Delete (fuel : nat) (key : Value) : T unit :=
  _ ← tree_require_open;
  _ ← ValidateKeyType key;
  t ← this;
  if IsInvalidPageId (root_page_id (metadata_ t)) then throw kNotFound "Index key not found"
  else
    '(path, leaf_page_id, existing_rid) ← FindPathToLeaf fuel key;
    match existing_rid with
    | None => throw kNotFound "Index key not found"
    | Some _ => DeleteFromLeaf leaf_page_id path key
    end.
End BStarTree.
Arguments BStarTree P : clear implicits.
