(* ===== verification/BStarTreePages.v ===== *)
(** * The pages of the B*-tree

    The page formats round trip, a node of the size the tree allows fits its
    page, and the position search is a correct binary search. *)

From stdpp Require Import sorting.
From S2P Require Import Prelude BinaryIO Values Serialization Disk PageStore KeyEncoder BStarTree.

(** ** Headers *)

Definition header_ok (h : NodeHeader) : Prop :=
  in_u32 (key_count h) /\ in_u64 (parent_page_id h) /\ in_u64 (next_leaf_page_id h).

Definition header_fields (h : NodeHeader) : bytes :=
  le_bytes 4 (NodeType_raw (node_type h)) ++ le_bytes 4 (key_count h) ++ le_bytes 8 (parent_page_id h) ++
  le_bytes 8 (next_leaf_page_id h) ++ [byte_of_Z (if is_root h then 1 else 0)].

Lemma SerializeNodeHeader_eq h : SerializeNodeHeader h = kTreeNodeMagic ++ header_fields h.
Proof.
  unfold SerializeNodeHeader, WriteUint8, WriteUint64, WriteUint32, WriteBytes, header_fields. cbv zeta.
  by rewrite <- !app_assoc.
Qed.
Lemma zlen_SerializeNodeHeader h : zlen (SerializeNodeHeader h) = NodeHeaderSize.
Proof. rewrite SerializeNodeHeader_eq. unfold header_fields. rewrite !zlen_app, !zlen_le_bytes. reflexivity. Qed.

Lemma ReadNodeHeader_decodes h : header_ok h -> decodes ReadNodeHeader (header_fields h) h.
Proof.
  intros (Hk & Hp & Hn). unfold ReadNodeHeader, header_fields.
  eapply decodes_bind; [apply ReadUint32_decodes; by destruct (node_type h)|].
  eapply decodes_bind; [by apply ReadUint32_decodes|].
  eapply decodes_bind; [by apply ReadUint64_decodes|].
  eapply decodes_bind; [by apply ReadUint64_decodes|].
  rewrite <- (app_nil_r [byte_of_Z _]).
  eapply decodes_bind; [apply ReadUint8_decodes; destruct (is_root h); lia|].
  destruct h as [[] k p n []]; apply decodes_ret.
Qed.

Lemma DeserializeNodeHeader_page h rest :
  header_ok h -> DeserializeNodeHeader (SerializeNodeHeader h ++ rest) = Ok h.
Proof.
  intros Hh. unfold DeserializeNodeHeader, check_not.
  rewrite (proj2 (Z.ltb_ge _ _)) by (rewrite zlen_app, zlen_SerializeNodeHeader; zlia).
  rewrite SerializeNodeHeader_eq, <- app_assoc, ztake_app_eq, bool_decide_true by done.
  cbn [mbind result_bind negb]. by rewrite (ReadNodeHeader_decodes h Hh).
Qed.

(** ** Keys and entries *)

(** A key of the tree's type that the format can hold. *)
Definition key_fits (kt : ValueType) (v : Value) : Prop :=
  type v = kt /\ value_ok v.
Definition entry_fits (kt : ValueType) (e : LeafEntry) : Prop :=
  key_fits kt (entry_key e) /\ in_u64 (entry_rid e).

Lemma Encode_u32 v : value_ok v -> in_u32 (zlen (Encode v)).
Proof.
  destruct v as [|z|s|[]]; cbn [Encode value_ok]; intros; unfold in_u32; [done| |split; zlia|done|done].
  unfold WriteInt64, WriteBytes. rewrite app_nil_l, zlen_le_bytes. lia.
Qed.

Lemma reader_of_decodes {A} (x : A) : decodes (reader_of (Ok x)) [] x.
Proof. intros pre post. unfold reader_of. by rewrite zlen_nil, Z.add_0_r. Qed.

Lemma DeserializeSeparatorKey_decodes kt v :
  key_fits kt v -> decodes (DeserializeSeparatorKey kt) (SerializeSeparatorKey v) v.
Proof.
  intros [<- Hv]. pose proof (Encode_u32 v Hv). unfold SerializeSeparatorKey. rewrite u32_id by done.
  eapply decodes_bind; [by apply ReadUint32_decodes|].
  enough (decodes (key_bytes ← ReadPod (zlen (Encode v)); reader_of (Decode key_bytes (type v)))
    (Encode v ++ []) v) as H' by by rewrite app_nil_r in H'.
  eapply decodes_bind; [by apply ReadPod_decodes|]. rewrite Encode_Decode by done.
  apply reader_of_decodes.
Qed.

Lemma SerializeLeafEntry_eq e :
  SerializeLeafEntry e = SerializeSeparatorKey (entry_key e) ++ le_bytes 8 (entry_rid e).
Proof. done. Qed.

Lemma DeserializeLeafEntry_decodes kt e :
  entry_fits kt e -> decodes (DeserializeLeafEntry kt) (SerializeLeafEntry e) e.
Proof.
  intros [[<- Hv] Hr]. pose proof (Encode_u32 _ Hv). rewrite SerializeLeafEntry_eq.
  unfold SerializeSeparatorKey. rewrite u32_id, <- app_assoc by done.
  eapply decodes_bind; [by apply ReadUint32_decodes|].
  eapply decodes_bind; [by apply ReadPod_decodes|]. rewrite Encode_Decode by done.
  rewrite <- (app_nil_l (le_bytes 8 _)). eapply decodes_bind; [apply reader_of_decodes|].
  eapply decodes_map; [by apply ReadUint64_decodes|]. by destruct e.
Qed.

Lemma ReadChild_decodes kt sc :
  key_fits kt sc.1 -> in_u64 sc.2 -> decodes (ReadChild kt) (WriteChild sc) sc.
Proof.
  intros Hk Hc. unfold WriteChild, WriteUint64, WriteBytes.
  eapply decodes_bind; [by apply DeserializeSeparatorKey_decodes|].
  eapply decodes_map; [by apply ReadUint64_decodes|]. by destruct sc.
Qed.

(** ** Leaves *)

(** The header [BuildLeafPage] stores, and the bytes of the page. *)
Definition leaf_header (h : NodeHeader) (entries : list LeafEntry) : NodeHeader :=
  mkNodeHeader ntLeaf (zlen entries) (parent_page_id h) (next_leaf_page_id h) (is_root h).
Definition leaf_bytes (h : NodeHeader) (entries : list LeafEntry) : bytes :=
  SerializeNodeHeader (leaf_header h entries) ++ concat (map SerializeLeafEntry entries).

Definition links_ok (h : NodeHeader) : Prop := in_u64 (parent_page_id h) /\ in_u64 (next_leaf_page_id h).

Lemma BuildLeafPage_ok size id h entries :
  zlen entries < 2 ^ 32 -> zlen (leaf_bytes h entries) <= size ->
  BuildLeafPage size id h entries = Ok (mkPage id (page_image size (leaf_bytes h entries))).
Proof.
  intros Hn Hs. unfold BuildLeafPage. cbv zeta. rewrite u32_id by (split; zlia).
  fold (leaf_header h entries). fold (leaf_bytes h entries). unfold check_not.
  by rewrite (proj2 (Z.ltb_ge _ _)) by lia.
Qed.

Lemma leaf_header_ok h entries : links_ok h -> zlen entries < 2 ^ 32 -> header_ok (leaf_header h entries).
Proof. intros ??. split; [split; cbn; zlia|done]. Qed.

Lemma ParseLeafPage_ok kt size id h entries :
  links_ok h -> zlen entries < 2 ^ 32 -> Forall (entry_fits kt) entries ->
  ParseLeafPage kt (mkPage id (page_image size (leaf_bytes h entries))) =
    Ok (leaf_header h entries, entries).
Proof.
  intros Hh Hn He. unfold ParseLeafPage. cbn [page_data]. unfold page_image, leaf_bytes. rewrite <- app_assoc.
  rewrite DeserializeNodeHeader_page by by apply leaf_header_ok.
  cbn [mbind result_bind]. rewrite bool_decide_true by done. cbn [negb check_not].
  set (post := zreplicate _ _). assert (decodes (read_loop (DeserializeLeafEntry kt) (length entries))
    (concat (map SerializeLeafEntry entries)) entries) as Hdec.
  { apply read_loop_decodes. intros e Hin. apply DeserializeLeafEntry_decodes. by eapply Forall_forall in He. }
  cbn [key_count leaf_header]. unfold zlen at 1. rewrite Nat2Z.id.
  specialize (Hdec (SerializeNodeHeader (leaf_header h entries)) post).
  rewrite zlen_SerializeNodeHeader in Hdec. by rewrite Hdec.
Qed.

(** ** Internal nodes *)

(** An internal node as its first child and the separators with the children
    behind them. *)
Definition node_data (first : Z) (rest : list (Value * Z)) : InternalNodeData :=
  mkInternalNodeData rest.*1 (first :: rest.*2).
Definition internal_header (h : NodeHeader) (rest : list (Value * Z)) : NodeHeader :=
  mkNodeHeader ntInternal (zlen rest) (parent_page_id h) InvalidPageId (is_root h).
Definition internal_bytes (h : NodeHeader) (first : Z) (rest : list (Value * Z)) : bytes :=
  WriteUint64 (SerializeNodeHeader (internal_header h rest)) first ++ concat (map WriteChild rest).

Definition child_fits (kt : ValueType) (sc : Value * Z) : Prop := key_fits kt sc.1 /\ in_u64 sc.2.

Lemma zlen_fmap {A B} (f : A -> B) (l : list A) : zlen (f <$> l) = zlen l.
Proof. unfold zlen. by rewrite length_fmap. Qed.

(** The shape [BuildInternalPage] asks for. *)
Lemma node_data_intro (n : InternalNodeData) :
  zlen (child_page_ids n) = zlen (separator_keys n) + 1 -> exists first rest, n = node_data first rest.
Proof.
  destruct n as [seps [|first children]]; cbn [child_page_ids separator_keys]; intros E; [zlia|].
  exists first, (zip seps children). unfold node_data. rewrite zlen_cons in E. unfold zlen in E.
  rewrite fst_zip, snd_zip by lia. done.
Qed.

Lemma BuildInternalPage_ok size id h first rest :
  zlen rest < 2 ^ 32 -> zlen (internal_bytes h first rest) <= size ->
  BuildInternalPage size id h (node_data first rest) =
    Ok (mkPage id (page_image size (internal_bytes h first rest))).
Proof.
  intros Hn Hs. unfold BuildInternalPage. cbn [child_page_ids node_data separator_keys].
  rewrite zlen_cons, !zlen_fmap, Z.add_comm, Z.eqb_refl. cbn [negb check_not mbind result_bind].
  rewrite u32_id by (split; zlia). rewrite zip_fst_snd. fold (internal_header h rest).
  fold (internal_bytes h first rest). unfold check_not. by rewrite (proj2 (Z.ltb_ge _ _)) by lia.
Qed.

Lemma ParseInternalPage_ok kt size id h first rest :
  in_u64 (parent_page_id h) -> in_u64 first -> zlen rest < 2 ^ 32 -> Forall (child_fits kt) rest ->
  ParseInternalPage kt (mkPage id (page_image size (internal_bytes h first rest))) =
    Ok (internal_header h rest, node_data first rest).
Proof.
  intros Hh Hf Hn Hr. unfold ParseInternalPage. cbn [page_data]. unfold page_image, internal_bytes.
  unfold WriteUint64, WriteBytes. rewrite <- !app_assoc. set (post := zreplicate _ _).
  rewrite DeserializeNodeHeader_page by (split_and!; cbn; [split; zlia|done|done]).
  cbn [mbind result_bind]. rewrite bool_decide_true by done. cbn [negb check_not].
  pose proof (ReadUint64_decodes first Hf (SerializeNodeHeader (internal_header h rest))
    (concat (map WriteChild rest) ++ post)) as E1. rewrite zlen_SerializeNodeHeader in E1.
  rewrite E1. cbn [mbind result_bind].
  assert (decodes (read_loop (ReadChild kt) (length rest)) (concat (map WriteChild rest)) rest) as Hdec.
  { apply read_loop_decodes. intros sc Hin. eapply Forall_forall in Hr as [? ?]; [|done]. by apply ReadChild_decodes. }
  cbn [key_count internal_header]. unfold zlen at 1. rewrite Nat2Z.id.
  specialize (Hdec (SerializeNodeHeader (internal_header h rest) ++ le_bytes 8 first) post).
  rewrite zlen_app, zlen_SerializeNodeHeader, <- !app_assoc in Hdec. by rewrite Hdec.
Qed.

Lemma internal_page_header size h first rest :
  in_u64 (parent_page_id h) -> zlen rest < 2 ^ 32 ->
  DeserializeNodeHeader (page_image size (internal_bytes h first rest)) = Ok (internal_header h rest).
Proof.
  intros ??. unfold page_image, internal_bytes, WriteUint64, WriteBytes. rewrite <- !app_assoc.
  apply DeserializeNodeHeader_page. split_and!; cbn; [split; zlia|done|done].
Qed.
Lemma leaf_page_header size h entries :
  links_ok h -> zlen entries < 2 ^ 32 ->
  DeserializeNodeHeader (page_image size (leaf_bytes h entries)) = Ok (leaf_header h entries).
Proof.
  intros ??. unfold page_image, leaf_bytes. rewrite <- !app_assoc.
  by apply DeserializeNodeHeader_page, leaf_header_ok.
Qed.

(** ** Capacity *)

Definition key_small (k : Z) (v : Value) : Prop := zlen (Encode v) <= k.

Lemma zlen_SerializeSeparatorKey v : zlen (SerializeSeparatorKey v) = 4 + zlen (Encode v).
Proof. unfold SerializeSeparatorKey. rewrite zlen_app. reflexivity. Qed.

Lemma leaf_bytes_bound k h entries :
  Forall (fun e => key_small k (entry_key e)) entries ->
  zlen (leaf_bytes h entries) <= NodeHeaderSize + zlen entries * (k + 12).
Proof.
  intros H. unfold leaf_bytes. rewrite zlen_app, zlen_SerializeNodeHeader. apply Z.add_le_mono_l.
  induction H as [|e es He _ IH]; [done|]. cbn [map concat].
  rewrite zlen_app, SerializeLeafEntry_eq, zlen_app, zlen_SerializeSeparatorKey, zlen_le_bytes, zlen_cons.
  unfold key_small in He. lia.
Qed.
Lemma internal_bytes_bound k h first rest :
  Forall (fun sc => key_small k sc.1) rest ->
  zlen (internal_bytes h first rest) <= NodeHeaderSize + 8 + zlen rest * (k + 12).
Proof.
  intros H. unfold internal_bytes, WriteUint64, WriteBytes.
  rewrite !zlen_app, zlen_SerializeNodeHeader, zlen_le_bytes. apply Z.add_le_mono_l.
  induction H as [|sc scs He _ IH]; [done|]. cbn [map concat]. rewrite zlen_app. unfold WriteChild at 1.
  unfold WriteUint64, WriteBytes. rewrite zlen_app, zlen_SerializeSeparatorKey, zlen_le_bytes, zlen_cons.
  unfold key_small in He. lia.
Qed.

(** The page size leaves room for a node with [2 * degree - 1] keys of [k] bytes. *)
Definition capacity (size k degree : Z) : Prop :=
  NodeHeaderSize + 8 + (2 * degree - 1) * (k + 12) <= size.

Lemma ComputeMinDegree_capacity size k degree :
  0 < k < 2 ^ 32 -> ComputeMinDegreeForPage size k = Ok degree -> 2 <= degree /\ capacity size k degree.
Proof.
  intros Hk E. unfold ComputeMinDegreeForPage, check_not in E.
  rewrite (proj2 (Z.eqb_neq _ _)) in E by lia. cbn [mbind result_bind] in E. cbv zeta in E.
  rewrite u64_id in E by (split; lia). destruct (size <=? NodeHeaderSize + 8) eqn:E1; [done|].
  cbn [mbind result_bind] in E. destruct (_ <? 3) eqn:E2; [done|]. cbn in E. simplify_eq. zbool.
  set (n := Z.min _ _) in *. assert (n <= (size - NodeHeaderSize - 8) / (4 + k + 8)) by lia.
  assert (2 <= (n + 1) / 2) by (apply Z.div_le_lower_bound; lia). split; [done|].
  assert (2 * ((n + 1) / 2) <= n + 1) by (apply Z.mul_div_le; lia).
  assert ((4 + k + 8) * ((size - NodeHeaderSize - 8) / (4 + k + 8)) <= size - NodeHeaderSize - 8)
    by (apply Z.mul_div_le; lia).
  unfold capacity. nia.
Qed.

(** ** Position search *)

Definition entry_lt (a b : LeafEntry) : Prop := value_lt (entry_key a) (entry_key b).
Definition sorted_entries (es : list LeafEntry) : Prop := StronglySorted entry_lt es.

(** The linear search: the entries in front of the first key that is not below. *)
Fixpoint position (es : list LeafEntry) (key : Value) : Z :=
  match es with
  | [] => 0
  | e :: rest => if value_ltb (entry_key e) key then 1 + position rest key else 0
  end.

Lemma position_split es key :
  exists l1 l2, es = l1 ++ l2 /\ position es key = zlen l1 /\
    Forall (fun e => value_ltb (entry_key e) key = true) l1 /\
    (l2 = [] \/ exists e l, l2 = e :: l /\ value_ltb (entry_key e) key = false).
Proof.
  induction es as [|e es (l1 & l2 & -> & E & H1 & H2)]; [exists [], []; auto|].
  cbn [position]. destruct (value_ltb (entry_key e) key) eqn:Ee.
  - exists (e :: l1), l2. rewrite E, zlen_cons. auto.
  - exists [], (e :: l1 ++ l2). split_and!; eauto.
Qed.

Lemma sorted_lookup_lt es i j a b :
  sorted_entries es -> znth es i = Some a -> znth es j = Some b -> i < j -> entry_lt a b.
Proof.
  intros Hs Ha Hb Hij. pose proof (znth_Some_range _ _ _ Ha). pose proof (znth_Some_range _ _ _ Hb).
  apply znth_split in Ha as (l1 & l2 & -> & Hl1). apply StronglySorted_app_1_r in Hs.
  apply StronglySorted_cons in Hs as [Hall _]. rewrite znth_app_r in Hb by lia.
  replace (j - zlen l1) with ((j - zlen l1 - 1) + 1) in Hb by lia. rewrite znth_cons_S in Hb by lia.
  eapply Forall_forall in Hall; [done|]. rewrite znth_lookup in Hb by lia. by apply list_elem_of_lookup_2 in Hb.
Qed.

(** The binary search narrows to the one index that separates the smaller keys
    from the others. *)
Definition separates (es : list LeafEntry) (key : Value) (p : Z) : Prop :=
  0 <= p <= zlen es /\
  forall i e, znth es i = Some e -> (i < p <-> value_ltb (entry_key e) key = true).

Lemma lower_bound_separates fuel es key first len :
  sorted_entries es -> 0 <= first -> 0 <= len <= Z.of_nat fuel -> first + len <= zlen es ->
  (forall i e, znth es i = Some e -> i < first -> value_ltb (entry_key e) key = true) ->
  (forall i e, znth es i = Some e -> first + len <= i -> value_ltb (entry_key e) key = false) ->
  separates es key (lower_bound fuel es key first len).
Proof.
  intros Hs. revert first len. induction fuel as [|fuel IH]; intros first len H0 Hlen Hend Hlo Hhi;
    cbn [lower_bound].
  - split; [lia|]. intros i e Hi. split; [by apply Hlo|]. intros Ht.
    destruct (decide (i < first)); [done|]. rewrite (Hhi i e Hi) in Ht by lia. done.
  - destruct (len <=? 0) eqn:El; zbool.
    { split; [lia|]. intros i e Hi. split; [by apply Hlo|]. intros Ht.
      destruct (decide (i < first)); [done|]. rewrite (Hhi i e Hi) in Ht by lia. done. }
    assert (0 <= len / 2 < len) as Hhalf by (split; [apply Z.div_pos; lia|apply Z.div_lt; lia]).
    set (half := len / 2) in *. destruct (znth_is_Some es (first + half)) as [m Hm]; [lia|]. rewrite Hm.
    assert (forall i e, znth es i = Some e -> i < first + half -> entry_lt e m) as Hleft
      by (intros i e Hi Hlt; by eapply sorted_lookup_lt).
    assert (forall i e, znth es i = Some e -> first + half < i -> entry_lt m e) as Hright
      by (intros i e Hi Hlt; by eapply sorted_lookup_lt).
    destruct (value_ltb (entry_key m) key) eqn:Em.
    + apply IH; [lia|lia|lia| |].
      * intros i e Hi Hlt. destruct (decide (i = first + half)) as [->|]; [congruence|].
        eapply value_ltb_trans; [apply (Hleft i e Hi); lia|done].
      * intros i e Hi Hge. apply (Hhi i e Hi). lia.
    + apply IH; [lia|lia|lia|done|]. intros i e Hi Hge.
      destruct (decide (i = first + half)) as [->|]; [congruence|].
      apply not_true_iff_false. intros Ht.
      rewrite (value_ltb_trans (entry_key m) (entry_key e) key) in Em; [done|apply (Hright i e Hi); lia|done].
Qed.

Lemma separates_unique es key p q : separates es key p -> separates es key q -> p = q.
Proof.
  intros [Hp Sp] [Hq Sq]. destruct (Z.lt_trichotomy p q) as [H|[H|H]]; [|done|].
  - destruct (znth_is_Some es p) as [e He]; [lia|]. pose proof (proj2 (Sp p e He) (proj1 (Sq p e He) H)). lia.
  - destruct (znth_is_Some es q) as [e He]; [lia|]. pose proof (proj2 (Sq q e He) (proj1 (Sp q e He) H)). lia.
Qed.

Lemma position_separates es key : sorted_entries es -> separates es key (position es key).
Proof.
  intros Hs. destruct (position_split es key) as (l1 & l2 & -> & -> & H1 & H2). split; [zlia|].
  intros i e Hi. pose proof (znth_Some_range _ _ _ Hi). destruct (decide (i < zlen l1)) as [Hlt|Hge].
  - rewrite znth_app_l in Hi by done. split; [intros _|done]. rewrite znth_lookup in Hi by lia.
    eapply Forall_lookup_1 in H1; [|done]. done.
  - split; [done|]. intros Ht. exfalso. rewrite zlen_app in *. destruct H2 as [->|(e0 & l & -> & E0)]; [zlia|].
    destruct (decide (i = zlen l1)) as [->|].
    + rewrite znth_app_r, Z.sub_diag in Hi by lia. injection Hi as <-. congruence.
    + assert (entry_lt e0 e) as Hlt.
      { eapply (sorted_lookup_lt (l1 ++ e0 :: l) (zlen l1) i); [done| |done|lia].
        by rewrite znth_app_r, Z.sub_diag by lia. }
      rewrite (value_ltb_trans (entry_key e0) (entry_key e) key) in E0; done.
Qed.

Lemma FindEntryPosition_eq es key : sorted_entries es -> FindEntryPosition es key = position es key.
Proof.
  intros Hs. apply (separates_unique es key); [|by apply position_separates].
  unfold FindEntryPosition. apply lower_bound_separates; [done|lia|unfold zlen; lia|lia| |].
  - intros i e Hi%znth_Some_range. lia.
  - intros i e Hi%znth_Some_range. lia.
Qed.

(** C35. The binary search on the keys of a leaf is the linear search: on a
    sorted leaf [FindEntryPosition] returns the number of entries in front of
    the first key that is not smaller. *)
Theorem find_entry_position_is_linear_search es key :
  sorted_entries es -> FindEntryPosition es key = position es key.
Proof. apply FindEntryPosition_eq. Qed.

Lemma find_entry_position_is_linear_search_witness :
  FindEntryPosition [mkLeafEntry (VInt 2) 0; mkLeafEntry (VInt 5) 1; mkLeafEntry (VInt 9) 2] (VInt 6) =
  position [mkLeafEntry (VInt 2) 0; mkLeafEntry (VInt 5) 1; mkLeafEntry (VInt 9) 2] (VInt 6).
Proof.
  apply find_entry_position_is_linear_search. unfold sorted_entries, entry_lt, value_lt.
  repeat constructor.
Defined.

(** ** Splits *)

Definition split_candidate (total : Z) (fits : Z -> Z -> bool) (s : Z) : Prop := fits s (total - s) = true.

(** [best] is the best of the candidates seen in [lo, split). *)
Definition best_so_far (total : Z) (fits : Z -> Z -> bool) (lo split : Z) (best : option (Z * Z)) : Prop :=
  match best with
  | None => forall s, lo <= s < split -> ~ split_candidate total fits s
  | Some (b, d) =>
      lo <= b < split /\ split_candidate total fits b /\ d = size_distance b (total - b) /\
      forall s, lo <= s < split -> split_candidate total fits s -> d <= size_distance s (total - s)
  end.

Lemma ChooseBalancedSplit_loop_best total fits lo best split rounds :
  lo <= split -> best_so_far total fits lo split best ->
  best_so_far total fits lo (split + Z.of_nat rounds)
    (ChooseBalancedSplit_loop total fits best split rounds).
Proof.
  revert best split. induction rounds as [|n IH]; intros best split Hlo Hbest; cbn [ChooseBalancedSplit_loop].
  { by rewrite Z.add_0_r. }
  replace (split + Z.of_nat (S n)) with (split + 1 + Z.of_nat n) by lia. apply IH; [lia|].
  destruct (fits split (total - split)) eqn:Ef; cbn [negb].
  - destruct best as [[b d]|]; cbn in Hbest.
    + destruct Hbest as (Hb & Hc & -> & Hmin). destruct (_ <? _) eqn:Ed; zbool.
      * split_and!; [lia..|done|done|]. intros s Hs Hcs.
        destruct (decide (s = split)) as [->|]; [done|]. specialize (Hmin s ltac:(lia) Hcs). lia.
      * split_and!; [lia..|done|done|]. intros s Hs Hcs.
        destruct (decide (s = split)) as [->|]; [done|]. apply Hmin; [lia|done].
    + split_and!; [lia..|done|done|]. intros s Hs Hcs.
      destruct (decide (s = split)) as [->|]; [done|]. by destruct (Hbest s ltac:(lia)).
  - assert (~ split_candidate total fits split) by (unfold split_candidate; congruence).
    destruct best as [[b d]|]; cbn in *.
    + destruct Hbest as (Hb & Hc & -> & Hmin). split_and!; [lia..|done|done|]. intros s Hs Hcs.
      destruct (decide (s = split)) as [->|]; [done|]. apply Hmin; [lia|done].
    + intros s Hs. destruct (decide (s = split)) as [->|]; [done|]. apply Hbest. lia.
Qed.

Lemma ChooseBalancedSplit_spec total fits :
  match ChooseBalancedSplit total fits with
  | None => forall s, 1 <= s < total -> ~ split_candidate total fits s
  | Some b => 1 <= b < total /\ split_candidate total fits b /\
      forall s, 1 <= s < total -> split_candidate total fits s ->
        size_distance b (total - b) <= size_distance s (total - s)
  end.
Proof.
  unfold ChooseBalancedSplit.
  pose proof (ChooseBalancedSplit_loop_best total fits 1 None 1 (Z.to_nat (total - 1)) ltac:(lia)) as H.
  destruct (ChooseBalancedSplit_loop _ _ _ _ _) as [[b d]|]; cbn [fmap option_fmap option_map fst] in *.
  - destruct H as (Hb & Hc & -> & Hmin); [intros s; lia|]. split_and!; [lia..|done|].
    intros s Hs. apply Hmin. lia.
  - intros s Hs. apply H; [intros s'; lia|lia].
Qed.

Lemma ChooseMiddle_loop_eq total fits best middle rounds :
  ChooseMiddle_loop total fits best middle rounds =
  ChooseBalancedSplit_loop (total - 1) fits best middle rounds.
Proof.
  revert best middle. induction rounds as [|n IH]; intros best middle; [done|].
  cbn [ChooseMiddle_loop ChooseBalancedSplit_loop].
  replace (total - middle - 1) with (total - 1 - middle) by lia. apply IH.
Qed.

Lemma ChooseMiddle_spec lo total fits :
  match ChooseMiddle lo total fits with
  | None => forall m, lo <= m < total -> fits m (total - 1 - m) = false
  | Some m => lo <= m < total /\ fits m (total - 1 - m) = true /\
      forall m', lo <= m' < total -> fits m' (total - 1 - m') = true ->
        size_distance m (total - 1 - m) <= size_distance m' (total - 1 - m')
  end.
Proof.
  unfold ChooseMiddle. rewrite ChooseMiddle_loop_eq.
  pose proof (ChooseBalancedSplit_loop_best (total - 1) fits lo None lo (Z.to_nat (total - lo)) ltac:(lia)) as H.
  destruct (ChooseBalancedSplit_loop _ _ _ _ _) as [[b d]|]; cbn [fmap option_fmap option_map fst] in *.
  - destruct H as (Hb & Hc & -> & Hmin); [intros s; lia|]. split_and!; [lia..|done|].
    intros s Hs. apply Hmin. lia.
  - intros s Hs. apply not_true_is_false, H; [intros s'; lia|lia].
Qed.
