(* ===== verification/BStarTreeHeap.v ===== *)
(** * Running the B*-tree on a heap of nodes

    The pages of the tree seen as a finite map from page numbers to nodes, and
    rules for the calls that read, write and allocate pages.  [runs st m Q] says
    that [m] succeeds from every concrete state that represents [st] and ends in
    one that represents a state satisfying [Q]; only the index file changes. *)

From S2P Require Import Prelude BinaryIO Values Serialization Disk PageStore KeyEncoder BStarTree BStarTreePages.

(** ** Nodes *)

Inductive node :=
  | NLeaf (h : NodeHeader) (es : list LeafEntry)
  | NInt (h : NodeHeader) (first : Z) (rest : list (Value * Z)).

(** The parameters a tree is opened with. *)
Record config := mkConfig {
  c_path : string;
  c_type : ValueType;
  c_size : Z;
  c_degree : Z;
  c_kmax : Z
}.

Record config_ok (c : config) : Prop := {
  co_path : c_path c <> "";
  co_type : c_type c <> vtNull;
  co_degree : 2 <= c_degree c /\ 2 * c_degree c < 2 ^ 32;
  co_kmax : 0 < c_kmax c < 2 ^ 32;
  co_capacity : capacity (c_size c) (c_kmax c) (c_degree c)
}.

Definition max_keys (c : config) : Z := 2 * c_degree c - 1.

(** The keys a tree accepts, and the entries and nodes it stores. *)
Definition key_good (c : config) (v : Value) : Prop := key_fits (c_type c) v /\ key_small (c_kmax c) v.
Definition entry_good (c : config) (e : LeafEntry) : Prop :=
  key_good c (entry_key e) /\ in_u64 (entry_rid e).
Definition child_good (c : config) (sc : Value * Z) : Prop := key_good c sc.1 /\ in_u64 sc.2.

Definition node_ok (c : config) (n : node) : Prop :=
  match n with
  | NLeaf h es =>
      h = leaf_header h es /\ links_ok h /\ zlen es <= max_keys c /\ Forall (entry_good c) es
  | NInt h first rest =>
      h = internal_header h rest /\ in_u64 (parent_page_id h) /\ in_u64 first /\
      zlen rest <= max_keys c /\ Forall (child_good c) rest
  end.

Definition node_bytes (n : node) : bytes :=
  match n with
  | NLeaf h es => leaf_bytes h es
  | NInt h first rest => internal_bytes h first rest
  end.
Definition node_image (c : config) (n : node) : bytes := page_image (c_size c) (node_bytes n).

Section nodes.
Context (c : config) (C : config_ok c).

Lemma leaf_fits h es :
  zlen es <= max_keys c -> Forall (entry_good c) es ->
  zlen es < 2 ^ 32 /\ zlen (leaf_bytes h es) <= c_size c.
Proof.
  intros Hn He. destruct (co_degree _ C), (co_kmax _ C). pose proof (co_capacity _ C).
  unfold max_keys, capacity in *. split; [lia|].
  assert (Forall (fun e => key_small (c_kmax c) (entry_key e)) es) as Hk
    by (eapply Forall_impl; [done|]; by intros e [[_ ?] _]).
  pose proof (leaf_bytes_bound (c_kmax c) h es Hk). pose proof (zlen_nonneg es). nia.
Qed.
Lemma internal_fits h first rest :
  zlen rest <= max_keys c -> Forall (child_good c) rest ->
  zlen rest < 2 ^ 32 /\ zlen (internal_bytes h first rest) <= c_size c.
Proof.
  intros Hn He. destruct (co_degree _ C), (co_kmax _ C). pose proof (co_capacity _ C).
  unfold max_keys, capacity in *. split; [lia|].
  assert (Forall (fun sc => key_small (c_kmax c) sc.1) rest) as Hk
    by (eapply Forall_impl; [done|]; by intros e [[_ ?] _]).
  pose proof (internal_bytes_bound (c_kmax c) h first rest Hk). pose proof (zlen_nonneg rest). nia.
Qed.

Lemma entry_good_fits es : Forall (entry_good c) es -> Forall (entry_fits (c_type c)) es.
Proof. intros H. eapply Forall_impl; [done|]. by intros e [[? _] ?]. Qed.
Lemma child_good_fits rest : Forall (child_good c) rest -> Forall (child_fits (c_type c)) rest.
Proof. intros H. eapply Forall_impl; [done|]. by intros e [[? _] ?]. Qed.

(** Stored nodes are read back. *)
Lemma parse_leaf_node id h es :
  node_ok c (NLeaf h es) ->
  ParseLeafPage (c_type c) (mkPage id (node_image c (NLeaf h es))) = Ok (h, es).
Proof.
  intros (Hh & Hl & Hn & He). unfold node_image. cbn [node_bytes].
  rewrite ParseLeafPage_ok; [by rewrite <- Hh|done|by apply (leaf_fits h)|by apply entry_good_fits].
Qed.
Lemma parse_internal_node id h first rest :
  node_ok c (NInt h first rest) ->
  ParseInternalPage (c_type c) (mkPage id (node_image c (NInt h first rest))) = Ok (h, node_data first rest).
Proof.
  intros (Hh & Hl & Hf & Hn & He). unfold node_image. cbn [node_bytes].
  rewrite ParseInternalPage_ok; [by rewrite <- Hh|done|done|by apply (internal_fits h first)|by apply child_good_fits].
Qed.
Lemma node_header n :
  node_ok c n ->
  DeserializeNodeHeader (node_image c n) = Ok (match n with NLeaf h _ => h | NInt h _ _ => h end).
Proof.
  destruct n as [h es|h first rest]; cbn [node_ok]; unfold node_image; cbn [node_bytes].
  - intros (Hh & Hl & Hn & He). rewrite leaf_page_header; [by rewrite <- Hh|done|by apply (leaf_fits h)].
  - intros (Hh & Hl & Hf & Hn & He).
    rewrite internal_page_header; [by rewrite <- Hh|done|by apply (internal_fits h first)].
Qed.
Lemma leaf_type h es : node_ok c (NLeaf h es) -> node_type h = ntLeaf.
Proof. intros (-> & _). done. Qed.
Lemma internal_type h first rest : node_ok c (NInt h first rest) -> node_type h = ntInternal.
Proof. intros (-> & _). done. Qed.

Lemma build_leaf id h es :
  zlen es <= max_keys c -> Forall (entry_good c) es ->
  BuildLeafPage (c_size c) id h es = Ok (mkPage id (node_image c (NLeaf (leaf_header h es) es))).
Proof. intros Hn He. apply (leaf_fits h) in He as [? ?]; [|done]. by apply BuildLeafPage_ok. Qed.
Lemma build_internal id h first rest :
  zlen rest <= max_keys c -> Forall (child_good c) rest ->
  BuildInternalPage (c_size c) id h (node_data first rest) =
    Ok (mkPage id (node_image c (NInt (internal_header h rest) first rest))).
Proof. intros Hn He. apply (internal_fits h first) in He as [? ?]; [|done]. by apply BuildInternalPage_ok. Qed.
End nodes.

(** ** Abstract states *)

(** The nodes, the number of pages, and the metadata in memory and on page 0. *)
Record astate := mkState {
  a_heap : gmap Z node;
  a_pages : Z;
  a_md : TreeMetadata;
  a_disk_md : TreeMetadata
}.

Definition put_node (id : Z) (n : node) (st : astate) : astate :=
  mkState (<[id := n]> (a_heap st)) (a_pages st) (a_md st) (a_disk_md st).
Definition add_page (st : astate) : astate :=
  mkState (a_heap st) (a_pages st + 1) (a_md st) (a_disk_md st).
Definition put_md (m : TreeMetadata) (st : astate) : astate :=
  mkState (a_heap st) (a_pages st) m (a_disk_md st).
Definition sync_md (st : astate) : astate :=
  mkState (a_heap st) (a_pages st) (a_md st) (a_md st).

Section runs.
Context {P : Type} {PS : PageStore P} {PL : PageStoreLaws P}.
Context (c : config) (C : config_ok c).

Record conc (st : astate) (s : BStarTree P * disk) : Prop := {
  cn_path : index_file_ s.1 = c_path c;
  cn_type : key_type_ s.1 = c_type c;
  cn_size : bt_page_size_ s.1 = c_size c;
  cn_degree : min_degree_ s.1 = c_degree c;
  cn_kmax : max_key_payload_bytes_ s.1 = c_kmax c;
  cn_open : bt_is_open_ s.1 = true;
  cn_md : metadata_ s.1 = a_md st;
  cn_pages : exists pages,
    ps_rep (bt_page_manager_ s.1) s.2 pages /\ ps_path (bt_page_manager_ s.1) = c_path c /\
    ps_size (bt_page_manager_ s.1) = c_size c /\ zlen pages = a_pages st /\
    znth pages 0 = Some (page_image (c_size c) (SerializeMetadata (c_type c) (a_disk_md st))) /\
    forall id n, a_heap st !! id = Some n ->
      0 < id /\ znth pages id = Some (node_image c n) /\ node_ok c n
}.

Definition runs {A} (st : astate) (m : M (BStarTree P * disk) A) (Q : A -> astate -> Prop) : Prop :=
  forall s, conc st s -> exists a s' st',
    m s = (Ok a, s') /\ conc st' s' /\ same_except (c_path c) s.2 s'.2 /\ Q a st'.

Lemma runs_bind {A B} st (m : M (BStarTree P * disk) A) (k : A -> M (BStarTree P * disk) B) Q R :
  runs st m Q -> (forall a st', Q a st' -> runs st' (k a) R) -> runs st (m ≫= k) R.
Proof.
  intros Hm Hk s Hs. destruct (Hm s Hs) as (a & s1 & st1 & E & Hs1 & Hse & HQ).
  destruct (Hk a st1 HQ s1 Hs1) as (b & s2 & st2 & E2 & Hs2 & Hse2 & HR).
  exists b, s2, st2. rewrite M_bind_eq, E. split_and!; [done|done|by etrans|done].
Qed.
Lemma runs_ret {A} st (a : A) (Q : A -> astate -> Prop) : Q a st -> runs st (mret a) Q.
Proof. intros HQ s Hs. by exists a, s, st. Qed.
Lemma runs_mono {A} st (m : M (BStarTree P * disk) A) (Q R : A -> astate -> Prop) :
  runs st m Q -> (forall a st', Q a st' -> R a st') -> runs st m R.
Proof. intros Hm HQR s Hs. destruct (Hm s Hs) as (a & s1 & st1 & ? & ? & ? & ?). eauto 10. Qed.

(** Calls that fail and leave the tree as it was. *)
Definition fails {A} (st : astate) (m : M (BStarTree P * disk) A) (code : StatusCode) : Prop :=
  forall s, conc st s -> exists msg s',
    m s = (Err code msg, s') /\ conc st s' /\ same_except (c_path c) s.2 s'.2.

Lemma fails_throw {A} st code msg : fails st (throw code msg : M (BStarTree P * disk) A) code.
Proof. intros s Hs. by exists msg, s. Qed.
Lemma fails_bind {A B} st (m : M (BStarTree P * disk) A) (k : A -> M (BStarTree P * disk) B) code :
  fails st m code -> fails st (m ≫= k) code.
Proof.
  intros Hm s Hs. destruct (Hm s Hs) as (msg & s1 & E & ? & ?). exists msg, s1. by rewrite M_bind_eq, E.
Qed.
Lemma fails_after {A B} st (m : M (BStarTree P * disk) A) (k : A -> M (BStarTree P * disk) B) Q code :
  runs st m Q -> (forall a st', Q a st' -> st' = st /\ fails st (k a) code) -> fails st (m ≫= k) code.
Proof.
  intros Hm Hk s Hs. destruct (Hm s Hs) as (a & s1 & st1 & E & Hs1 & Hse & HQ).
  destruct (Hk a st1 HQ) as [-> Hf]. destruct (Hf s1 Hs1) as (msg & s2 & E2 & Hs2 & Hse2).
  exists msg, s2. rewrite M_bind_eq, E. split_and!; [done|done|by etrans].
Qed.

(** Calls that only look at the object. *)
Lemma runs_lift {A} st (r : result A) a (Q : A -> astate -> Prop) :
  r = Ok a -> Q a st -> runs st (lift r) Q.
Proof. intros -> HQ s Hs. by exists a, s, st. Qed.
Lemma runs_lift_eq {A} st (r : result A) a :
  r = Ok a -> runs st (lift r) (fun a' st' => a' = a /\ st' = st).
Proof. intros E. by eapply runs_lift. Qed.
Lemma runs_guard st code msg (Q : unit -> astate -> Prop) :
  Q tt st -> runs st (reject_if false code msg) Q.
Proof. intros HQ. by apply runs_ret. Qed.

Definition core (st : astate) (t : BStarTree P) : Prop :=
  key_type_ t = c_type c /\ bt_page_size_ t = c_size c /\ min_degree_ t = c_degree c /\
  max_key_payload_bytes_ t = c_kmax c /\ bt_is_open_ t = true /\ metadata_ t = a_md st.
Lemma runs_this st : runs st this (fun t st' => st' = st /\ core st t).
Proof. intros s Hs. exists s.1, s, st. split_and!; try done. destruct Hs. by split_and!. Qed.

(** ** Pages *)

Lemma conc_set_pages st s p d :
  conc st s -> ps_path p = c_path c -> ps_size p = c_size c ->
  forall st', a_md st' = a_md st ->
  (exists pages, ps_rep p d pages /\ zlen pages = a_pages st' /\
    znth pages 0 = Some (page_image (c_size c) (SerializeMetadata (c_type c) (a_disk_md st'))) /\
    forall id n, a_heap st' !! id = Some n ->
      0 < id /\ znth pages id = Some (node_image c n) /\ node_ok c n) ->
  conc st' (set_pages p s.1, d).
Proof.
  intros [] Hp Hs st' Hmd (pages & ? & ? & ? & ?). split; cbn; try done; [by rewrite Hmd|].
  exists pages. split_and!; done.
Qed.

Lemma set_pages_id (t : BStarTree P) : set_pages (bt_page_manager_ t) t = t.
Proof. by destruct t. Qed.

Lemma runs_read st id n :
  a_heap st !! id = Some n ->
  runs st (ReadPage id) (fun page st' => page = mkPage id (node_image c n) /\ st' = st /\ node_ok c n).
Proof.
  intros Hid s Hs. pose proof Hs as [_ _ _ _ _ _ _ (pages & Hrep & _ & _ & _ & _ & Hheap)].
  destruct (Hheap id n Hid) as (_ & Hpg & Hok). exists (mkPage id (node_image c n)), s, st.
  split_and!; try done. unfold ReadPage, on_pages, on_part.
  rewrite (ps_read_ok _ _ _ _ _ Hrep Hpg), set_pages_id. by destruct s.
Qed.

Lemma runs_load_leaf st id h es :
  a_heap st !! id = Some (NLeaf h es) ->
  runs st (LoadLeaf id) (fun a st' => a = (h, es) /\ st' = st).
Proof.
  intros Hid. unfold LoadLeaf. eapply runs_bind; [by apply runs_read|]. intros page st' (-> & -> & Hok).
  unfold ParseLeaf. eapply runs_bind; [apply runs_this|]. intros t st' (-> & Ht & _).
  eapply runs_lift; [rewrite Ht; by apply parse_leaf_node|done].
Qed.
Lemma runs_load_internal st id h first rest :
  a_heap st !! id = Some (NInt h first rest) ->
  runs st (LoadInternal id) (fun a st' => a = (h, node_data first rest) /\ st' = st).
Proof.
  intros Hid. unfold LoadInternal. eapply runs_bind; [by apply runs_read|]. intros page st' (-> & -> & Hok).
  unfold ParseInternal. eapply runs_bind; [apply runs_this|]. intros t st' (-> & Ht & _).
  eapply runs_lift; [rewrite Ht; by apply parse_internal_node|done].
Qed.

Lemma runs_parse_leaf st id h es :
  node_ok c (NLeaf h es) ->
  runs st (ParseLeaf (mkPage id (node_image c (NLeaf h es)))) (fun a st' => a = (h, es) /\ st' = st).
Proof.
  intros Hok. unfold ParseLeaf. eapply runs_bind; [apply runs_this|]. intros t st' (-> & Ht & _).
  eapply runs_lift; [rewrite Ht; by apply parse_leaf_node|done].
Qed.
Lemma runs_parse_internal st id h first rest :
  node_ok c (NInt h first rest) ->
  runs st (ParseInternal (mkPage id (node_image c (NInt h first rest))))
    (fun a st' => a = (h, node_data first rest) /\ st' = st).
Proof.
  intros Hok. unfold ParseInternal. eapply runs_bind; [apply runs_this|]. intros t st' (-> & Ht & _).
  eapply runs_lift; [rewrite Ht; by apply parse_internal_node|done].
Qed.

(** Writing a page that exists. *)
Lemma runs_write st st' id data :
  0 <= id < a_pages st -> zlen data = c_size c -> a_pages st' = a_pages st -> a_md st' = a_md st ->
  (id <> 0 -> a_disk_md st' = a_disk_md st) ->
  (id = 0 -> data = page_image (c_size c) (SerializeMetadata (c_type c) (a_disk_md st'))) ->
  (forall i n, a_heap st' !! i = Some n ->
     ((i = id -> id = 0) /\ a_heap st !! i = Some n) \/ (i = id /\ 0 < id /\ data = node_image c n /\ node_ok c n)) ->
  runs st (WritePage (mkPage id data)) (fun _ st'' => st'' = st').
Proof.
  intros Hid Hlen Hp Hmd Hd0 Hd1 Hheap s Hs.
  pose proof Hs as [_ _ _ _ _ _ _ (pages & Hrep & Hpath & Hsz & Hn & H0 & Hold)].
  rewrite <- Hsz in Hlen.
  destruct (ps_write_ok _ _ _ id data Hrep ltac:(lia) Hlen) as (d' & Ew & Hrep' & Hse).
  exists tt, (set_pages (bt_page_manager_ s.1) s.1, d'), st'. rewrite Hpath in Hse. split_and!; [| |done|done].
  - unfold WritePage, on_pages, on_part. rewrite M_bind_eq, Ew. cbn [fst snd].
    rewrite set_pages_id, (ps_flush_ok _ _ _ Hrep'). cbn. by rewrite set_pages_id.
  - apply (conc_set_pages st); try done. exists (zset id data pages).
    split_and!; [done|by rewrite zlen_zset, Hp| |].
    + destruct (decide (id = 0)) as [->|Hne].
      * rewrite <- Hd1 by done. apply znth_zset_eq. lia.
      * rewrite znth_zset_ne by lia. by rewrite Hd0.
    + intros i n Hi. destruct (Hheap i n Hi) as [[Hne Hi']|(-> & Hpos & -> & Hok)].
      * destruct (Hold i n Hi') as (? & ? & ?). rewrite znth_zset_ne by lia. done.
      * split_and!; [done| |done]. apply znth_zset_eq. lia.
Qed.

Lemma runs_write_node st id n :
  0 < id < a_pages st -> node_ok c n -> zlen (node_image c n) = c_size c ->
  runs st (WritePage (mkPage id (node_image c n))) (fun _ st' => st' = put_node id n st).
Proof.
  intros Hid Hok Hlen. apply runs_write; try done; [lia|lia|]. cbn. intros i m.
  destruct (decide (i = id)) as [->|Hne]; [rewrite lookup_insert_eq|rewrite lookup_insert_ne by done; naive_solver].
  intros [= <-]. right. split_and!; [done|lia|done|done].
Qed.

Lemma runs_store_leaf st id h es :
  0 < id < a_pages st -> links_ok h -> zlen es <= max_keys c -> Forall (entry_good c) es ->
  runs st (StoreLeaf id h es) (fun _ st' => st' = put_node id (NLeaf (leaf_header h es) es) st).
Proof.
  intros Hid Hl Hn He. unfold StoreLeaf. eapply runs_bind; [apply runs_this|].
  intros t st' (-> & _ & Hs & _). rewrite Hs.
  eapply runs_bind; [by apply runs_lift_eq, build_leaf|].
  intros page st' [-> ->]. apply runs_write_node; [done|by split_and!|].
  apply zlen_page_image. by apply (leaf_fits c C (leaf_header h es)).
Qed.
Lemma runs_store_internal st id h first rest :
  0 < id < a_pages st -> in_u64 (parent_page_id h) -> in_u64 first -> zlen rest <= max_keys c ->
  Forall (child_good c) rest ->
  runs st (StoreInternal id h (node_data first rest))
    (fun _ st' => st' = put_node id (NInt (internal_header h rest) first rest) st).
Proof.
  intros Hid Hl Hf Hn He. unfold StoreInternal. eapply runs_bind; [apply runs_this|].
  intros t st' (-> & _ & Hs & _). rewrite Hs.
  eapply runs_bind; [by apply runs_lift_eq, build_internal|].
  intros page st' [-> ->]. apply runs_write_node; [done|by split_and!|].
  apply zlen_page_image. by apply (internal_fits c C (internal_header h rest)).
Qed.

Lemma runs_alloc st :
  0 < a_pages st -> ps_room (c_size c) (a_pages st + 1) ->
  runs st AllocateNodePage (fun id st' => id = a_pages st /\ st' = add_page st).
Proof.
  intros Hpos Hroom s Hs. pose proof Hs as [_ _ _ _ _ _ _ (pages & Hrep & Hpath & Hsz & Hn & H0 & Hold)].
  rewrite <- Hn, <- Hsz in Hroom.
  destruct (ps_alloc_ok _ _ _ Hrep Hroom) as (p' & d' & Ea & Hrep' & Hpath' & Hsz' & Hse).
  exists (a_pages st), (set_pages p' s.1, d'), (add_page st). rewrite Hpath in Hse. split_and!; [| |done|done|done].
  - unfold AllocateNodePage, on_pages, on_part. rewrite M_bind_eq, Ea. cbn [fst snd]. rewrite M_bind_eq.
    cbn [bt_page_manager_ set_pages fst snd]. rewrite (ps_flush_ok _ _ _ Hrep'). cbn. by rewrite Hn.
  - apply (conc_set_pages st); [done|congruence|congruence|done|]. eexists. split_and!; [done| | |].
    + rewrite zlen_app, zlen_cons, zlen_nil. cbn. lia.
    + rewrite znth_app_l by lia. done.
    + cbn. intros i n Hi. destruct (Hold i n Hi) as (? & Hi' & ?). split_and!; [done| |done].
      apply znth_Some_range in Hi' as Hr. by rewrite znth_app_l by lia.
Qed.

(** ** Metadata *)

Lemma runs_set_tree st root first height :
  runs st (update (set_tree root first height))
    (fun _ st' => st' = put_md (mkTreeMetadata (tm_version (a_md st)) root first (tm_min_degree (a_md st))
                                  (tm_max_key_payload_bytes (a_md st)) height) st).
Proof.
  intros s Hs. eexists tt, _, _. split_and!; [done| |done|done].
  destruct Hs. split; cbn; try done. by rewrite cn_md0.
Qed.
Lemma runs_update_tree st (f : BStarTree P -> BStarTree P) root first height :
  (forall t, core st t -> f t = set_tree root first height t) ->
  runs st (update f)
    (fun _ st' => st' = put_md (mkTreeMetadata (tm_version (a_md st)) root first (tm_min_degree (a_md st))
                                  (tm_max_key_payload_bytes (a_md st)) height) st).
Proof.
  intros Hf s Hs. destruct (runs_set_tree st root first height s Hs) as (a & s' & st' & E & H).
  exists a, s', st'. split; [|done]. revert E. unfold update. rewrite Hf; [done|].
  destruct Hs. by split_and!.
Qed.

Lemma zlen_tree_metadata kt m : zlen (SerializeMetadata kt m) = MetadataHeaderSize.
Proof.
  unfold SerializeMetadata, WriteUint32, WriteUint64, WriteBytes. cbv zeta.
  rewrite !zlen_app, !zlen_le_bytes. reflexivity.
Qed.
Lemma metadata_fits : MetadataHeaderSize <= c_size c.
Proof.
  destruct (co_degree _ C), (co_kmax _ C). pose proof (co_capacity _ C) as Hcap. unfold capacity in Hcap.
  change NodeHeaderSize with 33 in Hcap. change MetadataHeaderSize with 56. nia.
Qed.

Lemma runs_write_metadata st :
  0 < a_pages st -> runs st WriteMetadata (fun _ st' => st' = sync_md st).
Proof.
  intros Hp. unfold WriteMetadata. eapply runs_bind; [apply runs_this|].
  intros t st' (-> & Ht & Hs & _ & _ & _ & Hmd). rewrite Ht, Hs, Hmd.
  rewrite zlen_tree_metadata, (proj2 (Z.ltb_ge _ _)) by apply metadata_fits.
  eapply runs_bind; [apply (runs_guard _ _ _ (fun _ st' => st' = st)); done|]. intros _ st' ->.
  apply runs_write; try done; try lia.
  - apply zlen_page_image. rewrite zlen_tree_metadata. apply metadata_fits.
  - cbn. intros i n Hi. by left.
Qed.

(** ** Nodes of the heap *)

Definition heap_ok (st : astate) : Prop :=
  0 < a_pages st /\ forall id n, a_heap st !! id = Some n -> 0 < id < a_pages st /\ node_ok c n.

Lemma conc_heap_ok st s : conc st s -> heap_ok st.
Proof.
  intros [_ _ _ _ _ _ _ (pages & Hrep & _ & _ & Hn & H0 & Hold)].
  apply znth_Some_range in H0 as Hr. split; [lia|]. intros id n Hi. destruct (Hold id n Hi) as (? & Hp & ?).
  apply znth_Some_range in Hp. split; [lia|done].
Qed.
Lemma runs_heap_ok {A} st (m : M (BStarTree P * disk) A) Q : (heap_ok st -> runs st m Q) -> runs st m Q.
Proof. intros Hm s Hs. apply Hm; [by eapply conc_heap_ok|done]. Qed.

Lemma fails_heap_ok {A} st (m : M (BStarTree P * disk) A) code : (heap_ok st -> fails st m code) -> fails st m code.
Proof. intros Hm s Hs. apply Hm; [by eapply conc_heap_ok|done]. Qed.

Lemma put_node_id st id n : a_heap st !! id = Some n -> put_node id n st = st.
Proof. intros E. unfold put_node. rewrite insert_id by done. by destruct st. Qed.

(** Writing a child back with a new parent leaves it as it was: the header that
    is stored is the one that was read. *)
Lemma runs_rewrite_child st parent child n :
  a_heap st !! child = Some n -> runs st (RewriteChildParent parent child) (fun _ st' => st' = st).
Proof.
  intros Hn. apply runs_heap_ok. intros [_ Hh]. destruct (Hh _ _ Hn) as [Hid Hok].
  unfold RewriteChildParent. eapply runs_bind; [by apply runs_read|]. intros page st' (-> & -> & _).
  eapply runs_bind; [by apply runs_lift_eq, node_header|]. intros header st' [-> ->].
  destruct n as [h es|h first rest]; cbn [node_type set_parent].
  - rewrite (leaf_type _ _ _ Hok), bool_decide_true by done.
    eapply runs_bind; [by apply runs_parse_leaf|]. intros a st' [-> ->].
    destruct Hok as (Hh1 & ? & ? & ?). eapply runs_mono; [by apply runs_store_leaf|].
    intros _ st' ->. rewrite <- Hh1. by apply put_node_id.
  - rewrite (internal_type _ _ _ _ Hok), bool_decide_false by done.
    eapply runs_bind; [by apply runs_parse_internal|]. intros a st' [-> ->].
    destruct Hok as (Hh1 & ? & ? & ? & ?). eapply runs_mono; [by apply runs_store_internal|].
    intros _ st' ->. rewrite <- Hh1. by apply put_node_id.
Qed.
Lemma runs_rewrite_children st parent children :
  Forall (fun id => is_Some (a_heap st !! id)) children ->
  runs st (rewrite_child_parent children parent) (fun _ st' => st' = st).
Proof.
  induction 1 as [|child children [n Hn] _ IH]; cbn [rewrite_child_parent]; [by apply runs_ret|].
  eapply runs_bind; [by eapply runs_rewrite_child|]. intros _ st' ->. done.
Qed.

Lemma runs_at_index {A} st (l : list A) i x :
  znth l i = Some x -> runs st (at_index l i) (fun a st' => a = x /\ st' = st).
Proof. intros E. unfold at_index. apply runs_lift_eq. by rewrite E. Qed.

Lemma core_max_keys st t : core st t -> MaxKeysPerNode t = max_keys c.
Proof.
  intros (_ & _ & Hd & _). unfold MaxKeysPerNode, max_keys. rewrite Hd. destruct (co_degree _ C).
  apply u64_id. split; lia.
Qed.
Lemma core_min_keys st t : core st t -> MinKeysPerNonRootNode t = c_degree c - 1.
Proof.
  intros (_ & _ & Hd & _). unfold MinKeysPerNonRootNode. rewrite Hd. destruct (co_degree _ C).
  apply u64_id. split; lia.
Qed.
End runs.

(** Run the next call with its rule. *)
Tactic Notation "rfail" uconstr(H) := eapply fails_after; [solve [eapply H; try done]|].
Tactic Notation "rbind" uconstr(H) := eapply runs_bind; [solve [eapply H; try done]|].
