(* ===== verification/BStarTreeLevels.v ===== *)
(** * The shape of the B*-tree

    A tree is described level by level.  A level lists its nodes from left to
    right, each with the bound in front of it: the separator between it and its
    left neighbour, which is stored in their common ancestor, and no bound for
    the first node.  Replacing every node of a level by its children gives the
    level below. *)

From stdpp Require Import sorting.
From S2P Require Import Prelude Values BStarTree BStarTreePages BStarTreeHeap.

Abbreviation heap := (gmap Z node).
Abbreviation slot := (option Value * Z)%type.
Abbreviation level := (list slot).

(** A separator with the child behind it, as a slot. *)
Definition behind (sc : Value * Z) : slot := (Some sc.1, sc.2).
Definition kids (hp : heap) (s : slot) : level :=
  match hp !! s.2 with
  | Some (NInt _ first rest) => (s.1, first) :: (behind <$> rest)
  | _ => []
  end.
Definition expand (hp : heap) (S : level) : level := S ≫= kids hp.

(** The nodes a slot may hold.  Only the root is marked as the root. *)
Definition inner (hp : heap) (root : Z) (s : slot) : Prop :=
  exists h first rest, hp !! s.2 = Some (NInt h first rest) /\ (is_root h = true -> s.2 = root).
Definition leaf (hp : heap) (root : Z) (s : slot) : Prop :=
  exists h es, hp !! s.2 = Some (NLeaf h es) /\ (is_root h = true -> s.2 = root).

(** [tree hp root lv S]: [S] is a level of the tree and [lv] the levels above
    it, the nearest first. *)
Inductive tree (hp : heap) (root : Z) : list level -> level -> Prop :=
  | tree_top : tree hp root [] [(None, root)]
  | tree_down lv S : tree hp root lv S -> Forall (inner hp root) S -> tree hp root (S :: lv) (expand hp S).

Definition ids (lv : list level) : list Z := concat (map (fun S : level => S.*2) lv).

(** [path_to hp root path lv A s C]: following [path] from the root leads to the
    slot [s] of the level [A ++ s :: C]. *)
Inductive path_to (hp : heap) (root : Z)
  : list SearchPathEntry -> list level -> level -> slot -> level -> Prop :=
  | path_top : path_to hp root [] [] [] (None, root) []
  | path_down path lv A s C K1 x K2 :
      path_to hp root path lv A s C -> Forall (inner hp root) (A ++ s :: C) -> kids hp s = K1 ++ x :: K2 ->
      path_to hp root (mkSearchPathEntry s.2 (zlen K1) :: path) ((A ++ s :: C) :: lv)
        (expand hp A ++ K1) x (K2 ++ expand hp C).

Lemma expand_app hp S S' : expand hp (S ++ S') = expand hp S ++ expand hp S'.
Proof. apply bind_app. Qed.
Lemma expand_cons hp s S : expand hp (s :: S) = kids hp s ++ expand hp S.
Proof. done. Qed.

Lemma path_to_tree hp root path lv A s C :
  path_to hp root path lv A s C -> tree hp root lv (A ++ s :: C).
Proof.
  induction 1 as [|path lv A s C K1 x K2 _ IH Hint Hk]; [constructor|].
  pose proof (tree_down hp root lv (A ++ s :: C) IH Hint) as Ht.
  rewrite expand_app, expand_cons, Hk, <- app_assoc in Ht. by rewrite <- app_assoc.
Qed.

(** ** Frames *)

Lemma kids_ext hp hp' s : hp' !! s.2 = hp !! s.2 -> kids hp' s = kids hp s.
Proof. unfold kids. by intros ->. Qed.

Lemma expand_ext hp hp' S :
  (forall id, id ∈ S.*2 -> hp' !! id = hp !! id) -> expand hp' S = expand hp S.
Proof.
  induction S as [|s S IH]; intros Hid; [done|]. rewrite !expand_cons, IH.
  - f_equal. apply kids_ext, Hid. left.
  - intros id ?. apply Hid. by right.
Qed.
Lemma inner_ext hp hp' root S :
  (forall id, id ∈ S.*2 -> hp' !! id = hp !! id) -> Forall (inner hp root) S -> Forall (inner hp' root) S.
Proof.
  intros Hid HS. apply Forall_forall. intros s Hs. eapply Forall_forall in HS as (h & f & r & E & Hr); [|done].
  exists h, f, r. rewrite Hid; [done|]. apply list_elem_of_fmap. eauto.
Qed.

Lemma ids_cons S lv : ids (S :: lv) = S.*2 ++ ids lv.
Proof. done. Qed.

Lemma tree_frame hp hp' root lv S :
  (forall id, id ∈ ids lv -> hp' !! id = hp !! id) -> tree hp root lv S -> tree hp' root lv S.
Proof.
  intros Hid Ht. induction Ht as [|lv S Ht IH Hint]; [constructor|]. rewrite ids_cons in Hid.
  assert (forall id, id ∈ S.*2 -> hp' !! id = hp !! id) as HS by (intros; apply Hid, elem_of_app; auto).
  rewrite <- (expand_ext hp hp' S HS). apply tree_down; [|by eapply inner_ext].
  apply IH. intros. apply Hid, elem_of_app. auto.
Qed.

Lemma path_to_frame hp hp' root path lv A s C :
  (forall id, id ∈ ids lv -> hp' !! id = hp !! id) ->
  path_to hp root path lv A s C -> path_to hp' root path lv A s C.
Proof.
  intros Hid Hp. induction Hp as [|path lv A s C K1 x K2 Hp IH Hint Hk]; [constructor|].
  rewrite ids_cons in Hid.
  assert (forall id, id ∈ (A ++ s :: C).*2 -> hp' !! id = hp !! id) as HS
    by (intros; apply Hid, elem_of_app; auto).
  assert (forall S, S ⊆ A ++ s :: C -> forall id, id ∈ S.*2 -> hp' !! id = hp !! id) as Hsub.
  { intros S HSs id Hin. apply HS. apply list_elem_of_fmap in Hin as (y & -> & Hy).
    apply list_elem_of_fmap. exists y. split; [done|]. by apply HSs. }
  rewrite <- (expand_ext hp hp' A), <- (expand_ext hp hp' C); [|apply Hsub; set_solver..].
  apply path_down; [|by eapply inner_ext|].
  - apply IH. intros. apply Hid, elem_of_app. auto.
  - rewrite (kids_ext hp hp'); [done|]. apply HS, list_elem_of_fmap. exists s. split; [done|].
    apply elem_of_app. right. left.
Qed.

(** ** Bounds: only the first slot of a level has none *)

Definition first_unbounded (S : level) : Prop :=
  exists id S', S = (None, id) :: S' /\ Forall (fun s => is_Some s.1) S'.

Lemma kids_int hp s h f r : hp !! s.2 = Some (NInt h f r) -> kids hp s = (s.1, f) :: (behind <$> r).
Proof. unfold kids. by intros ->. Qed.

Lemma expand_bounded hp S : Forall (fun s => is_Some s.1) S -> Forall (fun s => is_Some s.1) (expand hp S).
Proof.
  induction 1 as [|s S Hs _ IH]; [done|]. rewrite expand_cons. apply Forall_app_2; [|done].
  unfold kids. destruct (hp !! s.2) as [[|h f r]|]; [done| |done]. constructor; [done|].
  apply Forall_fmap, Forall_forall. by eexists.
Qed.

Lemma tree_bounds hp root lv S : tree hp root lv S -> first_unbounded S.
Proof.
  induction 1 as [|lv S _ (id & S' & -> & HS') Hint]; [by exists root, []|].
  apply Forall_cons in Hint as [(h & f & r & E & _) _]. rewrite expand_cons, (kids_int _ _ _ _ _ E).
  exists f, ((behind <$> r) ++ expand hp S'). split; [done|]. apply Forall_app_2; [|by apply expand_bounded].
  apply Forall_fmap, Forall_forall. by eexists.
Qed.

(** ** Walking down *)

Lemma tree_next hp root lv L lvs S1 S lv1 :
  tree hp root lv L -> L :: lv = lvs ++ S1 :: S :: lv1 -> S1 = expand hp S /\ Forall (inner hp root) S.
Proof.
  revert lv L. induction lvs as [|S0 lvs IH]; intros lv L Ht E; cbn in E; injection E as -> ->.
  - inversion Ht; subst. done.
  - inversion Ht; subst; [by destruct lvs|]. eapply IH; [done|]. congruence.
Qed.

(** The key is not below the bound of [s] and below the bound that follows. *)
Definition bound_le (b : option Value) (key : Value) : Prop :=
  match b with None => True | Some v => value_ltb key v = false end.
Definition next_bound (C : level) : option Value := match C with [] => None | (b, _) :: _ => b end.
Definition key_below (b : option Value) (key : Value) : Prop :=
  match b with None => True | Some v => value_lt key v end.
Definition covers (key : Value) (s : slot) (C : level) : Prop :=
  bound_le s.1 key /\ key_below (next_bound C) key.

Lemma next_bound_expand hp root C : Forall (inner hp root) C -> next_bound (expand hp C) = next_bound C.
Proof.
  intros [|s C' (h & f & r & E & _) _]; [done|]. rewrite expand_cons, (kids_int _ _ _ _ _ E). by destruct s.
Qed.
Lemma next_bound_app S S' : S <> [] -> next_bound (S ++ S') = next_bound S.
Proof. by destruct S. Qed.

Lemma ChooseChildIndex_from_shift i j seps key :
  ChooseChildIndex_from (i + j) seps key = i + ChooseChildIndex_from j seps key.
Proof.
  revert j. induction seps as [|v seps IH]; intros j; cbn; [done|].
  destruct (value_ltb key v); [done|]. by rewrite <- IH, Z.add_assoc.
Qed.

(** The child chosen for a key covers it. *)
Lemma choose_split key b f rest C :
  bound_le b key -> key_below (next_bound C) key ->
  exists K1 x K2, (b, f) :: (behind <$> rest) = K1 ++ x :: K2 /\
    zlen K1 = ChooseChildIndex_from 0 rest.*1 key /\
    znth (f :: rest.*2) (zlen K1) = Some x.2 /\ covers key x (K2 ++ C).
Proof.
  revert b f. induction rest as [|[v c] rest IH]; intros b f Hb HC; cbn.
  - by exists [], (b, f), [].
  - destruct (value_ltb key v) eqn:Ev.
    + exists [], (b, f), (behind <$> (v, c) :: rest). by split_and!.
    + destruct (IH (Some v) c Ev HC) as (K1 & x & K2 & E & Hn & Hz & Hc).
      exists ((b, f) :: K1), x, K2. change (behind (v, c)) with (Some v, c). rewrite E.
      split_and!; [done| | |done].
      * rewrite (ChooseChildIndex_from_shift 1 0), zlen_cons. lia.
      * rewrite zlen_cons, Z.add_comm, znth_cons_S by apply zlen_nonneg. done.
Qed.

(** ** Changing one node *)

Lemma ids_In (S : level) lv s : s ∈ S -> s.2 ∈ ids (S :: lv).
Proof. intros. rewrite ids_cons. apply elem_of_app. left. apply list_elem_of_fmap. eauto. Qed.

Lemma elem_of_snd_app (S S' : level) id : id ∈ (S ++ S').*2 <-> id ∈ S.*2 \/ id ∈ S'.*2.
Proof. by rewrite fmap_app, elem_of_app. Qed.

Lemma NoDup_level (A C : level) s lv :
  NoDup (ids ((A ++ s :: C) :: lv)) -> s.2 ∉ A.*2 /\ s.2 ∉ C.*2 /\ s.2 ∉ ids lv.
Proof.
  rewrite ids_cons, fmap_app, fmap_cons, <- app_assoc. cbn. rewrite NoDup_app, NoDup_cons.
  setoid_rewrite elem_of_cons. setoid_rewrite elem_of_app. naive_solver.
Qed.

(** Giving the node at [s] new contents. *)
Lemma tree_replace hp hp' root path lv A s C :
  path_to hp root path lv A s C -> Forall (inner hp root) (A ++ s :: C) ->
  NoDup (ids ((A ++ s :: C) :: lv)) -> inner hp' root s ->
  (forall id, id ∈ ids ((A ++ s :: C) :: lv) -> id <> s.2 -> hp' !! id = hp !! id) ->
  tree hp' root ((A ++ s :: C) :: lv) (expand hp A ++ kids hp' s ++ expand hp C).
Proof.
  intros Hp Hint Hnd Hs Hid. apply NoDup_level in Hnd as (HA & HC & Hlv).
  setoid_rewrite ids_cons in Hid. setoid_rewrite elem_of_app in Hid. setoid_rewrite elem_of_snd_app in Hid.
  setoid_rewrite fmap_cons in Hid. setoid_rewrite elem_of_cons in Hid.
  assert (forall id, id ∈ A.*2 -> hp' !! id = hp !! id) as EA by (intros; apply Hid; [auto|congruence]).
  assert (forall id, id ∈ C.*2 -> hp' !! id = hp !! id) as EC by (intros; apply Hid; [auto|congruence]).
  rewrite <- (expand_ext hp hp' A EA), <- (expand_ext hp hp' C EC), <- expand_cons, <- expand_app.
  apply Forall_app in Hint as [HiA HiC]. apply Forall_cons in HiC as [_ HiC]. apply tree_down.
  - apply (tree_frame hp); [|by eapply path_to_tree]. intros. apply Hid; [auto|congruence].
  - apply Forall_app_2; [by apply (inner_ext hp)|]. constructor; [done|]. by apply (inner_ext hp).
Qed.

Lemma tree_root_in hp root lv S : tree hp root lv S -> root ∈ ids (S :: lv).
Proof.
  induction 1 as [|lv S _ IH]; [by left|]. rewrite ids_cons. apply elem_of_app. by right.
Qed.
