(* ===== verification/BStarTreeOrder.v ===== *)
(** * The order of the keys in the B*-tree

    The leaves from left to right, flattened into one sequence of marks: the
    bound in front of a leaf, then its entries.  The tree is ordered when this
    sequence is, so that an insertion, a split or a move of entries between
    neighbours adds, drops or replaces single marks of a sorted list. *)

From stdpp Require Import sorting.
From S2P Require Import Prelude Values BStarTree BStarTreePages BStarTreeHeap BStarTreeLevels.

Inductive mark :=
  | MBound (b : option Value)
  | MEntry (e : LeafEntry).

Definition mark_le (x y : mark) : Prop :=
  match x, y with
  | MBound b, MEntry e => bound_le b (entry_key e)
  | MEntry e, MBound b => exists v, b = Some v /\ value_lt (entry_key e) v
  | MEntry e, MEntry e' => entry_lt e e'
  | MBound b, MBound None => b = None
  | MBound b, MBound (Some v) => bound_le b v
  end.

(** ** Values are totally ordered *)

Lemma value_le_lt a b c : value_ltb b a = false -> value_lt b c -> value_lt a c.
Proof.
  unfold value_lt. intros Hab Hbc. destruct (value_ltb_total a b) as [E|[->|E]]; [|done|congruence].
  by eapply value_ltb_trans.
Qed.
Lemma value_lt_le a b c : value_lt a b -> value_ltb c b = false -> value_lt a c.
Proof.
  unfold value_lt. intros Hab Hbc. destruct (value_ltb_total b c) as [E|[->|E]]; [|done|congruence].
  by eapply value_ltb_trans.
Qed.
Lemma value_lt_weaken a b : value_lt a b -> value_ltb b a = false.
Proof. apply value_ltb_asym. Qed.
Lemma value_le_trans a b c : value_ltb b a = false -> value_ltb c b = false -> value_ltb c a = false.
Proof.
  intros Hab Hbc. destruct (value_ltb c a) eqn:E; [|done].
  rewrite (value_lt_le _ _ _ E Hab) in Hbc. done.
Qed.
Lemma value_lt_trans a b c : value_lt a b -> value_lt b c -> value_lt a c.
Proof. apply value_ltb_trans. Qed.

Create HintDb vorder.
#[export] Hint Resolve value_le_lt value_lt_le value_lt_weaken value_le_trans value_lt_trans value_ltb_irrefl : vorder.

#[export] Instance mark_le_trans : Transitive mark_le.
Proof.
  intros [[a|]|a] [[b|]|b] [[d|]|d]; cbn [mark_le bound_le]; unfold entry_lt; intros H1 H2; try done;
    try (destruct H1 as (? & [= <-] & H1)); try (destruct H2 as (? & [= <-] & H2)); try done;
    try (eexists; split; [done|]); eauto with vorder.
Qed.

Abbreviation sorted := (StronglySorted mark_le).

Lemma sorted_between l1 m l2 :
  sorted (l1 ++ l2) -> Forall (fun x => mark_le x m) l1 -> Forall (mark_le m) l2 -> sorted (l1 ++ m :: l2).
Proof.
  rewrite !StronglySorted_app, StronglySorted_cons.
  intros (H1 & H2 & H3) Hl1 Hl2. rewrite Forall_forall in Hl1. split_and!; try done. intros x y Hx.
  rewrite elem_of_cons. intros [->|Hy]; auto.
Qed.
Lemma sorted_drop l1 m l2 : sorted (l1 ++ m :: l2) -> sorted (l1 ++ l2).
Proof.
  rewrite !StronglySorted_app, StronglySorted_cons. intros (H1 & H2 & _ & H3).
  split_and!; try done. intros x y Hx Hy. apply H1; [done|]. by right.
Qed.
Lemma sorted_around l1 m l2 :
  sorted (l1 ++ m :: l2) -> Forall (fun x => mark_le x m) l1 /\ Forall (mark_le m) l2.
Proof.
  rewrite StronglySorted_app, StronglySorted_cons. intros (H1 & _ & H3 & _).
  split; [|done]. apply Forall_forall. intros x Hx. apply H1; [done|left].
Qed.

(** An entry may become the bound in front of itself. *)
Definition own_bound (e : LeafEntry) : mark := MBound (Some (entry_key e)).
Lemma own_bound_after e x : mark_le x (MEntry e) -> mark_le x (own_bound e).
Proof. destruct x; cbn; [done|]. unfold entry_lt. eauto. Qed.
Lemma own_bound_before e : mark_le (own_bound e) (MEntry e).
Proof. apply value_ltb_irrefl. Qed.

Lemma sorted_add_bound l1 e l2 :
  sorted (l1 ++ MEntry e :: l2) -> sorted (l1 ++ own_bound e :: MEntry e :: l2).
Proof.
  intros Hs. pose proof (sorted_around _ _ _ Hs) as [H1 H2]. apply sorted_between; [done| |].
  - eapply Forall_impl; [done|]. intros x. apply own_bound_after.
  - constructor; [apply own_bound_before|]. eapply Forall_impl; [done|]. intros x.
    apply transitivity, own_bound_before.
Qed.
Lemma sorted_raise_bound l1 b e l2 :
  sorted (l1 ++ MBound b :: MEntry e :: l2) -> sorted (l1 ++ own_bound e :: MEntry e :: l2).
Proof. intros Hs. by eapply sorted_add_bound, sorted_drop. Qed.

(** Inserting an entry into the leaf that covers its key. *)
Definition marks_of (b : option Value) (es : list LeafEntry) : list mark := MBound b :: (MEntry <$> es).
Definition bound_next (l : list mark) (key : Value) : Prop :=
  l = [] \/ exists v l', l = MBound (Some v) :: l' /\ value_lt key v.

Lemma Forall_le_via l1 m m' : Forall (fun x => mark_le x m) l1 -> mark_le m m' -> Forall (fun x => mark_le x m') l1.
Proof. intros H Hm. eapply Forall_impl; [done|]. intros x Hx. cbn in Hx. by etrans. Qed.
Lemma Forall_via_le l2 m m' : mark_le m m' -> Forall (mark_le m') l2 -> Forall (mark_le m) l2.
Proof. intros Hm H. eapply Forall_impl; [done|]. intros x Hx. by etrans. Qed.

Lemma bound_next_above l key rid :
  sorted l -> bound_next l key -> Forall (mark_le (MEntry (mkLeafEntry key rid))) l.
Proof.
  intros Hs [->|(v & l' & -> & Hv)]; [done|]. apply StronglySorted_cons in Hs as [Hl _].
  assert (mark_le (MEntry (mkLeafEntry key rid)) (MBound (Some v))) as Hm by (cbn; eauto).
  constructor; [done|]. by eapply Forall_via_le.
Qed.

Lemma sorted_insert_entry l1 b es1 es2 l2 key rid :
  sorted (l1 ++ marks_of b (es1 ++ es2) ++ l2) -> bound_le b key -> bound_next l2 key ->
  Forall (fun e => value_lt (entry_key e) key) es1 ->
  (es2 = [] \/ exists e es, es2 = e :: es /\ value_lt key (entry_key e)) ->
  sorted (l1 ++ marks_of b (es1 ++ mkLeafEntry key rid :: es2) ++ l2).
Proof.
  unfold marks_of. rewrite !fmap_app, fmap_cons, <- !app_comm_cons, <- !app_assoc, <- app_comm_cons.
  intros Hs Hb Hn H1 H2. pose proof (sorted_around _ _ _ Hs) as [Hl1 _].
  set (m := MEntry (mkLeafEntry key rid)).
  assert (mark_le (MBound b) m) as Hbm by done.
  rewrite (app_comm_cons (MEntry <$> es1)), app_assoc in Hs.
  rewrite (app_comm_cons (MEntry <$> es1)), app_assoc. apply sorted_between; [done| |].
  - apply Forall_app_2; [by eapply Forall_le_via|]. constructor; [done|]. by apply Forall_fmap.
  - apply StronglySorted_app_1_r in Hs. destruct H2 as [->|(e & es & -> & He)].
    + by apply bound_next_above.
    + rewrite fmap_cons, <- app_comm_cons in Hs. rewrite fmap_cons, <- app_comm_cons.
      apply StronglySorted_cons in Hs as [Hs _].
      assert (mark_le m (MEntry e)) as Hme by done. constructor; [done|]. by eapply Forall_via_le.
Qed.

(** ** The leaves of a tree *)

Definition entries_at (hp : heap) (s : slot) : list LeafEntry :=
  match hp !! s.2 with Some (NLeaf _ es) => es | _ => [] end.
Definition marks (hp : heap) (L : level) : list mark := L ≫= fun s => marks_of s.1 (entries_at hp s).
Definition contents (hp : heap) (L : level) : list LeafEntry := L ≫= entries_at hp.

Lemma marks_app hp L L' : marks hp (L ++ L') = marks hp L ++ marks hp L'.
Proof. apply bind_app. Qed.
Lemma marks_cons hp s L : marks hp (s :: L) = marks_of s.1 (entries_at hp s) ++ marks hp L.
Proof. done. Qed.
Lemma contents_app hp L L' : contents hp (L ++ L') = contents hp L ++ contents hp L'.
Proof. apply bind_app. Qed.
Lemma contents_cons hp s L : contents hp (s :: L) = entries_at hp s ++ contents hp L.
Proof. done. Qed.

Lemma entries_ext hp hp' s : hp' !! s.2 = hp !! s.2 -> entries_at hp' s = entries_at hp s.
Proof. unfold entries_at. by intros ->. Qed.
Lemma leaves_ext hp hp' L :
  (forall id, id ∈ L.*2 -> hp' !! id = hp !! id) -> marks hp' L = marks hp L /\ contents hp' L = contents hp L.
Proof.
  induction L as [|s L IH]; intros Hid; [done|]. rewrite !marks_cons, !contents_cons, (entries_ext hp hp').
  - destruct IH as [-> ->]; [|done]. intros id ?. apply Hid. by right.
  - apply Hid. left.
Qed.

Lemma entries_marks hp s e L : s ∈ L -> e ∈ entries_at hp s -> MEntry e ∈ marks hp L.
Proof.
  intros Hs He. apply list_elem_of_bind. exists s. split; [|done]. right. by apply list_elem_of_fmap_2.
Qed.
Lemma contents_marks hp e L : e ∈ contents hp L -> MEntry e ∈ marks hp L.
Proof. intros (s & He & Hs)%list_elem_of_bind. by eapply entries_marks. Qed.

Lemma sorted_of_entries es : sorted (MEntry <$> es) -> sorted_entries es.
Proof.
  induction es as [|e es IH]; [constructor|]. rewrite fmap_cons, StronglySorted_cons, Forall_fmap.
  intros [He Hes]. constructor; [by apply IH|done].
Qed.
Lemma sorted_marks_of b es : sorted (marks_of b es) -> sorted_entries es.
Proof. unfold marks_of. rewrite StronglySorted_cons. intros [_ Hs]. by apply sorted_of_entries. Qed.

Lemma sorted_contents hp L : sorted (marks hp L) -> sorted_entries (contents hp L).
Proof.
  induction L as [|s L IH]; [constructor|]. rewrite marks_cons, contents_cons. unfold sorted_entries.
  rewrite !StronglySorted_app. intros (H1 & H2 & H3). split_and!; [|by eapply sorted_marks_of|by apply IH].
  intros x y Hx Hy. apply (H1 (MEntry x) (MEntry y)); [|by apply contents_marks].
  right. by apply list_elem_of_fmap_2.
Qed.

(** A covered key is above everything to the left of its leaf and below
    everything to the right. *)
Lemma covered_left hp A s C key :
  sorted (marks hp (A ++ s :: C)) -> bound_le s.1 key ->
  Forall (fun e => value_lt (entry_key e) key) (contents hp A).
Proof.
  rewrite marks_app, marks_cons. intros Hs Hb. apply sorted_around in Hs as [Hs _].
  apply Forall_forall. intros e He%contents_marks. eapply Forall_forall in Hs; [|done].
  cbn in Hs. destruct Hs as (v & E & Hv). rewrite E in Hb. eauto with vorder.
Qed.
Lemma next_bound_marks hp C key :
  Forall (fun s => is_Some s.1) C -> key_below (next_bound C) key -> bound_next (marks hp C) key.
Proof.
  intros [|s C' [v Hv] _]; [by left|]. destruct s as [b id]; cbn in *. subst b. intros Hk. right. eauto.
Qed.
Lemma covered_right hp C key :
  sorted (marks hp C) -> bound_next (marks hp C) key ->
  Forall (fun e => value_lt key (entry_key e)) (contents hp C).
Proof.
  intros Hs Hn. apply Forall_forall. intros e He%contents_marks.
  pose proof (bound_next_above _ key 0 Hs Hn) as Hall.
  eapply Forall_forall in Hall; [|done]. exact Hall.
Qed.

(** ** The abstract index: a sorted list of entries *)

Fixpoint find_key (es : list LeafEntry) (key : Value) : option Z :=
  match es with
  | [] => None
  | e :: rest => if value_eqb (entry_key e) key then Some (entry_rid e) else find_key rest key
  end.
Definition add_key (es : list LeafEntry) (key : Value) (rid : Z) : list LeafEntry :=
  zinsert (position es key) (mkLeafEntry key rid) es.

Lemma value_lt_ne a b : value_lt a b -> value_eqb a b = false /\ value_eqb b a = false.
Proof.
  unfold value_lt, value_eqb. intros Hab. split; apply bool_decide_eq_false; intros ->;
    by rewrite value_ltb_irrefl in Hab.
Qed.

Lemma find_key_left es1 es key :
  Forall (fun e => value_lt (entry_key e) key) es1 -> find_key (es1 ++ es) key = find_key es key.
Proof. induction 1 as [|e es1 He _ IH]; cbn; [done|]. by rewrite (proj1 (value_lt_ne _ _ He)). Qed.
Lemma find_key_right es es2 key :
  Forall (fun e => value_lt key (entry_key e)) es2 -> find_key (es ++ es2) key = find_key es key.
Proof.
  intros H2. induction es as [|e es IH]; cbn; [|by rewrite IH].
  induction H2 as [|e es2 He _ IH2]; cbn; [done|]. by rewrite (proj2 (value_lt_ne _ _ He)).
Qed.

Lemma position_left es1 es key :
  Forall (fun e => value_lt (entry_key e) key) es1 -> position (es1 ++ es) key = zlen es1 + position es key.
Proof.
  induction 1 as [|e es1 He _ IH]; cbn [position app]; [done|]. unfold value_lt in He.
  rewrite He, IH, zlen_cons. lia.
Qed.
Lemma position_right es es2 key :
  Forall (fun e => value_lt key (entry_key e)) es2 -> position (es ++ es2) key = position es key.
Proof.
  intros H2. induction es as [|e es IH]; cbn [position app]; [|by rewrite IH].
  destruct H2 as [|e es2 He _]; cbn; [done|]. by rewrite value_ltb_asym.
Qed.

Lemma zinsert_mid {A} (l1 l2 l3 : list A) p x :
  0 <= p <= zlen l2 -> zinsert (zlen l1 + p) x (l1 ++ l2 ++ l3) = l1 ++ zinsert p x l2 ++ l3.
Proof.
  intros Hp. unfold zinsert. rewrite <- (ztake_zdrop p l2) at 1 2. rewrite <- !app_assoc.
  rewrite (app_assoc l1). rewrite ztake_app_eq, zdrop_app_eq by (rewrite zlen_app, zlen_ztake; lia).
  by rewrite <- !app_assoc.
Qed.
Lemma position_range es key : 0 <= position es key <= zlen es.
Proof.
  destruct (position_split es key) as (l1 & l2 & -> & -> & _). rewrite zlen_app.
  pose proof (zlen_nonneg l1). pose proof (zlen_nonneg l2). lia.
Qed.

Lemma add_key_mid es1 es es2 key rid :
  Forall (fun e => value_lt (entry_key e) key) es1 -> Forall (fun e => value_lt key (entry_key e)) es2 ->
  add_key (es1 ++ es ++ es2) key rid = es1 ++ add_key es key rid ++ es2.
Proof.
  intros H1 H2. unfold add_key. rewrite position_left, position_right by done.
  apply zinsert_mid, position_range.
Qed.

(** Looking the key up at its position. *)
Lemma find_at_position es key :
  sorted_entries es ->
  find_key es key = match znth es (position es key) with
                    | Some e => if value_eqb (entry_key e) key then Some (entry_rid e) else None
                    | None => None
                    end.
Proof.
  intros Hs. destruct (position_split es key) as (l1 & l2 & -> & -> & H1 & H2).
  rewrite find_key_left by done. rewrite znth_app_r, Z.sub_diag by lia.
  destruct H2 as [->|(e & l & -> & He)]; [done|]. rewrite znth_cons_0. cbn [find_key].
  destruct (value_eqb (entry_key e) key) eqn:Ee; [done|].
  apply StronglySorted_app_1_r, StronglySorted_cons in Hs as [Hl _].
  apply (find_key_right []), Forall_forall. intros x Hx. eapply Forall_forall in Hl; [|done].
  eapply value_le_lt; [done|]. exact Hl.
Qed.

(** Inserting a new key splits the entries around it. *)
Lemma add_key_split es key rid :
  find_key es key = None ->
  exists es1 es2, es = es1 ++ es2 /\ position es key = zlen es1 /\
    add_key es key rid = es1 ++ mkLeafEntry key rid :: es2 /\
    Forall (fun e => value_lt (entry_key e) key) es1 /\
    (es2 = [] \/ exists e es', es2 = e :: es' /\ value_lt key (entry_key e)).
Proof.
  intros Hf. unfold add_key. destruct (position_split es key) as (l1 & l2 & -> & -> & H1 & H2).
  exists l1, l2. unfold zinsert. rewrite ztake_app_eq, zdrop_app_eq by done. split_and!; try done.
  destruct H2 as [->|(e & l & -> & He)]; [by left|]. right. exists e, l. split; [done|].
  rewrite find_key_left in Hf by done. cbn in Hf. destruct (value_eqb (entry_key e) key) eqn:Ee; [done|].
  apply bool_decide_eq_false in Ee. destruct (value_ltb_total key (entry_key e)) as [?|[->|?]]; [done|done|congruence].
Qed.
