(* ===== verification/BStarTreeSearch.v ===== *)
(** * Searching the B*-tree

    [tree_rep] ties a heap of nodes to a sorted list of entries; on such a heap
    the descent ends at the one leaf that may hold the key, and a range search
    reads exactly the leaves it needs.  A path visits one page per level and a
    range search every leaf at most once, so the number of pages of the file is
    enough fuel for both. *)

From stdpp Require Import sorting.
From S2P Require Import Prelude BinaryIO Values Serialization Disk PageStore KeyEncoder.
From S2P Require Import BStarTree BStarTreePages BStarTreeHeap BStarTreeLevels BStarTreeOrder.

(** ** Trees that represent an index *)

Definition head_id (L : level) (end_id : Z) : Z := match L with [] => end_id | s :: _ => s.2 end.

(** Every leaf links to the next one. *)
Fixpoint chain (hp : heap) (L : level) (end_id : Z) : Prop :=
  match L with
  | [] => True
  | s :: L' =>
      (exists h es, hp !! s.2 = Some (NLeaf h es) /\ next_leaf_page_id h = head_id L' end_id) /\
      chain hp L' end_id
  end.

Record tree_rep (hp : heap) (root : Z) (lv : list level) (L : level) : Prop := {
  tr_tree : tree hp root lv L;
  tr_leaves : Forall (leaf hp root) L;
  tr_nodup : NoDup (ids (L :: lv));
  tr_chain : chain hp L InvalidPageId;
  tr_sorted : sorted (marks hp L)
}.

(** ** Lemmas on the leaves *)

Lemma leaf_entries hp s h es : hp !! s.2 = Some (NLeaf h es) -> entries_at hp s = es.
Proof. unfold entries_at. by intros ->. Qed.

Lemma tree_nonempty hp root lv S : tree hp root lv S -> S <> [].
Proof. intros (id & S' & -> & _)%tree_bounds. done. Qed.

Lemma tree_tail_bounded hp root lv A s C :
  tree hp root lv (A ++ s :: C) -> Forall (fun s => is_Some s.1) C.
Proof.
  intros (id & S' & E & HS')%tree_bounds. destruct A as [|a A]; injection E as; subst; [done|].
  apply Forall_app in HS' as [_ HS']. by apply Forall_cons in HS' as [_ ?].
Qed.

Lemma chain_app hp L L' end_id :
  chain hp (L ++ L') end_id <-> chain hp L (head_id L' end_id) /\ chain hp L' end_id.
Proof.
  induction L as [|s L IH]; cbn [chain app]; [naive_solver|].
  rewrite IH. destruct L; cbn [head_id app]; naive_solver.
Qed.
Lemma chain_ext hp hp' L end_id :
  (forall id, id ∈ L.*2 -> hp' !! id = hp !! id) -> chain hp L end_id -> chain hp' L end_id.
Proof.
  induction L as [|s L IH]; intros Hid; [done|]. intros [(h & es & E & Hn) HL].
  split; [|apply IH; [|done]; intros; apply Hid; by right].
  exists h, es. rewrite Hid; [done|left].
Qed.

(** ** Range search *)

Definition fits (range : KeyRange) (e : LeafEntry) : bool := FitsInRange (entry_key e) range.
Definition range_rids (range : KeyRange) (es : list LeafEntry) : list Z :=
  entry_rid <$> filter (fun e => Is_true (fits range e)) es.

Lemma range_rids_app range es es' : range_rids range (es ++ es') = range_rids range es ++ range_rids range es'.
Proof. unfold range_rids. by rewrite filter_app, fmap_app. Qed.
Lemma range_rids_none range es : Forall (fun e => fits range e = false) es -> range_rids range es = [].
Proof.
  induction 1 as [|e es He _ IH]; [done|]. unfold range_rids in *. rewrite filter_cons, He. done.
Qed.

Lemma above_high_fits range key : above_high key range = true -> FitsInRange key range = false.
Proof.
  unfold above_high, FitsInRange. destruct (high range) as [h|]; [|done].
  destruct (include_high range); intros ?%Is_true_true; apply andb_false_intro2; by destruct value_gtb, value_ltb.
Qed.
Lemma above_high_mono range a b : value_lt a b -> above_high a range = true -> above_high b range = true.
Proof.
  unfold above_high, value_gtb. destruct (high range) as [h|]; [|done]. intros Hab.
  destruct (include_high range).
  - intros Ha. by eapply value_lt_trans.
  - intros Ha%negb_true_iff. apply negb_true_iff. eauto with vorder.
Qed.

Lemma above_high_rest range e es :
  sorted_entries (e :: es) -> above_high (entry_key e) range = true -> range_rids range (e :: es) = [].
Proof.
  intros [Hes _]%StronglySorted_cons Hh. apply range_rids_none. constructor; [by apply above_high_fits|].
  eapply Forall_impl; [done|]. intros e' He. by eapply above_high_fits, above_high_mono.
Qed.

(** Scanning a leaf yields its part of the answer; stopping loses nothing. *)
Lemma ScanEntries_spec range es rest :
  sorted_entries (es ++ rest) ->
  exists stop, ScanEntries range es = (range_rids range es, stop) /\
    (stop = true -> range_rids range rest = []).
Proof.
  induction es as [|e es IH]; intros Hs; cbn [ScanEntries]; [by exists false|].
  destruct (above_high (entry_key e) range) eqn:Eh.
  - exists true. assert (range_rids range (e :: es ++ rest) = []) as Hn by by apply above_high_rest.
    rewrite app_comm_cons, range_rids_app in Hn. apply app_eq_nil in Hn as [-> ?]. done.
  - apply StronglySorted_cons in Hs as [_ Hs]. destruct (IH Hs) as (stop & -> & Hstop). exists stop.
    split; [|done]. unfold range_rids. rewrite filter_cons. change (FitsInRange (entry_key e) range) with (fits range e).
    by destruct (fits range e).
Qed.

(** Keys below the lower end are not in the range. *)
Lemma below_low_fits range l e :
  low range = Some l -> value_lt (entry_key e) l -> fits range e = false.
Proof.
  unfold fits, FitsInRange, value_gtb. intros -> He. apply andb_false_intro1.
  destruct (include_low range); [by rewrite He|by apply value_ltb_asym].
Qed.

(** ** Running the search *)

(** The descent for [key] ended at the leaf [s]. *)
Definition found (hp : heap) (root : Z) (lv : list level) (L : level) (key : Value)
    (r : list SearchPathEntry * Z * option Z) : Prop :=
  exists path A s C, r = (path, s.2, find_key (entries_at hp s) key) /\
    path_to hp root path lv A s C /\ L = A ++ s :: C /\ covers key s C.

(** [index_rep st es]: the tree holds the entries [es], in order. *)
Definition tree_at (st : astate) (lv : list level) (L : level) : Prop :=
  tree_rep (a_heap st) (root_page_id (a_md st)) lv L /\
  first_leaf_page_id (a_md st) = head_id L InvalidPageId /\
  tree_height (a_md st) = Z.of_nat (length lv) + 1.
Definition index_rep (st : astate) (es : list LeafEntry) : Prop :=
  a_disk_md st = a_md st /\ a_pages st < 2 ^ 63 /\
  ((root_page_id (a_md st) = InvalidPageId /\ es = []) \/
   (root_page_id (a_md st) <> InvalidPageId /\ exists lv L, tree_at st lv L /\ es = contents (a_heap st) L)).

Lemma tree_ids_heap hp root lv S id :
  tree hp root lv S -> id ∈ ids lv -> is_Some (hp !! id).
Proof.
  induction 1 as [|lv S Ht IH Hint]; [by intros ?%elem_of_nil|]. rewrite ids_cons, elem_of_app.
  intros [(s & -> & Hs)%list_elem_of_fmap|?]; [|by apply IH].
  eapply Forall_forall in Hint as (h & f & r & -> & _); [|done]. done.
Qed.
Lemma leaf_ids_heap hp root L id : Forall (leaf hp root) L -> id ∈ L.*2 -> is_Some (hp !! id).
Proof.
  intros HL (s & -> & Hs)%list_elem_of_fmap.
  eapply Forall_forall in HL as (h & es & -> & _); [|done]. done.
Qed.
Lemma tree_rep_ids hp root lv L id : tree_rep hp root lv L -> id ∈ ids (L :: lv) -> is_Some (hp !! id).
Proof.
  intros [Ht Hl _ _ _]. rewrite ids_cons, elem_of_app.
  intros [?|?]; [by eapply leaf_ids_heap|by eapply tree_ids_heap].
Qed.

(** Distinct page numbers below [n] are at most [n]. *)
Lemma NoDup_bounded (l : list Z) n : NoDup l -> Forall (fun z => 0 <= z < n) l -> zlen l <= Z.max 0 n.
Proof.
  intros Hnd Hl. assert (length l <= length (seqZ 0 n))%nat as Hle.
  { apply submseteq_length, NoDup_submseteq; [done|]. intros z Hz. apply elem_of_seqZ.
    eapply Forall_forall in Hl; [|done]. lia. }
  rewrite length_seqZ in Hle. unfold zlen. lia.
Qed.

Lemma length_levels hp root lv S : tree hp root lv S -> (length lv <= length (ids lv))%nat.
Proof.
  induction 1 as [|lv S Ht IH _]; [done|]. rewrite ids_cons, length_app, length_fmap.
  apply tree_nonempty in Ht. destruct S; cbn in *; [done|lia].
Qed.

Section search.
Context {P : Type} {PS : PageStore P} {PL : PageStoreLaws P}.
Context (c : config) (C0 : config_ok c).

Lemma leaf_sorted hp A s C : sorted (marks hp (A ++ s :: C)) -> sorted_entries (entries_at hp s).
Proof.
  rewrite marks_app, marks_cons. intros Hs%StronglySorted_app_1_r%StronglySorted_app_1_l.
  by eapply sorted_marks_of.
Qed.

Lemma runs_descend fuel key st root lv L lvs path lv1 A s C :
  tree_rep (a_heap st) root lv L -> L :: lv = lvs ++ (A ++ s :: C) :: lv1 ->
  path_to (a_heap st) root path lv1 A s C -> covers key s C -> (length lvs < fuel)%nat ->
  runs c st (FindPath_loop fuel key path s.2)
    (fun r st' => st' = st /\ found (a_heap st) root lv L key r).
Proof.
  intros HR. revert lvs path lv1 A s C.
  induction fuel as [|fuel IH]; intros lvs path lv1 A s C E Hp Hcov Hf; [lia|]. cbn [FindPath_loop].
  destruct lvs as [|S1 lvs _] using rev_ind.
  - injection E as -> ->. pose proof (tr_leaves _ _ _ _ HR) as Hl.
    apply Forall_app in Hl as [_ [(h & es & Hs & _) _]%Forall_cons].
    rbind runs_read. intros page st' (-> & -> & Hok).
    eapply runs_bind; [by apply runs_lift_eq, node_header|]. intros header st' [-> ->].
    rewrite (leaf_type _ _ _ Hok), bool_decide_true by done.
    rbind runs_parse_leaf. intros a st' [-> ->]. apply runs_ret. split; [done|].
    exists path, A, s, C. split_and!; try done. f_equal. pose proof (leaf_sorted _ _ _ _ (tr_sorted _ _ _ _ HR)) as Hes.
    rewrite (leaf_entries _ _ _ _ Hs) in *. by rewrite FindEntryPosition_eq, find_at_position.
  - rewrite <- app_assoc in E. destruct (tree_next _ _ _ _ _ _ _ _ (tr_tree _ _ _ _ HR) E) as [HS1 Hint].
    pose proof Hint as [_ [(h & f & r & Hs & _) HintC]%Forall_cons]%Forall_app.
    rbind runs_read. intros page st' (-> & -> & Hok).
    eapply runs_bind; [by apply runs_lift_eq, node_header|]. intros header st' [-> ->].
    rewrite (internal_type _ _ _ _ Hok), bool_decide_false by done.
    rbind runs_parse_internal. intros a st' [-> ->].
    destruct Hcov as [Hb HC]. rewrite <- (next_bound_expand _ _ _ HintC) in HC.
    destruct (choose_split key s.1 f r _ Hb HC) as (K1 & x & K2 & EK & Hn & Hx & Hcx).
    change (ChooseChildIndex _ _) with (ChooseChildIndex_from 0 r.*1 key). rewrite <- Hn.
    rbind runs_at_index. intros y st' [-> ->].
    eapply (IH lvs); [|by apply path_down; [| |rewrite (kids_int _ _ _ _ _ Hs)]|done|].
    + rewrite E, HS1, expand_app, expand_cons, (kids_int _ _ _ _ _ Hs), EK, <- !app_assoc. done.
    + rewrite length_app in Hf. cbn in Hf. lia.
Qed.

Lemma tree_rep_start hp root lv L :
  tree hp root lv L ->
  exists lvs, L :: lv = lvs ++ [[(None, root)]] /\ length lvs = length lv.
Proof.
  induction 1 as [|lv S _ (lvs & E & Hn)]; [by exists []|].
  exists (expand hp S :: lvs). cbn. by rewrite Hn, E.
Qed.

Lemma runs_find_path fuel key st lv L :
  let root := root_page_id (a_md st) in
  root <> InvalidPageId -> tree_rep (a_heap st) root lv L -> (length lv < fuel)%nat ->
  runs c st (FindPathToLeaf fuel key) (fun r st' => st' = st /\ found (a_heap st) root lv L key r).
Proof.
  intros root Hroot HR Hf. unfold FindPathToLeaf. rbind runs_this. intros t st' (-> & _ & _ & _ & _ & _ & ->).
  unfold IsInvalidPageId. rewrite (proj2 (Z.eqb_neq _ _)) by done.
  destruct (tree_rep_start _ _ _ _ (tr_tree _ _ _ _ HR)) as (lvs & E & Hn).
  eapply (runs_descend fuel key st root lv L lvs [] [] [] (None, root) []); try done; [constructor|lia].
Qed.

(** ** Valid keys *)

Definition valid_key (key : Value) : bool :=
  bool_decide (type key = c_type c) && (zlen (Encode key) <=? c_kmax c).
Lemma valid_key_good key : value_ok key -> valid_key key = true -> key_good c key.
Proof.
  unfold valid_key, key_good, key_fits, key_small. rewrite andb_true_iff, bool_decide_eq_true, Z.leb_le.
  tauto.
Qed.
Lemma runs_validate st key (Q : unit -> astate -> Prop) :
  valid_key key = true -> Q tt st -> runs c st (ValidateKeyType key) Q.
Proof.
  unfold valid_key. rewrite andb_true_iff, bool_decide_eq_true, Z.leb_le. intros [Ht Hn] HQ.
  unfold ValidateKeyType. rbind runs_this. intros t st' (-> & Et & _ & _ & Ek & _).
  rewrite Et, Ek. unfold is_null. rewrite Ht, (bool_decide_false (_ = vtNull)) by apply (co_type _ C0).
  rewrite bool_decide_true, (proj2 (Z.ltb_ge _ _)) by done.
  do 2 (eapply runs_bind; [apply (runs_guard _ _ _ _ (fun _ st' => st' = st)); done|]; intros _ st' ->).
  by apply runs_guard.
Qed.
Lemma fails_validate st key :
  valid_key key = false -> fails c st (ValidateKeyType key) kInvalidArgument.
Proof.
  unfold valid_key. intros Hv. unfold ValidateKeyType. rfail runs_this.
  intros t st' (-> & Et & _ & _ & Ek & _). split; [done|]. rewrite Et, Ek. destruct (is_null key); [by apply fails_bind, fails_throw|].
  rfail (runs_guard c st _ _ (fun _ st' => st' = st)). intros _ st' ->. split; [done|].
  destruct (bool_decide (type key = c_type c)) eqn:Ety; [|by apply fails_bind, fails_throw].
  rfail (runs_guard c st _ _ (fun _ st' => st' = st)). intros _ st' ->. split; [done|]. cbn in Hv.
  rewrite Z.ltb_antisym, Hv. by apply fails_throw.
Qed.

Lemma runs_open st : runs c st tree_require_open (fun _ st' => st' = st).
Proof.
  unfold tree_require_open. rbind runs_this. intros t st' (-> & _ & _ & _ & _ & -> & _). by apply runs_guard.
Qed.

Lemma tree_rep_fuel st lv L :
  heap_ok c st -> tree_rep (a_heap st) (root_page_id (a_md st)) lv L ->
  Z.of_nat (length lv) + Z.of_nat (length L) < a_pages st.
Proof.
  intros [Hpos Hh] HR. assert (zlen (0 :: ids (L :: lv)) <= Z.max 0 (a_pages st)) as Hle.
  - assert (Forall (fun z => 0 < z < a_pages st) (ids (L :: lv))) as Hids.
    { apply Forall_forall. intros id [n Hn]%(tree_rep_ids _ _ _ _ _ HR). by apply (Hh id n). }
    apply NoDup_bounded.
    + constructor; [|by apply (tr_nodup _ _ _ _ HR)]. intros H0. eapply Forall_forall in H0; [|done]. cbn in H0. lia.
    + constructor; [lia|]. eapply Forall_impl; [done|]. cbn. lia.
  - pose proof (length_levels _ _ _ _ (tr_tree _ _ _ _ HR)). unfold zlen in Hle. rewrite ids_cons in Hle. cbn in Hle.
    rewrite length_app, length_fmap in Hle. lia.
Qed.

(** The leaf found holds the key exactly when the index does. *)
Lemma found_contents hp root lv L key r :
  tree_rep hp root lv L -> found hp root lv L key r -> r.2 = find_key (contents hp L) key.
Proof.
  intros HR (path & A & s & C & -> & Hp & -> & Hb & HC). cbn [snd].
  pose proof (tr_sorted _ _ _ _ HR) as Hs. pose proof (tree_tail_bounded _ _ _ _ _ _ (tr_tree _ _ _ _ HR)) as Hbd.
  rewrite contents_app, contents_cons, find_key_left by by eapply covered_left.
  rewrite find_key_right; [done|]. apply covered_right; [|by apply next_bound_marks].
  rewrite marks_app, marks_cons in Hs. by apply StronglySorted_app_1_r, StronglySorted_app_1_r in Hs.
Qed.

Lemma runs_Find fuel st es key :
  index_rep st es -> valid_key key = true -> (Z.to_nat (a_pages st) <= fuel)%nat ->
  runs c st (bt_Find fuel key) (fun r st' => r = find_key es key /\ st' = st).
Proof.
  intros (_ & _ & Hcase) Hv Hf. apply runs_heap_ok. intros Hok. unfold bt_Find.
  rbind runs_open. intros _ st' ->. eapply runs_bind; [by apply (runs_validate st key (fun _ st' => st' = st))|].
  intros _ st' ->. rbind runs_this. intros t st' (-> & _ & _ & _ & _ & _ & ->). unfold IsInvalidPageId.
  destruct Hcase as [[Hr ->]|(Hr & lv & L & (HR & _) & ->)].
  - rewrite (proj2 (Z.eqb_eq _ _)) by done. by apply runs_ret.
  - rewrite (proj2 (Z.eqb_neq _ _)) by done. pose proof (tree_rep_fuel st lv L Hok HR).
    eapply runs_bind; [apply (runs_find_path fuel key st lv L); try done; lia|].
    intros [[path leaf] rid] st' [-> Hfd]. apply runs_ret. split; [|done]. by apply found_contents in Hfd.
Qed.

(** ** Range search *)

Lemma runs_scan fuel range st root L :
  heap_ok c st -> a_pages st < 2 ^ 63 -> Forall (leaf (a_heap st) root) L ->
  chain (a_heap st) L InvalidPageId -> sorted (marks (a_heap st) L) -> (length L <= fuel)%nat ->
  runs c st (RangeSearch_loop fuel range (head_id L InvalidPageId))
    (fun r st' => r = range_rids range (contents (a_heap st) L) /\ st' = st).
Proof.
  intros [_ Hh] Hp. revert fuel. induction L as [|s L IH]; intros fuel Hl Hc Hs Hf.
  - cbn [head_id]. destruct fuel; by apply runs_ret.
  - destruct fuel as [|fuel]; cbn in Hf; [lia|]. destruct Hc as [(h & es & Hes & Hnext) Hc].
    cbn [RangeSearch_loop head_id]. destruct (Hh _ _ Hes) as [Hid _]. unfold IsInvalidPageId.
    rewrite (proj2 (Z.eqb_neq _ _)) by (unfold kInvalidPageIdValue; lia).
    rbind runs_load_leaf. intros a st' [-> ->]. apply Forall_cons in Hl as [_ Hl].
    destruct (ScanEntries_spec range es (contents (a_heap st) L)) as (stop & -> & Hstop).
    { apply sorted_contents in Hs. by rewrite contents_cons, (leaf_entries _ _ _ _ Hes) in Hs. }
    rewrite contents_cons, (leaf_entries _ _ _ _ Hes), range_rids_app. destruct stop.
    + apply runs_ret. by rewrite Hstop, app_nil_r.
    + rewrite Hnext. rewrite marks_cons in Hs. apply StronglySorted_app_1_r in Hs.
      eapply runs_bind; [apply (IH fuel); try done; lia|]. intros r st' [-> ->]. by apply runs_ret.
Qed.

Definition valid_end (e : option Value) : bool := match e with Some v => valid_key v | None => true end.
Definition valid_range (range : KeyRange) : bool :=
  valid_end (low range) && valid_end (high range) &&
  match low range, high range with Some l, Some h => negb (value_ltb h l) | _, _ => true end.

Lemma runs_validate_end st e :
  valid_end e = true ->
  runs c st (match e with Some v => ValidateKeyType v | None => mret tt end) (fun _ st' => st' = st).
Proof. destruct e; intros He; [by apply runs_validate|by apply runs_ret]. Qed.
Lemma fails_validate_end st e :
  valid_end e = false ->
  fails c st (match e with Some v => ValidateKeyType v | None => mret tt end) kInvalidArgument.
Proof. destruct e; intros He; [by apply fails_validate|done]. Qed.

Lemma runs_validate_range st range :
  valid_range range = true -> runs c st (ValidateRange range) (fun _ st' => st' = st).
Proof.
  unfold valid_range. rewrite !andb_true_iff. intros [[Hl Hh] Hlh]. unfold ValidateRange.
  rbind runs_validate_end. intros _ st' ->. rbind runs_validate_end. intros _ st' ->.
  destruct (low range), (high range); try by apply runs_ret. apply negb_true_iff in Hlh. rewrite Hlh.
  by apply runs_guard.
Qed.
Lemma fails_validate_range st range :
  valid_range range = false -> fails c st (ValidateRange range) kInvalidArgument.
Proof.
  unfold valid_range, ValidateRange. intros Hv.
  destruct (valid_end (low range)) eqn:El; [|by apply fails_bind, fails_validate_end].
  rfail runs_validate_end. intros _ st' ->. split; [done|].
  destruct (valid_end (high range)) eqn:Eh; [|by apply fails_bind, fails_validate_end].
  rfail runs_validate_end. intros _ st' ->. split; [done|]. cbn in Hv.
  destruct (low range), (high range); try done. apply negb_false_iff in Hv. rewrite Hv. by apply fails_throw.
Qed.

Lemma runs_RangeSearch fuel st es range :
  index_rep st es -> valid_range range = true -> (Z.to_nat (a_pages st) <= fuel)%nat ->
  runs c st (bt_RangeSearch fuel range) (fun r st' => r = range_rids range es /\ st' = st).
Proof.
  intros (_ & Hp & Hcase) Hv Hf. apply runs_heap_ok. intros Hok. unfold bt_RangeSearch.
  rbind runs_open. intros _ st' ->. rbind runs_validate_range. intros _ st' ->.
  rbind runs_this. intros t st' (-> & _ & _ & _ & _ & _ & ->). unfold IsInvalidPageId.
  destruct Hcase as [[Hr ->]|(Hr & lv & L & (HR & Hfst & _) & ->)].
  { rewrite (proj2 (Z.eqb_eq _ _)) by done. by apply runs_ret. }
  rewrite (proj2 (Z.eqb_neq _ _)) by done. pose proof (tree_rep_fuel st lv L Hok HR).
  destruct (low range) as [l|] eqn:El.
  - eapply (runs_bind _ _ _ _ (fun r st' => st' = st /\ exists A s C, r = s.2 /\ L = A ++ s :: C /\ bound_le s.1 l)).
    { eapply runs_bind; [apply (runs_find_path fuel l st lv L); try done; lia|].
      intros [[path leaf] rid] st' [-> (path' & A & s & C & [= -> -> ->] & _ & EL & Hb & _)]. apply runs_ret. eauto 10. }
    intros first st' [-> (A & s & C & -> & -> & Hb)]. destruct HR as [_ Hl _ Hc Hs].
    rewrite contents_app, range_rids_app, (range_rids_none _ (contents _ A)).
    + rewrite length_app in H. rewrite marks_app in Hs. eapply (runs_scan fuel range st _ (s :: C)); try done; [| | |lia].
      * by apply Forall_app in Hl as [_ ?].
      * by apply chain_app in Hc as [_ ?].
      * by apply StronglySorted_app_1_r in Hs.
    + pose proof (covered_left _ _ _ _ _ Hs Hb) as Hlt. eapply Forall_impl; [done|]. intros e He.
      by eapply below_low_fits.
  - eapply runs_bind; [by apply (runs_ret _ _ _ (fun r st' => r = first_leaf_page_id (a_md st) /\ st' = st))|].
    intros first st' [-> ->]. destruct HR as [_ Hl _ Hc Hs]. rewrite Hfst.
    eapply runs_scan; try done. lia.
Qed.

(** Refused arguments. *)
Lemma fails_Find fuel st key : valid_key key = false -> fails c st (bt_Find fuel key) kInvalidArgument.
Proof.
  intros Hv. unfold bt_Find. rfail runs_open. intros _ st' ->. split; [done|].
  by apply fails_bind, fails_validate.
Qed.
Lemma fails_RangeSearch fuel st range :
  valid_range range = false -> fails c st (bt_RangeSearch fuel range) kInvalidArgument.
Proof.
  intros Hv. unfold bt_RangeSearch. rfail runs_open. intros _ st' ->. split; [done|].
  by apply fails_bind, fails_validate_range.
Qed.
End search.
