(* ===== verification/BStarTreeInsert.v ===== *)
(** * Inserting into the B*-tree

    Insertion changes the tree level by level: a node that has room takes the new
    child, a full one shares its children with its right neighbour or splits and
    hands a separator to its parent.  In each case the level below ends up with
    exactly one slot more, at the place asked for, which is what makes the whole
    insertion add one entry to the sorted list the index represents. *)

From stdpp Require Import sorting.
From S2P Require Import Prelude BinaryIO Values Serialization Disk PageStore KeyEncoder.
From S2P Require Import BStarTree BStarTreePages BStarTreeHeap BStarTreeLevels BStarTreeOrder BStarTreeSearch.

(** ** Children as slots *)

Definition as_kids (b : option Value) (f : Z) (r : list (Value * Z)) : level := (b, f) :: (behind <$> r).

Lemma kids_as hp s h f r : hp !! s.2 = Some (NInt h f r) -> kids hp s = as_kids s.1 f r.
Proof. apply kids_int. Qed.

Lemma kids_at hp b id h f r : hp !! id = Some (NInt h f r) -> kids hp (b, id) = as_kids b f r.
Proof. apply (kids_as hp (b, id)). Qed.

Lemma as_kids_app b f q1 sep id q2 :
  as_kids b f (q1 ++ (sep, id) :: q2) = as_kids b f q1 ++ as_kids (Some sep) id q2.
Proof. unfold as_kids. by rewrite fmap_app. Qed.

(** Splitting the slots at a child splits the separators in front of it. *)
Lemma as_kids_split b f r K1 x K2 :
  as_kids b f r = K1 ++ x :: K2 ->
  exists r1 r2, r = r1 ++ r2 /\ K1 ++ [x] = as_kids b f r1 /\ K2 = behind <$> r2 /\ zlen K1 = zlen r1.
Proof.
  revert b f r. induction K1 as [|k K1 IH]; intros b f r E; injection E as <- E.
  - exists [], r. split_and!; done.
  - destruct r as [|[v id] r]; [by destruct K1|]. destruct (IH (Some v) id r E) as (r1 & r2 & -> & E1 & -> & En).
    exists ((v, id) :: r1), r2. cbn. rewrite E1, !zlen_cons, En. done.
Qed.

Lemma as_kids_ids b f r : (as_kids b f r).*2 = f :: r.*2.
Proof. unfold as_kids. rewrite fmap_cons, <- list_fmap_compose. done. Qed.
Lemma as_kids_last b f r1 K1 x : K1 ++ [x] = as_kids b f r1 -> znth (f :: r1.*2) (zlen r1) = Some x.2.
Proof.
  intros E. apply (f_equal (fmap snd)) in E. rewrite as_kids_ids, fmap_app in E. rewrite <- E.
  assert (zlen r1 = zlen (K1.*2)) as ->.
  { apply (f_equal zlen) in E. rewrite zlen_app, zlen_cons, !zlen_fmap in E.
    rewrite zlen_fmap. unfold zlen in *. cbn in E. lia. }
  rewrite znth_app_r, Z.sub_diag by lia. done.
Qed.

(** ** Updates of a node's vectors *)

Lemma insert_child f r1 r2 sep id :
  mkInternalNodeData (zinsert (zlen r1) sep (r1 ++ r2).*1) (zinsert (zlen r1 + 1) id (f :: (r1 ++ r2).*2)) =
    node_data f (r1 ++ (sep, id) :: r2).
Proof.
  unfold node_data, zinsert. rewrite !fmap_app, app_comm_cons. f_equal.
  - by rewrite ztake_app_eq, zdrop_app_eq by by rewrite zlen_fmap.
  - by rewrite ztake_app_eq, zdrop_app_eq by (rewrite zlen_cons, zlen_fmap; lia).
Qed.
Lemma insert_child_count (r1 r2 : list (Value * Z)) sep id :
  zlen (zinsert (zlen r1) sep (r1 ++ r2).*1) = zlen (r1 ++ (sep, id) :: r2).
Proof.
  pose proof (f_equal separator_keys (insert_child 0 r1 r2 sep id)) as E. cbn [separator_keys node_data] in E.
  by rewrite E, zlen_fmap.
Qed.
Lemma set_separator f r1 r2 old sep id :
  mkInternalNodeData (zset (zlen r1) sep (r1 ++ (old, id) :: r2).*1) (f :: (r1 ++ (old, id) :: r2).*2) =
    node_data f (r1 ++ (sep, id) :: r2).
Proof.
  unfold node_data. rewrite !fmap_app, !fmap_cons. f_equal. apply zset_split. by rewrite zlen_fmap.
Qed.
Lemma join_nodes f r psep fR rR :
  mkInternalNodeData (r.*1 ++ [psep] ++ rR.*1) ((f :: r.*2) ++ fR :: rR.*2) = node_data f (r ++ (psep, fR) :: rR).
Proof. unfold node_data. by rewrite !fmap_app, !fmap_cons. Qed.
Lemma left_part_node f q1 sep id q2 :
  left_part (zlen q1) (node_data f (q1 ++ (sep, id) :: q2)) = node_data f q1.
Proof.
  unfold left_part, node_data. cbn [separator_keys child_page_ids]. rewrite !fmap_app, app_comm_cons.
  by rewrite !ztake_app_eq by (rewrite ?zlen_cons, zlen_fmap; lia).
Qed.
Lemma right_part_node f q1 sep id q2 :
  right_part (zlen q1) (node_data f (q1 ++ (sep, id) :: q2)) = node_data id q2.
Proof.
  unfold right_part, node_data. cbn [separator_keys child_page_ids]. rewrite !fmap_app, !fmap_cons, app_comm_cons.
  rewrite (zdrop_app_eq _ (f :: q1.*2)) by (rewrite zlen_cons, zlen_fmap; lia).
  rewrite cons_middle, app_assoc.
  by rewrite (zdrop_app_eq _ (q1.*1 ++ _)) by (rewrite zlen_app, zlen_cons, zlen_nil, zlen_fmap; cbn; lia).
Qed.
Lemma znth_fst r1 (sc : Value * Z) r2 : znth (r1 ++ sc :: r2).*1 (zlen r1) = Some sc.1.
Proof. rewrite fmap_app, znth_app_r; rewrite zlen_fmap; [|lia]. by rewrite Z.sub_diag. Qed.
Lemma znth_snd f r1 (sc : Value * Z) r2 : znth (f :: (r1 ++ sc :: r2).*2) (zlen r1 + 1) = Some sc.2.
Proof.
  rewrite znth_cons_S by apply zlen_nonneg. rewrite fmap_app, znth_app_r; rewrite zlen_fmap; [|lia].
  by rewrite Z.sub_diag.
Qed.

(** ** Levels *)

Lemma NoDup_two (A C : level) s y lv :
  NoDup (ids ((A ++ s :: y :: C) :: lv)) ->
  s.2 <> y.2 /\ (forall id, id ∈ A.*2 \/ id ∈ C.*2 \/ id ∈ ids lv -> id <> s.2 /\ id <> y.2) /\
  (forall id, id ∈ (A ++ s :: y :: C).*2 -> id ∉ ids lv).
Proof.
  rewrite ids_cons. intros Hnd. apply NoDup_app in Hnd as (Hnd & Hdis & _).
  assert (s.2 ∈ (A ++ s :: y :: C).*2 /\ y.2 ∈ (A ++ s :: y :: C).*2) as [Hs Hy].
  { rewrite fmap_app, !fmap_cons. split; apply elem_of_app; right; [left|right; left]. }
  rewrite fmap_app, !fmap_cons, NoDup_app, !NoDup_cons in Hnd. destruct Hnd as (_ & HA & HsC & HyC & _).
  split_and!; [|intros id [Hi|[Hi|Hi]]|done].
  - intros E. apply HsC. rewrite E. left.
  - specialize (HA id Hi). split; intros ->; apply HA; [left|right; left].
  - split; intros ->; [apply HsC; by right|done].
  - split; intros ->; [by apply (Hdis _ Hs)|by apply (Hdis _ Hy)].
Qed.

(** A node in its level. *)
Definition at_node (st : astate) (path : list SearchPathEntry) (lv : list level) (A : level) (s : slot) (C : level)
  : Prop :=
  path_to (a_heap st) (root_page_id (a_md st)) path lv A s C /\
  Forall (inner (a_heap st) (root_page_id (a_md st))) (A ++ s :: C) /\ NoDup (ids ((A ++ s :: C) :: lv)).

(** Only the pages [I] changed. *)
Definition only (I : list Z) (st st' : astate) : Prop :=
  forall id, id ∉ I -> id < a_pages st -> a_heap st' !! id = a_heap st !! id.

(** The inner levels [lv] changed so that the level below them is [T]: on the
    same pages, or with new ones and perhaps a new root. *)
Definition reshaped (st st' : astate) (lv : list level) (T : level) : Prop :=
  a_md st' = a_md st /\ a_disk_md st' = a_disk_md st /\ a_pages st' = a_pages st /\ only (ids lv) st st' /\
  exists lv', tree (a_heap st') (root_page_id (a_md st')) lv' T /\ ids lv' = ids lv /\ length lv' = length lv.

Definition same_but_root (m m' : TreeMetadata) : Prop :=
  tm_version m' = tm_version m /\ first_leaf_page_id m' = first_leaf_page_id m /\
  tm_min_degree m' = tm_min_degree m /\ tm_max_key_payload_bytes m' = tm_max_key_payload_bytes m.
Definition grown (st st' : astate) (lv : list level) (T : level) (budget : Z) : Prop :=
  same_but_root (a_md st) (a_md st') /\ a_disk_md st' = a_md st' /\
  a_pages st <= a_pages st' <= a_pages st + budget /\ only (ids lv) st st' /\
  exists lv', tree (a_heap st') (root_page_id (a_md st')) lv' T /\ NoDup (ids lv') /\
    (forall id, id ∈ ids lv' -> id ∈ ids lv \/ a_pages st <= id < a_pages st') /\
    (forall n, 0 < n -> n + Z.of_nat (length lv) < 2 ^ 63 -> tree_height (a_md st) = n + Z.of_nat (length lv) ->
               tree_height (a_md st') = n + Z.of_nat (length lv')) /\
    (length lv' <= S (length lv))%nat.

Lemma reshaped_grown st st' lv T n :
  a_disk_md st = a_md st -> NoDup (ids lv) -> 0 <= n -> reshaped st st' lv T -> grown st st' lv T n.
Proof.
  intros Hd Hnd Hn (Hmd & Hdm & Hp & Ho & lv' & Ht & Hid & Hlen). split_and!; try lia; try done.
  - by rewrite Hmd.
  - congruence.
  - exists lv'. rewrite Hid, Hlen, Hmd. split_and!; auto. by rewrite Hmd in Ht.
Qed.

(** The parent of a node: [r1] are the children up to the node and [r2] those
    behind it.  Whatever children the parent gets take their place in the level. *)
Record parent_of (hp : heap) (root : Z) (link : SearchPathEntry) (lv : list level) (A : level) (s : slot) (C : level)
    (hu : NodeHeader) (fu : Z) (r1 r2 : list (Value * Z)) (b : option Value) (A1 K1 C2 : level) : Prop := {
  po_node : hp !! link_page_id link = Some (NInt hu fu (r1 ++ r2));
  po_index : child_index link = zlen r1;
  po_in : link_page_id link ∈ ids lv;
  po_left : A = A1 ++ K1;
  po_kids : K1 ++ [s] = as_kids b fu r1;
  po_right : C = (behind <$> r2) ++ C2;
  po_change hp' hu' r' :
    (forall id, id ∈ ids lv -> id <> link_page_id link -> hp' !! id = hp !! id) ->
    hp' !! link_page_id link = Some (NInt hu' fu r') -> (is_root hu' = true -> is_root hu = true) ->
    tree hp' root lv (A1 ++ as_kids b fu r' ++ C2)
}.

Lemma path_parent hp root link path lv A s C :
  path_to hp root (link :: path) lv A s C -> NoDup (ids lv) ->
  exists hu fu r1 r2 b A1 K1 C2, parent_of hp root link lv A s C hu fu r1 r2 b A1 K1 C2.
Proof.
  intros Hp Hnd. inversion Hp as [|path' lvu Au su Cu K1 x K2 Hpu Hintu Hk]; subst; clear Hp.
  pose proof Hintu as [_ [(hu & fu & ru & Hu & Hr) _]%Forall_cons]%Forall_app.
  rewrite (kids_as _ _ _ _ _ Hu) in Hk. apply as_kids_split in Hk as (r1 & r2 & -> & HK1 & -> & Hn).
  exists hu, fu, r1, r2, su.1, (expand hp Au), K1, (expand hp Cu). split; cbn [link_page_id child_index]; try done.
  - rewrite ids_cons. apply elem_of_app. left. rewrite fmap_app, fmap_cons. apply elem_of_app. right. left.
  - intros hp' hu' r' Hsame Hnew Hflag. rewrite <- (kids_as hp' su hu' fu r' Hnew).
    eapply tree_replace; try done. exists hu', fu, r'. auto.
Qed.

(** Replacing the separator of the right neighbour. *)
Lemma sibling_change hp root link lv A s C hu fu r1 psep rid r2 b A1 K1 C2 :
  parent_of hp root link lv A s C hu fu r1 ((psep, rid) :: r2) b A1 K1 C2 ->
  exists C', C = (Some psep, rid) :: C' /\ forall hp' hu' sep,
    (forall id, id ∈ ids lv -> id <> link_page_id link -> hp' !! id = hp !! id) ->
    hp' !! link_page_id link = Some (NInt hu' fu (r1 ++ (sep, rid) :: r2)) ->
    (is_root hu' = true -> is_root hu = true) ->
    tree hp' root lv (A ++ s :: (Some sep, rid) :: C').
Proof.
  intros [_ _ _ HA HK HC Hch]. exists ((behind <$> r2) ++ C2). split; [done|]. intros hp' hu' sep Hs Hn Hf.
  specialize (Hch hp' hu' _ Hs Hn Hf). rewrite as_kids_app, <- HK, <- !app_assoc in Hch.
  by rewrite HA, <- !app_assoc.
Qed.

(** Two neighbours share their children anew. *)
Lemma pair_reshaped st st' lv A s psep rid C sep f q1 id q2 h hR :
  let root := root_page_id (a_md st) in
  let hp := a_heap st in
  let hp' := a_heap st' in
  NoDup (ids ((A ++ s :: (Some psep, rid) :: C) :: lv)) ->
  Forall (inner hp root) (A ++ s :: (Some psep, rid) :: C) ->
  tree hp' root lv (A ++ s :: (Some sep, rid) :: C) ->
  a_md st' = a_md st -> a_disk_md st' = a_disk_md st -> a_pages st' = a_pages st ->
  (forall i, i ∉ ids lv -> i <> s.2 -> i <> rid -> hp' !! i = hp !! i) ->
  hp' !! s.2 = Some (NInt h f q1) -> (is_root h = true -> s.2 = root) ->
  hp' !! rid = Some (NInt hR id q2) -> (is_root hR = true -> rid = root) ->
  reshaped st st' ((A ++ s :: (Some psep, rid) :: C) :: lv)
    (expand hp A ++ as_kids s.1 f (q1 ++ (sep, id) :: q2) ++ expand hp C).
Proof.
  intros root hp hp' Hnd Hint Ht Hmd Hdm Hpg Hout Hs Hsr Hr Hrr. apply NoDup_two in Hnd as (Hne & Hsep & Hlv).
  apply Forall_app in Hint as [HiA HiC]. do 2 apply Forall_cons in HiC as [_ HiC].
  assert (forall i, i ∈ A.*2 \/ i ∈ C.*2 -> hp' !! i = hp !! i) as Hsame.
  { intros i Hi. apply Hout; [|apply Hsep; tauto..]. apply Hlv. rewrite fmap_app, !fmap_cons, elem_of_app, !elem_of_cons.
    tauto. }
  split_and!; try done.
  - intros i Hi _. rewrite ids_cons, elem_of_app in Hi. apply Hout; [tauto| |]; intros ->; apply Hi; left;
      rewrite fmap_app, !fmap_cons, elem_of_app, !elem_of_cons; auto.
  - exists ((A ++ s :: (Some sep, rid) :: C) :: lv). rewrite Hmd. split_and!; [|by rewrite !ids_cons, !fmap_app|done].
    rewrite <- (expand_ext hp hp' A), <- (expand_ext hp hp' C), as_kids_app by auto.
    rewrite <- (kids_as hp' s h f q1 Hs), <- (kids_at hp' (Some sep) rid hR id q2 Hr), <- app_assoc.
    rewrite <- !expand_cons, <- expand_app.
    apply tree_down; [done|]. apply Forall_app_2; [by apply (inner_ext hp); auto|].
    constructor; [by exists h, f, q1|]. constructor; [by exists hR, id, q2|]. apply (inner_ext hp); auto.
Qed.

(** One node gets other children. *)
Lemma node_reshaped st path lv A s C h f r0 h' r :
  at_node st path lv A s C -> a_heap st !! s.2 = Some (NInt h f r0) -> is_root h' = is_root h ->
  reshaped st (put_node s.2 (NInt h' f r) st) ((A ++ s :: C) :: lv)
    (expand (a_heap st) A ++ as_kids s.1 f r ++ expand (a_heap st) C).
Proof.
  intros (Hp & Hint & Hnd) Hs Hf. split_and!; try done.
  - intros i Hi _. cbn. apply lookup_insert_ne. intros <-. apply Hi. apply ids_In, elem_of_app. right. left.
  - exists ((A ++ s :: C) :: lv). split_and!; try done.
    pose proof Hint as [_ [(h0 & f0 & r0' & Hs' & Hsr) _]%Forall_cons]%Forall_app.
    rewrite Hs in Hs'. injection Hs' as <- <- <-.
    assert (a_heap (put_node s.2 (NInt h' f r) st) !! s.2 = Some (NInt h' f r)) as Hn by apply lookup_insert_eq.
    rewrite <- (kids_as _ _ _ _ _ Hn). eapply tree_replace; try done.
    + exists h', f, r. split; [done|]. by rewrite Hf.
    + intros i _ Hi. by apply lookup_insert_ne.
Qed.

Lemma path_root_in hp root link path lv A s C : path_to hp root (link :: path) lv A s C -> root ∈ ids lv.
Proof.
  intros Hp. inversion Hp as [|path' lvu Au su Cu K1 x K2 Hpu Hintu Hk]; subst.
  eapply tree_root_in, path_to_tree. done.
Qed.
Lemma inner_not_root hp root root' S (I : list Z) :
  Forall (inner hp root) S -> root ∈ I -> (forall id, id ∈ S.*2 -> id ∉ I) -> Forall (inner hp root') S.
Proof.
  intros HS Hr Hdis. apply Forall_forall. intros s Hs. eapply Forall_forall in HS as (h & f & r & E & Hf); [|done].
  exists h, f, r. split; [done|]. intros Ht. exfalso. apply (Hdis s.2); [by apply list_elem_of_fmap_2|].
  by rewrite Hf.
Qed.

Lemma NoDup_upper S lv : NoDup (ids (S :: lv)) -> NoDup (ids lv).
Proof. rewrite ids_cons. by intros (_ & _ & ?)%NoDup_app. Qed.

(** The parent of a node, in its own level. *)
Lemma path_up st link path lv A s C :
  path_to (a_heap st) (root_page_id (a_md st)) (link :: path) lv A s C -> NoDup (ids lv) ->
  exists lvu Au su Cu hu fu u1 u2 K1, lv = (Au ++ su :: Cu) :: lvu /\ at_node st path lvu Au su Cu /\
    link = mkSearchPathEntry su.2 (zlen u1) /\ a_heap st !! su.2 = Some (NInt hu fu (u1 ++ u2)) /\
    A = expand (a_heap st) Au ++ K1 /\ K1 ++ [s] = as_kids su.1 fu u1 /\
    C = (behind <$> u2) ++ expand (a_heap st) Cu.
Proof.
  intros Hp Hnd. inversion Hp as [|path' lvu Au su Cu K1 x K2 Hpu Hintu Hk]; subst.
  pose proof Hintu as [_ [(hu & fu & ru & Hu & _) _]%Forall_cons]%Forall_app.
  rewrite (kids_as _ _ _ _ _ Hu) in Hk. apply as_kids_split in Hk as (u1 & u2 & -> & HK1 & -> & Hn).
  exists lvu, Au, su, Cu, hu, fu, u1, u2, K1. rewrite Hn. by split_and!.
Qed.
Lemma at_node_frame st st1 path lv A s C :
  a_md st1 = a_md st -> (forall id, id ∈ ids ((A ++ s :: C) :: lv) -> a_heap st1 !! id = a_heap st !! id) ->
  at_node st path lv A s C -> at_node st1 path lv A s C.
Proof.
  intros Hmd Hid (Hp & Hint & Hnd). rewrite ids_cons in Hid. setoid_rewrite elem_of_app in Hid.
  unfold at_node. rewrite Hmd. split_and!; [|by apply (inner_ext (a_heap st)); auto|done].
  apply (path_to_frame (a_heap st)); auto.
Qed.

Lemma path_ids_low st link path lv A s C id :
  at_node st (link :: path) lv A s C -> id ∈ ids lv -> is_Some (a_heap st !! id).
Proof. intros (Hp & _). eapply tree_ids_heap. by eapply path_to_tree. Qed.

Lemma NoDup_level_add (A C : level) s b id lv :
  NoDup (ids ((A ++ s :: C) :: lv)) -> id ∉ (A ++ s :: C).*2 -> NoDup (A ++ s :: (b, id) :: C).*2.
Proof.
  rewrite ids_cons, !fmap_app, !fmap_cons. intros (Hnd & _)%NoDup_app Hid.
  rewrite (cons_middle s.2), app_assoc, <- Permutation_middle, <- app_assoc. by apply NoDup_cons.
Qed.

Section insert.
Context {P : Type} {PS : PageStore P} {PL : PageStoreLaws P}.
Context (c : config) (C0 : config_ok c).

Abbreviation min_keys := (c_degree c - 1).

(** Which splits the two loops accept. *)
Lemma InternalSplitFits_eq st (t : BStarTree P) li ri lh rh f q1 sep id q2 :
  core c st t -> Forall (child_good c) (q1 ++ (sep, id) :: q2) ->
  InternalSplitFits t li ri lh rh (node_data f (q1 ++ (sep, id) :: q2)) (zlen q1) (zlen q2) =
    (zlen q1 <=? max_keys c) && (min_keys <=? zlen q2) && (zlen q2 <=? max_keys c).
Proof.
  intros Ht [Hq1 [_ Hq2]%Forall_cons]%Forall_app. unfold InternalSplitFits.
  rewrite left_part_node, right_part_node, (core_min_keys c C0 _ _ Ht), (core_max_keys c C0 _ _ Ht).
  destruct Ht as (_ & -> & _). rewrite !Z.leb_antisym.
  destruct (max_keys c <? zlen q1) eqn:E1; [done|]. destruct (zlen q2 <? min_keys) eqn:E2; [done|].
  destruct (max_keys c <? zlen q2) eqn:E3; [done|]. cbn [orb negb andb]. zbool.
  by rewrite !build_internal by done.
Qed.

Lemma split_at {A} (l : list A) m : 0 <= m < zlen l -> exists q1 x q2, l = q1 ++ x :: q2 /\ zlen q1 = m.
Proof.
  intros Hm. destruct (znth_is_Some l m Hm) as [x Hx]. apply znth_split in Hx as (q1 & q2 & -> & <-). eauto.
Qed.

(** The choice of the middle separator. *)
Lemma ChooseMiddle_cases st (t : BStarTree P) li ri lh rh f r :
  core c st t -> Forall (child_good c) r ->
  match ChooseMiddle min_keys (zlen r) (InternalSplitFits t li ri lh rh (node_data f r)) with
  | Some m => exists q1 sep id q2, r = q1 ++ (sep, id) :: q2 /\ zlen q1 = m /\
      zlen q1 <= max_keys c /\ zlen q2 <= max_keys c
  | None => zlen r - 1 < 2 * min_keys \/ 2 * max_keys c < zlen r - 1
  end.
Proof.
  intros Ht Hr. destruct (co_degree _ C0) as [Hdeg _].
  assert (forall q1 x q2, r = q1 ++ x :: q2 -> zlen r - 1 - zlen q1 = zlen q2) as Hlen.
  { intros q1 x q2 ->. rewrite zlen_app, zlen_cons. lia. }
  pose proof (ChooseMiddle_spec min_keys (zlen r) (InternalSplitFits t li ri lh rh (node_data f r))) as Hsp.
  destruct (ChooseMiddle _ _ _) as [m|].
  - destruct Hsp as (Hm & Hf & _). destruct (split_at r m) as (q1 & [sep id] & q2 & E & Hq1); [lia|].
    exists q1, sep, id, q2. rewrite <- Hq1, (Hlen _ _ _ E), E in Hf. rewrite E in Hr.
    rewrite (InternalSplitFits_eq st) in Hf by done. zbool. done.
  - destruct (decide (zlen r - 1 < 2 * min_keys)) as [|Hlo]; [by left|]. right. apply Z.lt_nge. intros Hhi.
    set (m := Z.max min_keys (zlen r - 1 - max_keys c)). unfold max_keys in *.
    destruct (split_at r m) as (q1 & [sep id] & q2 & E & Hq1); [lia|].
    specialize (Hsp (zlen q1) ltac:(lia)). rewrite (Hlen _ _ _ E) in Hsp. pose proof (Hlen _ _ _ E).
    rewrite E in Hsp, Hr. rewrite (InternalSplitFits_eq st) in Hsp by done. unfold max_keys in *. zbool; lia.
Qed.

Lemma no_right_sibling f (r1 r2 : list (Value * Z)) :
  (zlen (f :: (r1 ++ r2).*2) <=? zlen r1 + 1) = bool_decide (r2 = []).
Proof.
  rewrite zlen_cons, zlen_fmap, zlen_app. destruct r2 as [|x r2].
  - rewrite zlen_nil. apply Z.leb_le. lia.
  - rewrite zlen_cons. pose proof (zlen_nonneg r2). apply Z.leb_gt. lia.
Qed.

Lemma heap_ok_int st id h f r :
  heap_ok c st -> a_heap st !! id = Some (NInt h f r) ->
  0 < id < a_pages st /\ in_u64 (parent_page_id h) /\ in_u64 f /\ zlen r <= max_keys c /\
  Forall (child_good c) r.
Proof. intros [_ Hh] E. destruct (Hh _ _ E) as (? & _ & ? & ? & ? & ?). auto. Qed.

(** What the parent says about the right neighbour, when nothing was moved. *)
Definition not_shared (st : astate) (path : list SearchPathEntry) (n : Z) (size : Z -> option Z) : Prop :=
  forall link path' hu fu ru psep rid m, path = link :: path' ->
    a_heap st !! link_page_id link = Some (NInt hu fu ru) ->
    znth ru (child_index link) = Some (psep, rid) -> size rid = Some m ->
    n + m < 2 * min_keys \/ 2 * max_keys c < n + m.
Definition int_size (st : astate) (id : Z) : option Z :=
  match a_heap st !! id with Some (NInt _ _ r) => Some (zlen r) | _ => None end.

Lemma put_node_some st id n i : is_Some (a_heap st !! i) -> is_Some (a_heap (put_node id n st) !! i).
Proof. intros Hi. cbn. apply lookup_insert_is_Some'. auto. Qed.
(** The writes that let two neighbours share their children. *)
Definition shared_state (st : astate) (li ri ui : Z) (h hR hu : NodeHeader) (f id fu : Z)
    (q1 q2 ru : list (Value * Z)) : astate :=
  put_node ui (NInt (internal_header hu ru) fu ru)
    (put_node ri (NInt (internal_header hR q2) id q2) (put_node li (NInt (internal_header h q1) f q1) st)).

Lemma runs_share_internal st li ri ui h f r0 hR fR rR hu fu ru q1 sep id q2 ru' :
  a_heap st !! li = Some (NInt h f r0) -> a_heap st !! ri = Some (NInt hR fR rR) ->
  a_heap st !! ui = Some (NInt hu fu ru) ->
  Forall (child_good c) (q1 ++ (sep, id) :: q2) -> zlen q1 <= max_keys c -> zlen q2 <= max_keys c ->
  Forall (child_good c) ru' -> zlen ru' = zlen ru ->
  Forall (fun i => is_Some (a_heap st !! i)) (f :: (q1 ++ (sep, id) :: q2).*2) ->
  runs c st
    (_ ← StoreInternal li h (node_data f q1);
     _ ← StoreInternal ri hR (node_data id q2);
     _ ← StoreInternal ui hu (node_data fu ru');
     _ ← rewrite_child_parent (f :: q1.*2) li;
     _ ← rewrite_child_parent (id :: q2.*2) ri;
     mret true)
    (fun b st' => b = true /\ st' = shared_state st li ri ui h hR hu f id fu q1 q2 ru').
Proof.
  intros Hl Hr Hu [Hq1 [[_ Hid] Hq2]%Forall_cons]%Forall_app Hn1 Hn2 Hru' Hlen Hch.
  apply runs_heap_ok. intros Hok.
  destruct (heap_ok_int _ _ _ _ _ Hok Hl) as (Hli & ? & ? & _ & _).
  destruct (heap_ok_int _ _ _ _ _ Hok Hr) as (Hri & ? & _ & _ & _).
  destruct (heap_ok_int _ _ _ _ _ Hok Hu) as (Hui & ? & ? & ? & _).
  rbind runs_store_internal. intros _ st' ->. rbind runs_store_internal. intros _ st' ->.
  eapply runs_bind; [apply runs_store_internal; try done; lia|]. intros _ st' ->.
  rewrite fmap_app, fmap_cons, app_comm_cons, Forall_app in Hch. destruct Hch as [Hch1 Hch2].
  do 2 (eapply runs_bind;
    [apply runs_rewrite_children; try done; eapply Forall_impl; [done|]; intros; by repeat apply put_node_some|];
    intros _ st' ->).
  by apply runs_ret.
Qed.

Lemma shared_reshaped st path lv A s psep rid C link hu fu r1 r2 b A1 K1 C2 h f r0 hR fR rR q1 sep id q2 r :
  at_node st (link :: path) lv A s ((Some psep, rid) :: C) ->
  parent_of (a_heap st) (root_page_id (a_md st)) link lv A s ((Some psep, rid) :: C)
    hu fu r1 ((psep, rid) :: r2) b A1 K1 C2 ->
  a_heap st !! s.2 = Some (NInt h f r0) -> a_heap st !! rid = Some (NInt hR fR rR) ->
  r ++ (psep, fR) :: rR = q1 ++ (sep, id) :: q2 ->
  reshaped st (shared_state st s.2 rid (link_page_id link) h hR hu f id fu q1 q2 (r1 ++ (sep, rid) :: r2))
    ((A ++ s :: (Some psep, rid) :: C) :: lv)
    (expand (a_heap st) A ++ as_kids s.1 f r ++ expand (a_heap st) ((Some psep, rid) :: C)).
Proof.
  intros (Hp & Hint & Hnd) HP Hs HR E. pose proof (NoDup_two _ _ _ _ _ Hnd) as (Hne & Hsep & Hlv).
  destruct (sibling_change _ _ _ _ _ _ _ _ _ _ _ _ _ _ _ _ _ HP) as (C'' & [= <-] & Hch).
  pose proof Hint as [_ [(h0 & f0 & r0' & Hs' & Hsr) [(hR0 & fR0 & rR' & HR' & HRr) _]%Forall_cons]%Forall_cons]%Forall_app.
  rewrite Hs in Hs'. injection Hs' as <- <- <-. cbn [snd] in HR', HRr. rewrite HR in HR'. injection HR' as <- <- <-.
  pose proof (po_in _ _ _ _ _ _ _ _ _ _ _ _ _ _ _ HP) as Hin. destruct (Hsep _ ltac:(eauto)) as [Hus Hur]. cbn [snd] in *.
  rewrite expand_cons, (kids_at _ _ _ _ _ _ HR).
  rewrite (app_assoc (as_kids s.1 f r)), <- as_kids_app, E.
  apply (pair_reshaped _ _ _ _ _ _ _ _ _ _ _ _ _ (internal_header h q1) (internal_header hR q2)); try done; cbn.
  - eapply (Hch _ (internal_header hu (r1 ++ (sep, rid) :: r2))); [|by rewrite lookup_insert_eq|done].
    intros i Hi Hiu. destruct (Hsep i ltac:(eauto)). by rewrite !lookup_insert_ne by done.
  - intros i Hi His Hir. rewrite !lookup_insert_ne; try done. by intros <-.
  - by rewrite !lookup_insert_ne, lookup_insert_eq by done.
  - by rewrite lookup_insert_ne, lookup_insert_eq by done.
Qed.

Lemma runs_RedistributeInternal st path lv A s C h f r0 r :
  let hp := a_heap st in
  at_node st path lv A s C -> hp !! s.2 = Some (NInt h f r0) -> Forall (child_good c) r ->
  Forall (fun i => is_Some (hp !! i)) (f :: r.*2) -> Forall (fun i => is_Some (hp !! i)) (expand hp C).*2 ->
  runs c st (RedistributeInternalWithRightSibling s.2 path (node_data f r)) (fun shared st' =>
    if shared then reshaped st st' ((A ++ s :: C) :: lv) (expand hp A ++ as_kids s.1 f r ++ expand hp C)
    else st' = st /\ not_shared st path (zlen r) (int_size st)).
Proof.
  cbv zeta. intros (Hp & Hint & Hnd) Hs Hr Hch HchC. apply runs_heap_ok. intros Hok.
  destruct path as [|link path]; cbn [RedistributeInternalWithRightSibling]; [by apply runs_ret|].
  assert (NoDup (ids lv)) as Hndlv by (rewrite ids_cons in Hnd; by apply NoDup_app in Hnd as (_ & _ & ?)).
  destruct (path_parent _ _ _ _ _ _ _ _ Hp Hndlv) as (hu & fu & r1 & r2 & b & A1 & K1 & C2 & HP).
  pose proof HP as [Hu Hidx Hin _ _ _ _]. rbind runs_load_internal. intros a st' [-> ->].
  cbn [child_page_ids node_data separator_keys]. rewrite Hidx, no_right_sibling.
  destruct r2 as [|[psep rid] r2]; [rewrite bool_decide_true by done|rewrite bool_decide_false by done].
  { apply runs_ret. split; [done|]. intros link' ? hu' fu' ru psep rid m [= <- <-] Hu' Hz _.
    rewrite Hu in Hu'. injection Hu' as <- <- <-. rewrite app_nil_r, Hidx, znth_None in Hz by lia. done. }
  destruct (sibling_change _ _ _ _ _ _ _ _ _ _ _ _ _ _ _ _ _ HP) as (C' & -> & Hch').
  pose proof Hint as [_ [_ [(hR & fR & rR & HR & HRr) _]%Forall_cons]%Forall_cons]%Forall_app.
  pose proof Hint as [_ [(h0 & f0 & r0' & Hs' & Hsr) _]%Forall_cons]%Forall_app.
  rewrite Hs in Hs'. injection Hs' as <- <- <-. cbn [snd] in HR, HRr.
  eapply runs_bind; [apply runs_at_index, znth_snd|]. intros a st' [-> ->]. cbn [snd].
  rbind runs_read. intros page st' (-> & -> & Hsok). rbind runs_read. intros page st' (-> & -> & HRok).
  rbind runs_parse_internal. intros a st' [-> ->]. rbind runs_parse_internal. intros a st' [-> ->].
  eapply runs_bind; [apply runs_at_index, znth_fst|]. intros a st' [-> ->].
  cbn [node_data separator_keys child_page_ids fst]. rewrite join_nodes. rbind runs_this. intros t st' [-> Ht].
  rewrite (core_min_keys c C0 _ _ Ht).
  destruct (heap_ok_int _ _ _ _ _ Hok Hu) as (_ & _ & _ & Hru & [Hr1 [[Hps Hrid] Hr2]%Forall_cons]%Forall_app).
  destruct (heap_ok_int _ _ _ _ _ Hok HR) as (_ & _ & HfR & _ & HrR).
  assert (Forall (child_good c) (r ++ (psep, fR) :: rR)) as Hall by (apply Forall_app_2; [done|by constructor]).
  replace (zlen (r.*1 ++ [psep] ++ rR.*1)) with (zlen (r ++ (psep, fR) :: rR))
    by (rewrite !zlen_app, !zlen_cons, !zlen_fmap; rewrite zlen_nil; lia).
  pose proof (ChooseMiddle_cases st t s.2 rid h hR f _ Ht Hall) as Hcase. destruct (ChooseMiddle _ _ _) as [m|].
  - destruct Hcase as (q1 & sep & id & q2 & E & <- & Hq1 & Hq2).
    replace (r.*1 ++ [psep] ++ rR.*1) with (r ++ (psep, fR) :: rR).*1 by by rewrite fmap_app, fmap_cons.
    rewrite E in Hall |- *. rewrite left_part_node, right_part_node.
    eapply runs_bind; [apply runs_at_index, znth_fst|]. intros a st' [-> ->]. cbn [fst]. rewrite set_separator.
    eapply runs_mono.
    + apply (runs_share_internal st _ _ _ h f r0 hR fR rR hu fu (r1 ++ (psep, rid) :: r2) q1 sep id q2); try done.
      * apply Forall_app in Hall as [_ [[? _] _]%Forall_cons]. apply Forall_app_2; [done|]. by constructor.
      * by rewrite !zlen_app, !zlen_cons.
      * rewrite <- E, fmap_app, fmap_cons, app_comm_cons. apply Forall_app_2; [done|].
        rewrite expand_cons, (kids_at _ _ _ _ _ _ HR), fmap_app, as_kids_ids in HchC.
        by apply Forall_app in HchC as [? _].
    + intros shared st' [-> ->]. by eapply shared_reshaped.
  - apply runs_ret. split; [done|]. intros link' ? hu' fu' ru psep' rid' k [= <- <-] Hu' Hz Hk.
    rewrite Hu in Hu'. injection Hu' as <- <- <-. rewrite Hidx, znth_app_r, Z.sub_diag, znth_cons_0 in Hz by lia.
    injection Hz as <- <-. unfold int_size in Hk. rewrite HR in Hk. injection Hk as <-.
    rewrite zlen_app, zlen_cons in Hcase. lia.
Qed.

(** ** Splitting a node *)

Definition room (st : astate) (n : Z) : Prop := ps_room (c_size c) (a_pages st + n).
Lemma size_pos : 0 < c_size c.
Proof. pose proof (metadata_fits c C0). change MetadataHeaderSize with 56 in *. lia. Qed.
Lemma room_le st m n : room st n -> m <= n -> room st m.
Proof. intros Hr Hmn. eapply ps_room_le; [apply size_pos|exact Hr|lia]. Qed.
Lemma tree_room_bound st n : room st n -> 0 <= n -> a_pages st + n < 2 ^ 63.
Proof. intros Hr Hn. eapply ps_room_bound; [apply size_pos|exact Hr]. Qed.

Definition split_header (parent : Z) (h : NodeHeader) : NodeHeader :=
  set_next InvalidPageId (set_parent parent (set_root false h)).

Lemma full_split (r : list (Value * Z)) :
  zlen r = max_keys c + 1 ->
  exists q1 sep id q2, r = q1 ++ (sep, id) :: q2 /\ zlen q1 = min_keys /\
    zlen q1 <= max_keys c /\ zlen q2 <= max_keys c.
Proof.
  intros Hn. destruct (co_degree _ C0) as [? _]. unfold max_keys in *.
  destruct (split_at r min_keys) as (q1 & [sep id] & q2 & -> & Hq1); [lia|]. exists q1, sep, id, q2.
  rewrite zlen_app, zlen_cons in Hn. split_and!; try done; lia.
Qed.

Definition split_state (st : astate) (id : Z) (hd : NodeHeader) (f : Z) (q1 : list (Value * Z)) (f2 : Z)
    (q2 : list (Value * Z)) : astate :=
  put_node (a_pages st) (NInt (internal_header hd q2) f2 q2)
    (put_node id (NInt (internal_header hd q1) f q1) (add_page st)).

Lemma runs_split_inner st link path id h f r0 r q1 sep f2 q2 k (Q : unit -> astate -> Prop) :
  a_heap st !! id = Some (NInt h f r0) -> in_u64 (link_page_id link) -> Forall (child_good c) r ->
  Forall (fun i => is_Some (a_heap st !! i)) (f :: r.*2) ->
  r = q1 ++ (sep, f2) :: q2 -> zlen r = max_keys c + 1 -> zlen q1 = min_keys ->
  zlen q1 <= max_keys c -> zlen q2 <= max_keys c -> room st 1 ->
  runs c (split_state st id (split_header (link_page_id link) h) f q1 f2 q2) (k sep (a_pages st)) Q ->
  runs c st (SplitInternal id (link :: path) (node_data f r) k) Q.
Proof.
  intros Hid Hl Hr Hch Er Hn Hq1n Hq1 Hq2 Hroom Hk. apply runs_heap_ok. intros Hok.
  destruct (heap_ok_int _ _ _ _ _ Hok Hid) as (Hidr & _ & Hf & _ & _). destruct (co_degree _ C0).
  rewrite Er in Hr. apply Forall_app in Hr as [Hg1 [[_ Hf2] Hg2]%Forall_cons].
  unfold SplitInternal. rbind runs_this. intros t st' [-> Ht].
  rewrite (core_max_keys c C0 _ _ Ht). cbn [node_data separator_keys child_page_ids].
  rewrite zlen_fmap, Hn, (u64_id (max_keys c + 1)), Z.eqb_refl by (unfold max_keys; split; lia).
  eapply runs_bind; [by apply (runs_guard _ _ _ _ (fun _ st' => st' = st))|]. intros _ st' ->.
  rbind runs_load_internal. intros a st' [-> ->]. fold (MinKeysPerNonRootNode t). rewrite (core_min_keys c C0 _ _ Ht), <- Hq1n.
  subst r. eapply runs_bind; [apply runs_at_index, znth_fst|]. intros a st' [-> ->].
  fold (node_data f (q1 ++ (sep, f2) :: q2)). rewrite left_part_node, right_part_node.
  eapply runs_bind; [by apply (runs_guard _ _ _ _ (fun _ st' => st' = st))|]. intros _ st' ->.
  eapply runs_bind; [apply runs_alloc; [lia|done]|]. intros a st' [-> ->].
  assert (in_u64 (a_pages st)) by (pose proof (tree_room_bound _ _ Hroom); split; lia).
  cbv zeta. cbn [fst].
  eapply runs_bind; [apply runs_store_internal; try done; cbn; lia|]. intros _ st' ->.
  eapply runs_bind; [apply runs_store_internal; try done; cbn; lia|]. intros _ st' ->.
  rewrite fmap_app, fmap_cons, app_comm_cons, Forall_app in Hch. destruct Hch as [Hch1 Hch2].
  do 2 (eapply runs_bind;
    [apply runs_rewrite_children; try done; eapply Forall_impl; [done|]; intros; by repeat apply put_node_some|];
    intros _ st' ->).
  exact Hk.
Qed.

(** Splitting the root: two new pages, for the right half and the new root. *)
Definition root_header : NodeHeader := mkNodeHeader ntInternal 1 InvalidPageId InvalidPageId true.
Definition new_root_md (m : TreeMetadata) (root first : Z) : TreeMetadata :=
  mkTreeMetadata (tm_version m) root first (tm_min_degree m) (tm_max_key_payload_bytes m)
    (u64 (tree_height m + 1)).
Definition root_split_state (st : astate) (id : Z) (nl nr : node) (sep : Value) (first : Z) : astate :=
  let m := new_root_md (a_md st) (a_pages st + 1) first in
  mkState (<[a_pages st + 1 := NInt root_header id [(sep, a_pages st)]]>
            (<[a_pages st := nr]> (<[id := nl]> (a_heap st)))) (a_pages st + 2) m m.

Lemma runs_split_root st id h f r0 r q1 sep f2 q2 k :
  a_heap st !! id = Some (NInt h f r0) -> Forall (child_good c) r ->
  Forall (fun i => is_Some (a_heap st !! i)) (f :: r.*2) ->
  r = q1 ++ (sep, f2) :: q2 -> zlen r = max_keys c + 1 -> zlen q1 = min_keys ->
  zlen q1 <= max_keys c -> zlen q2 <= max_keys c -> room st 2 ->
  runs c st (SplitInternal id [] (node_data f r) k) (fun _ st' =>
    let hd := set_parent (a_pages st + 1) (split_header InvalidPageId h) in
    st' = root_split_state st id (NInt (internal_header hd q1) f q1) (NInt (internal_header hd q2) f2 q2) sep
            (first_leaf_page_id (a_md st))).
Proof.
  intros Hid Hr Hch Er Hn Hq1n Hq1 Hq2 Hroom. apply runs_heap_ok. intros Hok.
  destruct (heap_ok_int _ _ _ _ _ Hok Hid) as (Hidr & _ & Hf & _ & _). destruct (co_degree _ C0).
  rewrite Er in Hr. apply Forall_app in Hr as [Hg1 [[Hsep Hf2] Hg2]%Forall_cons].
  unfold SplitInternal. rbind runs_this. intros t st' [-> Ht].
  rewrite (core_max_keys c C0 _ _ Ht). cbn [node_data separator_keys child_page_ids].
  rewrite zlen_fmap, Hn, (u64_id (max_keys c + 1)), Z.eqb_refl by (unfold max_keys; split; lia).
  eapply runs_bind; [by apply (runs_guard _ _ _ _ (fun _ st' => st' = st))|]. intros _ st' ->.
  rbind runs_load_internal. intros a st' [-> ->]. fold (MinKeysPerNonRootNode t). rewrite (core_min_keys c C0 _ _ Ht), <- Hq1n.
  subst r. eapply runs_bind; [apply runs_at_index, znth_fst|]. intros a st' [-> ->].
  fold (node_data f (q1 ++ (sep, f2) :: q2)). rewrite left_part_node, right_part_node.
  eapply runs_bind; [by apply (runs_guard _ _ _ _ (fun _ st' => st' = st))|]. intros _ st' ->.
  pose proof (tree_room_bound _ _ Hroom).
  eapply runs_bind; [apply runs_alloc; [lia|eapply (room_le st 1); [done|lia]]|]. intros a st' [-> ->].
  eapply runs_bind; [apply runs_alloc; cbn; [lia|rewrite <- Z.add_assoc; exact Hroom]|]. intros a st' [-> ->].
  assert (in_u64 (a_pages st)) by (split; lia). assert (in_u64 (a_pages st + 1)) by (split; lia).
  assert (in_u64 id) by (split; lia). cbv zeta. cbn [fst a_pages add_page].
  eapply runs_bind; [apply runs_store_internal; try done; cbn; lia|]. intros _ st' ->.
  eapply runs_bind; [apply runs_store_internal; try done; cbn; lia|]. intros _ st' ->.
  rewrite fmap_app, fmap_cons, app_comm_cons, Forall_app in Hch. destruct Hch as [Hch1 Hch2].
  do 2 (eapply runs_bind;
    [apply runs_rewrite_children; try done; eapply Forall_impl; [done|]; intros; by repeat apply put_node_some|];
    intros _ st' ->).
  change (mkInternalNodeData [sep] [id; a_pages st]) with (node_data id [(sep, a_pages st)]).
  eapply runs_bind; [apply runs_store_internal; try done; cbn; [lia|unfold max_keys; rewrite zlen_cons, zlen_nil; lia|]|].
  { apply Forall_singleton. by split. }
  intros _ st' ->. eapply runs_bind.
  { apply (runs_update_tree c _ _ (a_pages st + 1) (first_leaf_page_id (a_md st)) (u64 (tree_height (a_md st) + 1))).
    intros t' (_ & _ & _ & _ & _ & ->). done. }
  intros _ st' ->. eapply runs_mono; [apply runs_write_metadata; try done; cbn; lia|].
  intros _ st' ->. unfold root_split_state, sync_md, put_md, put_node. cbn. rewrite <- Z.add_assoc. done.
Qed.

Lemma inner_ids_range st S id :
  heap_ok c st -> Forall (inner (a_heap st) (root_page_id (a_md st))) S -> id ∈ S.*2 -> 0 < id < a_pages st.
Proof.
  intros [_ Hh] HS (s & -> & Hs)%list_elem_of_fmap.
  eapply Forall_forall in HS as (h & f & r & E & _); [|done]. by apply Hh in E as [? _].
Qed.

(** The levels above grew and the level below them became [T]. *)
Lemma grown_level st st1 st' lv S T n k :
  grown st1 st' lv T n -> a_md st1 = a_md st -> a_pages st <= a_pages st1 <= a_pages st + k ->
  Forall (inner (a_heap st') (root_page_id (a_md st'))) T -> NoDup T.*2 ->
  (forall id, id ∈ T.*2 -> id ∉ ids lv /\ id < a_pages st1 /\ (id ∈ S.*2 \/ a_pages st <= id)) ->
  (forall id, id ∉ ids (S :: lv) -> id < a_pages st -> a_heap st1 !! id = a_heap st !! id) ->
  grown st st' (S :: lv) (expand (a_heap st') T) (n + k).
Proof.
  intros (Hmd & Hdm & Hpg & Hon & lv' & Ht & Hnd' & Hids & Hheight & Hmore) Hmd1 Hk Hint HndT HT H1.
  rewrite Hmd1 in *. split_and!; [done..|lia|lia| |].
  - intros id Hid Hlt. rewrite Hon, H1; try done; [|lia]. rewrite ids_cons, elem_of_app in Hid. tauto.
  - exists (T :: lv'). split_and!; [by constructor| | | |cbn; lia].
    + rewrite ids_cons. apply NoDup_app. split_and!; [done| |done]. intros id Hid Hid'.
      destruct (HT id Hid) as (? & ? & _). destruct (Hids id Hid'); [done|lia].
    + intros id. rewrite !ids_cons, !elem_of_app. intros [Hid|Hid].
      * destruct (HT id Hid) as (? & ? & [?|?]); [auto|right; lia].
      * destruct (Hids id Hid); [auto|right; lia].
    + intros m Hm Hlow Hh. cbn [length] in *. rewrite (Hheight (m + 1)); lia.
Qed.

Lemma split_grown st st' link path lv A s C hd f q1 sep f2 q2 n :
  heap_ok c st -> at_node st (link :: path) lv A s C -> is_root hd = false ->
  (forall id, id ∈ ids lv -> id < a_pages st) ->
  grown (split_state st s.2 hd f q1 f2 q2) st' lv (A ++ s :: (Some sep, a_pages st) :: C) n ->
  grown st st' ((A ++ s :: C) :: lv)
    (expand (a_heap st) A ++ as_kids s.1 f (q1 ++ (sep, f2) :: q2) ++ expand (a_heap st) C) (n + 1).
Proof.
  intros Hok (Hp & Hint & Hnd) Hroot Hlow Hgr. pose proof Hgr as (_ & _ & _ & Hon & _).
  pose proof (path_root_in _ _ _ _ _ _ _ _ Hp) as Hrin.
  pose proof (NoDup_level _ _ _ _ Hnd) as (HsA & HsC & Hslv).
  assert (forall id, id ∈ (A ++ s :: C).*2 -> id ∉ ids lv /\ id < a_pages st) as Hlvl.
  { intros id Hid. split; [|by apply (inner_ids_range _ _ _ Hok Hint)]. rewrite ids_cons in Hnd.
    apply NoDup_app in Hnd as (_ & Hd & _). by apply Hd. }
  setoid_rewrite fmap_app in Hlvl. setoid_rewrite elem_of_app in Hlvl. setoid_rewrite elem_of_cons in Hlvl.
  destruct (Hlvl s.2) as [_ Hsr]; [auto|]. assert (a_pages st ∉ ids lv) as Hnew by (intros ?%Hlow; lia).
  unfold only in Hon. cbn [a_pages a_heap split_state put_node add_page] in Hon.
  assert (forall id, id ∈ A.*2 \/ id ∈ C.*2 -> a_heap st' !! id = a_heap st !! id) as HAC.
  { intros id Hid. destruct (Hlvl id) as [? ?]; [tauto|]. rewrite Hon by (done || lia).
    rewrite !lookup_insert_ne; [done| |lia]. intros <-. tauto. }
  assert (a_heap st' !! s.2 = Some (NInt (internal_header hd q1) f q1)) as Hs.
  { rewrite Hon by (done || lia). by rewrite lookup_insert_ne, lookup_insert_eq by lia. }
  assert (a_heap st' !! a_pages st = Some (NInt (internal_header hd q2) f2 q2)) as Hr.
  { rewrite Hon by (done || lia). apply lookup_insert_eq. }
  rewrite as_kids_app, <- (kids_as _ s _ _ _ Hs).
  rewrite <- (kids_at _ (Some sep) _ _ _ _ Hr), <- !app_assoc.
  rewrite <- (expand_ext (a_heap st) (a_heap st') A), <- (expand_ext (a_heap st) (a_heap st') C) by auto.
  rewrite <- !expand_cons, <- expand_app. apply (grown_level _ _ _ _ _ _ _ _ Hgr); try done;
    cbn [a_pages a_heap split_state put_node add_page]; [lia|..].
  - assert (forall S, (S = A \/ S = C) -> Forall (inner (a_heap st') (root_page_id (a_md st'))) S) as HAC'.
    { intros S HS. apply (inner_ext (a_heap st)); [destruct HS as [-> | ->]; auto|].
      apply (inner_not_root _ (root_page_id (a_md st)) _ _ (ids lv)); [|done|].
      - apply Forall_app in Hint as [? [_ ?]%Forall_cons]. by destruct HS as [-> | ->].
      - intros id Hid. apply Hlvl. destruct HS as [-> | ->]; auto. }
    apply Forall_app_2; [auto|]. constructor; [exists (internal_header hd q1), f, q1; cbn; split; [done|congruence]|].
    constructor; [exists (internal_header hd q2), f2, q2; cbn; split; [done|congruence]|auto].
  - eapply NoDup_level_add; [done|]. rewrite fmap_app. intros [?|[?|?]%elem_of_cons]%elem_of_app;
      destruct (Hlvl (a_pages st)); eauto; lia.
  - intros id. rewrite !fmap_app, !fmap_cons, !elem_of_app, !elem_of_cons. cbn [snd].
    intros Hid. destruct (decide (id = a_pages st)) as [->|Hne]; [split_and!; [done|lia|right; lia]|].
    destruct (Hlvl id); [tauto|]. split_and!; [done|lia|tauto].
  - intros id. rewrite ids_cons, fmap_app, fmap_cons, !elem_of_app, elem_of_cons. intros Hid Hlt.
    rewrite !lookup_insert_ne; [done| |lia]. intros <-. tauto.
Qed.

Lemma root_split_tree st id nl nr sep first :
  id < a_pages st ->
  tree (a_heap (root_split_state st id nl nr sep first)) (a_pages st + 1) [[(None, a_pages st + 1)]]
    [(None, id); (Some sep, a_pages st)].
Proof.
  intros Hid. set (st' := root_split_state st id nl nr sep first).
  assert (a_heap st' !! (a_pages st + 1) = Some (NInt root_header id [(sep, a_pages st)])) as Hr
    by apply lookup_insert_eq.
  assert (expand (a_heap st') [(None, a_pages st + 1)] = [(None, id); (Some sep, a_pages st)]) as <-.
  { by rewrite expand_cons, (kids_at _ _ _ _ _ _ Hr). }
  apply tree_down; [constructor|]. apply Forall_singleton. by eexists _, _, _.
Qed.

Lemma root_split_grown st lv A s C hd f q1 sep f2 q2 :
  heap_ok c st -> at_node st [] lv A s C -> is_root hd = false ->
  grown st (root_split_state st s.2 (NInt (internal_header hd q1) f q1) (NInt (internal_header hd q2) f2 q2) sep
              (first_leaf_page_id (a_md st))) ((A ++ s :: C) :: lv)
    (expand (a_heap st) A ++ as_kids s.1 f (q1 ++ (sep, f2) :: q2) ++ expand (a_heap st) C) 2.
Proof.
  intros Hok (Hp & Hint & Hnd) Hroot. pose proof (inner_ids_range st _ s.2 Hok Hint) as Hsr.
  inversion Hp; subst; cbn [app fmap list_fmap] in *. destruct (Hsr ltac:(by left)) as [_ Hlt]. clear Hsr. cbn [snd fst] in *.
  set (root := root_page_id (a_md st)) in *.
  pose proof (root_split_tree st root (NInt (internal_header hd q1) f q1) (NInt (internal_header hd q2) f2 q2) sep
    (first_leaf_page_id (a_md st)) Hlt) as Ht.
  set (st' := root_split_state _ _ _ _ _ _) in *.
  assert (a_heap st' !! root = Some (NInt (internal_header hd q1) f q1)) as Hs.
  { cbn. by rewrite !lookup_insert_ne, lookup_insert_eq by lia. }
  assert (a_heap st' !! a_pages st = Some (NInt (internal_header hd q2) f2 q2)) as Hr.
  { cbn. by rewrite lookup_insert_ne, lookup_insert_eq by lia. }
  split_and!; try done; cbn [a_pages a_md st' root_split_state]; [lia..| |].
  - intros id Hid ?. cbn. rewrite ids_cons, elem_of_app in Hid. cbn in Hid. rewrite !lookup_insert_ne; try lia; [done|].
    intros <-. apply Hid. left. left.
  - exists [[(None, root); (Some sep, a_pages st)]; [(None, a_pages st + 1)]]. split_and!.
    + rewrite as_kids_app, app_nil_r, <- (kids_at _ None _ _ _ _ Hs).
      rewrite <- (kids_at _ (Some sep) _ _ _ _ Hr), <- (app_nil_r (kids _ (Some sep, _))).
      apply (tree_down _ _ _ _ Ht). repeat constructor; eexists _, _, _; cbn [fst snd];
        (split; [done|]); cbn; congruence.
    + cbn. rewrite !NoDup_cons, !not_elem_of_cons. split_and!; try lia; try apply not_elem_of_nil.
      apply NoDup_nil_2.
    + intros id. cbn. rewrite !elem_of_cons, elem_of_nil. intros [->|[->|[->|[]]]]; [by left; left|right; lia..].
    + intros n Hn Hlow Hh. cbn. rewrite Hh, u64_id; cbn [length] in *; [lia|split; lia].
    + cbn. lia.
Qed.

(** ** Adding a child *)

Definition insert_spec (path : list SearchPathEntry) : Prop :=
  forall st lv A s C h f r1 r2 sep right,
    at_node st path lv A s C -> a_heap st !! s.2 = Some (NInt h f (r1 ++ r2)) ->
    Forall (fun i => is_Some (a_heap st !! i)) (expand (a_heap st) (A ++ s :: C)).*2 ->
    is_Some (a_heap st !! right) -> child_good c (sep, right) -> a_disk_md st = a_md st ->
    room st (Z.of_nat (length path) + 2) ->
    runs c st (InsertIntoInternal path s.2 (zlen r1) sep right) (fun _ st' =>
      grown st st' ((A ++ s :: C) :: lv)
        (expand (a_heap st) A ++ as_kids s.1 f (r1 ++ (sep, right) :: r2) ++ expand (a_heap st) C)
        (Z.of_nat (length path) + 2)).

(** The continuation of [SplitInternal]. *)
Definition into_parent (path : list SearchPathEntry) (promoted : Value) (right : Z) : M (BStarTree P * disk) unit :=
  match path with
  | [] => mret tt
  | link :: parent_path => InsertIntoInternal parent_path (link_page_id link) (child_index link) promoted right
  end.

Lemma InsertIntoInternal_eq path id i sep right :
  InsertIntoInternal path id i sep right =
    ('(header, internal) ← LoadInternal id;
     let internal := mkInternalNodeData (zinsert i sep (separator_keys internal))
                       (zinsert (i + 1) right (child_page_ids internal)) in
     t ← this;
     if zlen (separator_keys internal) <=? MaxKeysPerNode t then
       _ ← StoreInternal id header internal;
       RewriteChildParent id right
     else
       redistributed ← RedistributeInternalWithRightSibling id path internal;
       if (redistributed : bool) then mret tt
       else SplitInternal id path internal (into_parent path)).
Proof. by destruct path. Qed.

(** The parent of [s] takes a separator and the node [id] behind it; [st1] is
    [st] with other pages written. *)
Lemma runs_above link path st st1 lv A s C sep id :
  insert_spec path -> path_to (a_heap st) (root_page_id (a_md st)) (link :: path) lv A s C -> NoDup (ids lv) ->
  a_md st1 = a_md st -> (forall i, i ∈ ids lv -> a_heap st1 !! i = a_heap st !! i) ->
  Forall (fun i => is_Some (a_heap st1 !! i)) (A ++ s :: C).*2 -> is_Some (a_heap st1 !! id) ->
  child_good c (sep, id) -> a_disk_md st1 = a_md st1 -> room st1 (Z.of_nat (length path) + 2) ->
  runs c st1 (into_parent (link :: path) sep id) (fun _ st' =>
    grown st1 st' lv (A ++ s :: (Some sep, id) :: C) (Z.of_nat (length path) + 2)).
Proof.
  intros IH Hp Hnd Hmd Hsame Hkids Hid Hgood Hdm Hroom.
  destruct (path_up _ _ _ _ _ _ _ Hp Hnd)
    as (lvu & Au & su & Cu & hu & fu & u1 & u2 & K1 & -> & Hup & -> & Hu & -> & HK1 & ->).
  assert (forall S, S ⊆ Au ++ su :: Cu -> expand (a_heap st1) S = expand (a_heap st) S) as Hext.
  { intros S HS. apply expand_ext. intros i (y & -> & Hy)%list_elem_of_fmap. by apply Hsame, ids_In, HS. }
  assert (expand (a_heap st) (Au ++ su :: Cu) =
    (expand (a_heap st) Au ++ K1) ++ s :: (behind <$> u2) ++ expand (a_heap st) Cu) as Hexp.
  { rewrite expand_app, expand_cons, (kids_as _ _ _ _ _ Hu). unfold as_kids. rewrite fmap_app, app_comm_cons.
    change ((su.1, fu) :: (behind <$> u1)) with (as_kids su.1 fu u1). by rewrite <- HK1, <- !app_assoc. }
  cbn [into_parent link_page_id child_index]. eapply runs_mono.
  - apply (IH st1 lvu Au su Cu hu fu u1 u2 sep id); try done.
    + by apply (at_node_frame st).
    + rewrite Hsame; [done|]. apply ids_In, elem_of_app. right. left.
    + by rewrite Hext, Hexp.
  - intros [] st' Hgr. rewrite !Hext, as_kids_app, <- HK1, <- !app_assoc in Hgr by set_solver.
    rewrite <- !app_assoc. exact Hgr.
Qed.

(** The parent takes the separator and the right half. *)
Lemma runs_into_parent link path st lv A s C h f r0 q1 sep f2 q2 :
  insert_spec path -> heap_ok c st -> at_node st (link :: path) lv A s C ->
  a_heap st !! s.2 = Some (NInt h f r0) -> key_good c sep -> a_disk_md st = a_md st ->
  room st (Z.of_nat (length (link :: path)) + 2) ->
  runs c (split_state st s.2 (split_header (link_page_id link) h) f q1 f2 q2)
    (into_parent (link :: path) sep (a_pages st)) (fun _ st' =>
      grown st st' ((A ++ s :: C) :: lv)
        (expand (a_heap st) A ++ as_kids s.1 f (q1 ++ (sep, f2) :: q2) ++ expand (a_heap st) C)
        (Z.of_nat (length (link :: path)) + 2)).
Proof.
  intros IH Hok Hat Hs Hsep Hdm Hroom. pose proof Hat as (Hp & Hint & Hnd). pose proof (NoDup_upper _ _ Hnd) as Hndl.
  apply NoDup_level in Hnd as (_ & _ & Hslv).
  assert (forall id, id ∈ ids lv -> id < a_pages st) as Hlow.
  { intros id [n Hid]%(path_ids_low _ _ _ _ _ _ _ _ Hat). destruct (proj2 Hok _ _ Hid). lia. }
  set (st1 := split_state st s.2 _ f q1 f2 q2). eapply runs_mono.
  - apply (runs_above link path st st1 lv A s C); try done.
    + intros id Hid. specialize (Hlow id Hid). cbn. rewrite !lookup_insert_ne; [done| |lia]. by intros <-.
    + apply Forall_forall. intros id (y & -> & Hy)%list_elem_of_fmap.
      eapply Forall_forall in Hint as (h' & f' & r' & Hy' & _); [|done]. by do 2 apply put_node_some.
    + cbn. by rewrite lookup_insert_eq.
    + split; [done|]. pose proof (tree_room_bound _ _ Hroom). destruct Hok. split; cbn; lia.
    + unfold room in *. cbn [a_pages st1 split_state put_node add_page]. cbn [length] in Hroom.
      eapply ps_room_le; [apply size_pos|exact Hroom|lia].
  - intros [] st' Hgr. replace (Z.of_nat (length (_ :: path)) + 2) with (Z.of_nat (length path) + 2 + 1) by (cbn; lia).
    by eapply (split_grown _ _ _ _ _ _ _ _ (split_header (link_page_id link) h)).
Qed.

Lemma insert_step path :
  match path with [] => True | _ :: path' => insert_spec path' end -> insert_spec path.
Proof.
  intros IH st lv A s C h f r1 r2 sep right Hat Hs Hkids Hright Hsep Hdm Hroom.
  apply runs_heap_ok. intros Hok. destruct (heap_ok_int _ _ _ _ _ Hok Hs) as (Hid & ? & Hf & Hn & Hr).
  set (r := r1 ++ (sep, right) :: r2).
  assert (Forall (child_good c) r) as Hgr.
  { apply Forall_app in Hr as [? ?]. apply Forall_app_2; [done|by constructor]. }
  assert (zlen r = zlen (r1 ++ r2) + 1) as Hlen by (unfold r; rewrite !zlen_app, zlen_cons; lia).
  rewrite expand_app, expand_cons, !fmap_app, (kids_as _ _ _ _ _ Hs), as_kids_ids in Hkids.
  apply Forall_app in Hkids as [_ [Hkids HkC]%Forall_app].
  assert (Forall (fun i => is_Some (a_heap st !! i)) (f :: r.*2)) as Hkr.
  { unfold r. rewrite fmap_app, fmap_cons, app_comm_cons. rewrite fmap_app, app_comm_cons in Hkids.
    apply Forall_app in Hkids as [? ?]. apply Forall_app_2; [done|by constructor]. }
  rewrite InsertIntoInternal_eq. rbind runs_load_internal. intros a st' [-> ->].
  cbv zeta. cbn [node_data separator_keys child_page_ids]. rewrite insert_child. fold r.
  rbind runs_this. intros t st' [-> Ht].
  rewrite (core_max_keys c C0 _ _ Ht). cbn [separator_keys]. rewrite (insert_child_count _ _ _ right). fold r.
  pose proof Hat as (_ & _ & Hnd). destruct (zlen r <=? max_keys c) eqn:Efit; zbool.
  - rbind runs_store_internal. intros _ st' ->. destruct Hright as [nr Hnr].
    assert (is_Some (a_heap (put_node s.2 (NInt (internal_header h r) f r) st) !! right)) as [nr' Hnr']
      by by apply put_node_some.
    eapply runs_mono; [by eapply runs_rewrite_child|]. intros _ st' ->.
    apply reshaped_grown; [done|done|lia|]. by eapply node_reshaped.
  - eapply runs_bind; [by eapply runs_RedistributeInternal|]. intros [] st'.
    { intros Hsh. apply runs_ret. apply reshaped_grown; [done|done|lia|done]. }
    intros [-> _]. assert (zlen r = max_keys c + 1) as Hfull by lia.
    destruct (full_split r Hfull) as (q1 & psep & f2 & q2 & Er & Hq1 & Hq1m & Hq2m).
    destruct path as [|link path].
    + eapply runs_mono; [by eapply runs_split_root|]. intros _ st' ->. rewrite Er. by apply root_split_grown.
    + assert (in_u64 (link_page_id link)) as Hlink.
      { destruct (path_up _ _ _ _ _ _ _ (proj1 Hat) (NoDup_upper _ _ Hnd))
          as (lvu & Au & su & Cu & hu & fu & u1 & u2 & K1 & _ & _ & -> & Hu & _).
        destruct (heap_ok_int _ _ _ _ _ Hok Hu) as [? _]. pose proof (tree_room_bound _ _ Hroom). split; cbn; lia. }
      eapply runs_split_inner; try done; [by eapply room_le; [done|lia]|].
      rewrite Er. eapply runs_into_parent; try done. rewrite Er in Hgr.
      by apply Forall_app in Hgr as [_ [[? _] _]%Forall_cons].
Qed.

Lemma runs_InsertIntoInternal path : insert_spec path.
Proof. induction path; by apply insert_step. Qed.
End insert.
