(* ===== verification/BStarTreeLeaves.v ===== *)
(** * Inserting into a leaf

    The changes an insertion makes at the leaf level: the entry goes into its
    leaf, into two neighbours that share their entries anew, or into the halves
    of a split leaf.  In each case the index represents the old entries and the
    new one, in order. *)

From stdpp Require Import sorting.
From S2P Require Import Prelude BinaryIO Values Serialization Disk PageStore KeyEncoder.
From S2P Require Import BStarTree BStarTreePages BStarTreeHeap BStarTreeLevels BStarTreeOrder BStarTreeSearch.
From S2P Require Import BStarTreeInsert.

(** Replacing the bound in front of a slot; the first slot has none. *)
Definition rebound (b : option Value) (key : Value) : option Value :=
  match b with None => None | Some _ => Some key end.

(** A node below a parent whose children changed. *)
Lemma path_after st st1 path lvu Au su Cu hu fu ru hu' r' K1 x K2 :
  at_node st path lvu Au su Cu -> a_md st1 = a_md st -> a_heap st !! su.2 = Some (NInt hu fu ru) ->
  (forall id, id ∈ ids ((Au ++ su :: Cu) :: lvu) -> id <> su.2 -> a_heap st1 !! id = a_heap st !! id) ->
  a_heap st1 !! su.2 = Some (NInt hu' fu r') -> is_root hu' = is_root hu -> as_kids su.1 fu r' = K1 ++ x :: K2 ->
  path_to (a_heap st1) (root_page_id (a_md st1)) (mkSearchPathEntry su.2 (zlen K1) :: path) ((Au ++ su :: Cu) :: lvu)
    (expand (a_heap st) Au ++ K1) x (K2 ++ expand (a_heap st) Cu).
Proof.
  intros (Hp & Hint & Hnd) Hmd Hu Hsame Hu' Hr EK. rewrite Hmd. pose proof (NoDup_level _ _ _ _ Hnd) as (HA & HC & Hlv).
  setoid_rewrite ids_cons in Hsame. setoid_rewrite elem_of_app in Hsame. setoid_rewrite elem_of_snd_app in Hsame.
  setoid_rewrite fmap_cons in Hsame. setoid_rewrite elem_of_cons in Hsame.
  apply Forall_app in Hint as [HiA [(h0 & f0 & r0 & Hu0 & Hr0) HiC]%Forall_cons].
  rewrite Hu in Hu0. injection Hu0 as <- <- <-.
  assert (forall id, id ∈ Au.*2 -> a_heap st1 !! id = a_heap st !! id) as EA by (intros; apply Hsame; [auto|congruence]).
  assert (forall id, id ∈ Cu.*2 -> a_heap st1 !! id = a_heap st !! id) as EC by (intros; apply Hsame; [auto|congruence]).
  rewrite <- (expand_ext _ _ _ EA), <- (expand_ext _ _ _ EC). apply path_down.
  - apply (path_to_frame (a_heap st)); [|done]. intros. apply Hsame; [auto|congruence].
  - apply Forall_app_2; [by apply (inner_ext (a_heap st))|]. constructor; [|by apply (inner_ext (a_heap st))].
    exists hu', fu, r'. split; [done|]. by rewrite Hr.
  - by rewrite (kids_as _ _ _ _ _ Hu').
Qed.

(** The separators above a node changed, and [path] still leads to it, at the
    slot [s]. *)
Definition repathed (st st' : astate) (path : list SearchPathEntry) (lv : list level) (A : level) (s : slot) (C : level)
  : Prop :=
  a_md st' = a_md st /\ a_disk_md st' = a_disk_md st /\ a_pages st' = a_pages st /\ only (ids lv) st st' /\
  exists lv', path_to (a_heap st') (root_page_id (a_md st')) path lv' A s C /\ ids lv' = ids lv /\ length lv' = length lv.

Lemma repathed_reshaped st st' path lv A s C : repathed st st' path lv A s C -> reshaped st st' lv (A ++ s :: C).
Proof.
  intros (? & ? & ? & ? & lv' & Hp & ? & ?). split_and!; try done. exists lv'. split_and!; try done.
  by eapply path_to_tree.
Qed.

Section leaves.
Context {P : Type} {PS : PageStore P} {PL : PageStoreLaws P}.
Context (c : config) (C0 : config_ok c).

Lemma inner_ids hp root S S' : S'.*2 = S.*2 -> Forall (inner hp root) S -> Forall (inner hp root) S'.
Proof.
  intros E HS. apply Forall_forall. intros s Hs. assert (s.2 ∈ S.*2) as (s' & Hs' & Hin)%list_elem_of_fmap
    by (rewrite <- E; by apply list_elem_of_fmap_2).
  eapply Forall_forall in HS as (h & f & r & ? & ?); [|done]. exists h, f, r. by rewrite Hs'.
Qed.

(** A change above a level leaves its nodes as they were. *)
Lemma repathed_down st st' path lv A b id C hu fu r K1 x K2 b0 :
  heap_ok c st -> repathed st st' path lv A (b, id) C ->
  Forall (inner (a_heap st) (root_page_id (a_md st))) (A ++ (b0, id) :: C) ->
  NoDup (ids ((A ++ (b0, id) :: C) :: lv)) ->
  a_heap st !! id = Some (NInt hu fu r) -> as_kids b fu r = K1 ++ x :: K2 ->
  repathed st st' (mkSearchPathEntry id (zlen K1) :: path) ((A ++ (b0, id) :: C) :: lv)
    (expand (a_heap st) A ++ K1) x (K2 ++ expand (a_heap st) C).
Proof.
  intros Hok (Hmd & Hdm & Hpg & Hon & lv' & Hp & Hid & Hlen) Hint Hnd Hu EK.
  assert ((A ++ (b, id) :: C).*2 = (A ++ (b0, id) :: C).*2) as Eids by by rewrite !fmap_app.
  assert (forall i, i ∈ (A ++ (b0, id) :: C).*2 -> a_heap st' !! i = a_heap st !! i) as Hsame.
  { intros i Hin. apply Hon; [|by apply (inner_ids_range _ _ _ _ Hok Hint)].
    rewrite ids_cons in Hnd. apply NoDup_app in Hnd as (_ & Hd & _). by apply Hd. }
  split_and!; try done.
  - intros i. rewrite ids_cons, elem_of_app. intros Hin. apply Hon. tauto.
  - exists ((A ++ (b, id) :: C) :: lv'). rewrite !ids_cons, Eids, Hid. cbn [length]. rewrite Hlen.
    rewrite fmap_app, fmap_cons in Hsame. setoid_rewrite elem_of_app in Hsame. setoid_rewrite elem_of_cons in Hsame.
    split_and!; try done. rewrite <- (expand_ext (a_heap st) (a_heap st') A), <- (expand_ext (a_heap st) (a_heap st') C) by auto.
    apply (path_down _ _ _ _ _ (b, id)); [done| |].
    + rewrite Hmd. apply (inner_ids _ _ (A ++ (b0, id) :: C)); [done|]. apply (inner_ext (a_heap st)); [|done].
      intros i. rewrite fmap_app, fmap_cons, elem_of_app, elem_of_cons. apply Hsame.
    + rewrite (kids_at _ _ _ hu fu r); [done|]. rewrite Hsame; [done|]. auto.
Qed.

Lemma as_kids_first b f u1 K1 s : K1 ++ [s] = as_kids b f u1 -> zlen u1 = 0 -> u1 = [] /\ K1 = [] /\ s = (b, f).
Proof.
  intros E Hn. destruct u1 as [|x u1]; [|rewrite zlen_cons in Hn; pose proof (zlen_nonneg u1); lia].
  split; [done|]. destruct K1 as [|k K1]; [by injection E as ->|]. by destruct K1.
Qed.
Lemma as_kids_later b f u1 K1 s :
  K1 ++ [s] = as_kids b f u1 -> zlen u1 <> 0 ->
  exists u v, u1 = u ++ [(v, s.2)] /\ K1 = as_kids b f u /\ s.1 = Some v /\ zlen u = zlen u1 - 1.
Proof.
  intros E Hn. destruct u1 as [|[v id] u _] using rev_ind; [done|]. rewrite as_kids_app in E.
  apply app_inj_tail in E as [-> ->]. exists u, v.
  rewrite zlen_app, zlen_cons, zlen_nil. split_and!; try done. lia.
Qed.

Lemma runs_UpdateParentSeparator path : forall st lv A s C key,
  path_to (a_heap st) (root_page_id (a_md st)) path lv A s C -> NoDup (ids lv) -> key_good c key ->
  runs c st (UpdateParentSeparatorAfterChildChange path key) (fun _ st' =>
    repathed st st' path lv A (rebound s.1 key, s.2) C).
Proof.
  induction path as [|link path IH]; intros st lv A s C key Hp Hnd Hkey;
    cbn [UpdateParentSeparatorAfterChildChange].
  - inversion Hp; subst. apply runs_ret. split_and!; try done. exists []. split_and!; done.
  - destruct (path_up _ _ _ _ _ _ _ Hp Hnd)
      as (lvu & Au & su & Cu & hu & fu & u1 & u2 & K1 & -> & Hat & -> & Hu & -> & HK1 & ->).
    cbn [child_index link_page_id]. destruct (zlen u1 =? 0) eqn:E0; zbool.
    + destruct (as_kids_first _ _ _ _ _ HK1 E0) as (-> & -> & ->). pose proof Hat as (Hpu & Hint & Hndu).
      apply runs_heap_ok. intros Hok. eapply runs_mono; [apply IH; [done|by eapply NoDup_upper|done]|].
      intros [] st' Hre. rewrite (surjective_pairing su) in Hint, Hndu |- *.
      by apply (repathed_down _ _ _ _ _ _ _ _ hu fu u2 [] (rebound su.1 key, fu) (behind <$> u2) su.1 Hok Hre).
    + destruct (as_kids_later _ _ _ _ _ HK1 E0) as (u & v & -> & -> & Hb & Hlen). rewrite Hb. cbn [rebound].
      rewrite <- app_assoc in Hu. cbn [app] in Hu.
      apply runs_heap_ok. intros Hok. destruct (heap_ok_int _ _ _ _ _ _ Hok Hu) as (? & ? & ? & ? & Hg).
      rbind runs_load_internal. intros a st' [-> ->]. cbn [node_data separator_keys child_page_ids].
      rewrite <- Hlen, set_separator.
      eapply runs_mono; [apply runs_store_internal; try done|].
      * by rewrite zlen_app, zlen_cons in H2 |- *.
      * apply Forall_app in Hg as [? [[_ ?] ?]%Forall_cons].
        apply Forall_app_2; [done|]. by constructor.
      * intros [] st' ->. set (r' := u ++ (key, s.2) :: u2). set (h' := internal_header hu r').
        pose proof (node_reshaped _ _ _ _ _ _ _ _ _ h' r' Hat Hu eq_refl) as (? & ? & ? & ? & _).
        split_and!; try done. eexists. split_and!; [|done|done].
        replace (zlen (u ++ [(v, s.2)])) with (zlen (as_kids su.1 fu u))
          by (unfold as_kids; rewrite zlen_app, !zlen_cons, zlen_fmap, zlen_nil; lia).
        eapply (path_after st); [done|done|exact Hu| |apply lookup_insert_eq|done|].
        -- intros i _ Hne. by apply lookup_insert_ne.
        -- unfold r'. by rewrite as_kids_app.
Qed.
End leaves.

(** ** From the inner levels to the leaves *)

Lemma reshaped_refl st lv T : tree (a_heap st) (root_page_id (a_md st)) lv T -> reshaped st st lv T.
Proof. intros Ht. split_and!; try done. by exists lv. Qed.

Lemma leaf_ext hp hp' root L :
  (forall id, id ∈ L.*2 -> hp' !! id = hp !! id) -> Forall (leaf hp root) L -> Forall (leaf hp' root) L.
Proof.
  intros Hid HL. apply Forall_forall. intros s Hs. eapply Forall_forall in HL as (h & es & E & Hr); [|done].
  exists h, es. rewrite Hid; [done|]. by apply list_elem_of_fmap_2.
Qed.

(** The leaves [T] are in place below the inner levels [lv]. *)
Record linked (st : astate) (root : Z) (lv : list level) (T : level) : Prop := {
  li_leaf : Forall (leaf (a_heap st) root) T;
  li_nodup : NoDup T.*2;
  li_range : forall id, id ∈ T.*2 -> id ∉ ids lv /\ id < a_pages st;
  li_chain : chain (a_heap st) T InvalidPageId;
  li_first : first_leaf_page_id (a_md st) = head_id T InvalidPageId
}.

Lemma tree_at_linked c st lv L :
  heap_ok c st -> tree_at st lv L -> linked st (root_page_id (a_md st)) lv L.
Proof.
  intros [_ Hh] ([Ht Hl Hnd Hc Hs] & Hf & _). rewrite ids_cons in Hnd. apply NoDup_app in Hnd as (Hnd & Hdis & _).
  split; try done. intros id Hid. split; [by apply Hdis|].
  destruct (leaf_ids_heap _ _ _ _ Hl Hid) as [n Hn]. destruct (Hh _ _ Hn). lia.
Qed.

Lemma tree_at_height c st lv L :
  heap_ok c st -> tree_at st lv L -> a_pages st < 2 ^ 63 -> Z.of_nat (length lv) + 1 < 2 ^ 63.
Proof.
  intros Hok (HR & _) Hlow. pose proof (tree_rep_fuel c st lv L Hok HR).
  pose proof (tree_nonempty _ _ _ _ (tr_tree _ _ _ _ HR)). destruct L; [done|]. cbn in *. lia.
Qed.

(** The inner levels grew above leaves that are in place. *)
Lemma grown_tree_at st st' lv T n :
  grown st st' lv T n -> linked st (root_page_id (a_md st')) lv T -> sorted (marks (a_heap st) T) ->
  tree_height (a_md st) = Z.of_nat (length lv) + 1 -> Z.of_nat (length lv) + 1 < 2 ^ 63 ->
  exists lv', tree_at st' lv' T /\ contents (a_heap st') T = contents (a_heap st) T /\
    (length lv' <= S (length lv))%nat.
Proof.
  intros ((_ & Hfst & _) & _ & _ & Hon & lv' & Ht & Hnd & Hids & Hheight & Hmore) [Hl HndT Hrange Hch Hfirst] Hso Hh Hlow.
  assert (forall id, id ∈ T.*2 -> a_heap st' !! id = a_heap st !! id) as Hsame.
  { intros id Hid. destruct (Hrange id Hid). by apply Hon. }
  destruct (leaves_ext _ _ _ Hsame) as [Hm Hc]. exists lv'. split; [|done]. split_and!.
  - split; [done|by eapply leaf_ext| |by eapply chain_ext|by rewrite Hm].
    rewrite ids_cons. apply NoDup_app. split_and!; [done| |done]. intros id Hid Hid'.
    destruct (Hrange id Hid) as [? ?]. destruct (Hids id Hid'); [done|lia].
  - congruence.
  - rewrite (Hheight 1); lia.
Qed.

(** ** Leaves of a level *)

Lemma chain_mid hp A s C e :
  chain hp (A ++ s :: C) e <->
  chain hp A s.2 /\ (exists h es, hp !! s.2 = Some (NLeaf h es) /\ next_leaf_page_id h = head_id C e) /\ chain hp C e.
Proof. rewrite chain_app. done. Qed.

Lemma marks_mid hp A s C h es :
  hp !! s.2 = Some (NLeaf h es) -> marks hp (A ++ s :: C) = marks hp A ++ marks_of s.1 es ++ marks hp C.
Proof. intros E. by rewrite marks_app, marks_cons, (leaf_entries _ _ _ _ E). Qed.
Lemma contents_mid hp A s C h es :
  hp !! s.2 = Some (NLeaf h es) -> contents hp (A ++ s :: C) = contents hp A ++ es ++ contents hp C.
Proof. intros E. by rewrite contents_app, contents_cons, (leaf_entries _ _ _ _ E). Qed.

(** Only the pages of the slots matter to the links. *)
Lemma head_id_ids T T' e : T'.*2 = T.*2 -> head_id T' e = head_id T e.
Proof. destruct T, T'; cbn; congruence. Qed.
Lemma chain_ids hp T T' e : T'.*2 = T.*2 -> chain hp T e -> chain hp T' e.
Proof.
  revert T'. induction T as [|s T IH]; intros [|s' T'] E; try done. injection E as E1 E2.
  intros [(h & es & ? & ?) Hc]. split; [|by apply IH]. exists h, es. by rewrite E1, (head_id_ids T).
Qed.
Lemma linked_ids st root lv T T' : T'.*2 = T.*2 -> linked st root lv T -> linked st root lv T'.
Proof.
  intros E [Hl Hnd Hr Hc Hf]. split; try rewrite E; try done.
  - apply Forall_forall. intros s Hs. assert (s.2 ∈ T.*2) as (s' & Hs' & Hin)%list_elem_of_fmap
      by (rewrite <- E; by apply list_elem_of_fmap_2).
    eapply Forall_forall in Hl as (h & es & ? & ?); [|done]. exists h, es. by rewrite Hs'.
  - by eapply chain_ids.
  - by rewrite (head_id_ids T).
Qed.

(** Writing a page that is no leaf, and a leaf with the same links. *)
Lemma linked_other st root lv T id n : id ∉ T.*2 -> linked st root lv T -> linked (put_node id n st) root lv T.
Proof.
  intros Hid [Hl Hnd Hr Hc Hf].
  assert (forall i, i ∈ T.*2 -> a_heap (put_node id n st) !! i = a_heap st !! i) as Hsame
    by (intros i Hi; apply lookup_insert_ne; by intros <-).
  split; try done; [by eapply leaf_ext|by eapply chain_ext].
Qed.
Lemma linked_leaf st root lv A s C h es h' es' :
  linked st root lv (A ++ s :: C) -> a_heap st !! s.2 = Some (NLeaf h es) ->
  next_leaf_page_id h' = next_leaf_page_id h -> is_root h' = is_root h ->
  linked (put_node s.2 (NLeaf h' es') st) root lv (A ++ s :: C).
Proof.
  intros [Hl Hnd Hr Hc Hf] Hs Hnx Hrt.
  assert (forall i, i ∈ A.*2 \/ i ∈ C.*2 -> a_heap (put_node s.2 (NLeaf h' es') st) !! i = a_heap st !! i) as Hsame.
  { intros i Hi. apply lookup_insert_ne. intros <-. rewrite fmap_app, fmap_cons, NoDup_app, NoDup_cons in Hnd.
    destruct Hnd as (_ & Hd & Hn & _). destruct Hi as [Hi|Hi]; [|done]. apply (Hd _ Hi). left. }
  split; try done.
  - apply Forall_app in Hl as [HlA [(h0 & es0 & Hs0 & Hr0) HlC]%Forall_cons]. rewrite Hs in Hs0. injection Hs0 as <- <-.
    apply Forall_app_2; [by apply (leaf_ext (a_heap st)); auto|]. constructor; [|by apply (leaf_ext (a_heap st)); auto].
    exists h', es'. split; [apply lookup_insert_eq|]. by rewrite Hrt.
  - apply chain_mid in Hc as (HcA & (h0 & es0 & Hs0 & Hn0) & HcC). rewrite Hs in Hs0. injection Hs0 as <- <-.
    apply chain_mid. split_and!; [by apply (chain_ext (a_heap st)); auto| |by apply (chain_ext (a_heap st)); auto].
    exists h', es'. split; [apply lookup_insert_eq|congruence].
Qed.

(** ** The leaf a key belongs to *)

Record at_leaf (st : astate) (path : list SearchPathEntry) (lv : list level) (A : level) (s : slot) (C : level)
    (h : NodeHeader) (es : list LeafEntry) : Prop := {
  al_tree : tree_at st lv (A ++ s :: C);
  al_path : path_to (a_heap st) (root_page_id (a_md st)) path lv A s C;
  al_node : a_heap st !! s.2 = Some (NLeaf h es);
  al_disk : a_disk_md st = a_md st;
  al_low : a_pages st < 2 ^ 63
}.

(** The entries with the new one, as marks and as a list. *)
Lemma insert_marks hp A s C es key rid :
  sorted (marks hp A ++ marks_of s.1 es ++ marks hp C) -> Forall (fun s => is_Some s.1) C -> covers key s C ->
  find_key es key = None ->
  sorted (marks hp A ++ marks_of s.1 (add_key es key rid) ++ marks hp C).
Proof.
  intros Hs Hb [Hle Hbelow] Hf. destruct (add_key_split es key rid Hf) as (es1 & es2 & -> & _ & -> & H1 & H2).
  apply sorted_insert_entry; try done. by apply next_bound_marks.
Qed.
Lemma insert_contents st path lv A s C h es key rid :
  at_leaf st path lv A s C h es -> covers key s C ->
  add_key (contents (a_heap st) (A ++ s :: C)) key rid =
    contents (a_heap st) A ++ add_key es key rid ++ contents (a_heap st) C.
Proof.
  intros [([Ht _ _ _ Hs] & _) _ Hn _] [Hle Hbelow]. rewrite (contents_mid _ _ _ _ _ _ Hn).
  apply add_key_mid; [by eapply covered_left|]. pose proof (tree_tail_bounded _ _ _ _ _ _ Ht).
  rewrite marks_app, marks_cons in Hs. apply covered_right; [|by apply next_bound_marks].
  by apply StronglySorted_app_1_r, StronglySorted_app_1_r in Hs.
Qed.

(** The tree of [st'] holds [es] below at most one inner level more than the [k]
    of before, and at most [n] pages were added. *)
Definition holds (st st' : astate) (k : nat) (es : list LeafEntry) (n : Z) : Prop :=
  same_but_root (a_md st) (a_md st') /\ a_disk_md st' = a_md st' /\
  a_pages st <= a_pages st' <= a_pages st + n /\
  exists lv L, tree_at st' lv L /\ contents (a_heap st') L = es /\ (length lv <= S k)%nat.

Lemma grown_holds st st1 st' lv T n k es :
  grown st1 st' lv T n -> linked st1 (root_page_id (a_md st')) lv T -> sorted (marks (a_heap st1) T) ->
  a_md st1 = a_md st -> a_pages st <= a_pages st1 <= a_pages st + k ->
  tree_height (a_md st) = Z.of_nat (length lv) + 1 -> Z.of_nat (length lv) + 1 < 2 ^ 63 ->
  contents (a_heap st1) T = es -> holds st st' (length lv) es (n + k).
Proof.
  intros Hg Hl Hs Hmd Hpg Hh Hlow Hes. rewrite <- Hmd in Hh.
  destruct (grown_tree_at _ _ _ _ _ Hg Hl Hs Hh Hlow) as (lv' & Hat & Hc & Hmore).
  pose proof Hg as (Hsm & Hdm & Hpg' & _). split_and!; [by rewrite <- Hmd|done|lia|lia|].
  exists lv', T. split_and!; [done|congruence|done].
Qed.

(** A leaf and its links after its entries changed. *)
Lemma put_leaf_marks st A s b C h es :
  NoDup (A ++ s :: C).*2 ->
  let st1 := put_node s.2 (NLeaf h es) st in
  marks (a_heap st1) (A ++ (b, s.2) :: C) = marks (a_heap st) A ++ marks_of b es ++ marks (a_heap st) C /\
  contents (a_heap st1) (A ++ (b, s.2) :: C) = contents (a_heap st) A ++ es ++ contents (a_heap st) C.
Proof.
  cbv zeta. rewrite fmap_app, fmap_cons, NoDup_app, NoDup_cons. intros (_ & HA & HC & _).
  set (hp' := a_heap _). assert (hp' !! (b, s.2).2 = Some (NLeaf h es)) as Hn by apply lookup_insert_eq.
  rewrite (marks_mid _ _ _ _ _ _ Hn), (contents_mid _ _ _ _ _ _ Hn).
  destruct (leaves_ext (a_heap st) hp' A) as [-> ->].
  { intros i Hi. apply lookup_insert_ne. intros <-. apply (HA _ Hi). left. }
  destruct (leaves_ext (a_heap st) hp' C) as [-> ->]; [|done].
  intros i Hi. apply lookup_insert_ne. by intros <-.
Qed.

Lemma at_leaf_nodup st path lv A s C h es :
  at_leaf st path lv A s C h es -> NoDup (A ++ s :: C).*2 /\ NoDup (ids lv) /\ s.2 ∉ ids lv.
Proof.
  intros [([_ _ Hnd _ _] & _) _ _ _]. split_and!.
  - rewrite ids_cons in Hnd. by apply NoDup_app in Hnd as (? & _).
  - by eapply NoDup_upper.
  - by apply NoDup_level in Hnd as (_ & _ & ?).
Qed.
Lemma at_leaf_sorted st path lv A s C h es :
  at_leaf st path lv A s C h es ->
  sorted (marks (a_heap st) A ++ marks_of s.1 es ++ marks (a_heap st) C) /\ Forall (fun s => is_Some s.1) C.
Proof.
  intros [([Ht _ _ _ Hs] & _) _ Hn _]. rewrite (marks_mid _ _ _ _ _ _ Hn) in Hs. split; [done|].
  by eapply tree_tail_bounded.
Qed.

(** Storing other entries in a leaf. *)
Lemma at_leaf_stored c st path lv A s C h es es' :
  heap_ok c st -> at_leaf st path lv A s C h es ->
  sorted (marks (a_heap st) A ++ marks_of s.1 es' ++ marks (a_heap st) C) ->
  let h' := leaf_header h es' in
  at_leaf (put_node s.2 (NLeaf h' es') st) path lv A s C h' es'.
Proof.
  intros Hok Hat Hs h'. destruct (at_leaf_nodup _ _ _ _ _ _ _ _ Hat) as (Hnd & _ & Hslv).
  destruct Hat as [Ht Hp Hn Hd]. pose proof (tree_at_linked c st lv _ Hok Ht) as Hl.
  pose proof (linked_leaf _ _ _ _ _ _ _ _ h' es' Hl Hn eq_refl eq_refl) as [Hl1 _ _ Hc1 _].
  destruct Ht as ([Ht _ Hndi _ _] & Hf & Hh).
  assert (forall id, id ∈ ids lv -> a_heap (put_node s.2 (NLeaf h' es') st) !! id = a_heap st !! id) as Hsame
    by (intros id Hid; apply lookup_insert_ne; by intros <-).
  split; [split_and!; [split|..]|..]; try done.
  - by eapply tree_frame.
  - destruct (put_leaf_marks st A s s.1 C h' es' Hnd) as [Em _]. rewrite <- surjective_pairing in Em. by rewrite Em.
  - by eapply path_to_frame.
  - apply lookup_insert_eq.
Qed.
Lemma at_leaf_holds st path lv A s C h es :
  at_leaf st path lv A s C h es -> holds st st (length lv) (contents (a_heap st) (A ++ s :: C)) 0.
Proof.
  intros [Ht _ _ Hd]. unfold holds, same_but_root. split_and!; try done; try lia.
  exists lv, (A ++ s :: C). split_and!; [done|done|lia].
Qed.

Lemma sorted_rebound l1 b e es l2 :
  sorted (l1 ++ marks_of b (e :: es) ++ l2) -> sorted (l1 ++ marks_of (rebound b (entry_key e)) (e :: es) ++ l2).
Proof. destruct b as [v|]; [|done]. cbn. apply sorted_raise_bound. Qed.

(** ** Two neighbouring leaves *)

Lemma pair_marks hp hp' A i1 i2 C b1 b2 h1 h2 es1 es2 :
  (forall id, id ∈ A.*2 \/ id ∈ C.*2 -> hp' !! id = hp !! id) ->
  hp' !! i1 = Some (NLeaf h1 es1) -> hp' !! i2 = Some (NLeaf h2 es2) ->
  marks hp' (A ++ (b1, i1) :: (b2, i2) :: C) = marks hp A ++ marks_of b1 es1 ++ marks_of b2 es2 ++ marks hp C /\
  contents hp' (A ++ (b1, i1) :: (b2, i2) :: C) = contents hp A ++ (es1 ++ es2) ++ contents hp C.
Proof.
  intros Hid H1 H2. rewrite marks_app, !marks_cons, contents_app, !contents_cons.
  rewrite (leaf_entries hp' (b1, i1) _ _ H1), (leaf_entries hp' (b2, i2) _ _ H2).
  destruct (leaves_ext hp hp' A) as [-> ->]; [auto|]. destruct (leaves_ext hp hp' C) as [-> ->]; [auto|].
  by rewrite <- app_assoc.
Qed.

(** Moving the border between two leaves. *)
Lemma sorted_move_border l1 b es psep rs l2 l e r :
  sorted (l1 ++ marks_of b es ++ marks_of psep rs ++ l2) -> es ++ rs = l ++ e :: r ->
  sorted (l1 ++ marks_of b l ++ marks_of (Some (entry_key e)) (e :: r) ++ l2).
Proof.
  unfold marks_of. rewrite <- !app_comm_cons. intros Hs E.
  rewrite app_comm_cons, app_assoc in Hs. apply sorted_drop in Hs.
  rewrite <- app_assoc, <- app_comm_cons, app_assoc, <- fmap_app, E, fmap_app, fmap_cons in Hs.
  rewrite <- app_assoc, <- app_comm_cons, app_comm_cons, app_assoc in Hs. apply sorted_add_bound in Hs.
  by rewrite <- app_assoc in Hs.
Qed.

Section insert_leaf.
Context {P : Type} {PS : PageStore P} {PL : PageStoreLaws P}.
Context (c : config) (C0 : config_ok c).

(** The first key of a leaf becomes the separator in front of it. *)
Lemma runs_rebound st path lv A s C h e es :
  at_leaf st path lv A s C h (e :: es) -> key_good c (entry_key e) ->
  runs c st (UpdateParentSeparatorAfterChildChange path (entry_key e))
    (fun _ st' => holds st st' (length lv) (contents (a_heap st) (A ++ s :: C)) 0).
Proof.
  intros Hat Hkey. apply runs_heap_ok. intros Hok. destruct (at_leaf_nodup _ _ _ _ _ _ _ _ Hat) as (Hnd & Hndl & _).
  destruct (at_leaf_sorted _ _ _ _ _ _ _ _ Hat) as [Hso _]. destruct Hat as [Ht Hp Hn Hd Hlow].
  pose proof (tree_at_height c st lv _ Hok Ht Hlow).
  eapply runs_mono; [by eapply runs_UpdateParentSeparator|]. intros [] st' Hre%repathed_reshaped.
  pose proof (tree_at_linked c st lv _ Hok Ht) as Hl. destruct Ht as (_ & Hf & Hh).
  pose proof Hre as (Hmd & _). eapply (grown_holds st st st' lv (A ++ (rebound s.1 (entry_key e), s.2) :: C) 0 0); try done; [..|lia|].
  - by apply reshaped_grown.
  - rewrite Hmd. eapply linked_ids; [|done]. by rewrite !fmap_app.
  - rewrite (marks_mid _ _ (_, _) _ _ _ Hn). by apply sorted_rebound.
  - by rewrite (contents_mid _ _ (_, _) _ _ _ Hn), (contents_mid _ _ _ _ _ _ Hn).
Qed.

Lemma heap_ok_leaf st id h es :
  heap_ok c st -> a_heap st !! id = Some (NLeaf h es) ->
  0 < id < a_pages st /\ links_ok h /\ zlen es <= max_keys c /\ Forall (entry_good c) es.
Proof. intros [_ Hh] E. destruct (Hh _ _ E) as (? & _ & ? & ? & ?). auto. Qed.

Abbreviation min_keys := (c_degree c - 1).

(** Which splits [RedistributeLeafWithRightSibling] accepts. *)
Lemma LeafSplitFits_eq st (t : BStarTree P) li ri lh rh l r :
  core c st t -> Forall (entry_good c) (l ++ r) ->
  LeafSplitFits t li ri lh rh (l ++ r) (zlen l) (zlen r) =
    (min_keys <=? zlen l) && (zlen l <=? max_keys c) && (min_keys <=? zlen r) && (zlen r <=? max_keys c).
Proof.
  intros Ht [Hl Hr]%Forall_app. unfold LeafSplitFits. rewrite ztake_app_eq, zdrop_app_eq by done.
  rewrite (core_min_keys c C0 _ _ Ht), (core_max_keys c C0 _ _ Ht). destruct Ht as (_ & -> & _).
  rewrite !Z.leb_antisym. destruct (zlen l <? min_keys) eqn:E1; [done|]. destruct (max_keys c <? zlen l) eqn:E2; [done|].
  destruct (zlen r <? min_keys) eqn:E3; [done|]. destruct (max_keys c <? zlen r) eqn:E4; [done|].
  cbn [orb negb andb]. zbool. by rewrite !build_leaf by done.
Qed.

Lemma ChooseBalancedSplit_cases st (t : BStarTree P) li ri lh rh es :
  core c st t -> Forall (entry_good c) es ->
  match ChooseBalancedSplit (zlen es) (LeafSplitFits t li ri lh rh es) with
  | Some m => exists e0 l e r, es = (e0 :: l) ++ e :: r /\ zlen (e0 :: l) = m /\
      zlen (e0 :: l) <= max_keys c /\ zlen (e :: r) <= max_keys c
  | None => zlen es < 2 * min_keys \/ 2 * max_keys c < zlen es
  end.
Proof.
  intros Ht He. destruct (co_degree _ C0) as [Hdeg _].
  pose proof (ChooseBalancedSplit_spec (zlen es) (LeafSplitFits t li ri lh rh es)) as Hsp.
  destruct (ChooseBalancedSplit _ _) as [m|].
  - destruct Hsp as (Hm & Hf & _). destruct (split_at es m) as (l & e & r & -> & <-); [lia|].
    destruct l as [|e0 l]; [rewrite zlen_nil in Hm; lia|]. exists e0, l, e, r. unfold split_candidate in Hf.
    replace (zlen ((e0 :: l) ++ e :: r) - zlen (e0 :: l)) with (zlen (e :: r)) in Hf by (rewrite zlen_app; lia).
    rewrite (LeafSplitFits_eq st) in Hf by done. zbool. done.
  - destruct (decide (zlen es < 2 * min_keys)) as [|Hlo]; [by left|]. right. apply Z.lt_nge. intros Hhi.
    set (m := Z.max min_keys (zlen es - max_keys c)). unfold max_keys in *.
    destruct (split_at es m) as (l & e & r & E & Hl); [lia|].
    apply (Hsp (zlen l)); [lia|]. unfold split_candidate.
    replace (zlen es - zlen l) with (zlen (e :: r)) by (rewrite E, zlen_app; lia).
    assert (zlen es = zlen l + zlen (e :: r)) by (rewrite E, zlen_app; lia).
    rewrite E in He |- *. rewrite (LeafSplitFits_eq st) by done. unfold max_keys.
    rewrite !andb_true_iff, !Z.leb_le. lia.
Qed.

(** The writes that let two leaves share their entries. *)
Definition shared_leaves (st : astate) (li ri ui : Z) (h hR hu : NodeHeader) (fu : Z) (l r : list LeafEntry)
    (ru : list (Value * Z)) : astate :=
  put_node ui (NInt (internal_header hu ru) fu ru)
    (put_node ri (NLeaf (leaf_header hR r) r) (put_node li (NLeaf (leaf_header (set_next ri h) l) l) st)).

Definition leaf_size (st : astate) (id : Z) : option Z :=
  match a_heap st !! id with Some (NLeaf _ es) => Some (zlen es) | _ => None end.

(** What the writes leave behind: the path to the left leaf, and both leaves in
    their places with the entries [l] and [e :: r]. *)
Lemma shared_leaves_path st path lvu Au su Cu hu fu u1 psep rid u2 K1 h hR l e r s :
  at_node st path lvu Au su Cu -> a_heap st !! su.2 = Some (NInt hu fu (u1 ++ (psep, rid) :: u2)) ->
  K1 ++ [s] = as_kids su.1 fu u1 ->
  s.2 ∉ ids ((Au ++ su :: Cu) :: lvu) -> rid ∉ ids ((Au ++ su :: Cu) :: lvu) ->
  let st1 := shared_leaves st s.2 rid su.2 h hR hu fu l (e :: r) (u1 ++ (entry_key e, rid) :: u2) in
  path_to (a_heap st1) (root_page_id (a_md st1)) (mkSearchPathEntry su.2 (zlen u1) :: path)
    ((Au ++ su :: Cu) :: lvu) (expand (a_heap st) Au ++ K1) s
    ((Some (entry_key e), rid) :: (behind <$> u2) ++ expand (a_heap st) Cu).
Proof.
  intros Hat Hu HK1 Hs Hr st1.
  assert (zlen u1 = zlen K1) as ->.
  { apply (f_equal zlen) in HK1. unfold as_kids in HK1. rewrite zlen_app, !zlen_cons, zlen_nil, zlen_fmap in HK1. lia. }
  rewrite app_comm_cons. eapply (path_after st st1); [done|done|done| |apply lookup_insert_eq|done|].
  - intros id Hid Hne. cbn. rewrite !lookup_insert_ne; [done|..]; congruence.
  - rewrite as_kids_app, <- HK1, <- app_assoc. done.
Qed.

Lemma shared_leaves_linked st lv A s psep rid C h es hR rs ui hu fu l e r ru :
  linked st (root_page_id (a_md st)) lv (A ++ s :: (Some psep, rid) :: C) ->
  a_heap st !! s.2 = Some (NLeaf h es) -> a_heap st !! rid = Some (NLeaf hR rs) -> ui ∈ ids lv ->
  let st1 := shared_leaves st s.2 rid ui h hR hu fu l (e :: r) ru in
  linked st1 (root_page_id (a_md st1)) lv (A ++ s :: (Some (entry_key e), rid) :: C).
Proof.
  intros Hl Hs Hr Hui st1. apply (linked_ids _ _ _ (A ++ s :: (Some psep, rid) :: C)); [by rewrite !fmap_app|].
  apply linked_other.
  { intros Hin. by apply (li_range _ _ _ _ Hl) in Hin as [? _]. }
  pose proof (li_chain _ _ _ _ Hl) as (_ & (h0 & es0 & Hs0 & Hnx) & _)%chain_mid. rewrite Hs in Hs0. injection Hs0 as <- <-.
  assert (s.2 <> rid) as Hne.
  { pose proof (li_nodup _ _ _ _ Hl) as Hnd. rewrite fmap_app, !fmap_cons, NoDup_app, NoDup_cons in Hnd.
    destruct Hnd as (_ & _ & Hn & _). intros E. apply Hn. rewrite E. left. }
  rewrite cons_middle, app_assoc. apply (linked_leaf _ _ _ _ (Some psep, rid) _ hR rs); try done.
  - rewrite <- app_assoc. eapply linked_leaf; [done|done| |done]. cbn. by rewrite Hnx.
  - cbn. by rewrite lookup_insert_ne.
Qed.

Lemma shared_leaves_holds st st' lv A s psep rid C h es hR rs es' e0 l e r ui hu fu ru b' :
  let hp := a_heap st in
  let st1 := shared_leaves st s.2 rid ui h hR hu fu (e0 :: l) (e :: r) ru in
  heap_ok c st -> tree_at st lv (A ++ s :: (Some psep, rid) :: C) -> a_disk_md st = a_md st -> a_pages st < 2 ^ 63 ->
  hp !! s.2 = Some (NLeaf h es) -> hp !! rid = Some (NLeaf hR rs) -> ui ∈ ids lv ->
  sorted (marks hp A ++ marks_of s.1 es' ++ marks hp ((Some psep, rid) :: C)) ->
  es' ++ rs = (e0 :: l) ++ e :: r -> b' = s.1 \/ b' = rebound s.1 (entry_key e0) ->
  reshaped st1 st' lv (A ++ (b', s.2) :: (Some (entry_key e), rid) :: C) ->
  holds st st' (length lv) (contents hp A ++ es' ++ contents hp ((Some psep, rid) :: C)) 0.
Proof.
  cbv zeta. intros Hok Ht Hd Hlow Hs Hr Hui Hso E Hb Hre. pose proof Hre as (Hmd & _).
  pose proof (tree_at_height c st lv _ Hok Ht Hlow).
  pose proof (tree_at_linked c st lv _ Hok Ht) as Hl. pose proof Ht as ([_ _ Hnd _ _] & _ & Hh).
  pose proof (shared_leaves_linked _ _ _ _ _ _ _ _ _ _ _ _ hu fu (e0 :: l) e r ru Hl Hs Hr Hui) as Hl1.
  set (st1 := shared_leaves _ _ _ _ _ _ _ _ _ _ _) in *.
  pose proof (NoDup_two _ _ _ _ _ Hnd) as (Hne & Hsep & Hlv). destruct (Hsep ui ltac:(auto)) as [Hus Hur].
  cbn [snd] in Hne, Hur. destruct (pair_marks (a_heap st) (a_heap st1) A s.2 rid C b' (Some (entry_key e))
    (leaf_header (set_next rid h) (e0 :: l)) (leaf_header hR (e :: r)) (e0 :: l) (e :: r)) as [Hm Hc].
  { intros id Hid. destruct (Hsep id) as [? ?]; [tauto|]. cbn [snd] in *.
    assert (id <> ui).
    { intros ->. apply (Hlv ui); [|done]. rewrite fmap_app, !fmap_cons, elem_of_app, !elem_of_cons. tauto. }
    cbn. by rewrite !lookup_insert_ne by congruence. }
  { cbn [a_heap st1 shared_leaves put_node]. rewrite (lookup_insert_ne _ ui), (lookup_insert_ne _ rid) by congruence.
    apply lookup_insert_eq. }
  { cbn [a_heap st1 shared_leaves put_node]. rewrite (lookup_insert_ne _ ui) by congruence. apply lookup_insert_eq. }
  rewrite marks_cons, (leaf_entries _ (_, rid) _ _ Hr) in Hso. cbn [fst] in Hso.
  eapply (grown_holds st st1 st' lv (A ++ (b', s.2) :: (Some (entry_key e), rid) :: C) 0 0); try done.
  - apply reshaped_grown; [done|by eapply NoDup_upper|done|done].
  - rewrite Hmd. eapply linked_ids; [|done]. by rewrite !fmap_app.
  - rewrite Hm. pose proof (sorted_move_border _ _ _ _ _ _ _ _ _ Hso E) as Hso'.
    destruct Hb as [->| ->]; [done|]. by apply sorted_rebound.
  - cbn. lia.
  - rewrite Hc, <- E, contents_cons, (leaf_entries _ (_, rid) _ _ Hr). by rewrite <- !app_assoc.
Qed.

(** The path and the border after the writes, with the separators above the left
    leaf brought up to date when it is the first child. *)
Lemma runs_share_leaves st path lvu Au su Cu hu fu u1 psep rid u2 K1 s h es hR rs es' e0 l e r :
  let lv := (Au ++ su :: Cu) :: lvu in
  let hp := a_heap st in
  let A := expand hp Au ++ K1 in
  let C := (behind <$> u2) ++ expand hp Cu in
  let ru := u1 ++ (entry_key e, rid) :: u2 in
  at_node st path lvu Au su Cu -> hp !! su.2 = Some (NInt hu fu (u1 ++ (psep, rid) :: u2)) ->
  K1 ++ [s] = as_kids su.1 fu u1 -> tree_at st lv (A ++ s :: (Some psep, rid) :: C) -> a_disk_md st = a_md st -> a_pages st < 2 ^ 63 ->
  hp !! s.2 = Some (NLeaf h es) -> hp !! rid = Some (NLeaf hR rs) ->
  sorted (marks hp A ++ marks_of s.1 es' ++ marks hp ((Some psep, rid) :: C)) ->
  es' ++ rs = (e0 :: l) ++ e :: r -> Forall (entry_good c) (es' ++ rs) ->
  zlen (e0 :: l) <= max_keys c -> zlen (e :: r) <= max_keys c ->
  runs c st
    (_ ← StoreLeaf s.2 (set_next rid h) (e0 :: l);
     _ ← StoreLeaf rid hR (e :: r);
     front ← at_index (e :: r) 0;
     _ ← StoreInternal su.2 hu
           (mkInternalNodeData (zset (zlen u1) (entry_key front) (u1 ++ (psep, rid) :: u2).*1)
              (fu :: (u1 ++ (psep, rid) :: u2).*2));
     _ ← (if zlen u1 =? 0 then
            UpdateParentSeparatorAfterChildChange (mkSearchPathEntry su.2 (zlen u1) :: path) (entry_key e0)
          else mret tt);
     mret true)
    (fun b st' => b = true /\
       holds st st' (length lv) (contents hp A ++ es' ++ contents hp ((Some psep, rid) :: C)) 0).
Proof.
  cbv zeta. intros Hat Hu HK1 Ht Hd Hlow Hs Hr Hso E Hg Hn1 Hn2. apply runs_heap_ok. intros Hok.
  destruct (heap_ok_leaf _ _ _ _ Hok Hs) as (Hsi & [? _] & _ & _).
  destruct (heap_ok_leaf _ _ _ _ Hok Hr) as (Hri & ? & _ & _).
  destruct (heap_ok_int _ _ _ _ _ _ Hok Hu) as (Hui & ? & ? & Hun & [Hg1 [[_ Hrid] Hg2]%Forall_cons]%Forall_app).
  rewrite E in Hg. apply Forall_app in Hg as [Hgl Hgr].
  pose proof Ht as ([_ _ (_ & _ & Hdis)%NoDup_two _ _] & _ & _).
  assert (in_u64 rid) by (cbn in Hrid; done).
  eapply runs_bind; [by apply runs_store_leaf; try done; split|]. intros _ st' ->.
  eapply runs_bind; [by apply runs_store_leaf|]. intros _ st' ->.
  eapply runs_bind; [by apply runs_at_index|]. intros front st' [-> ->]. rewrite set_separator.
  eapply runs_bind.
  { apply runs_store_internal; try done.
    - by rewrite zlen_app, zlen_cons in Hun |- *.
    - apply Forall_app_2; [done|]. constructor; [|done]. by apply Forall_cons in Hgr as [[? _] _]. }
  intros _ st' ->. fold (shared_leaves st s.2 rid su.2 h hR hu fu (e0 :: l) (e :: r) (u1 ++ (entry_key e, rid) :: u2)).
  set (st1 := shared_leaves _ _ _ _ _ _ _ _ _ _ _). set (lv := (Au ++ su :: Cu) :: lvu) in *.
  assert (su.2 ∈ ids lv) as Hin by (apply ids_In, elem_of_app; right; left).
  assert (s.2 ∉ ids lv /\ rid ∉ ids lv) as [Hs' Hr'].
  { split; apply Hdis; rewrite fmap_app, !fmap_cons, elem_of_app, !elem_of_cons; auto. }
  pose proof (shared_leaves_path _ _ _ _ _ _ _ _ _ _ _ _ _ h hR (e0 :: l) e r s Hat Hu HK1 Hs' Hr') as Hp1.
  cbv zeta in Hp1. fold st1 in Hp1.
  assert (forall b' st', b' = s.1 \/ b' = rebound s.1 (entry_key e0) ->
    reshaped st1 st' lv ((expand (a_heap st) Au ++ K1) ++ (b', s.2) :: (Some (entry_key e), rid) :: (behind <$> u2) ++ expand (a_heap st) Cu) ->
    holds st st' (length lv) (contents (a_heap st) (expand (a_heap st) Au ++ K1) ++ es' ++
      contents (a_heap st) ((Some psep, rid) :: (behind <$> u2) ++ expand (a_heap st) Cu)) 0) as Hfin.
  { intros b' st' Hb Hre. by eapply shared_leaves_holds. }
  destruct (zlen u1 =? 0).
  - eapply runs_bind.
    + apply (runs_UpdateParentSeparator c C0); [exact Hp1|..].
      * by destruct Hat as (_ & _ & ?).
      * by apply Forall_cons in Hgl as [[? _] _].
    + intros [] st' Hre%repathed_reshaped. apply runs_ret. split; [done|]. eapply Hfin; [|exact Hre]. auto.
  - eapply runs_bind; [by apply (runs_ret c st1 tt (fun _ st' => st' = st1))|]. intros _ st' ->. apply runs_ret.
    split; [done|]. apply (Hfin s.1); [auto|]. rewrite <- surjective_pairing. apply reshaped_refl.
    by eapply path_to_tree.
Qed.

Lemma runs_RedistributeLeaf st path lv A s C h es es' :
  let hp := a_heap st in
  at_leaf st path lv A s C h es -> Forall (entry_good c) es' ->
  sorted (marks hp A ++ marks_of s.1 es' ++ marks hp C) ->
  runs c st (RedistributeLeafWithRightSibling s.2 path es') (fun shared st' =>
    if shared then holds st st' (length lv) (contents hp A ++ es' ++ contents hp C) 0
    else st' = st /\ not_shared c st path (zlen es') (leaf_size st)).
Proof.
  cbv zeta. intros Hat Hg Hso. apply runs_heap_ok. intros Hok.
  destruct (at_leaf_nodup _ _ _ _ _ _ _ _ Hat) as (_ & Hndl & _). pose proof Hat as [Ht Hp Hs Hd].
  destruct path as [|link path]; cbn [RedistributeLeafWithRightSibling]; [by apply runs_ret|].
  destruct (path_up _ _ _ _ _ _ _ Hp Hndl)
    as (lvu & Au & su & Cu & hu & fu & u1 & u2 & K1 & -> & Hup & -> & Hu & -> & HK1 & ->).
  cbn [link_page_id child_index]. rbind runs_load_internal. intros a st' [-> ->].
  cbn [child_page_ids node_data separator_keys]. rewrite no_right_sibling.
  destruct u2 as [|[psep rid] u2]; [rewrite bool_decide_true by done|rewrite bool_decide_false by done].
  { apply runs_ret. split; [done|]. intros link' ? hu' fu' ru psep rid m [= <- <-] Hu' Hz _. cbn in Hu', Hz.
    rewrite Hu in Hu'. injection Hu' as <- <- <-. rewrite app_nil_r, znth_None in Hz by lia. done. }
  pose proof Ht as ([_ Hleaf _ _ _] & _). apply Forall_app in Hleaf as [_ [_ [(hR & rs & Hr & _) _]%Forall_cons]%Forall_cons].
  change (behind (psep, rid)).2 with rid in Hr. eapply runs_bind; [apply runs_at_index, znth_snd|]. intros a st' [-> ->]. cbn [snd].
  rbind runs_read. intros page st' (-> & -> & Hsok). rbind runs_read. intros page st' (-> & -> & HRok).
  rbind runs_parse_leaf. intros a st' [-> ->]. rbind runs_parse_leaf. intros a st' [-> ->].
  rbind runs_this. intros t st' [-> Hcore].
  assert (Forall (entry_good c) (es' ++ rs)) as Hall.
  { apply Forall_app_2; [done|]. by destruct (heap_ok_leaf _ _ _ _ Hok Hr) as (_ & _ & _ & ?). }
  pose proof (ChooseBalancedSplit_cases st t s.2 rid h hR _ Hcore Hall) as Hcase.
  destruct (ChooseBalancedSplit _ _) as [m|].
  - destruct Hcase as (e0 & l & e & r & E & <- & Hl & Hr'). rewrite E, ztake_app_eq, zdrop_app_eq by done.
    eapply runs_mono; [by eapply runs_share_leaves|]. by intros shared st' [-> ?].
  - apply runs_ret. split; [done|]. intros link' ? hu' fu' ru psep' rid' k [= <- <-] Hu' Hz Hk. cbn in Hu', Hz.
    rewrite Hu in Hu'. injection Hu' as <- <- <-. rewrite znth_app_r, Z.sub_diag, znth_cons_0 in Hz by lia.
    injection Hz as <- <-. unfold leaf_size in Hk. rewrite Hr in Hk. injection Hk as <-.
    rewrite zlen_app in Hcase. lia.
Qed.
End insert_leaf.
