(* ===== verification/BStarTreeLeafSplit.v ===== *)
(** * Splitting a leaf

    The last case of an insertion: a full leaf is cut in two, its right half goes
    to a new page, and the parent takes the separator between them; splitting the
    root adds a level.  This completes the insertion of an entry into the leaf
    that covers its key. *)

From stdpp Require Import sorting.
From S2P Require Import Prelude BinaryIO Values Serialization Disk PageStore KeyEncoder.
From S2P Require Import BStarTree BStarTreePages BStarTreeHeap BStarTreeLevels BStarTreeOrder BStarTreeSearch.
From S2P Require Import BStarTreeInsert BStarTreeLeaves.

(** ** Splitting a leaf *)

Definition leaf_split_state (st : astate) (id : Z) (hl hr : NodeHeader) (l r : list LeafEntry) : astate :=
  put_node (a_pages st) (NLeaf (leaf_header hr r) r) (put_node id (NLeaf (leaf_header hl l) l) (add_page st)).

Lemma split_linked st root' lv A s C h es hl hr l r b :
  linked st (root_page_id (a_md st)) lv (A ++ s :: C) -> a_heap st !! s.2 = Some (NLeaf h es) ->
  Forall (leaf (a_heap st) root') A -> Forall (leaf (a_heap st) root') C ->
  next_leaf_page_id hl = a_pages st -> next_leaf_page_id hr = next_leaf_page_id h ->
  is_root hl = false -> is_root hr = false -> a_pages st ∉ ids lv ->
  linked (leaf_split_state st s.2 hl hr l r) root' lv (A ++ s :: (b, a_pages st) :: C).
Proof.
  intros [Hl Hnd Hr Hc Hf] Hs HA HC Hnl Hnr Hfl Hfr Hnew. set (st1 := leaf_split_state st s.2 hl hr l r).
  pose proof (NoDup_level A C s [] ltac:(by rewrite ids_cons, app_nil_r)) as (HsA & HsC & _).
  setoid_rewrite elem_of_snd_app in Hr. setoid_rewrite fmap_cons in Hr. setoid_rewrite elem_of_cons in Hr.
  destruct (Hr s.2) as [_ Hslt]; [auto|].
  assert (forall id, id ∈ A.*2 \/ id ∈ C.*2 -> a_heap st1 !! id = a_heap st !! id) as Hsame.
  { intros id Hid. destruct (Hr id) as [_ ?]; [tauto|]. cbn. rewrite !lookup_insert_ne; [done| |lia].
    intros <-. tauto. }
  assert (a_heap st1 !! s.2 = Some (NLeaf (leaf_header hl l) l)) as Hs1
    by (cbn; by rewrite lookup_insert_ne, lookup_insert_eq by lia).
  assert (a_heap st1 !! a_pages st = Some (NLeaf (leaf_header hr r) r)) as Hn1 by apply lookup_insert_eq.
  apply chain_mid in Hc as (HcA & (h0 & es0 & Hs0 & Hn0) & HcC). rewrite Hs in Hs0. injection Hs0 as <- <-.
  split.
  - apply Forall_app_2; [apply (leaf_ext (a_heap st)); auto|].
    constructor; [exists (leaf_header hl l), l; cbn; split; [done|congruence]|].
    constructor; [exists (leaf_header hr r), r; cbn; split; [done|congruence]|]. apply (leaf_ext (a_heap st)); auto.
  - eapply (NoDup_level_add _ _ _ _ _ []); [by rewrite ids_cons, app_nil_r|].
    rewrite elem_of_snd_app, fmap_cons, elem_of_cons. intros Hin. destruct (Hr (a_pages st)); [tauto|lia].
  - intros id. rewrite elem_of_snd_app, !fmap_cons, !elem_of_cons. cbn [snd]. intros Hid.
    destruct (decide (id = a_pages st)) as [->|Hne]; [split; [done|cbn; lia]|].
    destruct (Hr id) as [? ?]; [tauto|]. split; [done|cbn; lia].
  - apply chain_mid. split_and!; [apply (chain_ext (a_heap st)); auto|by eexists _, _|].
    split; [|apply (chain_ext (a_heap st)); auto]. eexists _, _. split; [done|]. cbn. congruence.
  - cbn. rewrite Hf. by destruct A.
Qed.

Lemma sorted_split_leaf l1 b l e r l2 :
  sorted (l1 ++ marks_of b (l ++ e :: r) ++ l2) ->
  sorted (l1 ++ marks_of b l ++ marks_of (Some (entry_key e)) (e :: r) ++ l2).
Proof.
  unfold marks_of. rewrite fmap_app, fmap_cons, <- !app_comm_cons, <- app_assoc, <- app_comm_cons. intros Hs.
  rewrite app_comm_cons, app_assoc in Hs. apply sorted_add_bound in Hs. by rewrite <- app_assoc in Hs.
Qed.

Lemma split_holds c st st' path lv A s C h es hl hr l e r n :
  heap_ok c st -> at_leaf st path lv A s C h es ->
  Forall (leaf (a_heap st) (root_page_id (a_md st'))) A -> Forall (leaf (a_heap st) (root_page_id (a_md st'))) C ->
  next_leaf_page_id hl = a_pages st -> next_leaf_page_id hr = next_leaf_page_id h ->
  is_root hl = false -> is_root hr = false -> a_pages st ∉ ids lv ->
  sorted (marks (a_heap st) A ++ marks_of s.1 (l ++ e :: r) ++ marks (a_heap st) C) ->
  grown (leaf_split_state st s.2 hl hr l (e :: r)) st' lv (A ++ s :: (Some (entry_key e), a_pages st) :: C) n ->
  holds st st' (length lv) (contents (a_heap st) A ++ (l ++ e :: r) ++ contents (a_heap st) C) (n + 1).
Proof.
  intros Hok Hat HA HC Hnl Hnr Hfl Hfr Hnew Hso Hgr. pose proof Hat as [Ht Hp Hs Hd Hlow].
  pose proof (tree_at_linked c st lv _ Hok Ht) as Hl.
  pose proof (split_linked _ _ _ _ _ _ _ _ _ _ l (e :: r) (Some (entry_key e)) Hl Hs HA HC Hnl Hnr Hfl Hfr Hnew) as Hl1.
  set (st1 := leaf_split_state st s.2 hl hr l (e :: r)) in *.
  pose proof (li_nodup _ _ _ _ Hl1) as Hnd1. rewrite fmap_app, !fmap_cons, NoDup_app, !NoDup_cons in Hnd1.
  destruct Hnd1 as (_ & HdA & Hds & Hdn & _). cbn [snd] in *.
  destruct (pair_marks (a_heap st) (a_heap st1) A s.2 (a_pages st) C s.1 (Some (entry_key e))
    (leaf_header hl l) (leaf_header hr (e :: r)) l (e :: r)) as [Hm Hc].
  { intros id Hid. cbn. rewrite !lookup_insert_ne; [done|..]; intros <-; destruct Hid as [Hid|Hid]; try done;
      try (apply (HdA _ Hid); set_solver). apply Hds. by right. }
  { cbn. rewrite lookup_insert_ne; [apply lookup_insert_eq|]. intros E. apply Hds. rewrite E. left. }
  { apply lookup_insert_eq. }
  rewrite <- surjective_pairing in Hm, Hc. eapply (grown_holds st st1 st'); try done.
  - rewrite Hm. by apply sorted_split_leaf.
  - cbn. lia.
  - by destruct Ht as (_ & _ & ?).
  - by apply (tree_at_height c st lv _ Hok Ht).
Qed.

Section split.
Context {P : Type} {PS : PageStore P} {PL : PageStoreLaws P}.
Context (c : config) (C0 : config_ok c).

Lemma leaf_not_root hp root root' L (I : list Z) :
  Forall (leaf hp root) L -> root ∈ I -> (forall id, id ∈ L.*2 -> id ∉ I) -> Forall (leaf hp root') L.
Proof.
  intros HL Hr Hdis. apply Forall_forall. intros s Hs. eapply Forall_forall in HL as (h & es & E & Hf); [|done].
  exists h, es. split; [done|]. intros Ht. exfalso. apply (Hdis s.2); [by apply list_elem_of_fmap_2|].
  by rewrite Hf.
Qed.

(** A full leaf with the new entry, in two halves. *)
Lemma full_leaf_split (es : list LeafEntry) :
  zlen es = max_keys c + 1 ->
  exists e0 l e r, es = (e0 :: l) ++ e :: r /\ zlen (e0 :: l) = c_degree c /\
    zlen (e0 :: l) <= max_keys c /\ zlen (e :: r) <= max_keys c.
Proof.
  intros Hn. destruct (co_degree _ C0) as [? _]. unfold max_keys in *.
  destruct (split_at es (c_degree c)) as (l & e & r & -> & Hl); [lia|].
  destruct l as [|e0 l]; [rewrite zlen_nil in Hl; lia|]. exists e0, l, e, r.
  rewrite zlen_app in Hn. split_and!; try done; lia.
Qed.

Lemma link_range st link path lv A s C :
  heap_ok c st -> path_to (a_heap st) (root_page_id (a_md st)) (link :: path) lv A s C -> NoDup (ids lv) ->
  0 < link_page_id link < a_pages st.
Proof.
  intros Hok Hp Hnd. destruct (path_up _ _ _ _ _ _ _ Hp Hnd)
    as (lvu & Au & su & Cu & hu & fu & u1 & u2 & K1 & _ & _ & -> & Hu & _).
  by destruct (heap_ok_int c _ _ _ _ _ Hok Hu) as [? _].
Qed.
Lemma lower_ids st path lv A s C h es :
  heap_ok c st -> at_leaf st path lv A s C h es ->
  (forall id, id ∈ ids lv -> id < a_pages st) /\ Forall (fun i => is_Some (a_heap st !! i)) (A ++ s :: C).*2.
Proof.
  intros Hok [([Ht Hl _ _ _] & _) _ _ _]. split.
  - intros id [n Hid]%(tree_ids_heap _ _ _ _ _ Ht). destruct (proj2 Hok _ _ Hid). lia.
  - apply Forall_forall. intros id Hid. by eapply leaf_ids_heap.
Qed.

(** Below a parent no leaf is the root. *)
Lemma leaves_below_root st link path lv A s C h es root' :
  at_leaf st (link :: path) lv A s C h es -> Forall (leaf (a_heap st) root') (A ++ s :: C).
Proof.
  intros [([_ Hl Hnd _ _] & _) Hp _ _]. apply (leaf_not_root _ (root_page_id (a_md st)) _ _ (ids lv)); [done| |].
  - by eapply path_root_in.
  - rewrite ids_cons in Hnd. by apply NoDup_app in Hnd as (_ & ? & _).
Qed.

(** The halves of a leaf after a split. *)
Definition half_header (parent : Z) (h : NodeHeader) : NodeHeader := set_parent parent (set_root false h).

(** [SplitLeaf] below a parent. *)
Lemma runs_SplitLeaf_inner st link path lv A s C h es es' :
  at_leaf st (link :: path) lv A s C h es -> Forall (entry_good c) es' -> zlen es' = max_keys c + 1 ->
  sorted (marks (a_heap st) A ++ marks_of s.1 es' ++ marks (a_heap st) C) ->
  room c st (Z.of_nat (length (link :: path)) + 2) ->
  runs c st (SplitLeaf s.2 (link :: path) es') (fun _ st' =>
    holds st st' (length lv) (contents (a_heap st) A ++ es' ++ contents (a_heap st) C) (Z.of_nat (length (link :: path)) + 2)).
Proof.
  intros Hat Hg Hn Hso Hroom. apply runs_heap_ok. intros Hok. pose proof Hat as [Ht Hp Hs Hd].
  destruct (at_leaf_nodup _ _ _ _ _ _ _ _ Hat) as (Hnd & Hndl & Hslv).
  destruct (heap_ok_leaf c _ _ _ _ Hok Hs) as (Hsi & [? ?] & _ & _). destruct (lower_ids _ _ _ _ _ _ _ _ Hok Hat) as [Hlow Hkids].
  destruct (full_leaf_split es' Hn) as (e0 & l & e & r & -> & Hlen & Hln & Hrn).
  apply Forall_app in Hg as [Hgl Hgr]. destruct (co_degree _ C0). pose proof (tree_room_bound c C0 _ _ Hroom).
  pose proof (link_range _ _ _ _ _ _ _ Hok Hp Hndl).
  assert (in_u64 (a_pages st)) as Hpu by (split; lia). assert (in_u64 (link_page_id link)) by (split; lia).
  unfold SplitLeaf. rbind runs_this. intros t st' [-> Hcore].
  rewrite (core_max_keys c C0 _ _ Hcore), Hn, (u64_id (max_keys c + 1)), Z.eqb_refl by (unfold max_keys; split; lia).
  eapply runs_bind; [by apply (runs_guard _ _ _ _ (fun _ st' => st' = st))|]. intros _ st' ->.
  rbind runs_load_leaf. intros a st' [-> ->]. destruct Hcore as (_ & _ & -> & _). cbv zeta.
  rewrite <- Hlen, ztake_app_eq, zdrop_app_eq by done.
  eapply runs_bind; [apply runs_alloc; [lia|eapply (room_le c C0 st 1); [done|cbn; lia]]|]. intros a st' [-> ->].
  fold (half_header (link_page_id link) h).
  eapply runs_bind; [apply runs_store_leaf; try done; cbn; lia|]. intros _ st' ->.
  eapply runs_bind; [apply runs_store_leaf; try done; cbn; lia|]. intros _ st' ->.
  set (hr := half_header _ h). set (hl := set_next _ hr).
  fold (leaf_split_state st s.2 hl hr (e0 :: l) (e :: r)). set (st1 := leaf_split_state _ _ _ _ _ _).
  eapply runs_mono.
  - apply (runs_above c C0 link path st st1 lv A s C (entry_key e) (a_pages st)); try done.
    + apply runs_InsertIntoInternal. done.
    + intros i Hi. specialize (Hlow i Hi). cbn. rewrite !lookup_insert_ne; [done| |lia]. by intros <-.
    + eapply Forall_impl; [exact Hkids|]. intros i Hi. by do 2 apply put_node_some.
    + cbn. by rewrite lookup_insert_eq.
    + apply Forall_cons in Hgr as [[? _] _]. by split.
    + unfold room in *. cbn [a_pages st1 leaf_split_state put_node add_page]. cbn [length] in Hroom.
      eapply ps_room_le; [by apply (size_pos c)|exact Hroom|lia].
  - intros [] st' Hgrown.
    replace (Z.of_nat (length (_ :: path)) + 2) with (Z.of_nat (length path) + 2 + 1) by (cbn; lia).
    pose proof (leaves_below_root _ _ _ _ _ _ _ _ _ (root_page_id (a_md st')) Hat) as [HA [_ HC]%Forall_cons]%Forall_app.
    eapply (split_holds c _ _ _ _ _ _ _ _ _ hl hr); try done. intros ?%Hlow. lia.
Qed.

Lemma root_leaf_grown st id hl hr l r sep :
  id < a_pages st -> first_leaf_page_id (a_md st) = id ->
  grown (leaf_split_state st id hl hr l r)
    (root_split_state st id (NLeaf (leaf_header hl l) l) (NLeaf (leaf_header hr r) r) sep id) []
    [(None, id); (Some sep, a_pages st)] 1.
Proof.
  intros Hid Hf. set (st' := root_split_state _ _ _ _ _ _). split_and!; try done; cbn [a_pages st' root_split_state]; try (cbn; lia).
  - intros i _ Hi. cbn in Hi |- *. rewrite lookup_insert_ne by lia. done.
  - exists [[(None, a_pages st + 1)]]. split_and!.
    + by apply root_split_tree.
    + cbn. apply NoDup_singleton.
    + intros i. cbn. rewrite elem_of_cons, elem_of_nil. intros [->|[]]. right. lia.
    + intros n Hn Hlow Hh. cbn in Hh, Hlow |- *. rewrite Hh, u64_id; [lia|split; lia].
    + cbn. lia.
Qed.

(** [SplitLeaf] of the root. *)
Lemma runs_SplitLeaf_root st lv A s C h es es' :
  at_leaf st [] lv A s C h es -> Forall (entry_good c) es' -> zlen es' = max_keys c + 1 ->
  sorted (marks (a_heap st) A ++ marks_of s.1 es' ++ marks (a_heap st) C) -> room c st 2 ->
  runs c st (SplitLeaf s.2 [] es') (fun _ st' =>
    holds st st' (length lv) (contents (a_heap st) A ++ es' ++ contents (a_heap st) C) 2).
Proof.
  intros Hat Hg Hn Hso Hroom. apply runs_heap_ok. intros Hok. pose proof Hat as [Ht Hp Hs Hd].
  destruct (heap_ok_leaf c _ _ _ _ Hok Hs) as (Hsi & [? ?] & _ & _).
  destruct (full_leaf_split es' Hn) as (e0 & l & e & r & -> & Hlen & Hln & Hrn).
  apply Forall_app in Hg as [Hgl Hgr]. destruct (co_degree _ C0). pose proof (tree_room_bound c C0 _ _ Hroom).
  assert (in_u64 (a_pages st)) as Hpu by (split; lia). assert (in_u64 (a_pages st + 1)) by (split; lia).
  assert (in_u64 s.2) by (split; lia).
  unfold SplitLeaf. rbind runs_this. intros t st' [-> Hcore].
  rewrite (core_max_keys c C0 _ _ Hcore), Hn, (u64_id (max_keys c + 1)), Z.eqb_refl by (unfold max_keys; split; lia).
  eapply runs_bind; [by apply (runs_guard _ _ _ _ (fun _ st' => st' = st))|]. intros _ st' ->.
  rbind runs_load_leaf. intros a st' [-> ->]. destruct Hcore as (_ & _ & -> & _). cbv zeta.
  rewrite <- Hlen, ztake_app_eq, zdrop_app_eq by done.
  eapply runs_bind; [apply runs_alloc; [lia|eapply (room_le c C0 st 1); [done|lia]]|]. intros a st' [-> ->].
  eapply runs_bind; [apply runs_alloc; cbn; [lia|rewrite <- Z.add_assoc; exact Hroom]|]. intros a st' [-> ->].
  fold (half_header InvalidPageId h). cbn [a_pages add_page].
  eapply runs_bind; [apply runs_store_leaf; try done; cbn; lia|]. intros _ st' ->.
  eapply runs_bind; [apply runs_store_leaf; try done; cbn; lia|]. intros _ st' ->.
  change (mkInternalNodeData [entry_key e] [s.2; a_pages st]) with (node_data s.2 [(entry_key e, a_pages st)]).
  eapply runs_bind.
  { apply runs_store_internal; try done; cbn; [lia|unfold max_keys; rewrite zlen_cons, zlen_nil; lia|].
    apply Forall_singleton. apply Forall_cons in Hgr as [[? _] _]. by split. }
  intros _ st' ->. eapply runs_bind.
  { apply (runs_update_tree c _ _ (a_pages st + 1) s.2 (u64 (tree_height (a_md st) + 1))).
    intros t' (_ & _ & _ & _ & _ & ->). done. }
  intros _ st' ->. eapply runs_mono; [apply runs_write_metadata; try done; cbn; lia|]. intros [] st' ->.
  inversion Hp; subst. pose proof Ht as (_ & Hf & _). cbn [app head_id snd] in *.
  set (hr := set_parent (a_pages st + 1) (half_header InvalidPageId h)).
  set (hl := set_parent (a_pages st + 1) (set_next (a_pages st) (half_header InvalidPageId h))).
  pose proof (root_leaf_grown st _ hl hr (e0 :: l) (e :: r) (entry_key e) (proj2 Hsi) Hf) as Hgrown.
  apply (split_holds c st _ [] [] [] (None, root_page_id (a_md st)) [] h es hl hr) in Hgrown; try done;
    [|apply not_elem_of_nil].
  unfold root_split_state, new_root_md in Hgrown. replace (a_pages st + 2) with (a_pages st + 1 + 1) in Hgrown by lia.
  exact Hgrown.
Qed.

Lemma runs_SplitLeaf st path lv A s C h es es' :
  at_leaf st path lv A s C h es -> Forall (entry_good c) es' -> zlen es' = max_keys c + 1 ->
  sorted (marks (a_heap st) A ++ marks_of s.1 es' ++ marks (a_heap st) C) ->
  room c st (Z.of_nat (length path) + 2) ->
  runs c st (SplitLeaf s.2 path es') (fun _ st' =>
    holds st st' (length lv) (contents (a_heap st) A ++ es' ++ contents (a_heap st) C) (Z.of_nat (length path) + 2)).
Proof. destruct path; intros; [by eapply runs_SplitLeaf_root|by eapply runs_SplitLeaf_inner]. Qed.

(** ** Inserting an entry *)

Lemma holds_more st st' k es m n : holds st st' k es m -> m <= n -> holds st st' k es n.
Proof. intros (? & ? & ? & ?) ?. split_and!; try done; lia. Qed.
Lemma holds_from st st1 st' k es n :
  a_md st1 = a_md st -> a_pages st1 = a_pages st -> holds st1 st' k es n -> holds st st' k es n.
Proof. unfold holds. by intros -> ->. Qed.

Lemma zlen_add_key es key rid : zlen (add_key es key rid) = zlen es + 1.
Proof.
  unfold add_key, zinsert. rewrite zlen_app, zlen_cons. pose proof (position_range es key).
  rewrite zlen_ztake, zlen_zdrop by lia. lia.
Qed.
Lemma add_key_good es key rid :
  Forall (entry_good c) es -> entry_good c (mkLeafEntry key rid) -> Forall (entry_good c) (add_key es key rid).
Proof.
  unfold add_key, zinsert. intros Hes He. apply Forall_app_2; [by apply Forall_take|].
  constructor; [done|]. by apply Forall_drop.
Qed.
Lemma add_key_front es key rid :
  position es key = 0 -> add_key es key rid = mkLeafEntry key rid :: es.
Proof. unfold add_key, zinsert. by intros ->. Qed.

Lemma runs_InsertIntoLeaf st path lv A s C h es key rid :
  at_leaf st path lv A s C h es -> covers key s C -> find_key es key = None ->
  key_good c key -> in_u64 rid -> room c st (Z.of_nat (length path) + 2) ->
  runs c st (InsertIntoLeaf s.2 path key rid) (fun _ st' =>
    holds st st' (length lv) (add_key (contents (a_heap st) (A ++ s :: C)) key rid) (Z.of_nat (length path) + 2)).
Proof.
  intros Hat Hcov Hnew Hkey Hrid Hroom. apply runs_heap_ok. intros Hok. pose proof Hat as [Ht Hp Hs Hd].
  destruct (heap_ok_leaf c _ _ _ _ Hok Hs) as (Hsi & ? & Hn & Hg).
  destruct (at_leaf_sorted _ _ _ _ _ _ _ _ Hat) as [Hso Hbd].
  pose proof (insert_marks _ _ _ _ _ _ rid Hso Hbd Hcov Hnew) as Hso'.
  rewrite (insert_contents _ _ _ _ _ _ _ _ _ rid Hat Hcov).
  unfold InsertIntoLeaf. rbind runs_load_leaf. intros a st' [-> ->]. cbv zeta.
  pose proof Ht as ([_ _ _ _ Hsl] & _). apply leaf_sorted in Hsl. rewrite (leaf_entries _ _ _ _ Hs) in Hsl.
  rewrite FindEntryPosition_eq by done. fold (add_key es key rid). rbind runs_this. intros t st' [-> Hcore].
  assert (Forall (entry_good c) (add_key es key rid)) as Hg' by by apply add_key_good.
  rewrite (core_max_keys c C0 _ _ Hcore). destruct (zlen (add_key es key rid) <=? max_keys c) eqn:Efit; zbool.
  - rbind runs_store_leaf. intros _ st' ->. pose proof (at_leaf_stored _ _ _ _ _ _ _ _ _ _ Hok Hat Hso') as Hat1. cbv zeta in Hat1.
    destruct (put_leaf_marks st A s s.1 C (leaf_header h (add_key es key rid)) (add_key es key rid)) as [_ Hc];
      [by apply (at_leaf_nodup _ _ _ _ _ _ _ _ Hat)|]. rewrite <- surjective_pairing in Hc. rewrite <- Hc.
    set (st1 := put_node _ _ _) in *. destruct (position es key =? 0) eqn:E0; zbool.
    + rewrite (add_key_front _ _ _ E0) in *. eapply runs_bind; [by apply runs_at_index|]. intros a st' [-> ->].
      eapply runs_mono; [by eapply (runs_rebound c C0 st1)|]. intros [] st' Hh.
      eapply holds_more; [by eapply (holds_from st st1)|lia].
    + apply runs_ret. eapply holds_more; [eapply (holds_from st st1); [done|done|by eapply at_leaf_holds]|lia].
  - eapply runs_bind; [by eapply (runs_RedistributeLeaf c C0)|]. intros [] st'.
    + intros Hh. apply runs_ret. eapply holds_more; [done|lia].
    + intros [-> _]. eapply runs_SplitLeaf; try done. rewrite zlen_add_key in *. lia.
Qed.
End split.
