(* ===== verification/BStarTreeDelete.v ===== *)
(** * Deleting from the B*-tree

    A node that lost too much takes entries from, or is merged with, a neighbour
    below the same parent; a merge takes a separator from the parent, which may
    then need the same repair, up to a root that loses its last separator and
    gives way to its only child. *)

From stdpp Require Import sorting.
From S2P Require Import Prelude BinaryIO Values Serialization Disk PageStore KeyEncoder.
From S2P Require Import BStarTree BStarTreePages BStarTreeHeap BStarTreeLevels BStarTreeOrder BStarTreeSearch.
From S2P Require Import BStarTreeInsert BStarTreeLeaves BStarTreeLeafSplit.

(** ** Merging two nodes in the heap *)

Lemma remove_child_node f r1 psep rid r2 :
  remove_child (zlen r1) (node_data f (r1 ++ (psep, rid) :: r2)) = node_data f (r1 ++ r2).
Proof.
  unfold remove_child, node_data, zerase. cbn [separator_keys child_page_ids].
  rewrite !fmap_app, !fmap_cons. f_equal.
  - rewrite ztake_app_eq by by rewrite zlen_fmap. rewrite (cons_middle psep), app_assoc.
    by rewrite zdrop_app_eq by (rewrite zlen_app, zlen_cons, zlen_nil, zlen_fmap; lia).
  - rewrite app_comm_cons, ztake_app_eq by (rewrite zlen_cons, zlen_fmap; lia). cbn. f_equal.
    rewrite app_comm_cons, (cons_middle rid), app_assoc.
    by rewrite zdrop_app_eq by (rewrite zlen_app, !zlen_cons, zlen_nil, zlen_fmap; lia).
Qed.

Lemma NoDup_without (A C : level) s y : NoDup (A ++ s :: y :: C).*2 -> NoDup (A ++ s :: C).*2.
Proof.
  rewrite cons_middle, app_assoc, fmap_app, fmap_cons. intros Hnd.
  rewrite Permutation_app_comm in Hnd. cbn in Hnd. apply NoDup_cons in Hnd as [_ Hnd].
  rewrite Permutation_app_comm, <- fmap_app, <- app_assoc in Hnd. done.
Qed.

Definition node_hdr (n : node) : NodeHeader := match n with NLeaf h _ => h | NInt h _ _ => h end.

(** A node with other children, in its place. *)
Lemma at_node_put st path lv A s C h f r0 h' r :
  at_node st path lv A s C -> a_heap st !! s.2 = Some (NInt h f r0) -> is_root h' = is_root h ->
  let st1 := put_node s.2 (NInt h' f r) st in
  at_node st1 path lv A s C /\
  expand (a_heap st1) (A ++ s :: C) = expand (a_heap st) A ++ as_kids s.1 f r ++ expand (a_heap st) C.
Proof.
  intros (Hp & Hint & Hnd) Hs Hr st1. pose proof (NoDup_level _ _ _ _ Hnd) as (HA & HC & Hlv).
  assert (forall id, id <> s.2 -> a_heap st1 !! id = a_heap st !! id) as Hsame
    by (intros id Hid; by apply lookup_insert_ne).
  assert (a_heap st1 !! s.2 = Some (NInt h' f r)) as Hs1 by apply lookup_insert_eq.
  apply Forall_app in Hint as [HiA [(h0 & f0 & r0' & Hs0 & Hr0) HiC]%Forall_cons].
  rewrite Hs in Hs0. injection Hs0 as <- <- <-. split; [split_and!; [|apply Forall_app_2; [|constructor]|done]|].
  - apply (path_to_frame (a_heap st)); [|done]. intros id Hid. apply Hsame. by intros ->.
  - apply (inner_ext (a_heap st)); [|done]. intros id Hid. apply Hsame. by intros ->.
  - exists h', f, r. split; [done|]. by rewrite Hr.
  - apply (inner_ext (a_heap st)); [|done]. intros id Hid. apply Hsame. by intros ->.
  - rewrite expand_app, expand_cons, (kids_as _ _ _ _ _ Hs1).
    rewrite (expand_ext (a_heap st) (a_heap st1) A), (expand_ext (a_heap st) (a_heap st1) C); [done|..];
      intros id Hid; apply Hsame; by intros ->.
Qed.

Section delete.
Context {P : Type} {PS : PageStore P} {PL : PageStoreLaws P}.
Context (c : config) (C0 : config_ok c).

Abbreviation T := (M (BStarTree P * disk)).

Lemma runs_IsUnderfull st id n :
  a_heap st !! id = Some n ->
  runs c st (IsUnderfull (node_hdr n) (mkPage id (node_image c n))) (fun _ st' => st' = st).
Proof.
  intros Hn. apply runs_heap_ok. intros [_ Hh]. destruct (Hh _ _ Hn) as [_ Hok]. unfold IsUnderfull.
  rbind runs_this. intros t st' [-> _]. destruct n as [h es|h f r]; cbn [node_hdr].
  - rewrite (leaf_type _ _ _ Hok), bool_decide_true by done. rbind runs_parse_leaf. intros a st' [-> ->]. by apply runs_ret.
  - rewrite (internal_type _ _ _ _ Hok), bool_decide_false by done. rbind runs_parse_internal. intros a st' [-> ->].
    by apply runs_ret.
Qed.

Lemma znth_child_before f r1 r2 K1 sl b :
  as_kids b f r1 = K1 ++ [sl] -> znth (f :: (r1 ++ r2).*2) (zlen r1) = Some sl.2.
Proof.
  intros E. symmetry in E. apply as_kids_last in E. rewrite fmap_app, app_comm_cons, znth_app_l; [done|].
  rewrite zlen_cons, zlen_fmap. lia.
Qed.

(** The order in which the neighbours are tried. *)
Lemma runs_rebalance st path su b hu fu u1 u2 K1 s n (Q : unit -> astate -> Prop) :
  let link i := mkSearchPathEntry su i in
  let try_with (id : Z) (m : node) (i : Z) :=
    runs c st (RedistributeOrMerge (node_type (node_hdr m)) (mkPage id (node_image c m)) id (link i) path
                 (RebalanceAfterDelete path su)) (fun fixed st' => fixed = true /\ Q tt st') in
  a_heap st !! su = Some (NInt hu fu (u1 ++ u2)) -> K1 ++ [s] = as_kids b fu u1 -> a_heap st !! s.2 = Some n ->
  Q tt st -> (u2 <> [] -> try_with s.2 n (zlen u1)) ->
  (forall u sep K1' sl, u1 = u ++ [(sep, s.2)] -> K1' ++ [sl] = as_kids b fu u ->
     exists m, a_heap st !! sl.2 = Some m /\ try_with sl.2 m (zlen u)) ->
  runs c st (RebalanceAfterDelete (link (zlen u1) :: path) s.2) Q.
Proof.
  cbv zeta. intros Hu HK1 Hn HQ Hright Hleft. apply runs_heap_ok. intros [_ Hh]. destruct (Hh _ _ Hn) as [_ Hok].
  cbn [RebalanceAfterDelete link_page_id child_index]. rbind runs_read. intros page st' (-> & -> & _).
  eapply runs_bind; [by apply runs_lift_eq, node_header|]. intros header st' [-> ->]. fold (node_hdr n).
  eapply runs_bind; [by apply runs_IsUnderfull|]. intros [] st' ->; cbn [negb]; [|by apply runs_ret].
  rbind runs_load_internal. intros a st' [-> ->]. cbn [node_data child_page_ids].
  rewrite Z.ltb_antisym, no_right_sibling. destruct (bool_decide (u2 = [])) eqn:E2; cbn [negb].
  - eapply runs_bind; [by apply (runs_ret c st false (fun b st' => b = false /\ st' = st))|]. intros ? st' [-> ->].
    destruct (zlen u1 =? 0) eqn:E0; zbool; [by apply runs_ret|].
    destruct (as_kids_later _ _ _ _ _ HK1 E0) as (u & v & -> & -> & _ & Hlen).
    assert (exists K1' sl, K1' ++ [sl] = as_kids b fu u) as (K1' & sl & HKl).
    { destruct (exists_last (l := as_kids b fu u)) as (K1' & sl & ->); [done|]. eauto. }
    destruct (Hleft u v K1' sl eq_refl HKl) as (m & Hm & Htry). destruct (Hh _ _ Hm) as [_ Hokm].
    rewrite <- Hlen, <- app_assoc. eapply runs_bind; [by eapply runs_at_index, znth_child_before|].
    intros a st' [-> ->]. rbind runs_read. intros page st' (-> & -> & _).
    eapply runs_bind; [by apply runs_lift_eq, node_header|]. intros header st' [-> ->]. fold (node_hdr m).
    eapply runs_bind; [exact Htry|]. intros fixed st' [_ ?]. by apply runs_ret.
  - apply bool_decide_eq_false in E2. eapply runs_bind; [by apply Hright|]. intros fixed st' [-> ?]. by apply runs_ret.
Qed.

(** ** Merging inner nodes *)

(** The right neighbour's children went over to [s], and the levels above took
    note of it. *)
Lemma merge_grown st st1 st' link path lv A s psep rid C h0 f r0 h r n :
  heap_ok c st -> at_node st (link :: path) lv A s ((Some psep, rid) :: C) ->
  a_md st1 = a_md st -> a_pages st1 = a_pages st ->
  (forall id, id ∉ ids lv -> id <> s.2 -> a_heap st1 !! id = a_heap st !! id) ->
  a_heap st !! s.2 = Some (NInt h0 f r0) -> a_heap st1 !! s.2 = Some (NInt h f r) -> is_root h = is_root h0 ->
  as_kids s.1 f r = kids (a_heap st) s ++ kids (a_heap st) (Some psep, rid) ->
  grown st1 st' lv (A ++ s :: C) n ->
  grown st st' ((A ++ s :: (Some psep, rid) :: C) :: lv) (expand (a_heap st) (A ++ s :: (Some psep, rid) :: C)) n.
Proof.
  intros Hok (Hp & Hint & Hnd) Hmd Hpg Hsame Hs0 Hs Hrt Hkids Hgr. pose proof Hgr as (_ & _ & _ & Hon & _).
  pose proof (path_root_in _ _ _ _ _ _ _ _ Hp) as Hrin. pose proof (NoDup_two _ _ _ _ _ Hnd) as (Hne & Hsep & Hlv).
  pose proof (fun id => inner_ids_range c st _ id Hok Hint) as Hrange.
  assert (forall id, id ∈ A.*2 \/ id ∈ C.*2 -> id ∉ ids lv /\ id < a_pages st /\ a_heap st' !! id = a_heap st !! id) as HAC.
  { intros id Hid. assert (id ∈ (A ++ s :: (Some psep, rid) :: C).*2) as Hin
      by (rewrite fmap_app, !fmap_cons, elem_of_app, !elem_of_cons; tauto).
    specialize (Hlv id Hin). specialize (Hrange id Hin). split_and!; [done|lia|]. rewrite Hon by (done || lia).
    apply Hsame; [done|]. by destruct (Hsep id ltac:(tauto)). }
  assert (s.2 ∈ (A ++ s :: (Some psep, rid) :: C).*2) as Hsin
    by (rewrite fmap_app, !fmap_cons, elem_of_app, !elem_of_cons; auto).
  assert (a_heap st' !! s.2 = Some (NInt h f r)) as Hs'.
  { rewrite Hon; [done|by apply Hlv|]. specialize (Hrange _ Hsin). lia. }
  pose proof (inner_not_root _ _ (root_page_id (a_md st')) _ _ Hint Hrin Hlv) as Hint'.
  apply Forall_app in Hint' as [HiA [(h0' & f0' & r0' & Hs0' & Hr0) [_ HiC]%Forall_cons]%Forall_cons].
  rewrite Hs0 in Hs0'. injection Hs0' as <- <- <-.
  rewrite expand_app, !expand_cons, (app_assoc (kids _ s)), <- Hkids, <- (kids_as _ s _ _ _ Hs').
  rewrite <- (expand_ext (a_heap st) (a_heap st') A), <- (expand_ext (a_heap st) (a_heap st') C) by (intros; by apply HAC; auto).
  rewrite <- expand_cons, <- expand_app, <- (Z.add_0_r n). apply (grown_level _ st1 _ _ _ (A ++ s :: C)); try done; [lia|..].
  - apply Forall_app_2; [apply (inner_ext (a_heap st)); [intros; by apply HAC; auto|done]|].
    constructor; [exists h, f, r; split; [done|by rewrite Hrt]|].
    apply (inner_ext (a_heap st)); [intros; by apply HAC; auto|done].
  - rewrite ids_cons in Hnd. apply NoDup_app in Hnd as (Hnd & _). by eapply NoDup_without.
  - intros id. rewrite fmap_app, fmap_cons, elem_of_app, elem_of_cons. intros Hid.
    assert (id ∈ (A ++ s :: (Some psep, rid) :: C).*2) as Hin
      by (rewrite fmap_app, !fmap_cons, elem_of_app, !elem_of_cons; tauto).
    specialize (Hrange id Hin). split_and!; [by apply Hlv|lia|by left].
  - intros id. rewrite ids_cons, elem_of_app. intros Hid ?. apply Hsame; [tauto|]. intros ->. tauto.
Qed.

Lemma root_alone st path lv A s C h f r :
  at_node st path lv A s C -> a_heap st !! s.2 = Some (NInt h f r) -> is_root h = true ->
  path = [] /\ lv = [] /\ A = [] /\ C = [] /\ s = (None, root_page_id (a_md st)).
Proof.
  intros (Hp & Hint & Hnd) Hs Hr. apply NoDup_level in Hnd as (_ & _ & Hslv).
  apply Forall_app in Hint as [_ [(h' & f' & r' & Hs' & Hroot) _]%Forall_cons]. rewrite Hs in Hs'.
  injection Hs' as <- <- <-. destruct path as [|link path].
  - by inversion Hp.
  - apply path_root_in in Hp. by rewrite <- (Hroot Hr) in Hp.
Qed.

(** The root gives way to its only child. *)
Definition collapsed_md (m : TreeMetadata) (root first height : Z) : TreeMetadata :=
  mkTreeMetadata (tm_version m) root first (tm_min_degree m) (tm_max_key_payload_bytes m) height.
Definition collapsed_state (st : astate) (id : Z) (n : node) (first height : Z) : astate :=
  let m := collapsed_md (a_md st) id first height in
  mkState (<[id := n]> (a_heap st)) (a_pages st) m m.

Lemma collapse_grown st s psep rid h hR f r0 fR rR :
  let root := root_page_id (a_md st) in
  let r := r0 ++ (psep, fR) :: rR in
  let n := NInt (internal_header (set_root true (set_parent InvalidPageId h)) r) f r in
  let height := tree_height (a_md st) in
  a_heap st !! s = Some (NInt h f r0) -> a_heap st !! rid = Some (NInt hR fR rR) ->
  grown st (collapsed_state st s n (first_leaf_page_id (a_md st)) (if 0 <? height then height - 1 else height))
    [[(None, s); (Some psep, rid)]; [(None, root)]] (expand (a_heap st) [(None, s); (Some psep, rid)]) 0.
Proof.
  intros root r n height Hs HR. set (st' := collapsed_state _ _ _ _ _).
  split_and!; try done; try (cbn; lia).
  - intros id Hid _. apply lookup_insert_ne. intros <-. apply Hid. by left.
  - exists [[(None, s)]]. assert (a_heap st' !! s = Some n) as Hn by apply lookup_insert_eq. split_and!.
    + rewrite !expand_cons, (kids_at _ _ _ _ _ _ Hs), (kids_at _ _ _ _ _ _ HR), app_nil_r, <- as_kids_app.
      fold r. rewrite <- (kids_at _ None _ _ _ _ Hn), <- (app_nil_r (kids _ _)). apply (tree_down _ s _ [(None, s)]).
      * constructor.
      * apply Forall_singleton. by eexists _, _, _.
    + cbn. apply NoDup_singleton.
    + intros id. cbn. rewrite !elem_of_cons, elem_of_nil. intros [->|[]]. left. by left.
    + intros m Hm Hlow Hh. cbn in Hh, Hlow |- *. unfold height. destruct (0 <? _) eqn:E; zbool; lia.
    + cbn. lia.
Qed.

Lemma runs_collapse st s psep rid h hR f r0 fR rR h0 :
  let root := root_page_id (a_md st) in
  let r := r0 ++ (psep, fR) :: rR in
  heap_ok c st -> a_heap st !! s = Some (NInt h f r0) -> a_heap st !! rid = Some (NInt hR fR rR) ->
  zlen r <= max_keys c -> Forall (child_good c) r ->
  runs c (put_node s (NInt h0 f r) st)
    (_ ← StoreInternal s (set_root true (set_parent InvalidPageId h)) (node_data f r);
     _ ← update (fun t =>
           let hgt := tree_height (metadata_ t) in
           set_tree s (first_leaf_page_id (metadata_ t)) (if 0 <? hgt then hgt - 1 else hgt) t);
     _ ← WriteMetadata; mret true)
    (fun b st' => b = true /\
       grown st st' [[(None, s); (Some psep, rid)]; [(None, root)]] (expand (a_heap st) [(None, s); (Some psep, rid)]) 0).
Proof.
  cbv zeta. intros Hok Hs HR Hn Hg. destruct (heap_ok_int _ _ _ _ _ _ Hok Hs) as (? & _ & ? & _).
  eapply runs_bind; [apply runs_store_internal; try done|]. intros _ st' ->.
  set (height := tree_height (a_md st)). eapply runs_bind.
  { apply (runs_update_tree c _ _ s (first_leaf_page_id (a_md st)) (if 0 <? height then height - 1 else height)).
    intros t' (_ & _ & _ & _ & _ & ->). done. }
  intros [] st' ->. eapply runs_bind; [apply runs_write_metadata; [done|cbn; lia]|]. intros [] st' ->. apply runs_ret.
  split; [done|]. pose proof (collapse_grown st s psep rid h hR f r0 fR rR Hs HR) as Hgrown. cbv zeta in Hgrown.
  fold height in Hgrown. unfold collapsed_state in Hgrown.
  unfold sync_md, put_md, put_node. cbn [a_heap a_pages a_md a_disk_md]. rewrite insert_insert_eq. exact Hgrown.
Qed.

Definition rebalance_spec (path : list SearchPathEntry) : Prop :=
  forall st lv A s C, at_node st path lv A s C -> a_disk_md st = a_md st ->
    Forall (fun i => is_Some (a_heap st !! i)) (expand (a_heap st) (A ++ s :: C)).*2 ->
    runs c st (RebalanceAfterDelete path s.2) (fun _ st' =>
      grown st st' ((A ++ s :: C) :: lv) (expand (a_heap st) (A ++ s :: C)) 0).

Lemma at_node_grown st path lv A s C :
  at_node st path lv A s C -> a_disk_md st = a_md st ->
  grown st st ((A ++ s :: C) :: lv) (expand (a_heap st) (A ++ s :: C)) 0.
Proof.
  intros (Hp & Hint & Hnd) Hd. apply reshaped_grown; try done. apply reshaped_refl.
  apply tree_down; [by eapply path_to_tree|done].
Qed.

(** Storing the parent after a merge: [T] is the level of the merged node. *)
Lemma runs_merged_parent st path lvu Au su Cu hu fu ru ru' :
  let T := expand (a_heap st) Au ++ as_kids su.1 fu ru' ++ expand (a_heap st) Cu in
  rebalance_spec path -> at_node st path lvu Au su Cu -> a_disk_md st = a_md st ->
  a_heap st !! su.2 = Some (NInt hu fu ru) -> Forall (child_good c) ru' -> zlen ru' <= max_keys c ->
  Forall (fun i => is_Some (a_heap st !! i)) T.*2 ->
  runs c st (StoreMergedParent su.2 hu (node_data fu ru') (RebalanceAfterDelete path su.2)) (fun b st' =>
    b = true /\ grown (put_node su.2 (NInt (internal_header hu ru') fu ru') st) st' ((Au ++ su :: Cu) :: lvu) T 0).
Proof.
  cbv zeta. intros IH Hat Hd Hu Hg Hn HT. apply runs_heap_ok. intros Hok.
  destruct (heap_ok_int _ _ _ _ _ _ Hok Hu) as (? & ? & ? & _ & _).
  destruct (at_node_put _ _ _ _ _ _ _ _ _ (internal_header hu ru') ru' Hat Hu eq_refl) as [Hat1 Hexp].
  unfold StoreMergedParent. rbind runs_store_internal. intros _ st' ->. set (st1 := put_node _ _ _) in *.
  rewrite <- Hexp in HT |- *. rbind runs_this. intros t st' [-> _]. destruct (_ && _).
  - eapply runs_bind.
    + apply (IH st1 lvu Au su Cu); [done|done|]. eapply Forall_impl; [exact HT|]. intros i Hi. by apply put_node_some.
    + intros [] st' Hgr. by apply runs_ret.
  - eapply runs_bind; [by apply (runs_ret c st1 tt (fun _ st' => st' = st1))|]. intros _ st' ->. apply runs_ret.
    split; [done|]. by eapply at_node_grown.
Qed.

(** The level of a parent's children, one of them gone. *)
Lemma level_without (st : astate) (Au : level) (su : slot) (Cu : level) fu u1 u2 K1 (s : slot) :
  K1 ++ [s] = as_kids su.1 fu u1 ->
  expand (a_heap st) Au ++ as_kids su.1 fu (u1 ++ u2) ++ expand (a_heap st) Cu =
    (expand (a_heap st) Au ++ K1) ++ s :: (behind <$> u2) ++ expand (a_heap st) Cu.
Proof.
  intros HK1. unfold as_kids. rewrite fmap_app, app_comm_cons.
  change ((su.1, fu) :: (behind <$> u1)) with (as_kids su.1 fu u1). by rewrite <- HK1, <- !app_assoc.
Qed.

(** A merge leaves the children of both nodes to the left one. *)
Lemma merge_level (st : astate) (s : slot) psep rid h f r0 hR fR rR :
  a_heap st !! s.2 = Some (NInt h f r0) -> a_heap st !! rid = Some (NInt hR fR rR) ->
  as_kids s.1 f (r0 ++ (psep, fR) :: rR) = kids (a_heap st) s ++ kids (a_heap st) (Some psep, rid).
Proof. intros Hs HR. by rewrite (kids_as _ s _ _ _ Hs), (kids_at _ _ _ _ _ _ HR), <- as_kids_app. Qed.

Lemma inner_without hp root A s y C :
  Forall (inner hp root) (A ++ s :: y :: C) -> Forall (fun i => is_Some (hp !! i)) (A ++ s :: C).*2.
Proof.
  intros HI. apply Forall_fmap, (Forall_impl (inner hp root)).
  - apply Forall_app in HI as [? [? [_ ?]%Forall_cons]%Forall_cons]. by apply Forall_app_2; [|constructor].
  - intros x (? & ? & ? & ? & _). by eexists.
Qed.

(** The parent [su] of [s] and of its right neighbour [rid]. *)
Definition siblings (st : astate) (path : list SearchPathEntry) (lvu : list level) (Au : level) (su : slot)
    (Cu : level) hu fu u1 psep rid u2 (K1 : level) (s : slot) : Prop :=
  at_node st path lvu Au su Cu /\ a_heap st !! su.2 = Some (NInt hu fu (u1 ++ (psep, rid) :: u2)) /\
  K1 ++ [s] = as_kids su.1 fu u1.
Definition before (st : astate) (Au K1 : level) : level := expand (a_heap st) Au ++ K1.
Definition after (st : astate) (u2 : list (Value * Z)) (Cu : level) : level := (behind <$> u2) ++ expand (a_heap st) Cu.

(** The merged node is [n]; its parent loses the separator and is repaired. *)
Lemma runs_merge_up st path lvu Au su Cu hu fu u1 psep rid u2 K1 s n :
  rebalance_spec path -> heap_ok c st -> a_disk_md st = a_md st ->
  siblings st path lvu Au su Cu hu fu u1 psep rid u2 K1 s -> s.2 ∉ ids ((Au ++ su :: Cu) :: lvu) ->
  Forall (fun i => is_Some (a_heap st !! i)) (before st Au K1 ++ s :: after st u2 Cu).*2 ->
  let st1 := put_node s.2 n st in
  runs c st1 (StoreMergedParent su.2 hu (node_data fu (u1 ++ u2)) (RebalanceAfterDelete path su.2)) (fun b st' =>
    b = true /\ grown (put_node su.2 (NInt (internal_header hu (u1 ++ u2)) fu (u1 ++ u2)) st1) st'
                  ((Au ++ su :: Cu) :: lvu) (before st Au K1 ++ s :: after st u2 Cu) 0).
Proof.
  intros IH Hok Hd (Hup & Hu & HK1) Hsl Hkids st1.
  destruct (heap_ok_int _ _ _ _ _ _ Hok Hu) as (_ & _ & _ & Hun & [Hg1 [_ Hg2]%Forall_cons]%Forall_app).
  assert (forall id, id ∈ ids ((Au ++ su :: Cu) :: lvu) -> a_heap st1 !! id = a_heap st !! id) as Hsame.
  { intros id Hid. apply lookup_insert_ne. by intros <-. }
  unfold before, after in *. rewrite <- (level_without st Au su Cu fu u1 u2 K1 s HK1) in Hkids |- *.
  assert (forall id, id ∈ (Au ++ su :: Cu).*2 -> a_heap st1 !! id = a_heap st !! id) as Hlev
    by (intros; apply Hsame; rewrite ids_cons, elem_of_app; auto).
  rewrite fmap_app, fmap_cons in Hlev. setoid_rewrite elem_of_app in Hlev. setoid_rewrite elem_of_cons in Hlev.
  assert (expand (a_heap st) Au = expand (a_heap st1) Au /\ expand (a_heap st) Cu = expand (a_heap st1) Cu) as [EA EC]
    by (split; symmetry; apply expand_ext; intros; apply Hlev; auto).
  rewrite EA, EC in Hkids |- *.
  apply (runs_merged_parent st1 path lvu Au su Cu hu fu (u1 ++ (psep, rid) :: u2) (u1 ++ u2)); try done.
  - by apply (at_node_frame st).
  - rewrite Hlev by auto. done.
  - by apply Forall_app_2.
  - rewrite zlen_app, zlen_cons in Hun. rewrite zlen_app. lia.
  - eapply Forall_impl; [exact Hkids|]. intros. by apply put_node_some.
Qed.

Lemma runs_MergeInternal st path lvu Au su Cu hu fu u1 psep rid u2 K1 s h f r0 hR fR rR :
  let lv := (Au ++ su :: Cu) :: lvu in
  let link := mkSearchPathEntry su.2 (zlen u1) in
  let S := before st Au K1 ++ s :: (Some psep, rid) :: after st u2 Cu in
  rebalance_spec path -> siblings st path lvu Au su Cu hu fu u1 psep rid u2 K1 s ->
  at_node st (link :: path) lv (before st Au K1) s ((Some psep, rid) :: after st u2 Cu) -> a_disk_md st = a_md st ->
  Forall (fun i => is_Some (a_heap st !! i)) (expand (a_heap st) S).*2 ->
  a_heap st !! s.2 = Some (NInt h f r0) -> a_heap st !! rid = Some (NInt hR fR rR) ->
  zlen r0 + zlen rR + 1 <= max_keys c ->
  runs c st (MergeInternalWithRightSibling s.2 link (RebalanceAfterDelete path su.2)) (fun b st' =>
    b = true /\ grown st st' (S :: lv) (expand (a_heap st) S) 0).
Proof.
  cbv zeta. intros IH (Hup & Hu & HK1) Hat Hd Hkids Hs HR Hsize. apply runs_heap_ok. intros Hok.
  destruct (heap_ok_int _ _ _ _ _ _ Hok Hs) as (? & ? & ? & _ & Hg).
  destruct (heap_ok_int _ _ _ _ _ _ Hok HR) as (? & _ & ? & _ & HgR).
  destruct (heap_ok_int _ _ _ _ _ _ Hok Hu) as (? & _ & _ & Hun & [Hg1 [[Hps _] Hg2]%Forall_cons]%Forall_app).
  unfold MergeInternalWithRightSibling. cbn [link_page_id child_index]. rbind runs_load_internal. intros a st' [-> ->].
  cbn [child_page_ids node_data separator_keys]. rewrite no_right_sibling, bool_decide_false by done.
  eapply runs_bind; [apply runs_at_index, znth_snd|]. intros a st' [-> ->]. cbn [snd].
  rbind runs_read. intros page st' (-> & -> & Hsok). rbind runs_read. intros page st' (-> & -> & HRok).
  rbind runs_parse_internal. intros a st' [-> ->]. rbind runs_parse_internal. intros a st' [-> ->].
  eapply runs_bind; [apply runs_at_index, znth_fst|]. intros a st' [-> ->].
  cbn [node_data separator_keys child_page_ids fst]. rewrite join_nodes. rbind runs_this. intros t st' [-> Ht].
  destruct Ht as (_ & -> & _). set (r := r0 ++ (psep, fR) :: rR).
  assert (Forall (child_good c) r) as Hgr by (apply Forall_app_2; [done|by constructor]).
  assert (zlen r <= max_keys c) as Hrn by (unfold r; rewrite zlen_app, zlen_cons; lia).
  rewrite (build_internal c C0) by done.
  eapply runs_bind; [apply runs_write_node; [done|by split_and!|]|].
  { apply zlen_page_image. by apply (internal_fits c C0 (internal_header h r)). }
  intros _ st' ->. set (st1 := put_node _ _ st).
  assert (Forall (fun i => is_Some (a_heap st1 !! i)) (f :: r.*2)) as Hch.
  { rewrite expand_app, !expand_cons, (app_assoc (kids _ s)), <- (merge_level _ _ _ _ _ _ _ _ _ _ Hs HR) in Hkids.
    rewrite !fmap_app, !Forall_app in Hkids. destruct Hkids as (_ & Hk & _). rewrite as_kids_ids in Hk.
    eapply Forall_impl; [exact Hk|]. intros. by apply put_node_some. }
  replace ((f :: r0.*2) ++ fR :: rR.*2) with (f :: r.*2) by (unfold r; by rewrite fmap_app, fmap_cons).
  eapply runs_bind; [by apply (runs_rewrite_children c C0)|].
  intros _ st' ->. fold (node_data fu (u1 ++ (psep, rid) :: u2)). rewrite remove_child_node.
  cbn [node_data separator_keys]. destruct (is_root hu && _) eqn:Eroot.
  - apply andb_prop in Eroot as [Eroot E0%bool_decide_eq_true]. apply fmap_nil_inv, app_nil in E0 as [-> ->].
    destruct (root_alone _ _ _ _ _ _ _ _ _ Hup Hu Eroot) as (-> & -> & -> & -> & ->).
    destruct (as_kids_first _ _ _ _ _ HK1 eq_refl) as (_ & -> & ->). cbn [snd] in *.
    eapply runs_mono; [by apply (runs_collapse st fu psep rid h hR f r0 fR rR (internal_header h r))|].
    intros b st' [-> Hgrown]. split; [done|]. exact Hgrown.
  - pose proof Hat as (_ & Hint & Hnd). pose proof (NoDup_two _ _ _ _ _ Hnd) as (Hne & Hsep & Hlv).
    assert (s.2 ∉ ids ((Au ++ su :: Cu) :: lvu)) as Hsl.
    { apply Hlv. rewrite fmap_app, fmap_cons, elem_of_app, elem_of_cons. auto. }
    eapply runs_mono; [apply (runs_merge_up st path lvu Au su Cu hu fu u1 psep rid u2 K1 s); try done|].
    + by eapply inner_without.
    + intros b st' [-> Hgrown]. split; [done|].
      assert (su.2 ∈ ids ((Au ++ su :: Cu) :: lvu)) as Hsu
        by (rewrite ids_cons, fmap_app, fmap_cons, !elem_of_app, elem_of_cons; auto).
      eapply (merge_grown _ (put_node su.2 _ st1) _ _ path _ _ _ _ _ _ h f r0 (internal_header h r) r);
        [..|exact Hgrown]; try done.
      * intros id Hid ?. cbn. rewrite !lookup_insert_ne by congruence. done.
      * cbn. rewrite lookup_insert_ne by congruence. apply lookup_insert_eq.
      * by eapply merge_level.
Qed.

(** ** Repairing inner nodes *)

Lemma runs_fix_internal st path lvu Au su Cu hu fu u1 psep rid u2 K1 s h f r0 :
  let lv := (Au ++ su :: Cu) :: lvu in
  let link := mkSearchPathEntry su.2 (zlen u1) in
  let S := before st Au K1 ++ s :: (Some psep, rid) :: after st u2 Cu in
  rebalance_spec path -> siblings st path lvu Au su Cu hu fu u1 psep rid u2 K1 s ->
  at_node st (link :: path) lv (before st Au K1) s ((Some psep, rid) :: after st u2 Cu) -> a_disk_md st = a_md st ->
  Forall (fun i => is_Some (a_heap st !! i)) (expand (a_heap st) S).*2 -> a_heap st !! s.2 = Some (NInt h f r0) ->
  runs c st (RedistributeOrMerge (node_type h) (mkPage s.2 (node_image c (NInt h f r0))) s.2 link path
               (RebalanceAfterDelete path su.2)) (fun fixed st' =>
    fixed = true /\ grown st st' (S :: lv) (expand (a_heap st) S) 0).
Proof.
  cbv zeta. intros IH Hsib Hat Hd Hkids Hs. apply runs_heap_ok. intros Hok. pose proof Hok as [_ Hh].
  destruct (Hh _ _ Hs) as [_ Hsok]. destruct (heap_ok_int _ _ _ _ _ _ Hok Hs) as (_ & _ & _ & Hn & Hg).
  pose proof Hat as (_ & Hint & Hnd). apply Forall_app in Hint as [_ [_ [(hR & fR & rR & HR & _) _]%Forall_cons]%Forall_cons].
  cbn [snd] in HR. destruct (heap_ok_int _ _ _ _ _ _ Hok HR) as (_ & _ & _ & HnR & _).
  unfold RedistributeOrMerge. rewrite (internal_type _ _ _ _ Hsok), bool_decide_false by done.
  rbind runs_parse_internal. intros a st' [-> ->].
  rewrite expand_app, expand_cons, (kids_as _ s _ _ _ Hs) in Hkids |- *.
  pose proof Hkids as Hk. rewrite !fmap_app, !Forall_app, as_kids_ids in Hk. destruct Hk as (_ & Hk & HkC).
  eapply runs_bind; [exact (runs_RedistributeInternal c C0 st _ _ _ s _ h f r0 r0 Hat Hs Hg Hk HkC)|]. intros [] st' Hst.
  - apply runs_ret. split; [done|]. by apply reshaped_grown.
  - destruct Hst as [-> Hns]. rewrite <- (kids_as (a_heap st) s _ _ _ Hs), <- expand_cons, <- expand_app in Hkids |- *.
    eapply runs_MergeInternal; try done. destruct Hsib as (_ & Hu & _).
    specialize (Hns _ _ _ _ _ psep rid (zlen rR) eq_refl Hu). cbn [child_index] in Hns. unfold int_size in Hns. rewrite HR in Hns.
    destruct Hns; [by rewrite znth_app_r, Z.sub_diag by lia|done|unfold max_keys in *; lia|lia].
Qed.

(** The left neighbour of [s] and the way to it. *)
Lemma left_sibling st path lvu Au su Cu hu fu u sep u2 K1 K1' sl s :
  at_node st path lvu Au su Cu -> a_heap st !! su.2 = Some (NInt hu fu ((u ++ [(sep, s.2)]) ++ u2)) ->
  K1 ++ [s] = as_kids su.1 fu (u ++ [(sep, s.2)]) -> K1' ++ [sl] = as_kids su.1 fu u ->
  s = (Some sep, s.2) /\ before st Au K1 = before st Au K1' ++ [sl] /\
  siblings st path lvu Au su Cu hu fu u sep s.2 u2 K1' sl /\
  path_to (a_heap st) (root_page_id (a_md st)) (mkSearchPathEntry su.2 (zlen u) :: path) ((Au ++ su :: Cu) :: lvu)
    (before st Au K1') sl ((Some sep, s.2) :: after st u2 Cu).
Proof.
  intros Hup Hu HK1 HKl. rewrite <- app_assoc in Hu. cbn [app] in Hu. pose proof Hup as (Hp & Hint & _).
  rewrite as_kids_app, <- HKl in HK1. apply app_inj_tail in HK1 as [-> Es]. split_and!; try done.
  - unfold before. by rewrite app_assoc.
  - assert (kids (a_heap st) su = K1' ++ sl :: (Some sep, s.2) :: (behind <$> u2)) as Hk.
    { rewrite (kids_as _ _ _ _ _ Hu), as_kids_app, <- HKl, <- app_assoc. done. }
    pose proof (path_down _ _ _ _ _ _ _ _ _ _ Hp Hint Hk) as Hd. apply (f_equal zlen) in HKl.
    unfold as_kids in HKl. rewrite zlen_app, !zlen_cons, zlen_nil, zlen_fmap in HKl.
    replace (zlen K1') with (zlen u) in Hd by lia. exact Hd.
Qed.

Lemma rebalance_step link path : rebalance_spec path -> rebalance_spec (link :: path).
Proof.
  intros IH st lv A s C Hat Hd Hkids. pose proof Hat as (Hp & Hint & Hnd).
  destruct (path_up _ _ _ _ _ _ _ Hp (NoDup_upper _ _ Hnd))
    as (lvu & Au & su & Cu & hu & fu & u1 & u2 & K1 & -> & Hup & -> & Hu & -> & HK1 & ->).
  pose proof Hint as [HiA [(h & f & r & Hs & _) _]%Forall_cons]%Forall_app.
  eapply (runs_rebalance _ _ _ su.1 _ _ _ _ K1 s (NInt h f r)); try done.
  - by eapply at_node_grown.
  - intros Hne. destruct u2 as [|[psep rid] u2]; [done|]. by eapply runs_fix_internal.
  - intros u sep K1' sl -> HKl. fold (before st Au K1) (after st u2 Cu) in *.
    destruct (left_sibling _ _ _ _ _ _ _ _ _ _ _ _ _ _ _ Hup Hu HK1 HKl) as (Es & EA & Hsib & Hpl).
    rewrite EA, <- app_assoc, Es in Hint, Hnd, Hkids |- *. rewrite EA in HiA.
    apply Forall_app in HiA as [_ [(hl & fl & rl & Hsl & _) _]%Forall_cons]. exists (NInt hl fl rl). split; [done|].
    by eapply runs_fix_internal.
Qed.

Lemma runs_RebalanceAfterDelete path : rebalance_spec path.
Proof.
  induction path as [|link path IH]; [|by apply rebalance_step].
  intros st lv A s C Hat Hd _. apply runs_ret. by eapply at_node_grown.
Qed.
End delete.
