(* ===== verification/BStarTreeLeafDelete.v ===== *)
(** * Deleting from a leaf

    The changes a deletion makes at the leaf level: the entry leaves its leaf,
    the separator in front of the leaf follows its first key, and a leaf that
    lost too much shares entries with a neighbour or is merged with it.  In each
    case the index represents the other entries, in order. *)

From stdpp Require Import sorting.
From S2P Require Import Prelude BinaryIO Values Serialization Disk PageStore KeyEncoder.
From S2P Require Import BStarTree BStarTreePages BStarTreeHeap BStarTreeLevels BStarTreeOrder BStarTreeSearch.
From S2P Require Import BStarTreeInsert BStarTreeLeaves BStarTreeLeafSplit BStarTreeDelete.

(** ** Merging two leaves in the heap *)

Lemma merged_linked st root lv A s b rid C h es hR rs h' es' :
  linked st root lv (A ++ s :: (b, rid) :: C) -> a_heap st !! s.2 = Some (NLeaf h es) ->
  a_heap st !! rid = Some (NLeaf hR rs) -> next_leaf_page_id h' = next_leaf_page_id hR -> is_root h' = is_root h ->
  linked (put_node s.2 (NLeaf h' es') st) root lv (A ++ s :: C).
Proof.
  intros [Hl Hnd Hr Hc Hf] Hs HR Hnx Hrt.
  pose proof (NoDup_two A C s (b, rid) [] ltac:(by rewrite ids_cons, app_nil_r)) as (_ & Hsep & _).
  assert (forall i, i ∈ A.*2 \/ i ∈ C.*2 -> a_heap (put_node s.2 (NLeaf h' es') st) !! i = a_heap st !! i) as Hsame.
  { intros i Hi. apply lookup_insert_ne. intros <-. destruct (Hsep s.2 ltac:(tauto)); done. }
  apply Forall_app in Hl as [HlA [(h0 & es0 & Hs0 & Hr0) [_ HlC]%Forall_cons]%Forall_cons].
  rewrite Hs in Hs0. injection Hs0 as <- <-. split.
  - apply Forall_app_2; [apply (leaf_ext (a_heap st)); auto|]. constructor; [|apply (leaf_ext (a_heap st)); auto].
    exists h', es'. split; [apply lookup_insert_eq|]. by rewrite Hrt.
  - by eapply NoDup_without.
  - intros id Hid. apply Hr. rewrite elem_of_snd_app, !fmap_cons, !elem_of_cons in *. tauto.
  - rewrite cons_middle, app_assoc in Hc. apply chain_mid in Hc as (HcA & (h0 & es0 & HR0 & Hn0) & HcC).
    cbn [snd] in HR0. rewrite HR in HR0. injection HR0 as <- <-. apply chain_app in HcA as [HcA _].
    apply chain_mid. split_and!; [apply (chain_ext (a_heap st)); auto| |apply (chain_ext (a_heap st)); auto].
    exists h', es'. split; [apply lookup_insert_eq|congruence].
  - cbn. rewrite Hf. by destruct A.
Qed.

(** Without the bound between them, two leaves are one. *)
Lemma sorted_join l1 b es psep rs l2 :
  sorted (l1 ++ marks_of b es ++ marks_of psep rs ++ l2) -> sorted (l1 ++ marks_of b (es ++ rs) ++ l2).
Proof.
  unfold marks_of. rewrite <- !app_comm_cons. intros Hs.
  rewrite app_comm_cons, app_assoc in Hs. apply sorted_drop in Hs.
  by rewrite <- app_assoc, <- app_comm_cons, app_assoc, <- fmap_app in Hs.
Qed.

(** ** The index without a key *)

Definition del_key (es : list LeafEntry) (key : Value) : list LeafEntry := filter (fun e => entry_key e <> key) es.

Lemma del_key_below es key : Forall (fun e => value_lt (entry_key e) key) es -> del_key es key = es.
Proof.
  induction 1 as [|e es He _ IH]; [done|]. unfold del_key in *. rewrite filter_cons_True, IH; [done|].
  intros E. unfold value_lt in He. by rewrite E, value_ltb_irrefl in He.
Qed.
Lemma del_key_above es key : Forall (fun e => value_lt key (entry_key e)) es -> del_key es key = es.
Proof.
  induction 1 as [|e es He _ IH]; [done|]. unfold del_key in *. rewrite filter_cons_True, IH; [done|].
  intros E. unfold value_lt in He. by rewrite E, value_ltb_irrefl in He.
Qed.
Lemma del_key_app es es' key : del_key (es ++ es') key = del_key es key ++ del_key es' key.
Proof. apply filter_app. Qed.

(** The entry of a stored key. *)
Lemma found_at_position es key rid :
  sorted_entries es -> find_key es key = Some rid ->
  exists es1 es2, es = es1 ++ mkLeafEntry key rid :: es2 /\ position es key = zlen es1 /\
    del_key es key = es1 ++ es2.
Proof.
  intros Hs Hf. destruct (position_split es key) as (l1 & l2 & -> & E & H1 & H2).
  rewrite (find_at_position _ _ Hs), E, znth_app_r, Z.sub_diag in Hf by lia.
  destruct H2 as [->|(e & l & -> & He)]; [done|]. rewrite znth_cons_0 in Hf.
  destruct (value_eqb (entry_key e) key) eqn:Ee; [|done]. apply bool_decide_eq_true in Ee. injection Hf as <-.
  exists l1, l. destruct e as [k r]. cbn in *. subst k. split_and!; try done.
  rewrite del_key_app, (del_key_below l1) by done. unfold del_key at 1. rewrite filter_cons_False by (cbn; tauto).
  fold (del_key l key). apply StronglySorted_app_1_r, StronglySorted_cons in Hs as [Hl _]. by rewrite del_key_above.
Qed.

Section delete_leaf.
Context {P : Type} {PS : PageStore P} {PL : PageStoreLaws P}.
Context (c : config) (C0 : config_ok c).

Lemma Forall_without (Q : Z -> Prop) (A C : level) s y : Forall Q (A ++ s :: y :: C).*2 -> Forall Q (A ++ s :: C).*2.
Proof.
  intros H. apply Forall_fmap. apply Forall_fmap, Forall_app in H as [? [? [_ ?]%Forall_cons]%Forall_cons].
  by apply Forall_app_2; [|constructor].
Qed.

(** The merge below a parent that keeps a separator. *)
Lemma merged_holds st st' path lv A s psep rid C h es hR rs h' ui nu :
  let hp := a_heap st in
  let st1 := put_node s.2 (NLeaf h' (es ++ rs)) st in
  heap_ok c st -> at_leaf st path lv A s ((Some psep, rid) :: C) h es -> path <> [] ->
  hp !! rid = Some (NLeaf hR rs) -> ui ∈ ids lv ->
  next_leaf_page_id h' = next_leaf_page_id hR -> is_root h' = is_root h ->
  grown (put_node ui nu st1) st' lv (A ++ s :: C) 0 ->
  holds st st' (length lv) (contents hp (A ++ s :: (Some psep, rid) :: C)) 0.
Proof.
  cbv zeta. intros Hok Hat Hpath HR Hui Hnx Hrt Hgr. pose proof Hat as [Ht Hp Hs Hd Hlow].
  pose proof (tree_at_linked c st lv _ Hok Ht) as [_ Hnd Hran Hch Hfst].
  destruct (at_leaf_sorted _ _ _ _ _ _ _ _ Hat) as [Hso _]. rewrite marks_cons, (leaf_entries _ (_, rid) _ _ HR) in Hso.
  destruct path as [|link path]; [done|].
  pose proof (leaves_below_root _ _ _ _ _ _ _ _ _ (root_page_id (a_md st')) Hat) as Hl.
  assert (linked (put_node s.2 (NLeaf h' (es ++ rs)) st) (root_page_id (a_md st')) lv (A ++ s :: C)) as Hl1
    by (by eapply merged_linked).
  assert (ui ∉ (A ++ s :: C).*2) as Hui' by (intros Hin; by apply (li_range _ _ _ _ Hl1) in Hin as [? _]).
  destruct (put_leaf_marks st A s s.1 C h' (es ++ rs) (li_nodup _ _ _ _ Hl1)) as [Hm Hc].
  rewrite <- surjective_pairing in Hm, Hc. set (st1 := put_node s.2 _ st) in *.
  destruct (leaves_ext (a_heap st1) (a_heap (put_node ui nu st1)) (A ++ s :: C)) as [Hm1 Hc1].
  { intros i Hi. apply lookup_insert_ne. by intros <-. }
  eapply (grown_holds st (put_node ui nu st1) st' lv (A ++ s :: C) 0 0); try done.
  - by apply linked_other.
  - rewrite Hm1, Hm. by eapply sorted_join.
  - cbn. lia.
  - by destruct Ht as (_ & _ & ?).
  - by apply (tree_at_height c st lv _ Hok Ht).
  - rewrite Hc1, Hc, (contents_mid _ _ _ _ _ _ Hs), contents_cons, (leaf_entries _ (_, rid) _ _ HR).
    by rewrite <- !app_assoc.
Qed.

(** The only two leaves become one, which is the root. *)
Lemma collapse_holds st path lv s psep rid h es hR rs h' :
  let hp := a_heap st in
  heap_ok c st -> at_leaf st path lv [] s [(Some psep, rid)] h es -> hp !! rid = Some (NLeaf hR rs) ->
  s.1 = None -> next_leaf_page_id h' = next_leaf_page_id hR ->
  holds st (collapsed_state st s.2 (NLeaf h' (es ++ rs)) s.2 1) (length lv) (contents hp [s; (Some psep, rid)]) 0.
Proof.
  cbv zeta. intros Hok Hat HR Hs1 Hnx. pose proof Hat as [Ht Hp Hs Hd Hlow].
  pose proof (tree_at_linked c st lv _ Hok Ht) as [_ Hnd Hran Hch Hfst].
  destruct (at_leaf_sorted _ _ _ _ _ _ _ _ Hat) as [Hso _]. rewrite marks_cons, (leaf_entries _ (_, rid) _ _ HR) in Hso.
  set (st' := collapsed_state _ _ _ _ _). assert (a_heap st' !! s.2 = Some (NLeaf h' (es ++ rs))) as Hs' by apply lookup_insert_eq.
  split_and!; try done; try (cbn; lia). exists [], [s]. split_and!; [split_and!; [split|done|done]|..].
  - destruct s as [b id]. cbn in Hs1. subst b. constructor.
  - apply Forall_singleton. by eexists _, _.
  - cbn. apply NoDup_singleton.
  - split; [|done]. exists h', (es ++ rs). split; [done|]. rewrite Hnx. destruct Hch as (_ & (hR' & rs' & HR' & Hn') & _).
    cbn [snd head_id] in HR', Hn' |- *. congruence.
  - rewrite marks_cons, (leaf_entries _ _ _ _ Hs'). by apply sorted_join in Hso.
  - change (entries_at (a_heap st') s ++ [] = entries_at (a_heap st) s ++ entries_at (a_heap st) (Some psep, rid) ++ []).
    by rewrite (leaf_entries _ _ _ _ Hs'), (leaf_entries _ _ _ _ Hs), (leaf_entries _ (_, rid) _ _ HR), !app_nil_r.
  - cbn. lia.
Qed.

Lemma runs_collapse_leaf st path lv s psep rid h es hR rs n :
  let h1 := set_next (next_leaf_page_id hR) h in
  heap_ok c st -> at_leaf st path lv [] s [(Some psep, rid)] h es -> a_heap st !! rid = Some (NLeaf hR rs) ->
  s.1 = None -> zlen (es ++ rs) <= max_keys c -> Forall (entry_good c) (es ++ rs) ->
  runs c (put_node s.2 n st)
    (_ ← StoreLeaf s.2 (set_root true (set_parent InvalidPageId h1)) (es ++ rs);
     _ ← update (set_tree s.2 s.2 1); _ ← WriteMetadata; mret true)
    (fun b st' => b = true /\ holds st st' (length lv) (contents (a_heap st) [s; (Some psep, rid)]) 0).
Proof.
  cbv zeta. intros Hok Hat HR Hs1 Hn Hg. pose proof Hat as [_ _ Hs _ _].
  destruct (heap_ok_leaf c _ _ _ _ Hok Hs) as (? & [? ?] & _). destruct (heap_ok_leaf c _ _ _ _ Hok HR) as (_ & [? ?] & _).
  eapply runs_bind; [by apply runs_store_leaf|]. intros _ st' ->.
  eapply runs_bind; [apply (runs_set_tree c)|]. intros [] st' ->.
  eapply runs_bind; [apply runs_write_metadata; [done|cbn; lia]|]. intros [] st' ->. apply runs_ret. split; [done|].
  set (h' := leaf_header _ _). pose proof (collapse_holds st _ _ _ _ _ _ _ hR rs h' Hok Hat HR Hs1 eq_refl) as Hholds.
  unfold sync_md, put_md, put_node. cbn [a_heap a_pages a_md a_disk_md]. rewrite insert_insert_eq. exact Hholds.
Qed.

Lemma runs_MergeLeaf st path lvu Au su Cu hu fu u1 psep rid u2 K1 s h es hR rs :
  let lv := (Au ++ su :: Cu) :: lvu in
  let link := mkSearchPathEntry su.2 (zlen u1) in
  siblings st path lvu Au su Cu hu fu u1 psep rid u2 K1 s ->
  at_leaf st (link :: path) lv (before st Au K1) s ((Some psep, rid) :: after st u2 Cu) h es ->
  a_heap st !! rid = Some (NLeaf hR rs) -> zlen es + zlen rs <= max_keys c ->
  runs c st (MergeLeafWithRightSibling s.2 link (RebalanceAfterDelete path su.2)) (fun b st' =>
    b = true /\ holds st st' (length lv)
                  (contents (a_heap st) (before st Au K1 ++ s :: (Some psep, rid) :: after st u2 Cu)) 0).
Proof.
  cbv zeta. intros Hsib Hat HR Hsize. apply runs_heap_ok. intros Hok. pose proof Hat as [Ht Hp Hs Hd Hlow].
  pose proof Hsib as (Hup & Hu & HK1).
  destruct (heap_ok_leaf c _ _ _ _ Hok Hs) as (? & [? ?] & _ & Hg).
  destruct (heap_ok_leaf c _ _ _ _ Hok HR) as (? & [? ?] & _ & HgR).
  destruct (lower_ids c _ _ _ _ _ _ _ _ Hok Hat) as [_ Hkids].
  unfold MergeLeafWithRightSibling. cbn [link_page_id child_index]. rbind runs_load_internal. intros a st' [-> ->].
  cbn [child_page_ids node_data separator_keys]. rewrite no_right_sibling, bool_decide_false by done.
  eapply runs_bind; [apply runs_at_index, znth_snd|]. intros a st' [-> ->]. cbn [snd].
  rbind runs_read. intros page st' (-> & -> & Hsok). rbind runs_read. intros page st' (-> & -> & HRok).
  rbind runs_parse_leaf. intros a st' [-> ->]. rbind runs_parse_leaf. intros a st' [-> ->].
  rbind runs_this. intros t st' [-> Hcore]. destruct Hcore as (_ & -> & _).
  assert (Forall (entry_good c) (es ++ rs)) as Hgr by by apply Forall_app_2.
  assert (zlen (es ++ rs) <= max_keys c) as Hrn by by rewrite zlen_app.
  rewrite (build_leaf c C0) by done. set (h' := leaf_header (set_next _ h) (es ++ rs)).
  eapply runs_bind; [apply runs_write_node; [done|by split_and!|]|].
  { apply zlen_page_image. by apply (leaf_fits c C0 h'). }
  intros _ st' ->. fold (node_data fu (u1 ++ (psep, rid) :: u2)). rewrite remove_child_node.
  cbn [node_data separator_keys]. destruct (is_root hu && _) eqn:Eroot.
  - apply andb_prop in Eroot as [Eroot E0%bool_decide_eq_true]. apply fmap_nil_inv, app_nil in E0 as [-> ->].
    destruct (root_alone _ _ _ _ _ _ _ _ _ Hup Hu Eroot) as (-> & -> & -> & -> & ->).
    destruct (as_kids_first _ _ _ _ _ HK1 eq_refl) as (_ & -> & ->). cbn [snd fst] in *.
    exact (runs_collapse_leaf st _ _ (None, fu) psep rid h es hR rs _ Hok Hat HR eq_refl Hrn Hgr).
  - pose proof Ht as ([_ Hleaf Hnd _ _] & _). pose proof (NoDup_two _ _ _ _ _ Hnd) as (_ & _ & Hlv).
    assert (s.2 ∉ ids ((Au ++ su :: Cu) :: lvu)) as Hsl.
    { apply Hlv. rewrite fmap_app, fmap_cons, elem_of_app, elem_of_cons. auto. }
    eapply runs_mono; [apply (runs_merge_up c C0 st path lvu Au su Cu hu fu u1 psep rid u2 K1 s); try done|].
    + by apply runs_RebalanceAfterDelete.
    + by eapply Forall_without.
    + intros b st' [-> Hgrown]. split; [done|]. 
      eapply (merged_holds st st' _ _ _ s psep rid _ h es hR rs h' su.2); [exact Hok|exact Hat|done|done| |done|done|exact Hgrown].
      apply ids_In, elem_of_app. right. left.
Qed.

(** ** Repairing leaves *)

Lemma runs_fix_leaf st path lvu Au su Cu hu fu u1 psep rid u2 K1 s h es :
  let lv := (Au ++ su :: Cu) :: lvu in
  let link := mkSearchPathEntry su.2 (zlen u1) in
  siblings st path lvu Au su Cu hu fu u1 psep rid u2 K1 s ->
  at_leaf st (link :: path) lv (before st Au K1) s ((Some psep, rid) :: after st u2 Cu) h es ->
  runs c st (RedistributeOrMerge (node_type h) (mkPage s.2 (node_image c (NLeaf h es))) s.2 link path
               (RebalanceAfterDelete path su.2)) (fun fixed st' =>
    fixed = true /\ holds st st' (length lv)
                      (contents (a_heap st) (before st Au K1 ++ s :: (Some psep, rid) :: after st u2 Cu)) 0).
Proof.
  cbv zeta. intros Hsib Hat. apply runs_heap_ok. intros Hok. pose proof Hok as [_ Hh]. pose proof Hat as [Ht Hp Hs Hd Hlow].
  destruct (Hh _ _ Hs) as [_ Hsok]. destruct (heap_ok_leaf c _ _ _ _ Hok Hs) as (_ & _ & Hn & Hg).
  pose proof Ht as ([_ Hl _ _ _] & _). apply Forall_app in Hl as [_ [_ [(hR & rs & HR & _) _]%Forall_cons]%Forall_cons].
  cbn [snd] in HR. destruct (heap_ok_leaf c _ _ _ _ Hok HR) as (_ & _ & HnR & _).
  destruct (at_leaf_sorted _ _ _ _ _ _ _ _ Hat) as [Hso _].
  unfold RedistributeOrMerge. rewrite (leaf_type _ _ _ Hsok), bool_decide_true by done.
  rbind runs_parse_leaf. intros a st' [-> ->].
  eapply runs_bind; [exact (runs_RedistributeLeaf c C0 st _ _ _ s _ h es es Hat Hg Hso)|]. intros [] st' Hst.
  - apply runs_ret. split; [done|]. by rewrite (contents_mid _ _ _ _ _ _ Hs).
  - destruct Hst as [-> Hns]. eapply runs_MergeLeaf; try done. destruct Hsib as (_ & Hu & _).
    specialize (Hns _ _ _ _ _ psep rid (zlen rs) eq_refl Hu). cbn [child_index] in Hns. unfold leaf_size in Hns. rewrite HR in Hns.
    destruct Hns; [by rewrite znth_app_r, Z.sub_diag by lia|done|unfold max_keys in *; lia|lia].
Qed.

Lemma runs_rebalance_leaf st path lv A s C h es :
  at_leaf st path lv A s C h es ->
  runs c st (RebalanceAfterDelete path s.2) (fun _ st' =>
    holds st st' (length lv) (contents (a_heap st) (A ++ s :: C)) 0).
Proof.
  intros Hat. pose proof Hat as [Ht Hp Hs Hd Hlow]. destruct (at_leaf_nodup _ _ _ _ _ _ _ _ Hat) as (_ & Hndl & _).
  destruct path as [|link path]; [apply runs_ret; by eapply at_leaf_holds|].
  destruct (path_up _ _ _ _ _ _ _ Hp Hndl)
    as (lvu & Au & su & Cu & hu & fu & u1 & u2 & K1 & -> & Hup & -> & Hu & -> & HK1 & ->).
  eapply (runs_rebalance c C0 st _ _ su.1 _ _ _ _ K1 s (NLeaf h es)); try done.
  - by eapply at_leaf_holds.
  - intros Hne. destruct u2 as [|[psep rid] u2]; [done|]. by eapply runs_fix_leaf.
  - intros u sep K1' sl -> HKl. fold (before st Au K1) (after st u2 Cu) in *.
    destruct (left_sibling _ _ _ _ _ _ _ _ _ _ _ _ _ _ _ Hup Hu HK1 HKl) as (Es & EA & Hsib & Hpl).
    rewrite EA, <- app_assoc, Es in Ht |- *. cbn [app] in Ht |- *.
    pose proof Ht as ([_ Hl _ _ _] & _). apply Forall_app in Hl as [_ [(hl & el & Hsl & _) _]%Forall_cons].
    exists (NLeaf hl el). split; [done|]. by eapply runs_fix_leaf.
Qed.
(** ** Deleting an entry *)

(** A leaf whose separator was brought up to date. *)
Lemma repathed_at_leaf st st' path lv A s C h e es :
  let s' := (rebound s.1 (entry_key e), s.2) in
  heap_ok c st -> at_leaf st path lv A s C h (e :: es) -> repathed st st' path lv A s' C ->
  exists lv', at_leaf st' path lv' A s' C h (e :: es) /\ length lv' = length lv /\
    contents (a_heap st') (A ++ s' :: C) = contents (a_heap st) (A ++ s :: C).
Proof.
  cbv zeta. intros Hok Hat (Hmd & Hdm & Hpg & Hon & lv' & Hp' & Hids & Hlen). pose proof Hat as [Ht Hp Hs Hd Hlow].
  destruct (at_leaf_sorted _ _ _ _ _ _ _ _ Hat) as [Hso _].
  set (s' := (rebound s.1 (entry_key e), s.2)) in *. pose proof (tree_at_linked c st lv _ Hok Ht) as Hl.
  apply (linked_ids _ _ _ _ (A ++ s' :: C)) in Hl as [Hleaf Hnd Hran Hch Hfst]; [|by rewrite !fmap_app].
  assert (forall id, id ∈ (A ++ s' :: C).*2 -> a_heap st' !! id = a_heap st !! id) as Hsame
    by (intros id Hid; destruct (Hran id Hid); by apply Hon).
  destruct (leaves_ext _ _ _ Hsame) as [Hm Hc]. exists lv'. split_and!; [split|done|].
  - split_and!; [split|congruence|destruct Ht as (_ & _ & ?); congruence].
    + by eapply path_to_tree.
    + rewrite Hmd. by eapply leaf_ext.
    + rewrite ids_cons, Hids. apply NoDup_app. split_and!; [done|by intros id [? _]%Hran|].
      by destruct (at_leaf_nodup _ _ _ _ _ _ _ _ Hat) as (_ & ? & _).
    + by eapply chain_ext.
    + rewrite Hm, (marks_mid _ _ s' _ _ _ Hs). by apply sorted_rebound.
  - done.
  - rewrite Hsame; [done|]. rewrite fmap_app, fmap_cons. apply elem_of_app. right. left.
  - congruence.
  - lia.
  - by rewrite Hc, (contents_mid _ _ s' _ _ _ Hs), (contents_mid _ _ _ _ _ _ Hs).
Qed.

Lemma delete_marks l1 b es1 e es2 l2 :
  sorted (l1 ++ marks_of b (es1 ++ e :: es2) ++ l2) -> sorted (l1 ++ marks_of b (es1 ++ es2) ++ l2).
Proof.
  unfold marks_of. rewrite !fmap_app, fmap_cons, <- !app_comm_cons, <- !app_assoc. intros Hs.
  rewrite app_comm_cons, app_assoc in Hs. apply sorted_drop in Hs. by rewrite <- app_assoc in Hs.
Qed.

Lemma delete_contents st path lv A s C h es key :
  at_leaf st path lv A s C h es -> covers key s C ->
  del_key (contents (a_heap st) (A ++ s :: C)) key =
    contents (a_heap st) A ++ del_key es key ++ contents (a_heap st) C.
Proof.
  intros [([Ht _ _ _ Hs] & _) _ Hn _] [Hle Hbelow]. rewrite (contents_mid _ _ _ _ _ _ Hn), !del_key_app.
  rewrite (del_key_below (contents _ A)) by by eapply covered_left. do 2 f_equal. apply del_key_above.
  pose proof (tree_tail_bounded _ _ _ _ _ _ Ht). rewrite marks_app, marks_cons in Hs.
  apply covered_right; [|by apply next_bound_marks]. by apply StronglySorted_app_1_r, StronglySorted_app_1_r in Hs.
Qed.

(** What follows the write of the leaf. *)
Lemma runs_after_removal st path lv A s C h es (first : bool) :
  at_leaf st path lv A s C h es ->
  runs c st (match es with
             | front :: _ => if first then UpdateParentSeparatorAfterChildChange path (entry_key front) else mret tt
             | [] => mret tt
             end)
    (fun _ st' => a_md st' = a_md st /\ a_pages st' = a_pages st /\
       exists lv' s', at_leaf st' path lv' A s' C h es /\ s'.2 = s.2 /\ length lv' = length lv /\
         contents (a_heap st') (A ++ s' :: C) = contents (a_heap st) (A ++ s :: C)).
Proof.
  intros Hat. apply runs_heap_ok. intros Hok. pose proof Hat as [Ht Hp Hs _ _].
  destruct (at_leaf_nodup _ _ _ _ _ _ _ _ Hat) as (_ & Hndl & _).
  destruct es as [|e es]; [|destruct first]; [apply runs_ret; split_and!; try done; by exists lv, s| |
    apply runs_ret; split_and!; try done; by exists lv, s].
  destruct (heap_ok_leaf c _ _ _ _ Hok Hs) as (_ & _ & _ & [[Hkey _] _]%Forall_cons).
  eapply runs_mono; [by eapply (runs_UpdateParentSeparator c C0)|]. intros [] st' Hre.
  destruct (repathed_at_leaf _ _ _ _ _ _ _ _ _ _ Hok Hat Hre) as (lv' & Hat' & Hlen & Hc).
  destruct Hre as (? & _ & ? & _). split_and!; try done. eexists lv', _. by split_and!.
Qed.

(** The tree without entries. *)
Definition emptied (st : astate) : astate :=
  let m := collapsed_md (a_md st) InvalidPageId InvalidPageId 0 in mkState (a_heap st) (a_pages st) m m.

Lemma root_leaf_alone st path lv A s C h es :
  at_leaf st path lv A s C h es -> is_root h = true -> A = [] /\ C = [].
Proof.
  intros Hat Hr. pose proof Hat as [([_ Hl Hnd _ _] & _) Hp Hs _ _]. destruct path as [|link path]; [by inversion Hp|].
  apply path_root_in in Hp. apply NoDup_level in Hnd as (_ & _ & Hn).
  apply Forall_app in Hl as [_ [(h' & es' & Hs' & Hroot) _]%Forall_cons]. rewrite Hs in Hs'. injection Hs' as <- <-.
  by rewrite <- (Hroot Hr) in Hp.
Qed.

Lemma runs_DeleteFromLeaf st path lv A s C h es key rid :
  let es' := del_key (contents (a_heap st) (A ++ s :: C)) key in
  at_leaf st path lv A s C h es -> covers key s C -> find_key es key = Some rid ->
  runs c st (DeleteFromLeaf s.2 path key) (fun _ st' =>
    holds st st' (length lv) es' 0 \/ (es' = [] /\ st' = emptied st)).
Proof.
  cbv zeta. intros Hat Hcov Hf. apply runs_heap_ok. intros Hok. pose proof Hat as [Ht Hp Hs Hd Hlow].
  destruct (heap_ok_leaf c _ _ _ _ Hok Hs) as (Hsi & ? & Hn & Hg). pose proof Hok as [? _].
  destruct (at_leaf_sorted _ _ _ _ _ _ _ _ Hat) as [Hso _]. rewrite (delete_contents _ _ _ _ _ _ _ _ _ Hat Hcov).
  pose proof Ht as ([_ _ _ _ Hsl] & _). apply leaf_sorted in Hsl. rewrite (leaf_entries _ _ _ _ Hs) in Hsl.
  destruct (found_at_position es key rid Hsl Hf) as (es1 & es2 & E & Epos & Edel). rewrite Edel.
  unfold DeleteFromLeaf. rbind runs_load_leaf. intros a st' [-> ->]. cbv zeta. rewrite FindEntryPosition_eq, Epos by done.
  rewrite E in Hso, Hn, Hg |- *. rewrite znth_app_r, Z.sub_diag, znth_cons_0 by lia. cbn [entry_key].
  unfold value_eqb. rewrite (bool_decide_true (key = key)) by done. cbn [negb].
  eapply runs_bind; [by apply (runs_guard _ _ _ _ (fun _ st' => st' = st))|]. intros _ st' ->.
  replace (zerase (zlen es1) (es1 ++ mkLeafEntry key rid :: es2)) with (es1 ++ es2).
  2: { unfold zerase. rewrite ztake_app_eq by done. rewrite (cons_middle _ es1), app_assoc.
    by rewrite zdrop_app_eq by (rewrite zlen_app, zlen_cons, zlen_nil; lia). }
  apply delete_marks in Hso. apply Forall_app in Hg as [Hg1 [_ Hg2]%Forall_cons].
  assert (Forall (entry_good c) (es1 ++ es2)) by by apply Forall_app_2.
  rewrite zlen_app, zlen_cons in Hn. assert (zlen (es1 ++ es2) <= max_keys c) by (rewrite zlen_app; lia).
  destruct (is_root h && _) eqn:Eroot.
  - apply andb_prop in Eroot as [Er Ee%bool_decide_eq_true]. destruct (root_leaf_alone _ _ _ _ _ _ _ _ Hat Er) as [-> ->].
    eapply runs_bind; [apply (runs_set_tree c)|]. intros [] st' ->.
    eapply runs_mono; [apply runs_write_metadata; done|]. intros [] st' ->. right. rewrite Ee. done.
  - rbind runs_store_leaf. intros _ st' ->. pose proof (at_leaf_stored _ _ _ _ _ _ _ _ _ _ Hok Hat Hso) as Hat1. cbv zeta in Hat1.
    destruct (put_leaf_marks st A s s.1 C (leaf_header h (es1 ++ es2)) (es1 ++ es2)) as [_ Hc];
      [by apply (at_leaf_nodup _ _ _ _ _ _ _ _ Hat)|]. rewrite <- surjective_pairing in Hc. rewrite <- Hc.
    set (st1 := put_node _ _ _) in *.
    eapply runs_bind; [by eapply runs_after_removal|]. intros [] st2 (Hmd & Hpg & lv' & s' & Hat2 & Hs' & Hlen & Hc2).
    rewrite <- Hc2, <- Hlen, <- Hs'. eapply (runs_mono c st2 _ (fun _ st' => holds st2 st' (length lv') (contents (a_heap st2) (A ++ s' :: C)) 0)).
    + destruct (is_root h); [apply runs_ret; by eapply at_leaf_holds|]. rbind runs_this. intros t st' [-> _].
      destruct (IsLeafUnderfull _ _ _); [by eapply runs_rebalance_leaf|apply runs_ret; by eapply at_leaf_holds].
    + intros [] st' Hh. left. by apply (holds_from st st2).
Qed.
End delete_leaf.
