(* ===== verification/BStarTreeSpec.v ===== *)
(** * The B*-tree implements an index

    The abstract index is the list of its entries in key order.  Every operation
    of the tree answers as the list does and leaves a tree that represents the
    new list; opening the file again finds the same index. *)

From stdpp Require Import sorting.
From S2P Require Import Prelude BinaryIO Values Serialization Disk PageStore PageManager KeyEncoder.
From S2P Require Import BStarTree BStarTreePages BStarTreeHeap BStarTreeLevels BStarTreeOrder BStarTreeSearch.
From S2P Require Import BStarTreeInsert BStarTreeLeaves BStarTreeLeafSplit BStarTreeDelete BStarTreeLeafDelete.

(** ** Trees that hold an index *)

Definition empty_md (c : config) : TreeMetadata :=
  mkTreeMetadata kTreeVersion InvalidPageId InvalidPageId (c_degree c) (c_kmax c) 0.
Definition md_fields (c : config) (m : TreeMetadata) : Prop :=
  tm_version m = kTreeVersion /\ tm_min_degree m = c_degree c /\ tm_max_key_payload_bytes m = c_kmax c.

(** The tree holds [es] below at most [k] inner levels. *)
Definition indexed (c : config) (k : nat) (es : list LeafEntry) (st : astate) : Prop :=
  a_disk_md st = a_md st /\ a_pages st < 2 ^ 63 /\
  ((a_md st = empty_md c /\ es = []) \/
   (md_fields c (a_md st) /\ exists lv L, tree_at st lv L /\ es = contents (a_heap st) L /\ (length lv <= k)%nat)).

(** ** The metadata page *)

Definition md_fits (m : TreeMetadata) : Prop :=
  in_u64 (root_page_id m) /\ in_u64 (first_leaf_page_id m) /\ in_u64 (tree_height m).

Definition md_bytes (kt : ValueType) (m : TreeMetadata) : bytes :=
  le_bytes 4 (tm_version m) ++ le_bytes 4 (u32 (ValueType_int kt)) ++ le_bytes 8 (root_page_id m) ++
  le_bytes 8 (first_leaf_page_id m) ++ le_bytes 8 (tm_min_degree m) ++
  le_bytes 8 (tm_max_key_payload_bytes m) ++ le_bytes 8 (tree_height m).
Lemma SerializeMetadata_eq kt m : SerializeMetadata kt m = kTreeMetadataMagic ++ md_bytes kt m.
Proof. unfold SerializeMetadata, WriteUint32, WriteUint64, WriteBytes. cbv zeta. by rewrite <- !app_assoc. Qed.

Lemma ReadTreeMetadata_decodes kt m degree kmax :
  md_fits m -> tm_version m = kTreeVersion -> tm_min_degree m = degree -> tm_max_key_payload_bytes m = kmax ->
  in_u64 degree -> in_u64 kmax ->
  decodes (ReadTreeMetadata kt degree kmax) (md_bytes kt m) m.
Proof.
  intros (Hr & Hf & Hh) Ev Ed Ek Hd Hk. unfold ReadTreeMetadata, md_bytes.
  eapply decodes_bind; [apply ReadUint32_decodes; by rewrite Ev|].
  eapply decodes_bind; [apply ReadUint32_decodes; by destruct kt|].
  rewrite Ev, Z.eqb_refl. replace (u32 (ValueType_int kt)) with (ValueType_int kt) by by destruct kt.
  rewrite Z.eqb_refl. cbn [negb].
  eapply decodes_bind; [by apply ReadUint64_decodes|]. eapply decodes_bind; [by apply ReadUint64_decodes|].
  rewrite Ed, Ek. eapply decodes_bind; [by apply ReadUint64_decodes|]. rewrite Z.eqb_refl. cbn [negb].
  eapply decodes_bind; [by apply ReadUint64_decodes|]. rewrite Z.eqb_refl. cbn [negb].
  eapply decodes_map; [by apply ReadUint64_decodes|]. destruct m; cbn in *. congruence.
Qed.

Lemma DeserializeMetadata_ok kt m degree kmax size :
  md_fits m -> tm_version m = kTreeVersion -> tm_min_degree m = degree -> tm_max_key_payload_bytes m = kmax ->
  in_u64 degree -> in_u64 kmax ->
  DeserializeMetadata kt degree kmax (page_image size (SerializeMetadata kt m)) = Ok m.
Proof.
  intros Hm Ev Ed Ek Hd Hk. unfold DeserializeMetadata, page_image, check_not.
  rewrite (proj2 (Z.ltb_ge _ _)) by (rewrite zlen_app, zlen_tree_metadata; zlia).
  rewrite SerializeMetadata_eq, <- app_assoc, ztake_app_eq, bool_decide_true by done.
  cbn [mbind result_bind negb]. by rewrite (ReadTreeMetadata_decodes kt m degree kmax).
Qed.

(** ** Operations and replies *)

Inductive tree_call :=
  | TInsert (key : Value) (rid : Z)
  | TDelete (key : Value)
  | TFind (key : Value)
  | TRange (range : KeyRange).
(** A call, or opening the file anew. *)
Inductive tree_op := TCall (q : tree_call) | TReopen.
Inductive reply := RDone | RRid (rid : option Z) | RRids (rids : list Z) | RError (code : StatusCode).

Definition answer {A S} (f : A -> reply) (r : result A * S) : reply * S :=
  (match r.1 with Ok a => f a | Err code _ => RError code end, r.2).

Section spec.
Context {P : Type} {PS : PageStore P} {PL : PageStoreLaws P}.
Context (c : config) (C0 : config_ok c).

Lemma tree_at_root st lv L :
  heap_ok c st -> a_pages st < 2 ^ 63 -> tree_at st lv L -> 0 < root_page_id (a_md st) < 2 ^ 63.
Proof.
  intros [_ Hh] Hp (HR & _). pose proof (tree_root_in _ _ _ _ (tr_tree _ _ _ _ HR)) as Hin.
  destruct (tree_rep_ids _ _ _ _ _ HR Hin) as [n Hn].
  destruct (Hh _ _ Hn). lia.
Qed.

Lemma indexed_rep k es st : heap_ok c st -> indexed c k es st -> index_rep st es.
Proof.
  intros Hok (Hd & Hp & Hcase). split_and!; try done.
  destruct Hcase as [[-> ->]|(_ & lv & L & Ht & -> & _)]; [by left|]. right. split; [|eauto].
  pose proof (tree_at_root _ _ _ Hok Hp Ht). unfold InvalidPageId, kInvalidPageIdValue. lia.
Qed.

Lemma holds_indexed st st' k m es n :
  holds st st' k es n -> md_fields c (a_md st) -> a_pages st + n < 2 ^ 63 -> (S k <= m)%nat -> indexed c m es st'.
Proof.
  intros ((Hv & _ & Hdg & Hk) & Hd & Hp & lv & L & Ht & Hc & Hlen) (? & ? & ?) Hlow Hm. split_and!; [done|lia|].
  right. split; [split_and!; congruence|]. exists lv, L. split_and!; [done|done|lia].
Qed.

Lemma indexed_more k m es st : indexed c k es st -> (k <= m)%nat -> indexed c m es st.
Proof.
  intros (? & ? & [?|(? & lv & L & ? & ? & ?)]) Hm; split_and!; try done; [by left|]. right. split; [done|].
  exists lv, L. split_and!; try done. lia.
Qed.

Lemma path_length hp root path lv A s C : path_to hp root path lv A s C -> length path = length lv.
Proof. induction 1; cbn; congruence. Qed.

(** ** Insertion *)

(** The first entry makes its leaf the root. *)
Lemma runs_insert_first st key rid :
  indexed c 0 [] st -> a_md st = empty_md c -> entry_good c (mkLeafEntry key rid) -> room c st 1 ->
  runs c st
    (new_root ← AllocateNodePage;
     _ ← StoreLeaf new_root (mkNodeHeader ntLeaf 0 InvalidPageId InvalidPageId true) [mkLeafEntry key rid];
     _ ← update (set_tree new_root new_root 1);
     WriteMetadata)
    (fun _ st' => indexed c 0 [mkLeafEntry key rid] st' /\ a_pages st' = a_pages st + 1).
Proof.
  intros (Hd & Hp & _) Hmd Hg Hroom. apply runs_heap_ok. intros [Hpos _]. pose proof (tree_room_bound c C0 _ _ Hroom).
  destruct (co_degree _ C0). eapply runs_bind; [by apply runs_alloc|]. intros a st' [-> ->].
  eapply runs_bind.
  { apply runs_store_leaf; try done; [cbn; lia|unfold max_keys; rewrite zlen_cons, zlen_nil; lia|by apply Forall_singleton]. }
  intros _ st' ->. eapply runs_bind; [apply (runs_set_tree c)|]. intros [] st' ->.
  eapply runs_mono; [apply runs_write_metadata; [done|cbn; lia]|]. intros [] st' ->. split; [|done].
  split_and!; [done|cbn; lia|]. right. split; [by unfold md_fields; cbn; rewrite Hmd|].
  set (st1 := sync_md _). exists [], [(None, a_pages st)]. 
  set (n := NLeaf _ _) in st1. assert (a_heap st1 !! a_pages st = Some n) as Hn by apply lookup_insert_eq.
  split_and!; [split_and!; [split|done|done]| |done].
  - constructor.
  - apply Forall_singleton. by eexists _, _.
  - cbn. apply NoDup_singleton.
  - split; [|done]. by eexists _, _.
  - rewrite marks_cons. rewrite (leaf_entries _ (None, _) _ _ Hn). by repeat constructor.
  - rewrite contents_cons. by rewrite (leaf_entries _ (None, _) _ _ Hn).
Qed.

(** The tree's answer to a search below its root. *)
Lemma found_leaf st lv L key path leaf rid :
  tree_at st lv L -> a_disk_md st = a_md st -> a_pages st < 2 ^ 63 ->
  found (a_heap st) (root_page_id (a_md st)) lv L key (path, leaf, rid) ->
  rid = find_key (contents (a_heap st) L) key /\
  exists A s C h es, leaf = s.2 /\ L = A ++ s :: C /\ at_leaf st path lv A s C h es /\ covers key s C /\
    find_key es key = rid /\ length path = length lv.
Proof.
  intros Ht Hd Hp Hfd. pose proof Ht as (HR & _). split; [by apply (found_contents _ _ _ _ _ _ HR) in Hfd|].
  destruct Hfd as (path' & A & s & C & [= -> -> ->] & Hpath & -> & Hcov).
  pose proof (tr_leaves _ _ _ _ HR) as [_ [(h & es & Hs & _) _]%Forall_cons]%Forall_app.
  exists A, s, C, h, es. rewrite (leaf_entries _ _ _ _ Hs). split_and!; try done. by eapply path_length.
Qed.

Lemma runs_locate fuel st lv L key :
  heap_ok c st -> tree_at st lv L -> a_disk_md st = a_md st -> a_pages st < 2 ^ 63 -> (Z.to_nat (a_pages st) <= fuel)%nat ->
  runs c st (FindPathToLeaf fuel key) (fun r st' => st' = st /\ r.2 = find_key (contents (a_heap st) L) key /\
    exists A s C h es, r.1.2 = s.2 /\ L = A ++ s :: C /\ at_leaf st r.1.1 lv A s C h es /\ covers key s C /\
      find_key es key = r.2 /\ length r.1.1 = length lv).
Proof.
  intros Hok Ht Hd Hp Hfuel. pose proof Ht as (HR & _). pose proof (tree_rep_fuel c st lv L Hok HR).
  pose proof (tree_at_root _ _ _ Hok Hp Ht).
  eapply runs_mono; [apply (runs_find_path c C0 fuel key st lv L); try done; [unfold InvalidPageId, kInvalidPageIdValue; lia|lia]|].
  intros [[path leaf] r] st' [-> Hfd]. split; [done|]. by eapply found_leaf.
Qed.
(** A tree that is not empty has a root. *)
Lemma root_valid st lv L :
  heap_ok c st -> a_pages st < 2 ^ 63 -> tree_at st lv L -> IsInvalidPageId (root_page_id (a_md st)) = false.
Proof.
  intros Hok Hp Ht. pose proof (tree_at_root _ _ _ Hok Hp Ht). apply Z.eqb_neq. unfold kInvalidPageIdValue. lia.
Qed.

(** What every operation does before it looks at the tree. *)
Lemma runs_entry {A} st key (k : BStarTree P -> M (BStarTree P * disk) A) Q :
  valid_key c key = true -> (forall t, core c st t -> runs c st (k t) Q) ->
  runs c st (_ ← tree_require_open; _ ← ValidateKeyType key; t ← this; k t) Q.
Proof.
  intros Hv Hk. rbind runs_open. intros _ st' ->.
  eapply runs_bind; [by apply (runs_validate c C0 st key (fun _ st' => st' = st))|]. intros _ st' ->.
  rbind runs_this. intros t st' [-> Ht]. by apply Hk.
Qed.
Lemma fails_entry {A} st key (k : BStarTree P -> M (BStarTree P * disk) A) code :
  valid_key c key = true -> (forall t, core c st t -> fails c st (k t) code) ->
  fails c st (_ ← tree_require_open; _ ← ValidateKeyType key; t ← this; k t) code.
Proof.
  intros Hv Hk. rfail runs_open. intros _ st' ->. split; [done|].
  rfail (runs_validate c C0 st key (fun _ st' => st' = st)). intros _ st' ->. split; [done|].
  rfail runs_this. intros t st' [-> Ht]. split; [done|]. by apply Hk.
Qed.
Lemma fails_invalid {A} st key (k : BStarTree P -> M (BStarTree P * disk) A) :
  valid_key c key = false ->
  fails c st (_ ← tree_require_open; _ ← ValidateKeyType key; t ← this; k t) kInvalidArgument.
Proof. intros Hv. rfail runs_open. intros _ st' ->. split; [done|]. by apply fails_bind, fails_validate. Qed.

Lemma runs_Insert fuel st k es key rid :
  indexed c k es st -> value_ok key -> valid_key c key = true -> in_u64 rid -> find_key es key = None ->
  room c st (Z.of_nat k + 2) -> (Z.to_nat (a_pages st) <= fuel)%nat ->
  runs c st (bt_Insert fuel key rid) (fun _ st' =>
    indexed c (S k) (add_key es key rid) st' /\ a_pages st <= a_pages st' <= a_pages st + Z.of_nat k + 2).
Proof.
  intros Hix Hvo Hv Hrid Hnew Hroom Hfuel. apply runs_heap_ok. intros Hok. pose proof (valid_key_good c key Hvo Hv) as Hgood.
  pose proof (tree_room_bound c C0 _ _ Hroom). apply runs_entry; [done|]. intros t (_ & _ & _ & _ & _ & ->).
  pose proof Hix as (Hd & Hp & [[Hmd ->]|(Hmd & lv & L & Ht & -> & Hlen)]).
  - rewrite Hmd. change (IsInvalidPageId (root_page_id (empty_md c))) with true. cbn iota.
    eapply runs_mono; [apply runs_insert_first; try done|].
    + split_and!; try done. by left.
    + eapply (room_le c C0); [done|lia].
    + intros [] st' [Hix' ->]. split; [|lia]. eapply indexed_more; [exact Hix'|lia].
  - rewrite (root_valid _ _ _ Hok Hp Ht). eapply runs_bind; [by apply runs_locate|].
    intros [[path leaf] r] st' (-> & Hr & A & s & C & h & es & Eleaf & -> & Hat & Hcov & Hf & Hpl). cbn [fst snd] in *. subst leaf.
    rewrite Hr, Hnew. rewrite Hr, Hnew in Hf. eapply runs_mono.
    + apply (runs_InsertIntoLeaf c C0 st path lv A s C h es key rid); try done. eapply (room_le c C0); [done|lia].
    + intros [] st' Hh. split; [eapply holds_indexed; try done; lia|]. destruct Hh as (_ & _ & ? & _). lia.
Qed.

Lemma fails_Insert_exists fuel st k es key rid rid' :
  indexed c k es st -> valid_key c key = true -> find_key es key = Some rid' -> (Z.to_nat (a_pages st) <= fuel)%nat ->
  fails c st (bt_Insert fuel key rid) kAlreadyExists.
Proof.
  intros Hix Hv Hold Hfuel. apply fails_heap_ok. intros Hok. apply fails_entry; [done|]. intros t (_ & _ & _ & _ & _ & ->).
  pose proof Hix as (Hd & Hp & [[Hmd ->]|(Hmd & lv & L & Ht & -> & Hlen)]); [done|].
  rewrite (root_valid _ _ _ Hok Hp Ht). eapply fails_after; [by apply runs_locate|].
  intros [[path leaf] r] st' (-> & Hr & _). split; [done|]. cbn [snd] in Hr. rewrite Hr, Hold. apply fails_throw.
Qed.

(** ** Deletion *)

Lemma runs_Delete fuel st k es key rid :
  indexed c k es st -> valid_key c key = true -> find_key es key = Some rid -> (Z.to_nat (a_pages st) <= fuel)%nat ->
  runs c st (bt_Delete fuel key) (fun _ st' => indexed c (S k) (del_key es key) st' /\ a_pages st' = a_pages st).
Proof.
  intros Hix Hv Hold Hfuel. apply runs_heap_ok. intros Hok. apply runs_entry; [done|]. intros t (_ & _ & _ & _ & _ & ->).
  pose proof Hix as (Hd & Hp & [[Hmd ->]|(Hmd & lv & L & Ht & -> & Hlen)]); [done|].
  rewrite (root_valid _ _ _ Hok Hp Ht). eapply runs_bind; [by apply runs_locate|].
  intros [[path leaf] r] st' (-> & Hr & A & s & C & h & es & Eleaf & -> & Hat & Hcov & Hf & Hpl). cbn [fst snd] in *. subst leaf.
  rewrite Hr, Hold. rewrite Hr, Hold in Hf. eapply runs_mono; [by apply (runs_DeleteFromLeaf c C0 st path lv A s C h es key rid)|].
  intros [] st' [Hh|[-> ->]].
  - split; [eapply holds_indexed; try done; lia|]. destruct Hh as (_ & _ & ? & _). lia.
  - split; [|done]. split_and!; [done|done|]. left. split; [|done]. destruct Hmd as (? & ? & ?).
    unfold emptied, collapsed_md, empty_md. cbn. congruence.
Qed.

Lemma fails_Delete_missing fuel st k es key :
  indexed c k es st -> valid_key c key = true -> find_key es key = None -> (Z.to_nat (a_pages st) <= fuel)%nat ->
  fails c st (bt_Delete fuel key) kNotFound.
Proof.
  intros Hix Hv Hnew Hfuel. apply fails_heap_ok. intros Hok. apply fails_entry; [done|]. intros t (_ & _ & _ & _ & _ & ->).
  pose proof Hix as (Hd & Hp & [[Hmd ->]|(Hmd & lv & L & Ht & -> & Hlen)]); [rewrite Hmd; apply fails_throw|].
  rewrite (root_valid _ _ _ Hok Hp Ht). eapply fails_after; [by apply runs_locate|].
  intros [[path leaf] r] st' (-> & Hr & _). split; [done|]. cbn [snd] in Hr. rewrite Hr, Hnew. apply fails_throw.
Qed.
(** ** Opening *)

Context (kvar : Z) (Hkmax : ResolveMaxEncodedKeySize (c_type c) kvar = Ok (c_kmax c)).

(** The object that stands for the tree, before it is opened. *)
Definition tree_object : BStarTree P :=
  new_BStarTree (c_path c) (c_type c) (c_size c) (c_degree c) kvar.

Definition start : astate := mkState ∅ 1 (empty_md c) (empty_md c).

Lemma start_indexed : indexed c 0 [] start.
Proof. split_and!; [done|done|]. by left. Qed.

Lemma tree_object_eq :
  tree_object = mkBStarTree (c_path c) (c_type c) (c_size c) (c_degree c) (c_kmax c)
                  (ps_new (c_path c) (c_size c)) false (empty_md c).
Proof.
  destruct (co_degree _ C0). unfold tree_object, new_BStarTree. rewrite Hkmax.
  by rewrite (proj2 (Z.eqb_neq (c_degree c) 0)) by lia.
Qed.

(** [bt_Open] after its checks. *)
Lemma Open_eq d :
  bt_Open (tree_object, d) =
    (_ ← on_pages ps_open;
     _ ← (fun s => match ReadPage 0 s with
                   | (Err c m, s') => if bool_decide (c = kNotFound) then InitializeTree s' else (Err c m, s')
                   | (Ok _, s') => LoadMetadata s'
                   end);
     update set_tree_open) (tree_object, d).
Proof.
  destruct (co_degree _ C0), (co_kmax _ C0). rewrite tree_object_eq. unfold bt_Open.
  cbn [fst bt_is_open_ index_file_ max_key_payload_bytes_ min_degree_]. rewrite bool_decide_false by apply (co_path _ C0).
  by rewrite (proj2 (Z.eqb_neq _ _)), (proj2 (Z.ltb_ge _ _)) by lia.
Qed.

Lemma tree_ReadPage_ok (t : BStarTree P) d pages id data :
  ps_rep (bt_page_manager_ t) d pages -> znth pages id = Some data -> ReadPage id (t, d) = (Ok (mkPage id data), (t, d)).
Proof.
  intros Hrep Hid. unfold ReadPage, on_pages, on_part. cbn [fst snd].
  by rewrite (ps_read_ok _ _ _ _ _ Hrep Hid), set_pages_id.
Qed.
Lemma LoadMetadata_ok (t : BStarTree P) d pages m :
  ps_rep (bt_page_manager_ t) d pages ->
  znth pages 0 = Some (page_image (bt_page_size_ t) (SerializeMetadata (key_type_ t) m)) -> md_fits m ->
  tm_version m = kTreeVersion -> tm_min_degree m = min_degree_ t ->
  tm_max_key_payload_bytes m = max_key_payload_bytes_ t -> in_u64 (min_degree_ t) -> in_u64 (max_key_payload_bytes_ t) ->
  LoadMetadata (t, d) = (Ok tt, (set_metadata m t, d)).
Proof.
  intros Hrep H0 Hfit Hv Hdg Hk Hd' Hk'. unfold LoadMetadata. rewrite M_bind_eq. unfold this. cbn [fst snd].
  rewrite M_bind_eq, (tree_ReadPage_ok _ _ _ _ _ Hrep H0), M_bind_eq. unfold lift. cbn [page_data].
  by rewrite DeserializeMetadata_ok.
Qed.

Lemma tree_Open_stored st s :
  conc c st s -> a_disk_md st = a_md st -> md_fits (a_md st) -> md_fields c (a_md st) ->
  exists s', bt_Open (tree_object, s.2) = (Ok tt, s') /\ conc c st s' /\ same_except (c_path c) s.2 s'.2.
Proof.
  intros [_ _ _ _ _ _ _ (pages & Hrep & Hpath & Hsize & Hn & H0 & Hheap)] Hd Hfit (Hv & Hdg & Hk).
  destruct (co_degree _ C0), (co_kmax _ C0).
  destruct (ps_reopen _ _ _ Hrep) as (p' & d' & Eo & Hrep' & Hpath' & Hsize' & Hse).
  rewrite Hpath, Hsize in Eo. rewrite Hpath in Hpath', Hse. rewrite Hsize in Hsize'. rewrite Hd in H0.
  rewrite Open_eq, tree_object_eq, M_bind_eq. unfold on_pages at 1, on_part. cbn [fst snd bt_page_manager_]. rewrite Eo.
  set (t := set_pages p' _). rewrite M_bind_eq, (tree_ReadPage_ok t d' pages 0 _ Hrep' H0).
  rewrite (LoadMetadata_ok t d' pages (a_md st)); try done; [|split; cbn; lia|split; cbn; lia].
  eexists. split; [done|]. split; [|done]. split; try done. cbn. rewrite Hd. by exists pages.
Qed.

(** A file of another key type is refused, and stays as it is. *)
Lemma LoadMetadata_other (t : BStarTree P) d pages kt m :
  ps_rep (bt_page_manager_ t) d pages ->
  znth pages 0 = Some (page_image (bt_page_size_ t) (SerializeMetadata kt m)) -> tm_version m = kTreeVersion ->
  kt <> key_type_ t -> exists msg, LoadMetadata (t, d) = (Err kInvalidArgument msg, (t, d)).
Proof.
  intros Hrep H0 Hv Hkt. unfold LoadMetadata. rewrite M_bind_eq. unfold this. cbn [fst snd].
  rewrite M_bind_eq, (tree_ReadPage_ok _ _ _ _ _ Hrep H0), M_bind_eq. unfold lift. cbn [page_data].
  unfold DeserializeMetadata, page_image, check_not.
  rewrite (proj2 (Z.ltb_ge _ _)) by (rewrite zlen_app, zlen_tree_metadata; zlia).
  rewrite SerializeMetadata_eq, <- app_assoc, ztake_app_eq, bool_decide_true by done. cbn [mbind result_bind negb].
  unfold ReadTreeMetadata, md_bytes. rewrite reader_bind_eq, Hv, <- !app_assoc.
  rewrite (ReadUint32_decodes kTreeVersion) by done. rewrite reader_bind_eq, app_assoc.
  change (zlen kTreeMetadataMagic + zlen (le_bytes 4 kTreeVersion)) with (zlen (kTreeMetadataMagic ++ le_bytes 4 kTreeVersion)).
  rewrite (ReadUint32_decodes (u32 (ValueType_int kt))) by by destruct kt. cbn [Z.eqb].
  rewrite (proj2 (Z.eqb_neq (u32 (ValueType_int kt)) _)) by (by destruct kt, (key_type_ t)). eexists. reflexivity.
Qed.

Lemma tree_Open_other c2 st s :
  conc c2 st s -> c_path c2 = c_path c -> c_size c2 = c_size c -> c_type c2 <> c_type c ->
  tm_version (a_disk_md st) = kTreeVersion ->
  exists msg s', bt_Open (tree_object, s.2) = (Err kInvalidArgument msg, s') /\
    (exists t, conc c2 st (t, s'.2)) /\ same_except (c_path c) s.2 s'.2.
Proof.
  intros Hc Ep Es Et Hv. pose proof Hc as [_ _ _ _ _ _ _ (pages & Hrep & Hpath & Hsize & Hn & H0 & Hheap)].
  destruct (ps_reopen _ _ _ Hrep) as (p' & d' & Eo & Hrep' & Hpath' & Hsize' & Hse).
  rewrite Hpath, Hsize, Ep, Es in Eo. rewrite Hpath in Hpath', Hse. rewrite Hsize in Hsize'. rewrite Ep in Hse.
  rewrite Open_eq, tree_object_eq, M_bind_eq. unfold on_pages at 1, on_part. cbn [fst snd bt_page_manager_]. rewrite Eo.
  set (t := set_pages p' _). rewrite M_bind_eq, (tree_ReadPage_ok t d' pages 0 _ Hrep' H0). rewrite Es in H0.
  destruct (LoadMetadata_other t d' pages (c_type c2) (a_disk_md st) Hrep' H0 Hv Et) as (msg & ->).
  exists msg. eexists. split; [done|]. split; [|done]. exists (set_pages p' s.1).
  destruct Hc. split; try done. cbn. exists pages. split_and!; try done. by rewrite Es.
Qed.

Lemma tree_WriteMetadata_ok (t : BStarTree P) d pages :
  let img := page_image (bt_page_size_ t) (SerializeMetadata (key_type_ t) (metadata_ t)) in
  ps_rep (bt_page_manager_ t) d pages -> 0 < zlen pages -> ps_size (bt_page_manager_ t) = bt_page_size_ t ->
  MetadataHeaderSize <= bt_page_size_ t ->
  exists d', WriteMetadata (t, d) = (Ok tt, (t, d')) /\ ps_rep (bt_page_manager_ t) d' (zset 0 img pages) /\
    same_except (ps_path (bt_page_manager_ t)) d d'.
Proof.
  intros img Hrep Hn Hsize Hfit. destruct (ps_write_ok _ _ _ 0 img Hrep) as (d' & Ew & Hrep' & Hse); [lia| |].
  { rewrite Hsize. apply zlen_page_image. by rewrite zlen_tree_metadata. }
  exists d'. split_and!; try done. unfold WriteMetadata. rewrite M_bind_eq. unfold this. cbn [fst snd]. cbv zeta.
  rewrite zlen_tree_metadata, (proj2 (Z.ltb_ge _ _)) by done. rewrite M_bind_eq. cbn [reject_if mret M_ret].
  unfold WritePage, on_pages, on_part. rewrite M_bind_eq. cbn [fst snd]. fold img. rewrite Ew, set_pages_id. cbn [fst snd].
  by rewrite (ps_flush_ok _ _ _ Hrep'), set_pages_id.
Qed.

Lemma tree_Open_fresh d :
  ps_fresh (c_path c) (c_size c) d -> ps_room (c_size c) 1 ->
  exists s', bt_Open (tree_object, d) = (Ok tt, s') /\ conc c start s' /\ same_except (c_path c) d s'.2.
Proof.
  intros Hf Hroom. destruct (ps_new_open _ _ _ Hf) as (p' & d' & Eo & Hrep' & Hpath' & Hsize' & Hse).
  rewrite Open_eq, tree_object_eq, M_bind_eq. unfold on_pages at 1, on_part. cbn [fst snd bt_page_manager_]. rewrite Eo.
  set (t := set_pages p' _). rewrite M_bind_eq.
  destruct (ps_read_range p' d' [] 0 Hrep') as (msg & Er); [done|].
  assert (ReadPage 0 (t, d') = (Err kNotFound msg, (t, d'))) as ->.
  { unfold ReadPage, on_pages, on_part. cbn [fst snd t bt_page_manager_ set_pages]. rewrite Er. done. }
  rewrite bool_decide_true by done. rewrite <- Hsize' in Hroom.
  destruct (ps_alloc_ok _ _ _ Hrep' Hroom) as (p2 & d2 & Ea & Hrep2 & Hpath2 & Hsize2 & Hse2). cbn [app] in Hrep2.
  unfold InitializeTree. rewrite M_bind_eq. unfold on_pages at 1, on_part. cbn [fst snd t bt_page_manager_ set_pages].
  rewrite Ea, M_bind_eq. cbn [fst snd]. unfold reject_if. rewrite (proj2 (Z.eqb_eq (zlen []) 0)) by done. cbn [mret M_ret negb].
  rewrite M_bind_eq. unfold update at 1. cbn [fst snd min_degree_ max_key_payload_bytes_].
  set (t2 := set_metadata _ _). destruct (tree_WriteMetadata_ok t2 d2 _ Hrep2) as (d3 & Ew & Hrep3 & Hse3).
  - done.
  - cbn. congruence.
  - by apply (metadata_fits c C0).
  - rewrite Ew. eexists. split; [done|]. split; [split; try done|].
    + cbn. eexists. split_and!; [exact Hrep3|congruence|congruence|done|done|]. intros id n Hid. by apply lookup_empty_Some in Hid.
    + cbn in Hse3 |- *. rewrite Hpath2, Hpath' in Hse3. rewrite Hpath' in Hse2. by do 2 (etrans; [done|]).
Qed.
Lemma indexed_md k es st : heap_ok c st -> indexed c k es st -> md_fields c (a_md st) /\ md_fits (a_md st).
Proof.
  intros Hok (_ & Hp & [[-> _]|(Hm & lv & L & Ht & _)]); [by split; split_and!|]. split; [done|].
  pose proof (tree_at_root _ _ _ Hok Hp Ht). pose proof (tree_at_height c st lv L Hok Ht Hp).
  pose proof Ht as ([Htr Hl _ _ _] & Hf & Hh). apply tree_nonempty in Htr. destruct L as [|s L]; [done|].
  apply Forall_cons in Hl as [(h & es' & Hs & _) _]. destruct Hok as [_ Hok]. destruct (Hok _ _ Hs).
  unfold md_fits. rewrite Hf, Hh. cbn [head_id]. split_and!; split; lia.
Qed.

(** ** Sequences of operations *)

Definition tree_do (fuel : nat) (q : tree_call) (s : BStarTree P * disk) : reply * (BStarTree P * disk) :=
  match q with
  | TInsert key rid => answer (fun _ => RDone) (bt_Insert fuel key rid s)
  | TDelete key => answer (fun _ => RDone) (bt_Delete fuel key s)
  | TFind key => answer RRid (bt_Find fuel key s)
  | TRange range => answer RRids (bt_RangeSearch fuel range s)
  end.
Definition tree_step (fuel : nat) (o : tree_op) (s : BStarTree P * disk) : reply * (BStarTree P * disk) :=
  match o with
  | TCall q => tree_do fuel q s
  | TReopen => answer (fun _ => RDone) (bt_Open (tree_object, s.2))
  end.
Fixpoint tree_run (fuel : nat) (os : list tree_op) (s : BStarTree P * disk)
  : list reply * (BStarTree P * disk) :=
  match os with
  | [] => ([], s)
  | o :: os => let '(r, s1) := tree_step fuel o s in let '(rs, s2) := tree_run fuel os s1 in (r :: rs, s2)
  end.

(** The same on the list of entries. *)
Definition index_do (q : tree_call) (es : list LeafEntry) : reply * list LeafEntry :=
  match q with
  | TInsert key rid =>
      if negb (valid_key c key) then (RError kInvalidArgument, es)
      else match find_key es key with
           | Some _ => (RError kAlreadyExists, es)
           | None => (RDone, add_key es key rid)
           end
  | TDelete key =>
      if negb (valid_key c key) then (RError kInvalidArgument, es)
      else match find_key es key with
           | Some _ => (RDone, del_key es key)
           | None => (RError kNotFound, es)
           end
  | TFind key => (if valid_key c key then RRid (find_key es key) else RError kInvalidArgument, es)
  | TRange range => (if valid_range c range then RRids (range_rids range es) else RError kInvalidArgument, es)
  end.
Definition index_step (o : tree_op) (es : list LeafEntry) : reply * list LeafEntry :=
  match o with TCall q => index_do q es | TReopen => (RDone, es) end.
Fixpoint index_run (os : list tree_op) (es : list LeafEntry) : list reply * list LeafEntry :=
  match os with
  | [] => ([], es)
  | o :: os => let '(r, es1) := index_step o es in let '(rs, es2) := index_run os es1 in (r :: rs, es2)
  end.
Definition call_fits (q : tree_call) : Prop :=
  match q with TInsert key rid => value_ok key /\ in_u64 rid | _ => True end.
Definition tree_op_ok (o : tree_op) : Prop := match o with TCall q => call_fits q | TReopen => True end.

(** From the program logic to runs. *)
Lemma answer_runs {A} (f : A -> reply) st m r Q s :
  runs c st m (fun a st' => f a = r /\ Q st') -> conc c st s ->
  exists s' st', answer f (m s) = (r, s') /\ conc c st' s' /\ same_except (c_path c) s.2 s'.2 /\ Q st'.
Proof. intros Hm Hs. destruct (Hm s Hs) as (a & s' & st' & E & ? & ? & <- & ?). exists s', st'. by rewrite E. Qed.
Lemma answer_fails {A} (f : A -> reply) st (m : M (BStarTree P * disk) A) code s (Q : astate -> Prop) :
  fails c st m code -> conc c st s -> Q st ->
  exists s' st', answer f (m s) = (RError code, s') /\ conc c st' s' /\ same_except (c_path c) s.2 s'.2 /\ Q st'.
Proof. intros Hm Hs HQ. destruct (Hm s Hs) as (msg & s' & E & ? & ?). exists s', st. by rewrite E. Qed.

Lemma tree_do_refines fuel q st k es s :
  conc c st s -> indexed c k es st -> call_fits q -> room c st (Z.of_nat k + 2) -> (Z.to_nat (a_pages st) <= fuel)%nat ->
  exists s' st', tree_do fuel q s = ((index_do q es).1, s') /\ conc c st' s' /\
    same_except (c_path c) s.2 s'.2 /\ indexed c (S k) (index_do q es).2 st' /\
    a_pages st <= a_pages st' <= a_pages st + Z.of_nat k + 2.
Proof.
  intros Hs Hix Ho Hroom Hfuel. pose proof (conc_heap_ok c st s Hs) as Hok.
  assert (indexed c (S k) es st /\ a_pages st <= a_pages st <= a_pages st + Z.of_nat k + 2) as Hkeep
    by (split; [eapply indexed_more; [done|lia]|lia]).
  pose proof (indexed_rep _ _ _ Hok Hix) as Hrep.
  destruct q as [key rid|key|key|range]; cbn [tree_do index_do call_fits] in *.
  - destruct (valid_key c key) eqn:Ev; cbn [negb]; [|eapply answer_fails; [by apply fails_invalid|done|done]].
    destruct (find_key es key) eqn:Ef; [eapply answer_fails; [by eapply fails_Insert_exists|done|done]|].
    destruct Ho. eapply answer_runs; [|done]. eapply runs_mono; [by eapply runs_Insert|]. auto.
  - destruct (valid_key c key) eqn:Ev; cbn [negb]; [|eapply answer_fails; [by apply fails_invalid|done|done]].
    destruct (find_key es key) eqn:Ef; [|eapply answer_fails; [by eapply fails_Delete_missing|done|done]].
    eapply answer_runs; [|done]. eapply runs_mono; [by eapply runs_Delete|]. intros [] st' [? ->]. split_and!; try done; lia.
  - destruct (valid_key c key) eqn:Ev; [|eapply answer_fails; [by apply fails_Find|done|done]].
    eapply answer_runs; [|done]. eapply runs_mono; [by apply (runs_Find c C0)|]. intros r st' [-> ->]. done.
  - destruct (valid_range c range) eqn:Ev; [|eapply answer_fails; [by apply fails_RangeSearch|done|done]].
    eapply answer_runs; [|done]. eapply runs_mono; [by apply (runs_RangeSearch c C0)|]. intros r st' [-> ->]. done.
Qed.

Lemma tree_step_refines fuel o st k es s :
  conc c st s -> indexed c k es st -> tree_op_ok o -> room c st (Z.of_nat k + 2) -> (Z.to_nat (a_pages st) <= fuel)%nat ->
  exists s' st', tree_step fuel o s = ((index_step o es).1, s') /\ conc c st' s' /\
    same_except (c_path c) s.2 s'.2 /\ indexed c (S k) (index_step o es).2 st' /\
    a_pages st <= a_pages st' <= a_pages st + Z.of_nat k + 2.
Proof.
  intros Hs Hix Ho Hroom Hfuel. destruct o as [q|]; [by apply tree_do_refines|].
  pose proof (conc_heap_ok c st s Hs) as Hok. destruct (indexed_md _ _ _ Hok Hix) as [Hmd Hfit]. pose proof Hix as (Hd & _).
  destruct (tree_Open_stored st s Hs Hd Hfit Hmd) as (s' & E & ? & ?). exists s', st. cbn [tree_step index_step]. rewrite E.
  split_and!; try done; try lia. eapply indexed_more; [done|lia].
Qed.

(** Enough pages for [n] operations on a tree of [p] pages and [k] inner levels:
    each adds at most a page per level and two more, and at most one level. *)
Definition pages_needed (p k n : Z) : Z := p + n * (k + n + 2).

Lemma tree_run_refines fuel os : forall st k es s,
  conc c st s -> indexed c k es st -> Forall tree_op_ok os ->
  let n := pages_needed (a_pages st) (Z.of_nat k) (zlen os) in
  ps_room (c_size c) n -> (Z.to_nat n <= fuel)%nat ->
  exists s' st', tree_run fuel os s = ((index_run os es).1, s') /\ conc c st' s' /\
    same_except (c_path c) s.2 s'.2 /\ indexed c (k + length os) (index_run os es).2 st'.
Proof.
  cbv zeta. unfold pages_needed. induction os as [|o os IH]; intros st k es s Hs Hix Hops Hroom Hfuel.
  { exists s, st. by rewrite Nat.add_0_r. }
  apply Forall_cons in Hops as [Ho Hops]. rewrite zlen_cons in Hroom, Hfuel.
  pose proof (zlen_nonneg os). pose proof (conc_heap_ok c st s Hs) as [Hpos _]. pose proof (size_pos c C0).
  destruct (tree_step_refines fuel o st k es s Hs Hix Ho) as (s1 & st1 & E1 & Hs1 & Hse1 & Hix1 & Hp1).
  { eapply ps_room_le; [done|exact Hroom|]. nia. }
  { nia. }
  cbn [tree_run index_run]. rewrite E1. destruct (index_step o es) as [r es1]. cbn [fst snd] in *.
  destruct (IH st1 (S k) es1 s1 Hs1 Hix1 Hops) as (s2 & st2 & E2 & Hs2 & Hse2 & Hix2).
  { eapply ps_room_le; [done|exact Hroom|]. nia. }
  { nia. }
  rewrite E2. destruct (index_run os es1) as [rs es2]. cbn [fst snd] in *. exists s2, st2.
  split_and!; [done|done|by etrans|]. cbn [length]. by rewrite Nat.add_succ_r.
Qed.
End spec.

(** The parameters [IndexManager] opens an index with. *)
Lemma config_of_page path kt size kvar kmax degree :
  path <> "" -> ResolveMaxEncodedKeySize kt kvar = Ok kmax -> ComputeMinDegreeForPage size kmax = Ok degree ->
  0 < kvar < 2 ^ 32 -> size < 2 ^ 32 -> config_ok (mkConfig path kt size degree kmax).
Proof.
  intros Hp Hk Hd Hkv Hs. assert (0 < kmax < 2 ^ 32 /\ kt <> vtNull) as [Hkm Hkt].
  { unfold ResolveMaxEncodedKeySize, check_not in Hk. rewrite (proj2 (Z.eqb_neq _ _)) in Hk by lia.
    destruct kt; cbn in Hk; simplify_eq; split; done || lia. }
  destruct (ComputeMinDegree_capacity size kmax degree Hkm Hd) as [Hdeg Hcap]. split; try done. cbn. split; [done|].
  unfold capacity in Hcap. change NodeHeaderSize with 33 in Hcap. nia.
Qed.

(** ** Theorems *)

(** C3. The B*-tree implements the index.  Take a fresh place on a healthy disk,
    open a tree there with the degree computed for the page size, and run any
    sequence of insertions, deletions, lookups, range searches and reopenings of
    the file on it: every call answers as the same call on the sorted list of
    entries, refused keys, duplicates and missing keys included.  Splits,
    redistribution between neighbours, merges, changes of the root and the links
    between leaves are invisible to the client.  The fuel of the descent and of
    the scan is the bound on the number of pages, so no call runs out of it. *)
Theorem tree_implements_index path kt size kvar kmax degree d os fuel :
  let c := mkConfig path kt size degree kmax in
  let n := pages_needed 1 0 (zlen os) in
  ResolveMaxEncodedKeySize kt kvar = Ok kmax -> ComputeMinDegreeForPage size kmax = Ok degree ->
  0 < kvar < 2 ^ 32 -> size < 2 ^ 32 -> pm_fresh path size d -> Forall tree_op_ok os ->
  page_room size n -> (Z.to_nat n <= fuel)%nat ->
  exists s0 s, bt_Open (new_BStarTree (P:=PageManager) path kt size degree kvar, d) = (Ok tt, s0) /\
    tree_run c kvar fuel os s0 = ((index_run c os []).1, s).
Proof.
  cbv zeta. intros Hk Hd Hkv Hs Hf Hops Hroom Hfuel. set (c := mkConfig path kt size degree kmax).
  assert (path <> "") as Hpath by by destruct Hf.
  pose proof (config_of_page path kt size kvar kmax degree Hpath Hk Hd Hkv Hs) as C0. fold c in C0.
  destruct (tree_Open_fresh (PL:=PageManager_laws) c C0 kvar Hk d Hf) as (s0 & E0 & Hs0 & _).
  { eapply (ps_room_le (PageStoreLaws:=PageManager_laws)); [by apply (size_pos c)|exact Hroom|]. unfold pages_needed.
    pose proof (zlen_nonneg os). nia. }
  destruct (tree_run_refines (PL:=PageManager_laws) c C0 kvar Hk fuel os (start c) 0 [] s0) as (s & st & E & _);
    try done; [by apply start_indexed|].
  exists s0, s. split; [exact E0|]. exact E.
Qed.

Definition sample_tree_ops : list tree_op :=
  (TCall <$> [TInsert (VInt 30) 1; TInsert (VInt 10) 2; TInsert (VInt 20) 3; TInsert (VInt 40) 4;
              TInsert (VInt 10) 9; TFind (VInt 20)]) ++ TReopen ::
  (TCall <$> [TRange (mkKeyRange (Some (VInt 15)) (Some (VInt 40)) true false); TDelete (VInt 30);
              TDelete (VInt 30); TInsert (VString "x") 5; TFind (VInt 30)]).

Lemma tree_implements_index_witness :
  exists s0 s, bt_Open (new_BStarTree (P:=PageManager) "idx/a.idx" vtInt 128 2 256, empty_disk) = (Ok tt, s0) /\
    tree_run (mkConfig "idx/a.idx" vtInt 128 2 8) 256 200 sample_tree_ops s0 =
      ((index_run (mkConfig "idx/a.idx" vtInt 128 2 8) sample_tree_ops []).1, s).
Proof.
  apply (tree_implements_index "idx/a.idx" vtInt 128 256 8 2 (empty_disk) sample_tree_ops 200).
  - reflexivity.
  - reflexivity.
  - lia.
  - lia.
  - apply empty_disk_fresh; [done|lia|]. apply (bool_decide_unpack _). vm_compute. done.
  - unfold sample_tree_ops. repeat constructor; vm_compute; done || discriminate.
  - vm_compute. done.
  - apply Nat.leb_le. vm_compute. done.
Defined.
