(* ===== verification/IndexManager.v ===== *)
(** * The index manager

    Models [src/index/index_manager.cpp]: the B*-trees that are open, by the
    names of their indexes.  All of them live on one disk; the manager is proved
    to implement independent indexes as long as no two of them share a file. *)

From S2P Require Import Prelude BinaryIO Values Serialization Disk PageStore PageManager KeyEncoder.
From S2P Require Import BStarTree BStarTreeHeap BStarTreeSearch BStarTreeInsert BStarTreeLeaves BStarTreeSpec.

Section IndexManager.
Context {P : Type} {PS : PageStore P}.

Record IndexManager := mkIndexManager {
  im_page_size_ : Z;
  max_variable_key_payload_bytes_ : Z;
  opened_indexes_ : gmap string (BStarTree P)
}.

Definition new_IndexManager (page_size max_variable_key_payload_bytes : Z) : IndexManager :=
  mkIndexManager page_size max_variable_key_payload_bytes ∅.

Definition set_index (name : string) (tree : BStarTree P) (im : IndexManager) : IndexManager :=
  mkIndexManager (im_page_size_ im) (max_variable_key_payload_bytes_ im) (<[name := tree]> (opened_indexes_ im)).

Abbreviation T := (M (IndexManager * disk)).

Definition ValidateDescriptor (desc : IndexDescriptor) : result unit :=
  _ ← check_not (bool_decide (idx_name desc = "")) kInvalidArgument "name must not be empty";
  _ ← check_not (bool_decide (idx_table_name desc = "")) kInvalidArgument "table_name must not be empty";
  _ ← check_not (bool_decide (idx_column_name desc = "")) kInvalidArgument "column_name must not be empty";
  check_not (bool_decide (idx_file_path desc = "")) kInvalidArgument "file_path must not be empty".

Definition ResolveIndexFilePath (desc : IndexDescriptor) : result string :=
  _ ← ValidateDescriptor desc; Ok (idx_file_path desc).

Definition GetOpenedIndex (index_name : string) : T (BStarTree P) :=
  im ← this;
  match opened_indexes_ im !! index_name with
  | None => throw kNotFound "index is not open"
  | Some tree => mret tree
  end.

(** A call of a method of the tree [GetOpenedIndex] returns a pointer to. *)
Definition on_index {A} (index_name : string) (m : M (BStarTree P * disk) A) : T A :=
  tree ← GetOpenedIndex index_name;
  fun s => let '(r, (tree', d')) := m (tree, s.2) in (r, (set_index index_name tree' s.1, d')).

(** Constructing a tree and opening it; on failure it is destroyed. *)
Definition OpenTree (tree : BStarTree P) : T (BStarTree P) := fun s =>
  match bt_Open (tree, s.2) with
  | (Ok _, (tree', d')) => (Ok tree', (s.1, d'))
  | (Err c m, (_, d')) => (Err c m, (s.1, d'))
  end.

Definition RegisterIndex (desc : IndexDescriptor) (key_type : ValueType) (create_if_missing : bool) : T unit :=
  _ ← lift (ValidateDescriptor desc);
  im ← this;
  if bool_decide (is_Some (opened_indexes_ im !! idx_name desc)) then mret tt
  else
    file_path ← lift (ResolveIndexFilePath desc);
    exists_ ← on_disk (FileExists file_path);
    _ ← reject_if (negb create_if_missing && negb exists_) kNotFound "index file does not exist";
    max_encoded_key_size ← lift (ResolveMaxEncodedKeySize key_type (max_variable_key_payload_bytes_ im));
    min_degree ← lift (ComputeMinDegreeForPage (im_page_size_ im) max_encoded_key_size);
    tree ← OpenTree (new_BStarTree file_path key_type (im_page_size_ im) min_degree
                       (max_variable_key_payload_bytes_ im));
    update (set_index (idx_name desc) tree).

Definition CreateIndex (desc : IndexDescriptor) (key_type : ValueType) : T unit := RegisterIndex desc key_type true.
Definition OpenIndex (desc : IndexDescriptor) (key_type : ValueType) : T unit := RegisterIndex desc key_type false.

(** [fuel] bounds the loops of the tree. *)
Definition im_Insert (fuel : nat) (index_name : string) (key : Value) (rid : Z) : T unit :=
  on_index index_name (bt_Insert fuel key rid).
Definition im_Delete (fuel : nat) (index_name : string) (key : Value) : T unit :=
  on_index index_name (bt_Delete fuel key).
Definition im_Find (fuel : nat) (index_name : string) (key : Value) : T (option Z) :=
  on_index index_name (bt_Find fuel key).
Definition im_RangeSearch (fuel : nat) (index_name : string) (range : KeyRange) : T (list Z) :=
  on_index index_name (bt_RangeSearch fuel range).
End IndexManager.
Arguments IndexManager P : clear implicits.

(** ** The abstract indexes *)

(** An index: the type of its keys, whether it is open, its entries in order. *)
Record index := mkIndex { ix_type : ValueType; ix_open : bool; ix_entries : list LeafEntry }.

Inductive index_op :=
  | IRegister (desc : IndexDescriptor) (key_type : ValueType) (create_if_missing : bool)
  | ICall (name : string) (q : tree_call)
  | IRestart.

Section spec.
Context {P : Type} {PS : PageStore P} {PL : PageStoreLaws P}.
(** The parameters of the manager, and the file of each index. *)
Context (size kvar : Z) (file_of : string -> string) (names : list string).
Context (Hkvar : 0 < kvar < 2 ^ 32) (Hsize : size < 2 ^ 32).

Definition index_config (name : string) (kt : ValueType) : result config :=
  k ← ResolveMaxEncodedKeySize kt kvar;
  degree ← ComputeMinDegreeForPage size k;
  Ok (mkConfig (file_of name) kt size degree k).

Definition ix_register (desc : IndexDescriptor) (kt : ValueType) (create : bool) (m : gmap string index)
  : reply * gmap string index :=
  let name := idx_name desc in
  match ValidateDescriptor desc with
  | Err code _ => (RError code, m)
  | Ok _ =>
      match m !! name, index_config name kt with
      | Some (mkIndex _ true _), _ => (RDone, m)
      | None, _ =>
          if negb create then (RError kNotFound, m)
          else match index_config name kt with
               | Err code _ => (RError code, m)
               | Ok _ => (RDone, <[name := mkIndex kt true []]> m)
               end
      | _, Err code _ => (RError code, m)
      | Some (mkIndex kt' false es), Ok _ =>
          if bool_decide (kt' = kt) then (RDone, <[name := mkIndex kt true es]> m)
          else (RError kInvalidArgument, m)
      end
  end.
Definition ix_step (o : index_op) (m : gmap string index) : reply * gmap string index :=
  match o with
  | IRegister desc kt create => ix_register desc kt create m
  | ICall name q =>
      match m !! name with
      | Some (mkIndex kt true es) =>
          match index_config name kt with
          | Ok c => let '(r, es') := index_do c q es in (r, <[name := mkIndex kt true es']> m)
          | Err code _ => (RError code, m)
          end
      | _ => (RError kNotFound, m)
      end
  | IRestart => (RDone, (fun x => mkIndex (ix_type x) false (ix_entries x)) <$> m)
  end.
Fixpoint ix_run (os : list index_op) (m : gmap string index) : list reply * gmap string index :=
  match os with
  | [] => ([], m)
  | o :: os => let '(r, m1) := ix_step o m in let '(rs, m2) := ix_run os m1 in (r :: rs, m2)
  end.

(** The manager's operations; a restart forgets the trees and keeps the disk. *)
Definition im_step (fuel : nat) (o : index_op) (s : IndexManager P * disk) : reply * (IndexManager P * disk) :=
  match o with
  | IRegister desc kt create => answer (fun _ => RDone) (RegisterIndex desc kt create s)
  | ICall name (TInsert key rid) => answer (fun _ => RDone) (im_Insert fuel name key rid s)
  | ICall name (TDelete key) => answer (fun _ => RDone) (im_Delete fuel name key s)
  | ICall name (TFind key) => answer RRid (im_Find fuel name key s)
  | ICall name (TRange range) => answer RRids (im_RangeSearch fuel name range s)
  | IRestart => (RDone, (new_IndexManager size kvar, s.2))
  end.
Fixpoint im_run (fuel : nat) (os : list index_op) (s : IndexManager P * disk)
  : list reply * (IndexManager P * disk) :=
  match os with
  | [] => ([], s)
  | o :: os => let '(r, s1) := im_step fuel o s in let '(rs, s2) := im_run fuel os s1 in (r :: rs, s2)
  end.
(** ** The representation *)

(** The tree [t] holds the index [name] on [d], in at most [p] pages and below
    at most [k] inner levels. *)
Definition tree_stored (d : disk) (k : nat) (p : Z) (name : string) (kt : ValueType) (es : list LeafEntry)
    (t : BStarTree P) : Prop :=
  exists c st, index_config name kt = Ok c /\ conc c st (t, d) /\ indexed c k es st /\ a_pages st <= p.

Record im_rep (im : IndexManager P) (d : disk) (k : nat) (p : Z) (m : gmap string index) : Prop := {
  ir_size : im_page_size_ im = size;
  ir_kvar : max_variable_key_payload_bytes_ im = kvar;
  ir_disk : healthy d /\ disk_wf d;
  ir_free : forall n, n ∈ names -> m !! n = None -> free_path d (file_of n);
  ir_names : forall n x, m !! n = Some x -> n ∈ names;
  ir_stored : forall n x, m !! n = Some x -> exists t,
    tree_stored d k p n (ix_type x) (ix_entries x) t /\
    opened_indexes_ im !! n = if ix_open x then Some t else None;
  ir_none : forall n, m !! n = None -> opened_indexes_ im !! n = None
}.

Context (Happart : forall n n', n ∈ names -> n' ∈ names -> n <> n' -> apart (file_of n) (file_of n')).

Lemma index_config_ok name kt c :
  file_of name <> "" -> index_config name kt = Ok c ->
  config_ok c /\ c_path c = file_of name /\ c_type c = kt /\ c_size c = size /\
  ResolveMaxEncodedKeySize (c_type c) kvar = Ok (c_kmax c) /\ ComputeMinDegreeForPage size (c_kmax c) = Ok (c_degree c).
Proof.
  intros Hne H. apply result_bind_Ok in H as (kmax & Hk & H). apply result_bind_Ok in H as (degree & Hd & [= <-]).
  split_and!; try done. by eapply config_of_page.
Qed.

Lemma conc_frame c st t d d' path :
  conc c st (t, d) -> c_path c <> path -> same_except path d d' -> conc c st (t, d').
Proof.
  intros [? ? ? ? ? ? ? (pages & Hrep & Hp & Hrest)] Hne Hse. split; try done.
  exists pages. split_and!; try done; try apply Hrest. apply (ps_rep_frame _ d d' path); [exact Hrep| |done].
  intros E. apply Hne. rewrite <- Hp. exact E.
Qed.

Lemma tree_stored_frame d d' k k' p p' name kt es t path :
  tree_stored d k p name kt es t -> file_of name <> path -> same_except path d d' -> (k <= k')%nat -> p <= p' ->
  tree_stored d' k' p' name kt es t.
Proof.
  intros (c & st & Hc & Hconc & Hix & Hp) Hne Hse Hk Hpp. exists c, st.
  split_and!; [done|eapply conc_frame; try done|by eapply indexed_more|lia].
  apply result_bind_Ok in Hc as (? & _ & Hc). by apply result_bind_Ok in Hc as (? & _ & [= <-]).
Qed.

(** One index changed, and the disk only at its file. *)
Lemma im_rep_update im im' d d' k k' p p' m n kt (b : bool) es t :
  im_rep im d k p m -> n ∈ names -> same_except (file_of n) d d' -> tree_stored d' k' p' n kt es t ->
  (k <= k')%nat -> p <= p' -> im_page_size_ im' = im_page_size_ im ->
  max_variable_key_payload_bytes_ im' = max_variable_key_payload_bytes_ im ->
  opened_indexes_ im' !! n = (if b then Some t else None) ->
  (forall n', n' <> n -> opened_indexes_ im' !! n' = opened_indexes_ im !! n') ->
  im_rep im' d' k' p' (<[n := mkIndex kt b es]> m).
Proof.
  intros [Hs Hv [Hh Hw] Hfree Hnames Hst Hnone] Hn Hse Htree Hk Hp Es Ev En Eo.
  split; try congruence; [split; [by eapply se_healthy|by eapply se_wf]|..].
  - intros n' Hn' Hm. apply lookup_insert_None in Hm as [Hm Hne]. eapply free_path_frame; [by apply Hfree|done|].
    by apply Happart; auto.
  - intros n' x Hx. apply lookup_insert_Some in Hx as [[<- _]|[_ Hx]]; eauto.
  - intros n' x Hx. apply lookup_insert_Some in Hx as [[<- <-]|[Hne Hx]]; [by exists t|].
    destruct (Hst n' x Hx) as (t' & Ht' & Ho). exists t'. split; [|by rewrite Eo].
    eapply tree_stored_frame; try done. apply Happart; eauto.
  - intros n' Hm. apply lookup_insert_None in Hm as [Hm Hne]. rewrite Eo by done. auto.
Qed.
Lemma im_rep_more im d k k' p p' m : im_rep im d k p m -> (k <= k')%nat -> p <= p' -> im_rep im d k' p' m.
Proof.
  intros [? ? ? ? ? Hst ?] Hk Hp. split; try done. intros n x Hx. destruct (Hst n x Hx) as (t & (c & st & ? & ? & ? & ?) & ?).
  exists t. split; [|done]. exists c, st. split_and!; [done|done|by eapply indexed_more|lia].
Qed.

(** The index files. *)
Definition index_files : list string := map file_of names.
Lemma index_touches n d d' : n ∈ names -> same_except (file_of n) d d' -> touches index_files d d'.
Proof. intros. eapply touches_one; [|done]. by apply list_elem_of_fmap_2. Qed.

(** The indexes are untouched by changes of other files. *)
Lemma im_rep_frame im d d' k p m path :
  im_rep im d k p m -> Forall (apart path) index_files -> same_except path d d' -> im_rep im d' k p m.
Proof.
  intros [Hs Hv [Hh Hw] Hfree Hnames Hst Hnone] Hap Hse.
  assert (forall n, n ∈ names -> apart path (file_of n)) as Hap'.
  { intros n Hn. eapply Forall_forall in Hap; [exact Hap|]. by apply list_elem_of_fmap_2. }
  split; try done; [split; [by eapply se_healthy|by eapply se_wf]|..].
  - intros n Hn Hm. eapply free_path_frame; [by apply Hfree|done|]. symmetry. auto.
  - intros n x Hx. destruct (Hst n x Hx) as (t & Ht & Ho). exists t. split; [|done].
    eapply tree_stored_frame; try done. intros E. destruct (Hap' n (Hnames _ _ Hx)) as [Hne _]. congruence.
Qed.

(** ** Calls on an index *)

Lemma on_index_open {A} n (m : M (BStarTree P * disk) A) im d t :
  opened_indexes_ im !! n = Some t ->
  on_index n m (im, d) = let '(r, (t', d')) := m (t, d) in (r, (set_index n t' im, d')).
Proof. intros E. unfold on_index, GetOpenedIndex. dunfold. by rewrite E. Qed.
Lemma on_index_closed {A} n (m : M (BStarTree P * disk) A) im d :
  opened_indexes_ im !! n = None -> on_index n m (im, d) = (Err kNotFound "index is not open", (im, d)).
Proof. intros E. unfold on_index, GetOpenedIndex. dunfold. by rewrite E. Qed.

Lemma im_call_open fuel n q im d t :
  opened_indexes_ im !! n = Some t ->
  im_step fuel (ICall n q) (im, d) = let '(r, (t', d')) := tree_do fuel q (t, d) in (r, (set_index n t' im, d')).
Proof.
  intros E. destruct q; cbn [im_step tree_do]; unfold im_Insert, im_Delete, im_Find, im_RangeSearch, answer;
    rewrite (on_index_open _ _ _ _ _ E).
  - by destruct (bt_Insert _ _ _ _) as [r [t' d']].
  - by destruct (bt_Delete _ _ _) as [r [t' d']].
  - by destruct (bt_Find _ _ _) as [r [t' d']].
  - by destruct (bt_RangeSearch _ _ _) as [r [t' d']].
Qed.
Lemma im_call_closed fuel n q im d :
  opened_indexes_ im !! n = None -> im_step fuel (ICall n q) (im, d) = (RError kNotFound, (im, d)).
Proof.
  intros E. destruct q; cbn [im_step]; unfold im_Insert, im_Delete, im_Find, im_RangeSearch, answer;
    by rewrite (on_index_closed _ _ _ _ E).
Qed.

(** An index file has a name of its own. *)
Context (Hpaths : forall n, n ∈ names -> file_of n <> "").

Lemma im_call_refines fuel n q im d k p m :
  im_rep im d k p m -> call_fits q -> ps_room size (p + Z.of_nat k + 2) -> (Z.to_nat p <= fuel)%nat ->
  exists im' d', im_step fuel (ICall n q) (im, d) = ((ix_step (ICall n q) m).1, (im', d')) /\
    im_rep im' d' (S k) (p + Z.of_nat k + 2) (ix_step (ICall n q) m).2 /\ touches index_files d d'.
Proof.
  intros HR Hq Hroom Hfuel. pose proof HR as [Hs Hv _ _ Hnames Hst Hnone]. cbn [ix_step].
  destruct (m !! n) as [[kt [] es]|] eqn:En.
  - destruct (Hst n _ En) as (t & (c & st & Hc & Hconc & Hix & Hp) & Ho). cbn [ix_type ix_entries ix_open] in *.
    rewrite Hc. pose proof (Hnames _ _ En) as Hin. destruct (index_config_ok _ _ _ (Hpaths n Hin) Hc) as (C0 & Ep & _ & Es & Ek & _).
    assert (0 < size) as Hpos by (rewrite <- Es; by apply (size_pos c)).
    destruct (tree_do_refines c C0 fuel q st k es (t, d) Hconc Hix Hq) as ([t' d'] & st' & E & Hconc' & Hse & Hix' & Hp').
    { unfold room. rewrite Es. eapply ps_room_le; [done|exact Hroom|lia]. }
    { lia. }
    rewrite (im_call_open _ _ _ _ _ _ Ho), E. destruct (index_do c q es) as [r es'] eqn:Eq. cbn [fst snd] in *.
    exists (set_index n t' im), d'. split; [done|]. rewrite Ep in Hse. split; [|by eapply index_touches].
    eapply (im_rep_update im _ d d' k (S k) p _ m n kt true es' t'); try done; try lia.
    + exists c, st'. split_and!; try done. lia.
    + apply lookup_insert_eq.
    + intros n' Hne. cbn. by apply lookup_insert_ne.
  - destruct (Hst n _ En) as (t & _ & Ho). rewrite (im_call_closed _ _ _ _ _ Ho). exists im, d. split_and!; [done| |apply rtc_refl].
    eapply im_rep_more; [done|lia|lia].
  - rewrite (im_call_closed _ _ _ _ _ (Hnone _ En)). exists im, d. split_and!; [done| |apply rtc_refl].
    eapply im_rep_more; [done|lia|lia].
Qed.

(** ** Opening and creating indexes *)

(** [RegisterIndex] of an index that is not open. *)
Lemma RegisterIndex_eq desc kt create im d :
  let name := idx_name desc in
  ValidateDescriptor desc = Ok tt -> idx_file_path desc = file_of name -> opened_indexes_ im !! name = None ->
  im_page_size_ im = size -> max_variable_key_payload_bytes_ im = kvar -> healthy d ->
  RegisterIndex desc kt create (im, d) =
    if negb create && negb (path_exists d (file_of name)) then (Err kNotFound "index file does not exist", (im, d))
    else match index_config name kt with
         | Err code msg => (Err code msg, (im, d))
         | Ok c =>
             match bt_Open (tree_object c kvar, d) with
             | (Ok _, (t, d')) => (Ok tt, (set_index name t im, d'))
             | (Err code msg, (_, d')) => (Err code msg, (im, d'))
             end
         end.
Proof.
  cbv zeta. intros Hval Hfile Ho Hs Hv Hh. unfold RegisterIndex, ResolveIndexFilePath, index_config, OpenTree, on_disk. dunfold.
  rewrite Hval, Ho, bool_decide_false by (by intros [? ?]). cbn [mbind result_bind].
  rewrite (FileExists_healthy _ _ Hh), Hfile, Hs, Hv. cbn [fst snd]. destruct (negb create && _); [done|].
  destruct (ResolveMaxEncodedKeySize kt kvar) as [kmax|]; cbn [mbind result_bind]; [|done].
  destruct (ComputeMinDegreeForPage size kmax) as [degree|]; cbn [mbind result_bind]; [|done].
  unfold tree_object. cbn [c_path c_type c_size c_degree]. by destruct (bt_Open _) as [[] [t0 d0]].
Qed.

Lemma free_path_exists d path : free_path d path -> path_exists d path = false.
Proof. intros []. unfold path_exists. rewrite fp_file, !bool_decide_false; [done|done|by intros [? ?]]. Qed.
Lemma stored_path_exists d k p name kt es t : tree_stored d k p name kt es t -> path_exists d (file_of name) = true.
Proof.
  intros (c & st & Hc & [? ? ? ? ? ? ? (pages & Hrep & Hp & _)] & _). apply ps_rep_disk in Hrep as (_ & _ & Hf).
  apply result_bind_Ok in Hc as (? & _ & Hc). apply result_bind_Ok in Hc as (? & _ & [= <-]). cbn in *.
  unfold path_exists. rewrite Hp in Hf. by rewrite bool_decide_true.
Qed.

(** A fresh index and a stored one, opened. *)
Lemma im_create_fresh im d k p m n kt c :
  im_rep im d k p m -> n ∈ names -> m !! n = None -> index_config n kt = Ok c -> ps_room size 1 -> 1 <= p ->
  exists t d', bt_Open (tree_object c kvar, d) = (Ok tt, (t, d')) /\
    im_rep (set_index n t im) d' k p (<[n := mkIndex kt true []]> m) /\ touches index_files d d'.
Proof.
  intros HR Hn Hm Hc Hroom Hp. pose proof HR as [Hs Hv _ Hfree _ _ _].
  destruct (index_config_ok _ _ _ (Hpaths n Hn) Hc) as (C0 & Ep & _ & Es & Ek & _).
  pose proof (size_pos c C0) as Hpos. rewrite Es in Hpos.
  destruct (tree_Open_fresh c C0 kvar Ek d) as ([t d'] & E & Hconc & Hse).
  { rewrite Ep, Es. apply ps_fresh_free; [by apply Hfree|lia]. }
  { by rewrite Es. }
  exists t, d'. split; [done|]. cbn in Hse. rewrite Ep in Hse. split; [|by eapply index_touches].
  eapply (im_rep_update im _ d d' k k p p m n kt true [] t); try done.
  - exists c, (start c). split_and!; [done|done| |done]. eapply indexed_more; [apply start_indexed|lia].
  - apply lookup_insert_eq.
  - intros n' Hne. cbn. by apply lookup_insert_ne.
Qed.

Lemma im_open_stored im d k p m n kt es c :
  im_rep im d k p m -> m !! n = Some (mkIndex kt false es) -> index_config n kt = Ok c ->
  exists t d', bt_Open (tree_object c kvar, d) = (Ok tt, (t, d')) /\
    im_rep (set_index n t im) d' k p (<[n := mkIndex kt true es]> m) /\ touches index_files d d'.
Proof.
  intros HR Hm Hc. pose proof HR as [_ _ _ _ Hnames Hst _]. pose proof (Hnames _ _ Hm) as Hn.
  destruct (index_config_ok _ _ _ (Hpaths n Hn) Hc) as (C0 & Ep & _ & _ & Ek & _).
  destruct (Hst n _ Hm) as (t0 & (c' & st & Hc' & Hconc & Hix & Hp) & _). cbn [ix_type ix_entries] in *.
  rewrite Hc in Hc'. injection Hc' as <-. pose proof (conc_heap_ok c st _ Hconc) as Hok.
  destruct (indexed_md c _ _ _ Hok Hix) as [Hmd Hfit]. pose proof Hix as (Hd & _).
  destruct (tree_Open_stored c C0 kvar Ek st (t0, d) Hconc Hd Hfit Hmd) as ([t d'] & E & Hconc' & Hse).
  exists t, d'. split; [done|]. cbn in Hse. rewrite Ep in Hse. split; [|by eapply index_touches].
  eapply (im_rep_update im _ d d' k k p p m n kt true es t); try done.
  - by exists c, st.
  - apply lookup_insert_eq.
  - intros n' Hne. cbn. by apply lookup_insert_ne.
Qed.

Lemma im_open_other im d k p m n kt kt' es c :
  im_rep im d k p m -> m !! n = Some (mkIndex kt' false es) -> kt' <> kt -> index_config n kt = Ok c ->
  exists msg t d', bt_Open (tree_object c kvar, d) = (Err kInvalidArgument msg, (t, d')) /\
    im_rep im d' k p m /\ touches index_files d d'.
Proof.
  intros HR Hm Hkt Hc. pose proof HR as [_ _ _ _ Hnames Hst _]. pose proof (Hnames _ _ Hm) as Hn.
  destruct (index_config_ok _ _ _ (Hpaths n Hn) Hc) as (C0 & Ep & Et & Es & Ek & _).
  destruct (Hst n _ Hm) as (t0 & (c' & st & Hc' & Hconc & Hix & Hp) & Ho). cbn [ix_type ix_entries ix_open] in *.
  destruct (index_config_ok _ _ _ (Hpaths n Hn) Hc') as (C0' & Ep' & Et' & Es' & _ & _).
  pose proof (conc_heap_ok c' st _ Hconc) as Hok. destruct (indexed_md c' _ _ _ Hok Hix) as [(Hv & _) _].
  pose proof Hix as (Hd & _). rewrite <- Hd in Hv.
  destruct (tree_Open_other c C0 kvar Ek c' st (t0, d) Hconc) as (msg & [t d'] & E & [t1 Hconc'] & Hse); try congruence.
  exists msg, t, d'. split; [done|]. cbn in Hse. rewrite Ep in Hse. split; [|by eapply index_touches].
  rewrite <- (insert_id m n _ Hm).
  eapply (im_rep_update im im d d' k k p p m n kt' false es t1); try done. by exists c', st.
Qed.

(** Descriptors name the file of their index. *)
Definition index_op_ok (o : index_op) : Prop :=
  match o with
  | IRegister desc _ _ => idx_name desc ∈ names /\ idx_file_path desc = file_of (idx_name desc)
  | ICall _ q => call_fits q
  | IRestart => True
  end.

Lemma im_register_refines fuel desc kt create im d k p m :
  im_rep im d k p m -> index_op_ok (IRegister desc kt create) -> ps_room size 1 -> 1 <= p ->
  exists im' d', im_step fuel (IRegister desc kt create) (im, d) = ((ix_register desc kt create m).1, (im', d')) /\
    im_rep im' d' k p (ix_register desc kt create m).2 /\ touches index_files d d'.
Proof.
  intros HR [Hn Hf] Hroom Hp. pose proof HR as [Hs Hv [Hh _] Hfree _ Hst Hnone]. cbn [im_step]. unfold ix_register, answer.
  destruct (ValidateDescriptor desc) as [[]|code msg] eqn:Ev.
  2: { unfold RegisterIndex. dunfold. rewrite Ev. exists im, d; split_and!; [done|done|apply rtc_refl]. }
  destruct (m !! idx_name desc) as [[kt' [] es]|] eqn:Em.
  - destruct (Hst _ _ Em) as (t & _ & Ho). cbn in Ho. unfold RegisterIndex. dunfold. rewrite Ev, Ho.
    cbn. exists im, d; split_and!; [done|done|apply rtc_refl].
  - destruct (Hst _ _ Em) as (t & Ht & Ho). cbn [ix_type ix_entries ix_open] in *.
    rewrite RegisterIndex_eq, (stored_path_exists _ _ _ _ _ _ _ Ht) by done. rewrite andb_false_r.
    destruct (index_config (idx_name desc) kt) as [c|code msg] eqn:Ec; [|exists im, d; split_and!; [done|done|apply rtc_refl]]. case_bool_decide as Ek.
    + subst kt'. destruct (im_open_stored _ _ _ _ _ _ _ _ _ HR Em Ec) as (t' & d' & -> & HR' & ?). by eexists _, d'.
    + destruct (im_open_other _ _ _ _ _ _ _ _ _ _ HR Em Ek Ec) as (msg & t' & d' & -> & HR' & ?). by exists im, d'.
  - rewrite RegisterIndex_eq, (free_path_exists _ _ (Hfree _ Hn Em)) by auto. rewrite andb_true_r.
    destruct create; cbn [negb]; [|exists im, d; split_and!; [done|done|apply rtc_refl]].
    destruct (index_config (idx_name desc) kt) as [c|code msg] eqn:Ec; [|exists im, d; split_and!; [done|done|apply rtc_refl]].
    destruct (im_create_fresh _ _ _ _ _ _ _ _ HR Hn Em Ec Hroom Hp) as (t & d' & -> & HR' & ?). by eexists _, d'.
Qed.

Lemma im_restart_refines im d k p m :
  im_rep im d k p m -> im_rep (new_IndexManager size kvar) d k p (ix_step IRestart m).2.
Proof.
  intros [Hs Hv Hd Hfree Hnames Hst Hnone]. cbn [ix_step snd]. split; try done.
  - intros n Hn Hm. rewrite lookup_fmap, fmap_None in Hm. auto.
  - intros n x Hx. rewrite lookup_fmap in Hx. apply fmap_Some in Hx as (y & Hy & _). eauto.
  - intros n x Hx. rewrite lookup_fmap in Hx. apply fmap_Some in Hx as (y & Hy & ->).
    destruct (Hst _ _ Hy) as (t & Ht & _). by exists t.
Qed.

Lemma im_step_refines fuel o im d k p m :
  im_rep im d k p m -> index_op_ok o -> ps_room size (p + Z.of_nat k + 2) -> 0 < size -> 1 <= p -> (Z.to_nat p <= fuel)%nat ->
  exists im' d', im_step fuel o (im, d) = ((ix_step o m).1, (im', d')) /\
    im_rep im' d' (S k) (p + Z.of_nat k + 2) (ix_step o m).2 /\ touches index_files d d'.
Proof.
  intros HR Ho Hroom Hpos Hp Hfuel. destruct o as [desc kt create|n q|].
  - destruct (im_register_refines fuel desc kt create im d k p m HR Ho) as (im' & d' & E & HR' & Hto);
      [eapply ps_room_le; [done|exact Hroom|lia]|done|]. exists im', d'. split_and!; [exact E| |exact Hto]. eapply im_rep_more; [done|lia|lia].
  - by apply im_call_refines.
  - exists (new_IndexManager size kvar), d. split_and!; [done| |apply rtc_refl]. eapply im_rep_more; [by eapply im_restart_refines|lia|lia].
Qed.

Lemma im_run_refines fuel os : forall im d k p m,
  im_rep im d k p m -> Forall index_op_ok os -> 0 < size -> 1 <= p ->
  let n := pages_needed p (Z.of_nat k) (zlen os) in
  ps_room size n -> (Z.to_nat n <= fuel)%nat ->
  exists im' d' k' p', im_run fuel os (im, d) = ((ix_run os m).1, (im', d')) /\ im_rep im' d' k' p' (ix_run os m).2.
Proof.
  cbv zeta. unfold pages_needed. induction os as [|o os IH]; intros im d k p m HR Hops Hpos Hp Hroom Hfuel.
  { by exists im, d, k, p. }
  apply Forall_cons in Hops as [Ho Hops]. rewrite zlen_cons in Hroom, Hfuel. pose proof (zlen_nonneg os).
  destruct (im_step_refines fuel o im d k p m HR Ho) as (im1 & d1 & E1 & HR1 & _); try done.
  { eapply ps_room_le; [done|exact Hroom|]. nia. }
  { nia. }
  cbn [im_run ix_run]. rewrite E1. destruct (ix_step o m) as [r m1]. cbn [fst snd] in *.
  destruct (IH im1 d1 (S k) (p + Z.of_nat k + 2) m1 HR1 Hops Hpos) as (im2 & d2 & k2 & p2 & E2 & HR2).
  { lia. }
  { eapply ps_room_le; [done|exact Hroom|]. nia. }
  { nia. }
  rewrite E2. destruct (ix_run os m1) as [rs m2]. by exists im2, d2, k2, p2.
Qed.
End spec.

(** ** Theorems *)

(** C11. The index manager implements independent indexes.  Let every index have
    a file of its own, none of them on the way to another, and let the places be
    free.  Then for any sequence of creations, openings, insertions, deletions,
    lookups, range searches and restarts of the manager, every call answers as
    on the map from names to open or closed sorted lists: operations on one
    index do not disturb another, an index survives the manager, and opening it
    with another key type is refused. *)
Theorem index_manager_implements_indexes size kvar file_of names d os fuel :
  let n := pages_needed 1 0 (zlen os) in
  0 < kvar < 2 ^ 32 -> 0 < size < 2 ^ 32 -> healthy d -> disk_wf d ->
  (forall n, n ∈ names -> free_path d (file_of n)) ->
  (forall n n', n ∈ names -> n' ∈ names -> n <> n' -> apart (file_of n) (file_of n')) ->
  Forall (index_op_ok file_of names) os -> page_room size n -> (Z.to_nat n <= fuel)%nat ->
  exists s, im_run size kvar fuel os (new_IndexManager (P:=PageManager) size kvar, d) =
              ((ix_run size kvar file_of os ∅).1, s).
Proof.
  cbv zeta. intros Hk Hs Hh Hw Hfree Hap Hops Hroom Hfuel.
  destruct (im_run_refines (PL:=PageManager_laws) size kvar file_of names Hk (proj2 Hs) Hap) with
    (fuel := fuel) (os := os) (im := new_IndexManager (P:=PageManager) size kvar) (d := d) (k := 0%nat) (p := 1)
    (m := ∅ : gmap string index) as (im & d' & k' & p' & E & _); try done; try lia.
  - intros n Hn. by destruct (Hfree n Hn).
  - split; try done; [by intros n Hn _; apply Hfree|..]; intros n x; by rewrite lookup_empty.
  - by exists (im, d').
Qed.

Definition sample_index_ops : list index_op :=
  let desc n f := mkIndexDescriptor n "users" "id" f true in
  [IRegister (desc "a" "i/a.idx") vtInt false; IRegister (desc "a" "i/a.idx") vtInt true;
   IRegister (desc "b" "i/b.idx") vtString true; ICall "a" (TInsert (VInt 7) 1); ICall "b" (TInsert (VString "x") 2);
   ICall "a" (TFind (VString "x")); IRestart; ICall "a" (TFind (VInt 7));
   IRegister (desc "a" "i/a.idx") vtBool true; IRegister (desc "a" "i/a.idx") vtInt true; ICall "a" (TFind (VInt 7))].

Lemma index_manager_implements_indexes_witness :
  exists s, im_run 1024 64 200 sample_index_ops (new_IndexManager (P:=PageManager) 1024 64, empty_disk) =
              ((ix_run 1024 64 (fun n => "i/" +:+ n +:+ ".idx") sample_index_ops ∅).1, s).
Proof.
  apply (index_manager_implements_indexes 1024 64 (fun n => "i/" +:+ n +:+ ".idx") ["a"; "b"] empty_disk sample_index_ops 200).
  - lia.
  - lia.
  - done.
  - done.
  - intros n Hn. rewrite !elem_of_cons, elem_of_nil in Hn. destruct Hn as [->|[->|[]]]; apply empty_disk_free; by_computation.
  - intros n n' Hn Hn' Hne. rewrite !elem_of_cons, elem_of_nil in Hn, Hn'.
    destruct Hn as [->|[->|[]]], Hn' as [->|[->|[]]]; done || by_computation.
  - unfold sample_index_ops. repeat apply Forall_cons_2; try apply Forall_nil_2; cbn [index_op_ok];
      try split; try done; by_computation.
  - vm_compute. done.
  - apply Nat.leb_le. vm_compute. done.
Defined.
