(* ===== verification/Engine.v ===== *)
(** * The storage node engine

    Models [src/runtime/storage_node_engine.cpp] and [src/versioning/revert.cpp]:
    the tables of a node with their indexes and version logs.  A write goes to
    the table storage, then to the indexes, then to the version log.  The engine
    caches open tables and logs by name; a pointer to a cached object is
    represented by its key.  The reading of the system clock is the argument
    [now] of the operations that write a version record. *)

From S2P Require Import Prelude BinaryIO Values Serialization Disk PageStore PageManager.
From S2P Require Import RowStore RowTable TableStorage VersionLog Catalog KeyEncoder BStarTree IndexManager.

Definition MapColumnTypeToValueType (type : ColumnType) : result ValueType :=
  match type with
  | ctInt => Ok vtInt
  | ctString => Ok vtString
  | ctBool => Ok vtBool
  | ctOther _ => Err kInternalError "Unsupported column type"
  end.

Definition MakeTableCacheKey (db_name table_name : string) : string := db_name +:+ "::" +:+ table_name.
Definition MakeVersionLogCacheKey (db_name table_name : string) : string := db_name +:+ "::" +:+ table_name.

Definition ExtractIndexKey (descriptor : TableDescriptor) (index : IndexDescriptor) (tuple : Tuple) : result Value :=
  let column_index := FindColumn (schema descriptor) (idx_column_name index) in
  _ ← check_not (column_index <? 0) kInternalError "Indexed column not found in schema";
  match znth tuple column_index with
  | None => Err kInternalError "Tuple does not contain indexed column"
  | Some key => Ok key
  end.

(** The status of a call as a value. *)
Definition status_of {S A} (m : M S A) : M S (result A) := fun s => let '(r, s') := m s in (Ok r, s').

Section Engine.
Context {P : Type} {PS : PageStore P}.

Record OpenTableState := mkOpenTableState { ot_descriptor : TableDescriptor; ot_storage : TableStorage P }.

(** Of the configuration the engine uses [data_dir] and [page_size]; the catalog
    manager's state is its root directory, [data_dir]. *)
Record Engine := mkEngine {
  data_dir : string;
  e_page_size : Z;
  index_manager_ : IndexManager P;
  started_ : bool;
  opened_tables_ : gmap string OpenTableState;
  opened_version_logs_ : gmap string VersionLog
}.

(** [kDefaultMaxVariableKeyPayloadBytes]. *)
Definition kDefaultMaxKeyPayload : Z := 256.
Definition new_Engine (dir : string) (page_size : Z) : Engine :=
  mkEngine dir page_size (new_IndexManager page_size kDefaultMaxKeyPayload) false ∅ ∅.

Definition set_index_manager (im : IndexManager P) (e : Engine) : Engine :=
  mkEngine (data_dir e) (e_page_size e) im (started_ e) (opened_tables_ e) (opened_version_logs_ e).
Definition set_started (b : bool) (e : Engine) : Engine :=
  mkEngine (data_dir e) (e_page_size e) (index_manager_ e) b (opened_tables_ e) (opened_version_logs_ e).
Definition set_tables (f : gmap string OpenTableState -> gmap string OpenTableState) (e : Engine) : Engine :=
  mkEngine (data_dir e) (e_page_size e) (index_manager_ e) (started_ e) (f (opened_tables_ e)) (opened_version_logs_ e).
Definition set_logs (f : gmap string VersionLog -> gmap string VersionLog) (e : Engine) : Engine :=
  mkEngine (data_dir e) (e_page_size e) (index_manager_ e) (started_ e) (opened_tables_ e) (f (opened_version_logs_ e)).

Abbreviation T := (M (Engine * disk)).

Definition on_indexes {A} (m : M (IndexManager P * disk) A) : T A := on_part index_manager_ set_index_manager m.

Definition EnsureStarted : T unit :=
  e ← this; reject_if (negb (started_ e)) kInternalError "StorageNodeEngine is not started".

Definition LoadTableDescriptor (db_name table_name : string) : T TableDescriptor :=
  e ← this; on_disk (GetTable (data_dir e) db_name table_name).

Definition ResolveVersionLogPath (dir : string) (descriptor : TableDescriptor) : string :=
  VersionsDirPath dir (database_name descriptor) +:+ "/" +:+ table_name descriptor +:+ ".vlog".

(** Constructing an object and opening it; on failure it is destroyed. *)
Definition opened {S} (open : M (S * disk) unit) (x : S) : T S := fun s =>
  match open (x, s.2) with
  | (Ok _, (x', d')) => (Ok x', (s.1, d'))
  | (Err c m, (_, d')) => (Err c m, (s.1, d'))
  end.

(** The descriptor of the open table; the table itself is cached. *)
Definition OpenTable (db_name table_name : string) : T TableDescriptor :=
  let cache_key := MakeTableCacheKey db_name table_name in
  e ← this;
  match opened_tables_ e !! cache_key with
  | Some state => mret (ot_descriptor state)
  | None =>
      descriptor ← LoadTableDescriptor db_name table_name;
      storage ← opened ts_Open (new_TableStorage descriptor (e_page_size e));
      _ ← update (set_tables <[cache_key := mkOpenTableState descriptor storage]>);
      mret descriptor
  end.

(** A call on the storage of an open table. *)
Definition on_table {A} (cache_key : string) (m : M (TableStorage P * disk) A) : T A := fun s =>
  match opened_tables_ s.1 !! cache_key with
  | None => (Err kInternalError "undefined: table is not open", s)
  | Some state =>
      let '(r, (storage, d)) := m (ot_storage state, s.2) in
      (r, (set_tables <[cache_key := mkOpenTableState (ot_descriptor state) storage]> s.1, d))
  end.

Definition OpenVersionLog (db_name table_name : string) : T unit :=
  let cache_key := MakeVersionLogCacheKey db_name table_name in
  e ← this;
  match opened_version_logs_ e !! cache_key with
  | Some _ => mret tt
  | None =>
      descriptor ← LoadTableDescriptor db_name table_name;
      log ← opened vl_Open (new_VersionLog (ResolveVersionLogPath (data_dir e) descriptor));
      update (set_logs <[cache_key := log]>)
  end.
Definition on_log {A} (cache_key : string) (m : M (VersionLog * disk) A) : T A := fun s =>
  match opened_version_logs_ s.1 !! cache_key with
  | None => (Err kInternalError "undefined: version log is not open", s)
  | Some log => let '(r, (log', d)) := m (log, s.2) in (r, (set_logs <[cache_key := log']> s.1, d))
  end.

(** The loops over the indexes of a table. *)
Fixpoint for_indexes (body : IndexDescriptor -> T unit) (ixs : list IndexDescriptor) : T unit :=
  match ixs with
  | [] => mret tt
  | index :: rest => _ ← body index; for_indexes body rest
  end.

Definition index_key_type (descriptor : TableDescriptor) (index : IndexDescriptor) : result ValueType :=
  match FindColumnSchema (schema descriptor) (idx_column_name index) with
  | None => Err kInternalError "Indexed column not found in schema"
  | Some column => MapColumnTypeToValueType (col_type column)
  end.

Definition EnsureTableIndexesCreated (descriptor : TableDescriptor) : T unit :=
  _ ← match indexes descriptor with [] => mret tt | _ :: _ => on_disk (EnsureDir (index_dir descriptor)) end;
  for_indexes (fun index =>
    key_type ← lift (index_key_type descriptor index);
    on_indexes (CreateIndex index key_type)) (indexes descriptor).

Definition OpenTableIndexes (descriptor : TableDescriptor) : T unit :=
  for_indexes (fun index =>
    key_type ← lift (index_key_type descriptor index);
    on_indexes (OpenIndex index key_type)) (indexes descriptor).

(** [fuel] bounds the depth of the trees the index operations descend. *)
Variable fuel : nat.

Definition InsertIntoIndexes (descriptor : TableDescriptor) (tuple : Tuple) (rid : Z) : T unit :=
  for_indexes (fun index =>
    key ← lift (ExtractIndexKey descriptor index tuple);
    if is_null key then mret tt else on_indexes (im_Insert fuel (idx_name index) key rid)) (indexes descriptor).

Definition DeleteFromIndexes (descriptor : TableDescriptor) (tuple : Tuple) : T unit :=
  for_indexes (fun index =>
    key ← lift (ExtractIndexKey descriptor index tuple);
    if is_null key then mret tt else on_indexes (im_Delete fuel (idx_name index) key)) (indexes descriptor).

Definition UpdateIndexes (descriptor : TableDescriptor) (before after : Tuple) (rid : Z) : T unit :=
  for_indexes (fun index =>
    old_key ← lift (ExtractIndexKey descriptor index before);
    new_key ← lift (ExtractIndexKey descriptor index after);
    if is_null old_key && is_null new_key then mret tt
    else if is_null old_key && negb (is_null new_key) then on_indexes (im_Insert fuel (idx_name index) new_key rid)
    else if negb (is_null old_key) && is_null new_key then on_indexes (im_Delete fuel (idx_name index) old_key)
    else if value_eqb old_key new_key then mret tt
    else
      _ ← on_indexes (im_Delete fuel (idx_name index) old_key);
      on_indexes (im_Insert fuel (idx_name index) new_key rid)) (indexes descriptor).

Definition append_version (db_name table_name : string) (record : VersionRecord) : T unit :=
  let cache_key := MakeVersionLogCacheKey db_name table_name in
  _ ← OpenVersionLog db_name table_name;
  _ ← on_log cache_key (Append record);
  on_log cache_key vl_Flush.

Definition AppendInsertVersion (now : Z) (db_name table_name : string) (rid : Z) (after : Tuple) : T unit :=
  append_version db_name table_name (mkVersionRecord now table_name rid voInsert [] after).
Definition AppendUpdateVersion (now : Z) (db_name table_name : string) (rid : Z) (before after : Tuple) : T unit :=
  append_version db_name table_name (mkVersionRecord now table_name rid voUpdate before after).
Definition AppendDeleteVersion (now : Z) (db_name table_name : string) (rid : Z) (before : Tuple) : T unit :=
  append_version db_name table_name (mkVersionRecord now table_name rid voDelete before []).

Definition Start : T unit := e ← this; if started_ e then mret tt else update (set_started true).
Definition Stop : T unit :=
  _ ← update (set_tables (fun _ => ∅));
  _ ← update (set_logs (fun _ => ∅));
  update (set_started false).

Definition e_CreateDatabase (db_name : string) : T unit :=
  _ ← EnsureStarted;
  e ← this;
  on_disk (CreateDatabase (data_dir e) db_name).

Definition without_prefix {A} (prefix : string) (m : gmap string A) : gmap string A :=
  filter (fun entry => String.prefix prefix entry.1 = false) m.
Definition e_DropDatabase (db_name : string) : T unit :=
  _ ← EnsureStarted;
  _ ← update (set_tables (without_prefix (db_name +:+ "::")));
  _ ← update (set_logs (without_prefix (db_name +:+ "::")));
  e ← this;
  on_disk (DropDatabase (data_dir e) db_name).

Definition e_CreateTable (desc : TableDescriptor) : T unit :=
  _ ← EnsureStarted;
  e ← this;
  _ ← on_disk (CreateTable (data_dir e) desc);
  normalized_desc ← LoadTableDescriptor (database_name desc) (table_name desc);
  EnsureTableIndexesCreated normalized_desc.

Definition e_DropTable (db_name table_name : string) : T unit :=
  _ ← EnsureStarted;
  _ ← update (set_tables (delete (MakeTableCacheKey db_name table_name)));
  _ ← update (set_logs (delete (MakeVersionLogCacheKey db_name table_name)));
  e ← this;
  on_disk (DropTable (data_dir e) db_name table_name).

Definition GetTableDescriptor (db_name table_name : string) : T TableDescriptor :=
  _ ← EnsureStarted; LoadTableDescriptor db_name table_name.

Definition ScanTable (db_name table_name : string) : T (list Row) :=
  _ ← EnsureStarted;
  _ ← OpenTable db_name table_name;
  on_table (MakeTableCacheKey db_name table_name) ts_Scan.

(** ** Rows

    The flag [write_version_record] and the clock reading are one argument: the
    time of the version record when one is written. *)

Definition InsertInternal (db_name table_name : string) (tuple_ : Tuple) (version : option Z) : T Z :=
  let table := MakeTableCacheKey db_name table_name in
  _ ← EnsureStarted;
  descriptor ← OpenTable db_name table_name;
  _ ← OpenTableIndexes descriptor;
  out_rid ← on_table table (ts_Insert tuple_);
  inserted_row ← on_table table (ts_Get out_rid);
  _ ← InsertIntoIndexes descriptor (tuple inserted_row) out_rid;
  _ ← match version with
      | None => mret tt
      | Some now => AppendInsertVersion now db_name table_name out_rid (tuple inserted_row)
      end;
  mret out_rid.

Definition UpdateInternal (db_name table_name : string) (rid_ : Z) (tuple_ : Tuple) (version : option Z) : T unit :=
  let table := MakeTableCacheKey db_name table_name in
  _ ← EnsureStarted;
  descriptor ← OpenTable db_name table_name;
  _ ← OpenTableIndexes descriptor;
  before_row ← on_table table (ts_Get rid_);
  _ ← on_table table (ts_Update rid_ tuple_);
  after_row ← on_table table (ts_Get rid_);
  _ ← UpdateIndexes descriptor (tuple before_row) (tuple after_row) rid_;
  match version with
  | None => mret tt
  | Some now => AppendUpdateVersion now db_name table_name rid_ (tuple before_row) (tuple after_row)
  end.

Definition DeleteInternal (db_name table_name : string) (rid_ : Z) (version : option Z) : T unit :=
  let table := MakeTableCacheKey db_name table_name in
  _ ← EnsureStarted;
  descriptor ← OpenTable db_name table_name;
  _ ← OpenTableIndexes descriptor;
  before_row ← on_table table (ts_Get rid_);
  _ ← DeleteFromIndexes descriptor (tuple before_row);
  _ ← on_table table (ts_Delete rid_);
  match version with
  | None => mret tt
  | Some now => AppendDeleteVersion now db_name table_name rid_ (tuple before_row)
  end.

Definition RestoreInternal (db_name table_name : string) (rid_ : Z) (tuple_ : Tuple) (version : option Z) : T unit :=
  let table := MakeTableCacheKey db_name table_name in
  _ ← EnsureStarted;
  descriptor ← OpenTable db_name table_name;
  _ ← OpenTableIndexes descriptor;
  existing ← status_of (on_table table (ts_Get rid_));
  _ ← match existing with
      | Ok _ => throw kAlreadyExists "Row already exists"
      | Err code msg => reject_if (negb (bool_decide (code = kNotFound))) code msg
      end;
  _ ← on_table table (ts_Restore rid_ tuple_);
  restored_row ← on_table table (ts_Get rid_);
  _ ← InsertIntoIndexes descriptor (tuple restored_row) rid_;
  match version with
  | None => mret tt
  | Some now => AppendInsertVersion now db_name table_name rid_ (tuple restored_row)
  end.

Definition e_Insert (now : Z) (db_name table_name : string) (tuple_ : Tuple) : T Z :=
  InsertInternal db_name table_name tuple_ (Some now).
Definition e_Update (now : Z) (db_name table_name : string) (rid_ : Z) (tuple_ : Tuple) : T unit :=
  UpdateInternal db_name table_name rid_ tuple_ (Some now).
Definition e_Delete (now : Z) (db_name table_name : string) (rid_ : Z) : T unit :=
  DeleteInternal db_name table_name rid_ (Some now).

(** ** Revert *)

Definition LoadRecords (db_name table_name : string) : T (list VersionRecord) :=
  _ ← OpenTable db_name table_name;
  _ ← OpenVersionLog db_name table_name;
  on_log (MakeVersionLogCacheKey db_name table_name) ReadAll.

Definition CollectRollbackRecords (table_name : string) (all_records : list VersionRecord) (timestamp : Z)
  : list VersionRecord :=
  filter (fun record => vr_table_name record = table_name /\ timestamp < timestamp_ms record) all_records.

Definition ApplyInverseRecord (db_name table_name : string) (record : VersionRecord) : T unit :=
  match vr_op record with
  | voInsert => DeleteInternal db_name table_name (vr_rid record) None
  | voDelete => RestoreInternal db_name table_name (vr_rid record) (before record) None
  | voUpdate => UpdateInternal db_name table_name (vr_rid record) (before record) None
  | voOther _ => throw kInvalidArgument "Unsupported version operation"
  end.

Fixpoint ApplyInverses (db_name table_name : string) (records : list VersionRecord) : T unit :=
  match records with
  | [] => mret tt
  | record :: rest => _ ← ApplyInverseRecord db_name table_name record; ApplyInverses db_name table_name rest
  end.

Definition RevertTableToTimestamp (db_name table_name : string) (timestamp : Z) : T unit :=
  all_records ← LoadRecords db_name table_name;
  ApplyInverses db_name table_name (rev (CollectRollbackRecords table_name all_records timestamp)).
End Engine.
Arguments Engine P : clear implicits.
Arguments OpenTableState P : clear implicits.
