(* ===== verification/EngineSpec.v ===== *)
(** * The engine refines a table with indexes and a log

    The operations of [Engine.v] on one table are simulated by the same
    operations on an abstract node: the table as a map, each index as a sorted
    list, the log as a list of records.  The simulation covers every branch: a
    call of the engine returns what the abstract call returns, errors included,
    and leaves the disk and the caches representing the abstract result. *)

From S2P Require Import Prelude BinaryIO Values Serialization Disk PageStore PageManager.
From S2P Require Import RowStore RowStoreSpec RowTable TableStorage VersionLog Catalog CatalogSpec KeyEncoder.
From S2P Require Import BStarTree BStarTreeHeap BStarTreeSearch BStarTreeInsert BStarTreeLeaves BStarTreeSpec.
From S2P Require Import IndexManager Engine.

(** ** The abstract node *)

Record node := mkNode {
  n_started : bool;
  n_rows : table;
  n_indexes : gmap string index;
  n_log : list VersionRecord
}.

Definition with_rows (t : table) (s : node) : node := mkNode (n_started s) t (n_indexes s) (n_log s).
Definition with_indexes (m : gmap string index) (s : node) : node := mkNode (n_started s) (n_rows s) m (n_log s).
Definition with_log (rs : list VersionRecord) (s : node) : node :=
  mkNode (n_started s) (n_rows s) (n_indexes s) rs.

(** The file of each index of a table. *)
Definition index_file (desc : TableDescriptor) (name : string) : string :=
  match list_find (fun ix => idx_name ix = name) (indexes desc) with
  | Some (_, ix) => idx_file_path ix
  | None => ""
  end.
Definition index_names (desc : TableDescriptor) : list string := map idx_name (indexes desc).

Section ops.
Context (size : Z) (desc : TableDescriptor).
Abbreviation A := (M node).

Definition a_started : A unit := s ← get; reject_if (negb (n_started s)) kInternalError "".

(** The table's operations behind the check of the tuple. *)
Definition checked {X} (tup : Tuple) (f : Tuple -> table -> result X * table) (t : table) : result X * table :=
  match PrepareTupleForWrite desc tup with
  | Ok tup' => f tup' t
  | Err c m => (Err c m, t)
  end.
Definition a_table {X} (f : table -> result X * table) : A X := fun s =>
  let '(r, t) := f (n_rows s) in (r, with_rows t s).
Definition a_get (i : Z) : A Row := a_table (fun t => (t_get i t, t)).

Definition status (r : reply) : result unit :=
  match r with RError code => Err code "" | _ => Ok tt end.
Definition a_index (o : index_op) : A unit := fun s =>
  let '(r, m) := ix_step size kDefaultMaxKeyPayload (index_file desc) o (n_indexes s) in (status r, with_indexes m s).
Fixpoint a_for (body : IndexDescriptor -> A unit) (ixs : list IndexDescriptor) : A unit :=
  match ixs with
  | [] => mret tt
  | ix :: rest => _ ← body ix; a_for body rest
  end.
Definition a_open_indexes (create : bool) : A unit :=
  a_for (fun ix => kt ← lift (index_key_type desc ix); a_index (IRegister ix kt create)) (indexes desc).

Definition a_index_insert (tup : Tuple) (rid : Z) : A unit :=
  a_for (fun ix =>
    key ← lift (ExtractIndexKey desc ix tup);
    if is_null key then mret tt else a_index (ICall (idx_name ix) (TInsert key rid))) (indexes desc).
Definition a_index_delete (tup : Tuple) : A unit :=
  a_for (fun ix =>
    key ← lift (ExtractIndexKey desc ix tup);
    if is_null key then mret tt else a_index (ICall (idx_name ix) (TDelete key))) (indexes desc).
Definition a_index_update (old new : Tuple) (rid : Z) : A unit :=
  a_for (fun ix =>
    k1 ← lift (ExtractIndexKey desc ix old);
    k2 ← lift (ExtractIndexKey desc ix new);
    if is_null k1 && is_null k2 then mret tt
    else if is_null k1 && negb (is_null k2) then a_index (ICall (idx_name ix) (TInsert k2 rid))
    else if negb (is_null k1) && is_null k2 then a_index (ICall (idx_name ix) (TDelete k1))
    else if value_eqb k1 k2 then mret tt
    else _ ← a_index (ICall (idx_name ix) (TDelete k1)); a_index (ICall (idx_name ix) (TInsert k2 rid)))
    (indexes desc).

Definition a_append (r : VersionRecord) : A unit := fun s => (Ok tt, with_log (n_log s ++ [r]) s).
Definition a_version (version : option Z) (rid : Z) (o : VersionOp) (old new : Tuple) : A unit :=
  match version with
  | None => mret tt
  | Some now => a_append (mkVersionRecord now (table_name desc) rid o old new)
  end.

Definition a_insert (tup : Tuple) (version : option Z) : A Z :=
  _ ← a_started;
  _ ← a_open_indexes false;
  i ← a_table (checked tup (t_insert size));
  row ← a_get i;
  _ ← a_index_insert (tuple row) i;
  _ ← a_version version i voInsert [] (tuple row);
  mret i.
Definition a_update (i : Z) (tup : Tuple) (version : option Z) : A unit :=
  _ ← a_started;
  _ ← a_open_indexes false;
  old ← a_get i;
  _ ← a_table (checked tup (t_update size i));
  new ← a_get i;
  _ ← a_index_update (tuple old) (tuple new) i;
  a_version version i voUpdate (tuple old) (tuple new).
Definition a_delete (i : Z) (version : option Z) : A unit :=
  _ ← a_started;
  _ ← a_open_indexes false;
  old ← a_get i;
  _ ← a_index_delete (tuple old);
  _ ← a_table (t_delete i);
  a_version version i voDelete (tuple old) [].
Definition a_restore (i : Z) (tup : Tuple) (version : option Z) : A unit :=
  _ ← a_started;
  _ ← a_open_indexes false;
  existing ← status_of (a_get i);
  _ ← match existing with
      | Ok _ => throw kAlreadyExists "Row already exists"
      | Err code msg => reject_if (negb (bool_decide (code = kNotFound))) code msg
      end;
  _ ← a_table (checked tup (fun tup' t => (Ok tt, t_restore i tup' t)));
  row ← a_get i;
  _ ← a_index_insert (tuple row) i;
  a_version version i voInsert [] (tuple row).

Definition a_inverse (r : VersionRecord) : A unit :=
  match vr_op r with
  | voInsert => a_delete (vr_rid r) None
  | voDelete => a_restore (vr_rid r) (before r) None
  | voUpdate => a_update (vr_rid r) (before r) None
  | voOther _ => throw kInvalidArgument "Unsupported version operation"
  end.
Fixpoint a_inverses (rs : list VersionRecord) : A unit :=
  match rs with
  | [] => mret tt
  | r :: rest => _ ← a_inverse r; a_inverses rest
  end.
Definition a_revert (timestamp : Z) : A unit :=
  s ← get; a_inverses (rev (CollectRollbackRecords (table_name desc) (n_log s) timestamp)).
End ops.

(** ** The representation *)

Definition same_status {X} (r r' : result X) : Prop :=
  match r, r' with
  | Ok x, Ok x' => x = x'
  | Err c _, Err c' _ => c = c'
  | _, _ => False
  end.

(** The table's description is in the catalog. *)
Definition meta_on (root : string) (desc : TableDescriptor) (d : disk) : Prop :=
  healthy d /\ DatabasePath root (database_name desc) ∈ d_dirs d /\
  d_files d !! TableMetaPath root (database_name desc) (table_name desc) = Some (SerializeTableDescriptor desc []).

(** The files of the table are apart from one another, and none of them is its
    metadata file. *)
Record files_apart (root : string) (desc : TableDescriptor) : Prop := {
  fa_nonempty : data_file desc <> "";
  fa_names : NoDup (index_names desc);
  fa_paths : Forall (fun ix => idx_file_path ix <> "") (indexes desc);
  fa_data_log : apart (data_file desc) (ResolveVersionLogPath root desc);
  fa_data_index : Forall (fun ix => apart (data_file desc) (idx_file_path ix)) (indexes desc);
  fa_log_index : Forall (fun ix => apart (ResolveVersionLogPath root desc) (idx_file_path ix)) (indexes desc);
  fa_indexes : Forall (fun ix => Forall (fun ix' => idx_name ix = idx_name ix' \/
    apart (idx_file_path ix) (idx_file_path ix')) (indexes desc)) (indexes desc);
  fa_meta : Forall (fun p => p <> TableMetaPath root (database_name desc) (table_name desc))
    (data_file desc :: ResolveVersionLogPath root desc :: map idx_file_path (indexes desc))
}.

Lemma meta_GetTable root desc d :
  meta_on root desc d -> IsValidName (database_name desc) = true ->
  stored_table (database_name desc) (table_name desc) desc ->
  GetTable root (database_name desc) (table_name desc) d = (Ok desc, d).
Proof.
  intros (Hh & Hd & Hf) Hdb (Ht & _ & _ & Hv & Hok). unfold GetTable, FindTableMeta, DatabaseExists.
  unfold ValidateDatabaseName, ValidateTableName. rewrite Hdb, Ht. dunfold. cbn [negb check_not].
  rewrite fs_query_healthy by done. unfold path_exists at 1. rewrite (bool_decide_true (_ ∈ _)), orb_true_r by done.
  rewrite fs_query_healthy by done. unfold is_directory. rewrite bool_decide_true by done. cbn [negb].
  rewrite FileExists_healthy by done. unfold path_exists. rewrite Hf, bool_decide_true by done. cbn [negb orb].
  by apply ReadTableMetaFile_ok.
Qed.

Lemma index_file_elem desc ix :
  NoDup (index_names desc) -> ix ∈ indexes desc -> index_file desc (idx_name ix) = idx_file_path ix.
Proof.
  unfold index_names, index_file. intros Hnd Hin.
  destruct (list_find _ (indexes desc)) as [[k ix']|] eqn:E.
  - apply list_find_Some in E as (Hk & Hn & _). apply list_elem_of_lookup in Hin as [j Hj].
    assert (k = j) as ->; [|congruence]. eapply (NoDup_lookup _ _ _ (idx_name ix)); [exact Hnd| |].
    + rewrite list_lookup_fmap, Hk. cbn. by rewrite Hn.
    + by rewrite list_lookup_fmap, Hj.
  - apply list_find_None in E. by eapply Forall_forall in E; [|exact Hin].
Qed.

Section rep.
Context {P : Type} {PS : PageStore P} {PL : PageStoreLaws P}.
Context (root : string) (size : Z) (desc : TableDescriptor).
Context (Hsize : 36 <= size < 2 ^ 28) (Hdb : IsValidName (database_name desc) = true).
Context (Hstored : stored_table (database_name desc) (table_name desc) desc) (Hfiles : files_apart root desc).
Context (Hschema : schema_fits (schema desc)).

Abbreviation vlog := (ResolveVersionLogPath root desc).
Abbreviation key := (MakeTableCacheKey (database_name desc) (table_name desc)).

(** The table's file holds [t], or is still to be made; [o] says that the table
    is surely open. *)
Definition table_rep (o : bool) (u : Z) (t : table) (e : Engine P) (d : disk) : Prop :=
  (exists ts, ts_table ts d t /\ descriptor_ ts = desc /\ rs_page_size_ (row_store_ ts) = size /\
     data_page_count_ (row_store_ ts) <= u /\ Z.of_nat (base.size (t_rows t)) <= u /\
     (opened_tables_ e !! key = Some (mkOpenTableState desc ts) \/ opened_tables_ e !! key = None /\ o = false)) \/
  (t = empty_table /\ free_path d (data_file desc) /\ opened_tables_ e !! key = None /\ o = false).

Definition log_rep (o : bool) (rs : list VersionRecord) (e : Engine P) (d : disk) : Prop :=
  (exists log, vl_rep log d rs /\ vl_file_path_ log = vlog /\
     (opened_version_logs_ e !! key = Some log \/ opened_version_logs_ e !! key = None /\ o = false)) \/
  (rs = [] /\ free_path d vlog /\ opened_version_logs_ e !! key = None /\ o = false).

(** The node [s] on the disk; [u] bounds the space used so far, [low] the next
    row id from below. *)
Record node_rep (ot ol : bool) (low u : Z) (s : node) (e : Engine P) (d : disk) : Prop := {
  nr_dir : data_dir e = root;
  nr_size : e_page_size e = size;
  nr_started : started_ e = n_started s;
  nr_meta : meta_on root desc d;
  nr_table : table_rep ot u (n_rows s) e d;
  nr_next : low <= t_next (n_rows s) <= u;
  nr_indexes : exists k p, im_rep size kDefaultMaxKeyPayload (index_file desc) (index_names desc)
    (index_manager_ e) d k p (n_indexes s) /\ Z.of_nat k <= u /\ 1 <= p <= 1 + u * (u + 2);
  nr_log : log_rep ol (n_log s) e d
}.

Lemma meta_frame p d d' :
  p ∈ data_file desc :: vlog :: map idx_file_path (indexes desc) -> same_except p d d' ->
  meta_on root desc d -> meta_on root desc d'.
Proof.
  intros Hp [Hd _ Hf Hh _] (? & ? & ?). pose proof (fa_meta _ _ Hfiles) as Hm. eapply Forall_forall in Hm; [|exact Hp].
  split_and!; auto. by rewrite Hf.
Qed.

Lemma table_rep_frame o u t e d d' p :
  table_rep o u t e d -> apart (data_file desc) p -> same_except p d d' -> table_rep o u t e d'.
Proof.
  intros [(ts & Ht & Hd & Hrest)|(? & Hf & ? & ?)] Hap Hse; [left; exists ts|right; split_and!; auto].
  - split_and!; try apply Hrest; auto. eapply ts_table_frame; [done| |done]. rewrite Hd. apply Hap.
  - exact (free_path_frame _ _ _ _ Hf Hse Hap).
Qed.
Lemma log_rep_frame o rs e d d' p :
  log_rep o rs e d -> apart vlog p -> same_except p d d' -> log_rep o rs e d'.
Proof.
  intros [(log & Ht & Hd & Hrest)|(? & Hf & ? & ?)] Hap Hse; [left; exists log|right; split_and!; auto].
  - split_and!; try apply Hrest; auto. eapply vl_rep_frame; [done| |done]. rewrite Hd. apply Hap.
  - exact (free_path_frame _ _ _ _ Hf Hse Hap).
Qed.

Lemma table_rep_more o u u' t e d : table_rep o u t e d -> u <= u' -> table_rep o u' t e d.
Proof.
  intros [(ts & ? & ? & ? & ? & ? & ?)|?] ?; [left; exists ts|by right]. split_and!; try done; lia.
Qed.
Lemma node_rep_more ot ol low u u' s e d : node_rep ot ol low u s e d -> u <= u' -> node_rep ot ol low u' s e d.
Proof.
  intros [? ? ? ? ? ? (k & p & ? & ? & ?) ?] Hu. split; try done; [by eapply table_rep_more|lia|].
  exists k, p. split_and!; try done; nia.
Qed.

(** ** One part changes, the others stay *)

Lemma index_file_in p : p ∈ index_files (index_file desc) (index_names desc) ->
  exists ix, ix ∈ indexes desc /\ p = idx_file_path ix.
Proof.
  intros (n & -> & Hn)%list_elem_of_fmap. apply list_elem_of_fmap in Hn as (ix & -> & Hix).
  exists ix. split; [done|]. by apply index_file_elem; [apply (fa_names _ _ Hfiles)|].
Qed.

Lemma node_rep_indexes ot ol low u u' k p s e d im m d' :
  node_rep ot ol low u s e d -> touches (index_files (index_file desc) (index_names desc)) d d' ->
  im_rep size kDefaultMaxKeyPayload (index_file desc) (index_names desc) im d' k p m ->
  Z.of_nat k <= u' -> 1 <= p <= 1 + u' * (u' + 2) -> u <= u' ->
  node_rep ot ol low u' (with_indexes m s) (set_index_manager im e) d'.
Proof.
  intros [? ? ? Hm Ht ? _ Hl] Hto Him Hk Hp Hu. split; cbn; try done; try lia.
  - eapply touches_frame; [|exact Hto|exact Hm]. intros q d1 d2 (ix & Hix & ->)%index_file_in Hse.
    eapply meta_frame; [|done]. do 2 right. by apply list_elem_of_fmap_2.
  - eapply table_rep_more; [|done]. eapply (touches_frame _ (table_rep ot u (n_rows s) (set_index_manager im e))); [|exact Hto|exact Ht].
    intros q d1 d2 (ix & Hix & ->)%index_file_in Hse Hr. eapply table_rep_frame; [done| |done].
    eapply Forall_forall in Hix; [exact Hix|apply (fa_data_index _ _ Hfiles)].
  - by exists k, p.
  - eapply (touches_frame _ (log_rep ol (n_log s) (set_index_manager im e))); [|exact Hto|exact Hl].
    intros q d1 d2 (ix & Hix & ->)%index_file_in Hse Hr. eapply log_rep_frame; [done| |done].
    eapply Forall_forall in Hix; [exact Hix|apply (fa_log_index _ _ Hfiles)].
Qed.

Lemma apart_index_files p :
  Forall (fun ix => apart p (idx_file_path ix)) (indexes desc) ->
  Forall (apart p) (index_files (index_file desc) (index_names desc)).
Proof.
  intros H. apply Forall_forall. intros q (ix & Hix & ->)%index_file_in. by eapply Forall_forall in H.
Qed.

Lemma node_rep_table ot ol low u u' s e d ot' t ts d' :
  node_rep ot ol low u s e d -> same_except (data_file desc) d d' ->
  table_rep ot' u' t (set_tables ts e) d' -> low <= t_next t <= u' -> u <= u' ->
  node_rep ot' ol low u' (with_rows t s) (set_tables ts e) d'.
Proof.
  intros [? ? ? Hm _ ? (k & p & Him & Hk & Hp) Hl] Hse Ht Hn Hu. split; cbn; try done.
  - eapply meta_frame; [|done|done]. left.
  - exists k, p. split_and!; try lia; [|nia]. eapply im_rep_frame; [done| |done].
    apply apart_index_files, (fa_data_index _ _ Hfiles).
  - eapply (log_rep_frame _ _ (set_tables ts e)); [exact Hl| |done]. symmetry. apply (fa_data_log _ _ Hfiles).
Qed.

Lemma node_rep_log ot ol low u s e d ol' rs logs d' :
  node_rep ot ol low u s e d -> same_except vlog d d' -> log_rep ol' rs (set_logs logs e) d' ->
  node_rep ot ol' low u (with_log rs s) (set_logs logs e) d'.
Proof.
  intros [? ? ? Hm Ht ? (k & p & Him & Hk & Hp) _] Hse Hl. split; cbn; try done.
  - eapply meta_frame; [|done|done]. right. left.
  - eapply (table_rep_frame _ _ _ (set_logs logs e)); [exact Ht| |done]. apply (fa_data_log _ _ Hfiles).
  - exists k, p. split_and!; try lia. eapply im_rep_frame; [done| |done].
    apply apart_index_files, (fa_log_index _ _ Hfiles).
Qed.
End rep.
