(* ===== verification/EngineSim.v ===== *)
(** * The simulation of the engine's operations

    [sim] relates a program of the engine to a program of the abstract node of
    [EngineSpec.v]: from a represented node both end the same way and the node
    is represented again.  The steps of the engine are simulated one by one and
    composed along the binds of the code. *)

From S2P Require Import Prelude BinaryIO Values Serialization Disk PageStore PageManager.
From S2P Require Import RowStore RowStoreSpec RowTable TableStorage VersionLog Catalog CatalogSpec KeyEncoder.
From S2P Require Import BStarTree BStarTreeHeap BStarTreeSearch BStarTreeInsert BStarTreeLeaves BStarTreeSpec.
From S2P Require Import IndexManager Engine EngineSpec.

(** The space a budget of [n] steps may take, in pages. *)
Definition space (n : Z) : Z := 1 + n * (n + 2).

Section sim.
Context {P : Type} {PS : PageStore P} {PL : PageStoreLaws P}.
Context (root : string) (size : Z) (desc : TableDescriptor).
Context (Hsize : 36 <= size < 2 ^ 28) (Hdb : IsValidName (database_name desc) = true).
Context (Hstored : stored_table (database_name desc) (table_name desc) desc) (Hfiles : files_apart root desc).
Context (Hschema : schema_fits (schema desc)) (Hname : zlen (bytes_of_string (table_name desc)) < 2 ^ 28).
Context (budget : Z) (fuel : nat) (low : Z).
Context (Hbudget : budget < 2 ^ 62) (Hroom : ps_room size (space budget)) (Hfuel : (Z.to_nat (space budget) <= fuel)%nat).

Abbreviation rep := (node_rep (P:=P) root size desc).
Abbreviation vlog := (ResolveVersionLogPath root desc).
Abbreviation db := (database_name desc).
Abbreviation tbl := (table_name desc).
Abbreviation key := (MakeTableCacheKey db tbl).

Definition sim {X} (o o' : bool * bool) (n : Z) (m : M (Engine P * disk) X) (a : M node X) (Q : X -> Prop) : Prop :=
  forall u s e d, 0 <= u -> u + n <= budget -> rep o.1 o.2 low u s e d ->
  exists r e' d', m (e, d) = (r, (e', d')) /\ same_status r (a s).1 /\
    match r with
    | Ok x => Q x /\ rep o'.1 o'.2 low (u + n) (a s).2 e' d'
    | Err _ _ => rep false false low (u + n) (a s).2 e' d'
    end.

Lemma rep_weaken ot ol u s e d : rep ot ol low u s e d -> rep false false low u s e d.
Proof.
  intros [? ? ? ? Ht ? ? Hl]. split; try done.
  - destruct Ht as [(ts & ? & ? & ? & ? & ? & [?|[? _]])|(? & ? & ? & _)]; [left; exists ts; split_and!; auto..|by right].
  - destruct Hl as [(l & ? & ? & [?|[? _]])|(? & ? & ? & _)]; [left; exists l; split_and!; auto..|by right].
Qed.

Lemma sim_bind {X Y} o o1 o2 n n' (m : M (Engine P * disk) X) a Q (f : X -> M (Engine P * disk) Y) g R :
  0 <= n -> 0 <= n' -> sim o o1 n m a Q -> (forall x, Q x -> sim o1 o2 n' (f x) (g x) R) ->
  sim o o2 (n + n') (m ≫= f) (a ≫= g) R.
Proof.
  intros Hn Hn' Hm Hf u s e d Hu Hb Hr.
  destruct (Hm u s e d) as (r & e1 & d1 & E & Hst & H1); [done|lia|done|].
  rewrite !M_bind_eq, E. destruct (a s) as [r' s1]. cbn [fst snd] in *. destruct r as [x|c msg], r' as [x'|c' msg']; try done.
  - cbn in Hst. subst x'. destruct H1 as [Hx H1]. destruct (Hf x Hx (u + n) s1 e1 d1) as (r2 & e2 & d2 & E2 & H2); [lia|lia|done|].
    exists r2, e2, d2. rewrite Z.add_assoc. done.
  - exists (Err c msg), e1, d1. split_and!; try done. eapply node_rep_more; [done|lia].
Qed.

Lemma sim_cost {X} o o' n n' (m : M (Engine P * disk) X) a Q : n <= n' -> sim o o' n m a Q -> sim o o' n' m a Q.
Proof.
  intros Hn Hm u s e d Hu Hb Hr. destruct (Hm u s e d) as (r & e1 & d1 & E & Hst & H1); [done|lia|done|].
  exists r, e1, d1. split_and!; try done. destruct r; [destruct H1; split; [done|]|]; (eapply node_rep_more; [done|lia]).
Qed.
Lemma sim_mono {X} o o' n (m : M (Engine P * disk) X) a (Q Q' : X -> Prop) :
  sim o o' n m a Q -> (forall x, Q x -> Q' x) -> sim o o' n m a Q'.
Proof.
  intros Hm HQ u s e d Hu Hb Hr. destruct (Hm u s e d) as (r & e1 & d1 & E & Hst & H1); [done|lia|done|].
  exists r, e1, d1. split_and!; try done. destruct r; [destruct H1; split; auto|done].
Qed.
Lemma sim_ret {X} o (x : X) (Q : X -> Prop) : Q x -> sim o o 0 (mret x) (mret x) Q.
Proof. intros HQ u s e d Hu Hb Hr. exists (Ok x), e, d. rewrite Z.add_0_r. done. Qed.
Lemma sim_throw {X} o o' c msg msg' (Q : X -> Prop) : sim o o' 0 (throw c msg) (throw c msg') Q.
Proof. intros u s e d Hu Hb Hr. exists (Err c msg), e, d. rewrite Z.add_0_r. split_and!; [done|done|by eapply rep_weaken]. Qed.
Lemma sim_lift {X} o (r : result X) : sim o o 0 (lift r) (lift r) (fun x => r = Ok x).
Proof.
  destruct r as [x|c msg]; [by apply sim_ret|]. apply sim_throw.
Qed.
Lemma sim_for o (body : IndexDescriptor -> M (Engine P * disk) unit) abody n ixs :
  0 <= n -> (forall ix, ix ∈ ixs -> sim o o n (body ix) (abody ix) (fun _ => True)) ->
  sim o o (n * zlen ixs) (for_indexes body ixs) (a_for abody ixs) (fun _ => True).
Proof.
  intros Hn. induction ixs as [|ix ixs IH]; intros Hb; cbn [for_indexes a_for].
  - change (zlen []) with 0. rewrite Z.mul_0_r. by apply sim_ret.
  - rewrite zlen_cons. replace (n * (1 + zlen ixs)) with (n + n * zlen ixs) by lia. pose proof (zlen_nonneg ixs).
    eapply sim_bind; [done|nia|apply Hb; left|]. intros _ _. apply IH. intros ix' Hix'. apply Hb. by right.
Qed.

(** ** Opening *)

Lemma sim_started o : sim o o 0 EnsureStarted a_started (fun _ => True).
Proof.
  intros u s e d Hu Hb Hr. pose proof (nr_started _ _ _ _ _ _ _ _ _ _ Hr) as Hs.
  unfold EnsureStarted, a_started. dunfold. rewrite Hs, Z.add_0_r.
  destruct (n_started s); cbn [negb]; eexists _, e, d; split_and!; try done. by eapply rep_weaken.
Qed.

Lemma space_le n n' : 0 <= n <= n' -> space n <= space n'.
Proof. unfold space. nia. Qed.
Lemma budget_room n : n <= space budget -> ps_room size n.
Proof. intros. eapply ps_room_le; [|exact Hroom|done]. lia. Qed.

Lemma LoadTableDescriptor_rep ot ol u s e d :
  rep ot ol low u s e d -> LoadTableDescriptor db tbl (e, d) = (Ok desc, (e, d)).
Proof.
  intros [Hr _ _ Hm _ _ _ _]. unfold LoadTableDescriptor. dunfold.
  by rewrite Hr, (meta_GetTable _ _ _ Hm Hdb Hstored).
Qed.

(** An open table has the space for one more step. *)
Lemma table_room u s ts d :
  0 <= u -> u + 1 <= budget -> ts_table ts d (n_rows s) -> rs_page_size_ (row_store_ ts) = size ->
  data_page_count_ (row_store_ ts) <= u -> Z.of_nat (base.size (t_rows (n_rows s))) <= u ->
  room_for (row_store_ ts) (n_rows s).
Proof. intros. unfold room_for. replace (rs_page_size_ (row_store_ ts)) with size. apply budget_room. unfold space. nia. Qed.

Lemma OpenTable_opens ot ol u s e d ts d' :
  0 <= u -> rep ot ol low u s e d -> opened_tables_ e !! key = None ->
  ts_Open (new_TableStorage desc size, d) = (Ok tt, (ts, d')) -> same_except (data_file desc) d d' ->
  ts_table ts d' (n_rows s) -> descriptor_ ts = desc -> rs_page_size_ (row_store_ ts) = size ->
  data_page_count_ (row_store_ ts) <= u + 1 -> Z.of_nat (base.size (t_rows (n_rows s))) <= u ->
  exists e', OpenTable db tbl (e, d) = (Ok desc, (e', d')) /\ rep true ol low (u + 1) s e' d'.
Proof.
  intros Hu Hr Ho E Hse Hts Hd Hps Hpc Hrc. pose proof (nr_size _ _ _ _ _ _ _ _ _ _ Hr) as Hsz.
  pose proof (nr_next _ _ _ _ _ _ _ _ _ _ Hr) as Hn.
  exists (set_tables <[key := mkOpenTableState desc ts]> e). split.
  - unfold OpenTable. rewrite M_bind_eq. unfold this at 1. cbn [fst snd]. cbv zeta.
    rewrite Ho, M_bind_eq, (LoadTableDescriptor_rep _ _ _ _ _ _ Hr). rewrite Hsz, M_bind_eq. unfold opened at 1.
    cbn [fst snd]. by rewrite E.
  - destruct s as [b t m l].
    apply (node_rep_table root size desc Hfiles ot ol low u (u + 1) (mkNode b t m l) e d); try done; cbn in *; try lia.
    left. exists ts. split_and!; try done; try (cbn; lia). left. apply lookup_insert_eq.
Qed.

Lemma sim_OpenTable o : sim o (true, o.2) 1 (OpenTable db tbl) (mret desc) (fun x => x = desc).
Proof.
  intros u s e d Hu Hb Hr. pose proof (nr_table _ _ _ _ _ _ _ _ _ _ Hr) as Ht.
  pose proof (nr_next _ _ _ _ _ _ _ _ _ _ Hr) as Hn.
  enough (exists e' d', OpenTable db tbl (e, d) = (Ok desc, (e', d')) /\ rep true o.2 low (u + 1) s e' d')
    as (e' & d' & E & H) by by exists (Ok desc), e', d'.
  destruct Ht as [(ts & Hts & Hd & Hps & Hpc & Hrc & [Hop|[Hop _]])|(Et & Hf & Hop & Hot)].
  - exists e, d. split; [unfold OpenTable; dunfold; by rewrite Hop|]. apply (node_rep_more root size desc _ _ _ u); [|lia].
    destruct Hr. split; try done. left. exists ts. split_and!; auto.
  - destruct (ts_op_refines OpReopen ts d (n_rows s) Hts) as (ts' & d' & E & Hts' & (_ & Hps' & Hpc') & Hd' & Hse);
      rewrite ?Hd; try done; [by eapply table_room|lia|].
    destruct Hts as [_ _ [Hp _] _]. rewrite <- Hp, Hd in Hse. cbn [ts_op checked_op spec_op fst snd] in E, Hts'.
    rewrite Hd, Hps in E. destruct (ts_Open _) as [r [ts1 d1]] eqn:Eo. injection E as -> -> ->.
    edestruct (OpenTable_opens o.1 o.2 u s e d ts' d') as (e' & E' & H'); try done; try congruence; try lia. by exists e', d'.
  - destruct (ts_Open_new desc size d) as (ts & d' & E & Hts & Hd & Hps & Hpc & Hse).
    { apply ps_fresh_free; [done|lia]. }
    { lia. }
    { apply budget_room. unfold space. nia. }
    { apply (fa_nonempty _ _ Hfiles). }
    rewrite <- Et in Hts. edestruct (OpenTable_opens o.1 o.2 u s e d ts d') as (e' & E' & H'); try done; try lia.
    { rewrite Et. exact Hu. }
    by exists e', d'.
Qed.

(** ** Indexes *)

Abbreviation kvar := kDefaultMaxKeyPayload.
Abbreviation file_of := (index_file desc).
Abbreviation names := (index_names desc).

Lemma names_apart n n' : n ∈ names -> n' ∈ names -> n <> n' -> apart (file_of n) (file_of n').
Proof.
  intros (ix & -> & Hi)%list_elem_of_fmap (ix' & -> & Hi')%list_elem_of_fmap Hne.
  rewrite !index_file_elem by (done || apply (fa_names _ _ Hfiles)).
  pose proof (fa_indexes _ _ Hfiles) as H. eapply Forall_forall in H; [|exact Hi].
  eapply Forall_forall in H; [|exact Hi']. by destruct H.
Qed.
Lemma names_nonempty n : n ∈ names -> file_of n <> "".
Proof.
  intros (ix & -> & Hi)%list_elem_of_fmap. rewrite index_file_elem by (done || apply (fa_names _ _ Hfiles)).
  pose proof (fa_paths _ _ Hfiles) as H. by eapply Forall_forall in H.
Qed.

(** A call of the index manager that answers as the indexes do. *)
Lemma rep_index {X} op (m : M (IndexManager P * disk) X) (f : X -> reply) ot ol u s e d :
  index_op_ok file_of names op -> (forall s, im_step size kvar fuel op s = answer f (m s)) ->
  0 <= u -> u + 1 <= budget -> rep ot ol low u s e d ->
  exists r e' d', on_indexes m (e, d) = (r, (e', d')) /\
    match r with Ok x => f x | Err c _ => RError c end = (ix_step size kvar file_of op (n_indexes s)).1 /\
    rep ot ol low (u + 1) (with_indexes (ix_step size kvar file_of op (n_indexes s)).2 s) e' d'.
Proof.
  intros Hop Hm Hu Hb Hr. pose proof (nr_indexes _ _ _ _ _ _ _ _ _ _ Hr) as (k & p & Him & Hk & Hp).
  destruct (im_step_refines size kvar file_of names ltac:(done) ltac:(lia) names_apart names_nonempty
    fuel op (index_manager_ e) d k p (n_indexes s) Him Hop) as (im' & d' & E & Him' & Hto).
  { apply budget_room. pose proof (space_le (u + 1) budget). unfold space in *. nia. }
  { lia. }
  { lia. }
  { etrans; [|exact Hfuel]. pose proof (space_le u budget). unfold space in *. lia. }
  rewrite Hm in E. unfold answer in E. unfold on_indexes, on_part. cbn [fst snd].
  destruct (m (index_manager_ e, d)) as [r s']. cbn [fst snd] in E. injection E as Er ->.
  eexists r, _, d'. split; [reflexivity|]. split; [done|].
  eapply node_rep_indexes; [exact Hfiles|exact Hr|exact Hto|exact Him'|lia|nia|lia].
Qed.
Lemma sim_index o (op : index_op) (m : M (IndexManager P * disk) unit) :
  index_op_ok file_of names op ->
  (forall s, im_step size kvar fuel op s = answer (fun _ => RDone) (m s)) ->
  sim o o 1 (on_indexes m) (a_index size desc op) (fun _ => True).
Proof.
  intros Hop Hm u s e d Hu Hb Hr. destruct (rep_index op m (fun _ => RDone) _ _ u s e d Hop Hm Hu Hb Hr) as (r & e' & d' & E & Er & Hr').
  exists r, e', d'. split; [done|]. unfold a_index. destruct (ix_step _ _ _ _ _) as [y m']. cbn [fst snd] in *. subst y.
  destruct r as [[]|c msg]; cbn [status]; split_and!; try done. by eapply rep_weaken.
Qed.

Lemma sim_register o ix kt create :
  ix ∈ indexes desc ->
  sim o o 1 (on_indexes (RegisterIndex ix kt create)) (a_index size desc (IRegister ix kt create)) (fun _ => True).
Proof.
  intros Hix. apply sim_index; [|done]. split; [by apply list_elem_of_fmap_2|].
  by rewrite index_file_elem by (done || apply (fa_names _ _ Hfiles)).
Qed.
Lemma sim_index_insert_one o name k rid :
  value_ok k -> in_u64 rid ->
  sim o o 1 (on_indexes (im_Insert fuel name k rid)) (a_index size desc (ICall name (TInsert k rid))) (fun _ => True).
Proof. intros. by apply sim_index. Qed.
Lemma sim_index_delete_one o name k :
  sim o o 1 (on_indexes (im_Delete fuel name k)) (a_index size desc (ICall name (TDelete k))) (fun _ => True).
Proof. by apply sim_index. Qed.

Abbreviation nix := (zlen (indexes desc)).

Lemma sim_register_indexes o create :
  sim o o nix (for_indexes (fun ix => kt ← lift (index_key_type desc ix); on_indexes (RegisterIndex ix kt create)) (indexes desc))
    (a_open_indexes size desc create) (fun _ => True).
Proof.
  rewrite <- (Z.mul_1_l nix). apply sim_for; [lia|]. intros ix Hix. change 1 with (0 + 1).
  eapply sim_bind; [lia|lia|apply sim_lift|]. intros kt _. by apply sim_register.
Qed.

Lemma sim_open_indexes o : sim o o nix (OpenTableIndexes desc) (a_open_indexes size desc false) (fun _ => True).
Proof. apply sim_register_indexes. Qed.

Lemma ExtractIndexKey_ok ix tup k : ExtractIndexKey desc ix tup = Ok k -> tuple_ok tup -> value_ok k.
Proof.
  unfold ExtractIndexKey. intros H [_ Hok]. apply result_bind_Ok in H as (_ & _ & H).
  destruct (znth tup _) as [v|] eqn:Ev; [|done]. injection H as ->. unfold znth in Ev. case_match; [done|].
  by eapply Forall_lookup_1 in Ev.
Qed.

Lemma sim_index_insert o tup rid :
  tuple_ok tup -> in_u64 rid ->
  sim o o nix (InsertIntoIndexes fuel desc tup rid) (a_index_insert size desc tup rid) (fun _ => True).
Proof.
  intros Ht Hr. rewrite <- (Z.mul_1_l nix). apply sim_for; [lia|]. intros ix Hix. change 1 with (0 + 1).
  eapply sim_bind; [lia|lia|apply sim_lift|]. intros k Hk%ExtractIndexKey_ok; [|done].
  destruct (is_null k); [eapply sim_cost; [|by apply sim_ret]; lia|by apply sim_index_insert_one].
Qed.
Lemma sim_index_delete o tup :
  sim o o nix (DeleteFromIndexes fuel desc tup) (a_index_delete size desc tup) (fun _ => True).
Proof.
  rewrite <- (Z.mul_1_l nix). apply sim_for; [lia|]. intros ix Hix. change 1 with (0 + 1).
  eapply sim_bind; [lia|lia|apply sim_lift|]. intros k Hk.
  destruct (is_null k); [eapply sim_cost; [|by apply sim_ret]; lia|by apply sim_index_delete_one].
Qed.
Lemma sim_index_update o old new rid :
  tuple_ok new -> in_u64 rid ->
  sim o o (2 * nix) (UpdateIndexes fuel desc old new rid) (a_index_update size desc old new rid) (fun _ => True).
Proof.
  intros Ht Hr. apply sim_for; [lia|]. intros ix Hix. change 2 with (0 + (0 + (1 + 1))).
  eapply sim_bind; [lia|lia|apply sim_lift|]. intros k1 Hk1.
  eapply sim_bind; [lia|lia|apply sim_lift|]. intros k2 Hk2%ExtractIndexKey_ok; [|done].
  assert (forall n (m : M (Engine P * disk) unit) a, n <= 2 -> sim o o n m a (fun _ => True) -> sim o o (1 + 1) m a (fun _ => True))
    as Hle by (intros; eapply sim_cost; [|done]; lia).
  destruct (is_null k1), (is_null k2), (value_eqb k1 k2); cbn [andb negb];
    try (eapply (Hle 0); [lia|by apply sim_ret]); try (eapply (Hle 1); [lia|by apply sim_index_insert_one]);
    try (eapply (Hle 1); [lia|by apply sim_index_delete_one]).
  eapply sim_bind; [lia|lia|by apply sim_index_delete_one|]. intros _ _. by apply sim_index_insert_one.
Qed.

(** ** Rows *)

Lemma checked_next i t :
  (match i with OpRestore i _ => i < t_next t | _ => True end) ->
  t_next t <= t_next (checked_op desc size i t).2 <= t_next t + 1.
Proof.
  intros Hi. destruct i as [tup|i|i tup|i|i tup|]; cbn [checked_op]; try (destruct (PrepareTupleForWrite desc tup));
    cbn [spec_op snd]; try lia.
  - unfold t_insert. destruct (entry_fits _ _); cbn; lia.
  - unfold t_update. destruct (t_rows t !! i) as [[? []]|]; cbn; try lia. destruct (entry_fits _ _); cbn; lia.
  - unfold t_delete. destruct (t_rows t !! i) as [[? []]|]; cbn; lia.
  - cbn. lia.
Qed.

(** A call on the open table. *)
Lemma table_step ol u s e d i :
  0 <= u -> u + 1 <= budget -> rep true ol low u s e d -> call_ok desc size i ->
  (match i with OpRestore i _ => i < low | OpReopen => False | _ => True end) ->
  exists ts ts' d', opened_tables_ e !! key = Some (mkOpenTableState desc ts) /\ ts_table ts d (n_rows s) /\
    rs_page_size_ (row_store_ ts) = size /\
    ts_op i (ts, d) = ((checked_op desc size i (n_rows s)).1, (ts', d')) /\
    rep true ol low (u + 1) (with_rows (checked_op desc size i (n_rows s)).2 s)
      (set_tables <[key := mkOpenTableState desc ts']> e) d'.
Proof.
  intros Hu Hb Hr Hok Hi. pose proof (nr_next _ _ _ _ _ _ _ _ _ _ Hr) as Hn.
  destruct (nr_table _ _ _ _ _ _ _ _ _ _ Hr) as [(ts & Hts & Hd & Hps & Hpc & Hrc & [Hop|[_ ?]])|(_ & _ & _ & ?)]; [|done..].
  destruct (ts_op_refines i ts d (n_rows s) Hts) as (ts' & d' & E & Hts' & (Hp' & Hps' & Hpc') & Hd' & Hse);
    rewrite ?Hd, ?Hps; try done; [by eapply table_room|lia|].
  rewrite Hd, Hps in E, Hts'. pose proof Hts as [_ _ [Hp _] _]. rewrite <- Hp, Hd in Hse.
  assert (match i with OpRestore i _ => i < t_next (n_rows s) | _ => True end) as Hi' by (destruct i; [done..|lia|done]).
  pose proof (checked_next i (n_rows s) Hi') as Hn'. destruct (checked_op_grows desc size i (n_rows s) Hok Hschema) as [Hg _].
  exists ts, ts', d'. split_and!; try done.
  eapply (node_rep_table root size desc Hfiles true ol low u (u + 1)); try done; try lia.
  left. exists ts'. split_and!; try done; try congruence; try lia. left. apply lookup_insert_eq.
Qed.

(** The calls on the table that return a status, and the abstract ones. *)
Lemma on_table_step {X} ol i (m : M (TableStorage P * disk) X) (f : table -> result X * table) (out : result X -> outcome)
    u s e d :
  (forall r r', out r = out r' -> r = r') -> call_ok desc size i ->
  (match i with OpRestore i _ => i < low | OpReopen => False | _ => True end) ->
  (forall s, ts_op i s = let '(r, s') := m s in (out r, s')) ->
  (forall t, checked_op desc size i t = (out (f t).1, (f t).2)) ->
  0 <= u -> u + 1 <= budget -> rep true ol low u s e d ->
  exists e' d', on_table key m (e, d) = ((a_table f s).1, (e', d')) /\ rep true ol low (u + 1) (a_table f s).2 e' d'.
Proof.
  intros Hinj Hok Hi Hm Hf Hu Hb Hr.
  destruct (table_step _ _ _ _ _ _ Hu Hb Hr Hok Hi) as (ts & ts' & d' & Hop & _ & _ & E & Hr').
  unfold on_table, a_table. cbn [fst snd]. rewrite Hop. cbn [ot_storage ot_descriptor].
  rewrite Hm, Hf in E. rewrite Hf in Hr'. destruct (m (ts, d)) as [r s']. injection E as Er ->. apply Hinj in Er. subst r.
  destruct (f (n_rows s)) as [r t']. cbn [fst snd] in *. by eexists _, d'.
Qed.

Lemma sim_table {X} ol i (m : M (TableStorage P * disk) X) (f : table -> result X * table) (out : result X -> outcome) :
  (forall r r', out r = out r' -> r = r') -> call_ok desc size i ->
  (match i with OpRestore i _ => i < low | OpReopen => False | _ => True end) ->
  (forall s, ts_op i s = let '(r, s') := m s in (out r, s')) ->
  (forall t, checked_op desc size i t = (out (f t).1, (f t).2)) ->
  sim (true, ol) (true, ol) 1 (on_table key m) (a_table f) (fun _ => True).
Proof.
  intros Hinj Hok Hi Hm Hf u s e d Hu Hb Hr.
  destruct (on_table_step ol i m f out u s e d) as (e' & d' & E & Hr'); try done.
  eexists _, e', d'. split; [done|]. destruct (a_table f s) as [[x|c msg] s']; cbn [fst snd] in *; split_and!; try done.
  by eapply rep_weaken.
Qed.

Definition row_good (i : Z) (row : Row) : Prop :=
  in_u64 i /\ tuple_ok (tuple row) /\ zlen (SerializeTuple (tuple row) []) < 2 ^ 28.

Lemma sim_get ol i : sim (true, ol) (true, ol) 1 (on_table key (ts_Get i)) (a_get i) (row_good i).
Proof.
  intros u s e d Hu Hb Hr.
  destruct (sim_table ol (OpGet i) (ts_Get i) (fun t => (t_get i t, t)) OutRow ltac:(by intros ? ? [= ->]) I I
    ltac:(done) ltac:(done) u s e d Hu Hb Hr) as (r & e' & d' & E & Hst & H).
  exists r, e', d'. split_and!; try done. destruct r as [row|]; [|done]. destruct H as [_ H]. split; [|done].
  unfold a_get, a_table in Hst. cbn [fst snd] in Hst. destruct (t_get i (n_rows s)) as [row'|] eqn:Eg; [|done].
  cbn in Hst. subst row'. unfold t_get in Eg. destruct (t_rows (n_rows s) !! i) as [[tup []]|] eqn:Ei; [done| |done].
  injection Eg as <-. destruct (table_step ol u s e d (OpGet i)) as (ts & _ & _ & _ & [_ Hrs _ _] & Hps & _); try done.
  destruct (rs_table_row _ _ _ _ _ _ Hrs Ei) as (? & ? & Hfit & _). split_and!; try done. cbn [tuple].
  unfold entry_fits in Hfit. rewrite Hps in Hfit. zbool. rewrite zlen_SerializeRowEntry in Hfit.
  unfold SerializeRow in Hfit. cbv zeta in Hfit. cbn [tuple rid deleted] in Hfit. change page_header_size with 20 in Hfit.
  rewrite zlen_app in Hfit. pose proof (zlen_nonneg (WriteUint64 (WriteBool (WriteUint64 [] i) false) (zlen (SerializeTuple tup [])))).
  lia.
Qed.

Lemma sim_insert_row ol tup :
  Forall value_ok tup ->
  sim (true, ol) (true, ol) 1 (on_table key (ts_Insert tup)) (a_table (checked desc tup (t_insert size))) (fun _ => True).
Proof.
  intros Hok. apply (sim_table ol (OpInsert tup) _ _ OutId); try done; [by intros ? ? [= ->]|]. intros t. unfold checked. cbn.
  destruct (PrepareTupleForWrite desc tup); [|done]. by destruct (t_insert _ _ _).
Qed.
Lemma sim_update_row ol i tup :
  Forall value_ok tup ->
  sim (true, ol) (true, ol) 1 (on_table key (ts_Update i tup)) (a_table (checked desc tup (t_update size i))) (fun _ => True).
Proof.
  intros Hok. apply (sim_table ol (OpUpdate i tup) _ _ OutUnit); try done; [by intros ? ? [= ->]|]. intros t. unfold checked. cbn.
  destruct (PrepareTupleForWrite desc tup); [|done]. by destruct (t_update _ _ _ _).
Qed.
Lemma sim_delete_row ol i :
  sim (true, ol) (true, ol) 1 (on_table key (ts_Delete i)) (a_table (t_delete i)) (fun _ => True).
Proof.
  apply (sim_table ol (OpDelete i) _ _ OutUnit); try done; [by intros ? ? [= ->]|]. intros t. cbn. by destruct (t_delete _ _).
Qed.
Lemma sim_restore_row ol i tup :
  Forall value_ok tup -> 0 <= i < 2 ^ 63 -> i < low ->
  (forall tup', PrepareTupleForWrite desc tup = Ok tup' -> entry_fits size (mkRow i tup' false) = true) ->
  sim (true, ol) (true, ol) 1 (on_table key (ts_Restore i tup))
    (a_table (checked desc tup (fun tup' t => (Ok tt, t_restore i tup' t)))) (fun _ => True).
Proof.
  intros Hok Hi Hl Hfit. apply (sim_table ol (OpRestore i tup) _ _ OutUnit); try done; [by intros ? ? [= ->]|].
  intros t. unfold checked. cbn. by destruct (PrepareTupleForWrite desc tup).
Qed.

Lemma sim_status_get ol i :
  sim (true, ol) (true, ol) 1 (status_of (on_table key (ts_Get i))) (status_of (a_get i)) (fun _ => True).
Proof.
  intros u s e d Hu Hb Hr.
  destruct (on_table_step ol (OpGet i) (ts_Get i) (fun t => (t_get i t, t)) OutRow u s e d) as (e' & d' & E & Hr'); try done.
  { by intros ? ? [= ->]. }
  unfold status_of. rewrite E. unfold a_get. destruct (a_table _ s) as [r s']. by eexists _, e', d'.
Qed.

(** ** The log *)

Lemma OpenVersionLog_rep ot ol u s e d :
  rep ot ol low u s e d ->
  exists e' d', OpenVersionLog db tbl (e, d) = (Ok tt, (e', d')) /\ rep ot true low u s e' d'.
Proof.
  intros Hr. pose proof (nr_dir _ _ _ _ _ _ _ _ _ _ Hr) as Hdir. unfold OpenVersionLog. rewrite M_bind_eq.
  unfold this at 1. cbn [fst snd]. cbv zeta. change (MakeVersionLogCacheKey db tbl) with key.
  destruct s as [b t m l].
  destruct (nr_log _ _ _ _ _ _ _ _ _ _ Hr) as [(log & Hl & Hp & [Hop|[Hop _]])|(El & Hf & Hop & _)]; rewrite Hop.
  - exists e, d. split; [done|]. destruct Hr. split; try done. left. exists log. split_and!; auto.
  - rewrite M_bind_eq, (LoadTableDescriptor_rep _ _ _ _ _ _ Hr), M_bind_eq. unfold opened at 1. cbn [fst snd].
    rewrite Hdir, <- Hp, (vl_Open_existing _ _ _ Hl). eexists _, d. split; [reflexivity|].
    apply (node_rep_log root size desc Hfiles ot ol low u (mkNode b t m l) e d); try done.
    left. exists log. split_and!; try done. left. apply lookup_insert_eq.
  - rewrite M_bind_eq, (LoadTableDescriptor_rep _ _ _ _ _ _ Hr), M_bind_eq. unfold opened at 1. cbn [fst snd].
    destruct (vl_Open_fresh vlog d (vl_fresh_free _ _ Hf)) as (d' & E & Hl & Hse). rewrite Hdir, E.
    eexists _, d'. split; [reflexivity|]. cbn [n_log] in El. subst l.
    apply (node_rep_log root size desc Hfiles ot ol low u (mkNode b t m []) e d); try done.
    left. eexists. split_and!; [done|done|]. left. apply lookup_insert_eq.
Qed.

Lemma sim_append o r :
  entry_ok r -> sim o (o.1, true) 0 (append_version db tbl r) (a_append r) (fun _ => True).
Proof.
  intros Hok u s e d Hu Hb Hr. unfold append_version. rewrite M_bind_eq.
  destruct (OpenVersionLog_rep _ _ _ _ _ _ Hr) as (e1 & d1 & -> & Hr1). change (MakeVersionLogCacheKey db tbl) with key.
  destruct (nr_log _ _ _ _ _ _ _ _ _ _ Hr1) as [(log & Hl & Hp & [Hop|[_ ?]])|(_ & _ & _ & ?)]; [|done..].
  destruct (Append_ok _ _ _ _ Hl Hok) as (d2 & E & Hl2 & Hse). rewrite Hp in Hse.
  rewrite M_bind_eq. unfold on_log at 1. cbn [fst snd]. rewrite Hop, E.
  unfold on_log. cbn [fst snd opened_version_logs_ set_logs]. rewrite lookup_insert_eq.
  unfold vl_Flush, vl_require_open. dunfold. rewrite (vr_open _ _ _ Hl2). cbn [negb].
  rewrite io_check_healthy by apply (vr_healthy _ _ _ Hl2). eexists _, _, d2. split_and!; try done. rewrite Z.add_0_r.
  split; [done|].
  apply (node_rep_log root size desc Hfiles o.1 true low u s e1 d1 true (n_log s ++ [r])
    (fun m => <[key := log]> (<[key := log]> m)) d2 Hr1 Hse).
  left. exists log. split_and!; [done|done|]. left. apply lookup_insert_eq.
Qed.

(** ** The operations *)

Lemma sim_then {X Y} o o1 o2 n N (m : M (Engine P * disk) X) a Q (f : X -> M (Engine P * disk) Y) g R :
  sim o o1 n m a Q -> 0 <= n <= N -> (forall x, Q x -> sim o1 o2 (N - n) (f x) (g x) R) ->
  sim o o2 N (m ≫= f) (a ≫= g) R.
Proof. intros Hm Hn Hf. replace N with (n + (N - n)) by lia. eapply sim_bind; [lia|lia|exact Hm|exact Hf]. Qed.
Lemma sim_close {X} o o' n (m : M (Engine P * disk) X) a Q : sim o o' n m a Q -> sim o (false, false) n m a Q.
Proof.
  intros Hm u s e d Hu Hb Hr. destruct (Hm u s e d Hu Hb Hr) as (r & e' & d' & E & Hst & H).
  exists r, e', d'. split_and!; try done. destruct r; [|done]. destruct H. split; [done|]. by eapply rep_weaken.
Qed.

Lemma entry_ok_good now i o old new :
  in_i64 now -> in_u64 i -> IsValidVersionOp o = true -> tuple_ok old -> tuple_ok new ->
  zlen (SerializeTuple old []) < 2 ^ 28 -> zlen (SerializeTuple new []) < 2 ^ 28 ->
  entry_ok (mkVersionRecord now tbl i o old new).
Proof.
  intros Hnow Hi Ho Hold Hnew Hlo Hln. destruct Hstored as (Hv & _ & _ & _ & _ & Ht & _).
  split; [|split].
  - split_and!; assumption.
  - cbn [vr_table_name]. intros E. rewrite E in Hv. discriminate Hv.
  - rewrite SerializeRecord_eq. cbn [timestamp_ms vr_table_name vr_rid vr_op before after].
    rewrite !zlen_app. unfold WriteString, WriteBytes. rewrite zlen_app.
    change (zlen (WriteInt64 [] now)) with 8. change (zlen (WriteUint64 [] i)) with 8.
    change (zlen (WriteUint32 [] (u32 (VersionOp_raw o)))) with 4.
    change (zlen (WriteUint32 [] (u32 (zlen (bytes_of_string tbl))))) with 4. lia.
Qed.

Definition version_ok (version : option Z) : Prop := match version with Some now => in_i64 now | None => True end.

Lemma sim_version o version i op old new :
  version_ok version -> in_u64 i -> IsValidVersionOp op = true -> tuple_ok old -> tuple_ok new ->
  zlen (SerializeTuple old []) < 2 ^ 28 -> zlen (SerializeTuple new []) < 2 ^ 28 ->
  sim o (false, false) 0
    (match version with
     | None => mret tt
     | Some now => append_version db tbl (mkVersionRecord now tbl i op old new)
     end) (a_version desc version i op old new) (fun _ => True).
Proof.
  intros Hv Hi Ho Hold Hnew Hlo Hln. destruct version as [now|]; cbn [a_version]; eapply sim_close.
  - apply sim_append. apply entry_ok_good; assumption.
  - by apply sim_ret.
Qed.
Lemma empty_tuple_good : tuple_ok [] /\ zlen (SerializeTuple [] []) < 2 ^ 28.
Proof. split; [split; [by vm_compute|constructor]|by vm_compute]. Qed.

(** What one operation on a row may cost. *)
Definition row_cost : Z := 4 + 3 * nix.
Lemma sim_open {Y} o N (f : TableDescriptor -> M (Engine P * disk) Y) g R :
  1 <= N -> sim (true, o.2) (false, false) (N - 1) (f desc) g R ->
  sim o (false, false) N (OpenTable db tbl ≫= f) g R.
Proof.
  intros HN Hf. change (sim o (false, false) N (OpenTable db tbl ≫= f) ((mret desc : M node TableDescriptor) ≫= fun _ => g) R).
  eapply sim_then; [apply sim_OpenTable|lia|]. by intros _ ->.
Qed.
Ltac cost := unfold row_cost in *; pose proof (zlen_nonneg (indexes desc)); lia.
Ltac step H := eapply sim_then; [eapply H|cost|].
Ltac last H := eapply sim_cost; [|eapply H]; try cost.

Lemma sim_insert o tup version :
  Forall value_ok tup -> version_ok version ->
  sim o (false, false) row_cost (InsertInternal fuel db tbl tup version) (a_insert size desc tup version) (fun _ => True).
Proof.
  intros Hok Hv. unfold InsertInternal, a_insert. cbv zeta. step @sim_started. intros _ _.
  apply sim_open; [cost|]. step @sim_open_indexes. intros _ _.
  eapply sim_then; [apply sim_insert_row; assumption|cost|]. intros i _. step @sim_get. intros row (Hi & Ht & Hl).
  eapply sim_then; [apply sim_index_insert; assumption|cost|]. intros _ _.
  destruct empty_tuple_good. eapply sim_then; [apply sim_version; first [assumption|reflexivity]|cost|]. intros _ _. last @sim_ret.
Qed.

Lemma sim_update o i tup version :
  Forall value_ok tup -> version_ok version ->
  sim o (false, false) row_cost (UpdateInternal fuel db tbl i tup version) (a_update size desc i tup version) (fun _ => True).
Proof.
  intros Hok Hv. unfold UpdateInternal, a_update. cbv zeta. step @sim_started. intros _ _.
  apply sim_open; [cost|]. step @sim_open_indexes. intros _ _. step @sim_get. intros old (Hi & Ht & Hl).
  eapply sim_then; [apply sim_update_row; assumption|cost|]. intros _ _. step @sim_get. intros new (_ & Ht' & Hl').
  eapply sim_then; [apply sim_index_update; assumption|cost|]. intros _ _. eapply sim_cost; [|apply sim_version; first [assumption|reflexivity]]. cost.
Qed.

Lemma sim_delete o i version :
  version_ok version ->
  sim o (false, false) row_cost (DeleteInternal fuel db tbl i version) (a_delete size desc i version) (fun _ => True).
Proof.
  intros Hv. unfold DeleteInternal, a_delete. cbv zeta. step @sim_started. intros _ _.
  apply sim_open; [cost|]. step @sim_open_indexes. intros _ _. step @sim_get. intros old (Hi & Ht & Hl).
  step @sim_index_delete. intros _ _. step @sim_delete_row. intros _ _. destruct empty_tuple_good.
  eapply sim_cost; [|apply sim_version; first [assumption|reflexivity]]. cost.
Qed.

Lemma sim_restore o i tup version :
  Forall value_ok tup -> 0 <= i < 2 ^ 63 -> i < low ->
  (forall tup', PrepareTupleForWrite desc tup = Ok tup' -> entry_fits size (mkRow i tup' false) = true) ->
  version_ok version ->
  sim o (false, false) row_cost (RestoreInternal fuel db tbl i tup version) (a_restore size desc i tup version) (fun _ => True).
Proof.
  intros Hok Hr Hlow Hfit Hv. unfold RestoreInternal, a_restore. cbv zeta. step @sim_started. intros _ _.
  apply sim_open; [cost|]. step @sim_open_indexes. intros _ _. step @sim_status_get. intros existing _.
  eapply (sim_then _ (true, o.2) _ 0 _ _ _ (fun _ => True)); [|cost|intros _ _].
  { destruct existing as [row|c msg]; [apply sim_throw|]. destruct (bool_decide (c = kNotFound)); cbn [negb reject_if];
      [by apply sim_ret|apply sim_throw]. }
  eapply sim_then; [apply sim_restore_row; assumption|cost|]. intros _ _. step @sim_get. intros row (Hi & Ht & Hl).
  eapply sim_then; [apply sim_index_insert; assumption|cost|]. intros _ _.
  destruct empty_tuple_good. eapply sim_cost; [|apply sim_version; first [assumption|reflexivity]]. cost.
Qed.

(** ** Revert *)

(** The records whose inverse can be applied. *)
Definition inverse_ok (r : VersionRecord) : Prop :=
  match vr_op r with
  | voDelete => Forall value_ok (before r) /\ 0 <= vr_rid r < 2 ^ 63 /\ vr_rid r < low /\
      (forall tup', PrepareTupleForWrite desc (before r) = Ok tup' -> entry_fits size (mkRow (vr_rid r) tup' false) = true)
  | voUpdate => Forall value_ok (before r)
  | _ => True
  end.

Lemma sim_inverses o rs :
  Forall inverse_ok rs ->
  sim o (false, false) (row_cost * zlen rs) (ApplyInverses fuel db tbl rs) (a_inverses size desc rs) (fun _ => True).
Proof.
  revert o. induction rs as [|r rs IH]; intros o Hok; cbn [ApplyInverses a_inverses].
  { change (zlen []) with 0. rewrite Z.mul_0_r. eapply sim_close. by apply sim_ret. }
  apply Forall_cons in Hok as [Hr Hok]. rewrite zlen_cons, Z.mul_add_distr_l, Z.mul_1_r. pose proof (zlen_nonneg rs).
  assert (0 <= row_cost) by cost.
  eapply sim_bind with (Q := fun _ => True); [done|nia| |intros _ _; by apply IH].
  unfold ApplyInverseRecord, a_inverse, inverse_ok in *. destruct (vr_op r).
  - by apply sim_delete.
  - by apply sim_update.
  - destruct Hr as (? & ? & ? & ?). apply sim_restore; try assumption. done.
  - eapply sim_cost; [|apply sim_throw]. done.
Qed.

Lemma LoadRecords_rep ot ol u s e d :
  0 <= u -> u + 1 <= budget -> rep ot ol low u s e d ->
  exists e' d', LoadRecords db tbl (e, d) = (Ok (n_log s), (e', d')) /\ rep true true low (u + 1) s e' d'.
Proof.
  intros Hu Hb Hr. unfold LoadRecords. rewrite M_bind_eq.
  destruct (sim_OpenTable (ot, ol) u s e d Hu Hb Hr) as (r & e1 & d1 & E1 & Hst & H1).
  cbn [fst snd mret M_ret] in *. destruct r as [x|]; [|done]. destruct H1 as [-> Hr1]. rewrite E1, M_bind_eq.
  destruct (OpenVersionLog_rep _ _ _ _ _ _ Hr1) as (e2 & d2 & -> & Hr2). change (MakeVersionLogCacheKey db tbl) with key.
  destruct (nr_log _ _ _ _ _ _ _ _ _ _ Hr2) as [(log & Hl & Hp & [Hop|[_ ?]])|(_ & _ & _ & ?)]; [|done..].
  unfold on_log. cbn [fst snd]. rewrite Hop, (ReadAll_ok _ _ _ Hl). eexists _, d2. split; [reflexivity|].
  destruct s as [b t m l]. apply (node_rep_log root size desc Hfiles true true low (u + 1) (mkNode b t m l) e2 d2 true l); try done.
  left. exists log. split_and!; [done|done|]. left. apply lookup_insert_eq.
Qed.

Lemma sim_revert ot ol u s e d ts :
  0 <= u -> rep ot ol low u s e d -> Forall inverse_ok (n_log s) -> u + 1 + row_cost * zlen (n_log s) <= budget ->
  exists r e' d', RevertTableToTimestamp fuel db tbl ts (e, d) = (r, (e', d')) /\
    same_status r (a_revert size desc ts s).1 /\
    rep false false low (u + 1 + row_cost * zlen (n_log s)) (a_revert size desc ts s).2 e' d'.
Proof.
  intros Hu Hr Hok Hb. unfold RevertTableToTimestamp, a_revert. rewrite !M_bind_eq. unfold get at 1 2. cbn [fst snd].
  assert (0 <= row_cost) by cost. pose proof (zlen_nonneg (n_log s)).
  destruct (LoadRecords_rep _ _ _ _ _ _ Hu ltac:(nia) Hr) as (e1 & d1 & -> & Hr1).
  set (rs := rev (CollectRollbackRecords tbl (n_log s) ts)).
  assert (zlen rs <= zlen (n_log s)) as Hlen.
  { unfold rs, zlen, CollectRollbackRecords. rewrite length_rev. pose proof (length_filter (fun record =>
      vr_table_name record = tbl /\ ts < timestamp_ms record) (n_log s)). lia. }
  destruct (sim_inverses (true, true) rs) with (u := u + 1) (s := s) (e := e1) (d := d1)
    as (r & e2 & d2 & E & Hst & H2); [|lia|nia|done|].
  { apply Forall_forall. intros r Hr'. unfold rs in Hr'. apply list_elem_of_In, in_rev, list_elem_of_In in Hr'.
    apply list_elem_of_filter in Hr' as [_ Hin]. by eapply Forall_forall in Hok. }
  exists r, e2, d2. split_and!; [exact E|exact Hst|]. assert (rep false false low (u + 1 + row_cost * zlen rs) (a_inverses size desc rs s).2 e2 d2) as H3
    by by destruct r; [apply H2|]. eapply node_rep_more; [exact H3|nia].
Qed.
End sim.
