(* ===== verification/EngineTable.v ===== *)
(** * What the abstract node keeps

    The invariant of the abstract node of [EngineSpec.v] that every operation
    preserves, failing ones included: stored rows conform to the schema and fit
    a page, and the rows the log remembers can be written again. *)

From S2P Require Import Prelude BinaryIO Values Serialization Disk RowStore RowTable TableStorage VersionLog KeyEncoder.
From S2P Require Import BStarTree BStarTreeSearch BStarTreeSpec IndexManager Engine EngineSpec.

Lemma Prepare_conforming desc tup :
  schema desc <> [] -> conforms (schema desc) tup -> PrepareTupleForWrite desc tup = Ok tup.
Proof.
  intros Hne Hc. pose proof (Forall2_length _ _ _ Hc) as Hl. apply PrepareTupleForWrite_Ok. split_and!; try done.
  - unfold zlen. lia.
  - unfold prepared. rewrite <- Hl, drop_all. symmetry. apply app_nil_r.
Qed.

Section inv.
Context (size : Z) (desc : TableDescriptor) (Hschema : schema_fits (schema desc)).

(** A row that can be written under the id [i]. *)
Definition row_inv (next i : Z) (tup : Tuple) : Prop :=
  0 <= i < next /\ conforms (schema desc) tup /\ Forall value_ok tup /\ entry_fits size (mkRow i tup false) = true.
Definition rows_inv (t : table) : Prop :=
  0 <= t_next t /\ forall i tup b, t_rows t !! i = Some (tup, b) -> row_inv (t_next t) i tup.
Definition rec_inv (next : Z) (r : VersionRecord) : Prop :=
  match vr_op r with
  | voDelete | voUpdate => row_inv next (vr_rid r) (before r)
  | _ => True
  end.
Definition node_inv (s : node) : Prop :=
  rows_inv (n_rows s) /\ Forall (rec_inv (t_next (n_rows s))) (n_log s).

(** Rows that can be written in the state [s]. *)
Definition bounded (l : list (Z * Tuple)) (s : node) : Prop :=
  Forall (fun x => row_inv (t_next (n_rows s)) x.1 x.2) l.

(** The program keeps the invariant, and what is known of the rows [l]; its
    result makes the rows [g] known. *)
Definition know {X} (l : list (Z * Tuple)) (m : M node X) (g : X -> list (Z * Tuple)) : Prop :=
  forall s, node_inv s -> bounded l s ->
  node_inv (m s).2 /\ forall x, (m s).1 = Ok x -> bounded (g x ++ l) (m s).2.

Lemma row_inv_mono next next' i tup : row_inv next i tup -> next <= next' -> row_inv next' i tup.
Proof. intros (? & ? & ? & ?) ?. split_and!; try done; lia. Qed.

Lemma know_bind {X Y} l (m : M node X) g (f : X -> M node Y) h :
  know l m g -> (forall x, know (g x ++ l) (f x) h) -> know l (m ≫= f) (fun _ => []).
Proof.
  intros Hm Hf s Hs Hl. rewrite M_bind_eq. destruct (Hm s Hs Hl) as [H1 H2].
  destruct (m s) as [[x|c msg] s1]; cbn [fst snd] in *; [|split; [done|done]].
  destruct (Hf x s1 H1 (H2 x eq_refl)) as [H3 H4]. split; [done|]. intros y Hy. specialize (H4 y Hy).
  apply Forall_app in H4 as [_ H4]. by apply Forall_app in H4 as [_ H4].
Qed.
Lemma know_drop {X} l (m : M node X) g : know l m g -> know l m (fun _ => []).
Proof.
  intros Hm s Hs Hl. destruct (Hm s Hs Hl) as [H1 H2]. split; [done|]. intros x Hx.
  by apply H2, Forall_app in Hx as [_ ?].
Qed.

(** A step that leaves rows and log alone. *)
Lemma know_same {X} l (m : M node X) :
  (forall s, n_rows (m s).2 = n_rows s /\ n_log (m s).2 = n_log s) -> know l m (fun _ => []).
Proof.
  intros Hm s Hs Hl. destruct (Hm s) as [Er El]. unfold node_inv, bounded. by rewrite Er, El.
Qed.
Lemma a_index_same o s : n_rows (a_index size desc o s).2 = n_rows s /\ n_log (a_index size desc o s).2 = n_log s.
Proof. unfold a_index. by destruct (ix_step _ _ _ _ _). Qed.
Lemma bind_same {X Y} (m : M node X) (f : X -> M node Y) s :
  (n_rows (m s).2 = n_rows s /\ n_log (m s).2 = n_log s) ->
  (forall x s, n_rows (f x s).2 = n_rows s /\ n_log (f x s).2 = n_log s) ->
  n_rows ((m ≫= f) s).2 = n_rows s /\ n_log ((m ≫= f) s).2 = n_log s.
Proof.
  intros [Hr Hl] Hf. rewrite M_bind_eq. destruct (m s) as [[x|] s1]; cbn [fst snd] in *; [|done].
  destruct (Hf x s1). split; congruence.
Qed.
Lemma a_for_same body ixs s :
  (forall ix s, n_rows (body ix s).2 = n_rows s /\ n_log (body ix s).2 = n_log s) ->
  n_rows (a_for body ixs s).2 = n_rows s /\ n_log (a_for body ixs s).2 = n_log s.
Proof.
  intros Hb. revert s. induction ixs as [|ix ixs IH]; intros s; cbn [a_for]; [done|].
  apply bind_same; [apply Hb|]. intros _. apply IH.
Qed.

Lemma know_get l i : know l (a_get i) (fun row => [(i, tuple row)]).
Proof.
  intros s Hs Hl. split; [by destruct s|]. intros row Hrow. cbn in Hrow. unfold t_get in Hrow.
  destruct (t_rows (n_rows s) !! i) as [[tup []]|] eqn:Ei; [done| |done]. injection Hrow as <-.
  apply Forall_app. split; [|by destruct s]. constructor; [|done]. cbn. destruct Hs as [[_ Hrows] _].
  by destruct (Hrows i tup false Ei).
Qed.

(** A write keeps what is known as long as the ids do not go back. *)
Lemma know_table {X} l (f : table -> result X * table) :
  (forall s, node_inv s -> bounded l s -> rows_inv (f (n_rows s)).2 /\ t_next (n_rows s) <= t_next (f (n_rows s)).2) ->
  know l (a_table f) (fun _ => []).
Proof.
  intros Hf s Hs Hl. destruct (Hf s Hs Hl) as [H1 H2]. unfold a_table, bounded in *. destruct (f (n_rows s)) as [r t].
  cbn [fst snd] in *. destruct Hs as [_ Hlog]. split; [split; [done|]|intros _ _]; cbn [n_rows n_log with_rows].
  - eapply Forall_impl; [exact Hlog|]. intros rec. unfold rec_inv. destruct (vr_op rec); intros; try done; by eapply row_inv_mono.
  - eapply Forall_impl; [exact Hl|]. intros x Hx. exact (row_inv_mono _ _ _ _ Hx H2).
Qed.

Lemma rows_inv_set t i tup b next :
  rows_inv t -> t_next t <= next -> row_inv next i tup -> rows_inv (mkTable (<[i := (tup, b)]> (t_rows t)) next).
Proof.
  intros [H0 Hrows] Hn Hrow. split; cbn [t_next t_rows]; [lia|]. intros j tup' b' Hj.
  apply lookup_insert_Some in Hj as [[<- [= <- <-]]|[_ Hj]]; [done|]. eapply row_inv_mono; [by eapply Hrows|done].
Qed.

Lemma Prepare_row tup tup' :
  Forall value_ok tup -> PrepareTupleForWrite desc tup = Ok tup' -> conforms (schema desc) tup' /\ Forall value_ok tup'.
Proof.
  intros Hok E. split; [by apply PrepareTupleForWrite_Ok in E as (_ & _ & _ & ?)|].
  by destruct (prepared_ok _ _ _ Hschema Hok E).
Qed.

Lemma know_insert_row l tup : Forall value_ok tup -> know l (a_table (checked desc tup (t_insert size))) (fun _ => []).
Proof.
  intros Hok. apply know_table. intros s [Hr _] _. unfold checked.
  destruct (PrepareTupleForWrite desc tup) as [tup'|] eqn:E; [|split; [done|cbn; lia]].
  destruct (Prepare_row _ _ Hok E). unfold t_insert. destruct (entry_fits _ _) eqn:Ef; cbn [fst snd t_next]; [|split; [done|lia]].
  split; [|lia]. destruct Hr as [Hz Hrows]. apply rows_inv_set; [done|lia|]. split_and!; try done; lia.
Qed.
Lemma know_update_row l i tup :
  Forall value_ok tup -> know l (a_table (checked desc tup (t_update size i))) (fun _ => []).
Proof.
  intros Hok. apply know_table. intros s [Hr _] _. unfold checked.
  destruct (PrepareTupleForWrite desc tup) as [tup'|] eqn:E; [|split; [done|cbn; lia]].
  destruct (Prepare_row _ _ Hok E). unfold t_update.
  destruct (t_rows (n_rows s) !! i) as [[tup0 []]|] eqn:Ei; cbn [fst snd]; [split; [done|lia]| |split; [done|lia]].
  destruct (entry_fits _ _) eqn:Ef; cbn [fst snd t_next t_set]; [|split; [done|lia]]. split; [|lia].
  apply rows_inv_set; [done|lia|]. destruct Hr as [_ Hrows]. destruct (Hrows i tup0 false Ei) as (? & _). split_and!; done || lia.
Qed.
Lemma know_delete_row l i : know l (a_table (t_delete i)) (fun _ => []).
Proof.
  apply know_table. intros s [Hr _] _. unfold t_delete.
  destruct (t_rows (n_rows s) !! i) as [[tup0 []]|] eqn:Ei; cbn [fst snd t_next t_set]; try (split; [done|lia]).
  split; [|lia]. apply rows_inv_set; [done|lia|]. destruct Hr as [_ Hrows]. by eapply Hrows.
Qed.
Lemma know_restore_row l i tup :
  schema desc <> [] -> (i, tup) ∈ l ->
  know l (a_table (checked desc tup (fun tup' t => (Ok tt, t_restore i tup' t)))) (fun _ => []).
Proof.
  intros Hne Hin. apply know_table. intros s [Hr _] Hl. eapply Forall_forall in Hl; [|exact Hin]. cbn [fst snd] in Hl.
  pose proof Hl as (Hi & Hc & _). unfold checked. rewrite (Prepare_conforming _ _ Hne Hc). unfold t_restore. cbn [snd t_next].
  rewrite Z.max_l by lia. split; [|lia]. apply rows_inv_set; [done|lia|done].
Qed.

Lemma know_version l version i o old new :
  (o = voInsert \/ (i, old) ∈ l) -> know l (a_version desc version i o old new) (fun _ => []).
Proof.
  intros Ho. destruct version as [now|]; cbn [a_version]; [|by apply know_same]. intros s [Hr Hlog] Hl. split; [|by intros _ _].
  split; [done|]. cbn. apply Forall_app. split; [done|]. constructor; [|done]. unfold rec_inv. cbn [vr_op vr_rid before].
  destruct Ho as [->|Hin]; [done|]. eapply Forall_forall in Hl; [|exact Hin]. by destruct o.
Qed.

(** ** Every operation keeps the invariant *)

Definition same_rows (s s' : node) : Prop := n_rows s' = n_rows s /\ n_log s' = n_log s.

Lemma started_same s : same_rows s (a_started s).2.
Proof. unfold a_started. dunfold. by destruct (n_started s). Qed.
Lemma open_indexes_same create s : same_rows s (a_open_indexes size desc create s).2.
Proof.
  apply a_for_same. intros ix s'. apply bind_same; [by destruct (index_key_type desc ix)|].
  intros kt. apply a_index_same.
Qed.
Lemma index_insert_same tup i s : same_rows s (a_index_insert size desc tup i s).2.
Proof.
  apply a_for_same. intros ix s'. apply bind_same; [by destruct (ExtractIndexKey desc ix tup)|].
  intros k s1. destruct (is_null k); [done|apply a_index_same].
Qed.
Lemma index_delete_same tup s : same_rows s (a_index_delete size desc tup s).2.
Proof.
  apply a_for_same. intros ix s'. apply bind_same; [by destruct (ExtractIndexKey desc ix tup)|].
  intros k s1. destruct (is_null k); [done|apply a_index_same].
Qed.
Lemma index_update_same old new i s : same_rows s (a_index_update size desc old new i s).2.
Proof.
  apply a_for_same. intros ix s'.
  apply bind_same; [by destruct (ExtractIndexKey desc ix old)|]. intros k1 s1.
  apply bind_same; [by destruct (ExtractIndexKey desc ix new)|]. intros k2 s2.
  destruct (is_null k1), (is_null k2), (value_eqb k1 k2); cbn [andb negb]; try done; try apply a_index_same.
  apply bind_same; [apply a_index_same|]. intros _. apply a_index_same.
Qed.

Ltac know_step H := eapply know_bind; [eapply H|intros ?].
Lemma know_insert l tup version : Forall value_ok tup -> know l (a_insert size desc tup version) (fun _ => []).
Proof.
  intros Hok. unfold a_insert. eapply know_bind; [apply know_same, started_same|intros ?]. eapply know_bind; [apply know_same, open_indexes_same|intros ?].
  eapply know_bind; [by apply know_insert_row|intros i]. know_step @know_get. eapply know_bind; [apply know_same, index_insert_same|intros ?].
  eapply know_bind; [apply know_version; by left|intros ?]. by apply know_same.
Qed.
Lemma know_update l i tup version : Forall value_ok tup -> know l (a_update size desc i tup version) (fun _ => []).
Proof.
  intros Hok. unfold a_update. eapply know_bind; [apply know_same, started_same|intros ?]. eapply know_bind; [apply know_same, open_indexes_same|intros ?]. know_step @know_get.
  eapply know_bind; [by apply know_update_row|intros ?]. know_step @know_get. eapply know_bind; [apply know_same, index_update_same|intros ?].
  apply know_version. right. set_solver.
Qed.
Lemma know_delete l i version : know l (a_delete size desc i version) (fun _ => []).
Proof.
  unfold a_delete. eapply know_bind; [apply know_same, started_same|intros ?]. eapply know_bind; [apply know_same, open_indexes_same|intros ?]. know_step @know_get.
  eapply know_bind; [apply know_same, index_delete_same|intros ?]. know_step @know_delete_row. apply know_version. right. set_solver.
Qed.
Lemma know_restore l i tup version :
  schema desc <> [] -> (i, tup) ∈ l -> know l (a_restore size desc i tup version) (fun _ => []).
Proof.
  intros Hne Hin. unfold a_restore. eapply know_bind; [apply know_same, started_same|intros ?]. eapply know_bind; [apply know_same, open_indexes_same|intros ?].
  eapply know_bind; [by apply know_same|intros existing].
  eapply know_bind; [apply know_same; intros s; destruct existing; [done|by destruct (negb _)]|intros ?].
  eapply know_bind; [by apply know_restore_row|intros ?]. know_step @know_get. eapply know_bind; [apply know_same, index_insert_same|intros ?].
  apply know_version. by left.
Qed.

Lemma know_inverses rs : forall l,
  schema desc <> [] -> Forall (fun r => match vr_op r with voDelete | voUpdate => (vr_rid r, before r) ∈ l | _ => True end) rs ->
  (forall i tup, (i, tup) ∈ l -> Forall value_ok tup) -> know l (a_inverses size desc rs) (fun _ => []).
Proof.
  induction rs as [|r rs IH]; intros l Hne Hrs Hl; cbn [a_inverses]; [by apply know_same|].
  apply Forall_cons in Hrs as [Hr Hrs]. eapply know_bind; [|intros ?; by apply (IH ([] ++ l))].
  unfold a_inverse. destruct (vr_op r); [apply know_delete|apply know_update; by eapply Hl|by apply know_restore|by apply know_same].
Qed.

(** The rows a list of records can bring back. *)
Definition kept_rows (rs : list VersionRecord) : list (Z * Tuple) :=
  concat (map (fun r => match vr_op r with voDelete | voUpdate => [(vr_rid r, before r)] | _ => [] end) rs).
Lemma elem_of_kept_rows rs i tup :
  (i, tup) ∈ kept_rows rs <-> exists r, r ∈ rs /\ (vr_op r = voDelete \/ vr_op r = voUpdate) /\ i = vr_rid r /\ tup = before r.
Proof.
  unfold kept_rows. rewrite list_elem_of_In, in_concat. split.
  - intros (l & Hl & Hin). apply in_map_iff in Hl as (r & <- & Hr). exists r. apply list_elem_of_In in Hr.
    destruct (vr_op r); cbn in Hin; try done; destruct Hin as [[= <- <-]|[]]; auto.
  - intros (r & Hr & Ho & -> & ->). eexists. split; [apply in_map, list_elem_of_In, Hr|]. destruct Ho as [-> | ->]; by left.
Qed.

Lemma revert_inv ts s :
  schema desc <> [] -> node_inv s -> node_inv (a_revert size desc ts s).2.
Proof.
  intros Hne Hs. unfold a_revert. rewrite M_bind_eq. cbn [get fst snd]. pose proof Hs as [_ Hlog].
  set (rs := rev (CollectRollbackRecords (table_name desc) (n_log s) ts)).
  assert (forall r, r ∈ rs -> r ∈ n_log s) as Hsub.
  { intros r Hr. unfold rs in Hr. apply list_elem_of_In, in_rev, list_elem_of_In in Hr. by apply list_elem_of_filter in Hr as [_ ?]. }
  assert (forall i tup, (i, tup) ∈ kept_rows rs -> row_inv (t_next (n_rows s)) i tup) as Hk.
  { intros i tup (r & Hr & Ho & -> & ->)%elem_of_kept_rows. eapply Forall_forall in Hlog; [|by apply Hsub].
    unfold rec_inv in Hlog. by destruct Ho as [E|E]; rewrite E in Hlog. }
  apply (know_inverses rs (kept_rows rs)); try done.
  - apply Forall_forall. intros r Hr. destruct (vr_op r) eqn:Eo; try done; apply elem_of_kept_rows; exists r; auto.
  - intros i tup (_ & _ & ? & _)%Hk. done.
  - apply Forall_forall. intros [i tup] Hin. by apply Hk.
Qed.

(** ** How much the log grows *)

Definition logs {X} (k : Z) (m : M node X) : Prop := forall s, zlen (n_log (m s).2) <= zlen (n_log s) + k.

Lemma logs_bind {X Y} k k' (m : M node X) (f : X -> M node Y) :
  0 <= k' -> logs k m -> (forall x, logs k' (f x)) -> logs (k + k') (m ≫= f).
Proof.
  intros Hk Hm Hf s. rewrite M_bind_eq. specialize (Hm s). destruct (m s) as [[x|] s1]; cbn [fst snd] in *; [|lia].
  specialize (Hf x s1). lia.
Qed.
Lemma logs_last {X Y} k (m : M node X) (f : X -> M node Y) : logs k m -> (forall x, logs 0 (f x)) -> logs k (m ≫= f).
Proof. intros Hm Hf. rewrite <- (Z.add_0_r k). by apply logs_bind. Qed.
Lemma logs_same {X} (m : M node X) : (forall s, n_rows (m s).2 = n_rows s /\ n_log (m s).2 = n_log s) -> logs 0 m.
Proof. intros Hm s. destruct (Hm s) as [_ ->]. lia. Qed.
Lemma logs_table {X} (f : table -> result X * table) : logs 0 (a_table f).
Proof. intros s. unfold a_table. destruct (f (n_rows s)). cbn. lia. Qed.

(** The records an operation adds to the log. *)
Definition version_cost (version : option Z) : Z := match version with Some _ => 1 | None => 0 end.
Lemma logs_version version i o old new : logs (version_cost version) (a_version desc version i o old new).
Proof. intros s. destruct version; cbn; [rewrite zlen_app; change (zlen [_]) with 1|]; lia. Qed.

Lemma version_cost_nonneg version : 0 <= version_cost version.
Proof. by destruct version. Qed.
Ltac logs_step H := eapply (logs_bind 0); [apply version_cost_nonneg|first [eapply H|apply logs_same; intros ?; apply H]|intros ?].
Lemma logs_insert tup version : logs (version_cost version) (a_insert size desc tup version).
Proof.
  unfold a_insert. logs_step @started_same. logs_step @open_indexes_same.
  logs_step @logs_table. logs_step @logs_table. logs_step @index_insert_same.
  eapply logs_last; [apply logs_version|]. intros _. by apply logs_same.
Qed.
Lemma logs_update i tup version : logs (version_cost version) (a_update size desc i tup version).
Proof.
  unfold a_update. logs_step @started_same. logs_step @open_indexes_same.
  logs_step @logs_table. logs_step @logs_table. logs_step @logs_table.
  logs_step @index_update_same. apply logs_version.
Qed.
Lemma logs_delete i version : logs (version_cost version) (a_delete size desc i version).
Proof.
  unfold a_delete. logs_step @started_same. logs_step @open_indexes_same.
  logs_step @logs_table. logs_step @index_delete_same. logs_step @logs_table. apply logs_version.
Qed.
Lemma logs_restore i tup version : logs (version_cost version) (a_restore size desc i tup version).
Proof.
  unfold a_restore. logs_step @started_same. logs_step @open_indexes_same.
  eapply (logs_bind 0); [apply version_cost_nonneg|by apply logs_same|intros existing].
  eapply (logs_bind 0); [apply version_cost_nonneg| |intros ?].
  { apply logs_same. intros s. destruct existing; [done|by destruct (negb _)]. }
  logs_step @logs_table. logs_step @logs_table. logs_step @index_insert_same. apply logs_version.
Qed.
Lemma logs_inverses rs : logs 0 (a_inverses size desc rs).
Proof.
  induction rs as [|r rs IH]; cbn [a_inverses]; [by apply logs_same|]. eapply (logs_bind 0); [done| |intros _; exact IH].
  unfold a_inverse. destruct (vr_op r);
    [apply (logs_delete _ None)|apply (logs_update _ _ None)|apply (logs_restore _ _ None)|by apply logs_same].
Qed.
End inv.
