(* ===== verification/EngineRun.v ===== *)
(** * Runs of the engine

    Sequences of calls on one table, restarts of the engine included, refine the
    same sequences on the abstract node. *)

From S2P Require Import Prelude BinaryIO Values Serialization Disk PageStore PageManager.
From S2P Require Import RowStore RowStoreSpec RowTable TableStorage VersionLog Catalog CatalogSpec KeyEncoder.
From S2P Require Import BStarTree BStarTreeHeap BStarTreeSearch BStarTreeInsert BStarTreeLeaves BStarTreeSpec.
From S2P Require Import IndexManager Engine EngineSpec EngineSim EngineTable.

(** ** Calls *)

Inductive engine_op :=
  | EInsert (now : Z) (tup : Tuple)
  | EUpdate (now i : Z) (tup : Tuple)
  | EDelete (now i : Z)
  | ERevert (timestamp : Z)
  | EScan
  | EStart
  | EStop
  | ERestart.

Inductive engine_reply := YDone | YRid (i : Z) | YRows (rows : list Row) | YError (code : StatusCode).
(** The abstract answer to a scan is the table. *)
Inductive node_reply := NDone | NRid (i : Z) | NRows (t : table) | NError (code : StatusCode).

Definition agrees (r : engine_reply) (r' : node_reply) : Prop :=
  match r, r' with
  | YDone, NDone => True
  | YRid i, NRid j => i = j
  | YRows rows, NRows t => is_scan rows t
  | YError c, NError c' => c = c'
  | _, _ => False
  end.

Definition reply_of {A B S} (f : A -> B) (err : StatusCode -> B) (r : result A * S) : B * S :=
  (match r.1 with Ok a => f a | Err code _ => err code end, r.2).

Section calls.
Context {P : Type} {PS : PageStore P} (fuel : nat) (root : string) (size : Z) (desc : TableDescriptor).
Abbreviation db := (database_name desc).
Abbreviation tbl := (table_name desc).

(** The calls of the engine; [ERestart] is a new engine on the same disk. *)
Definition e_step (o : engine_op) (s : Engine P * disk) : engine_reply * (Engine P * disk) :=
  match o with
  | EInsert now tup => reply_of YRid YError (e_Insert fuel now db tbl tup s)
  | EUpdate now i tup => reply_of (fun _ => YDone) YError (e_Update fuel now db tbl i tup s)
  | EDelete now i => reply_of (fun _ => YDone) YError (e_Delete fuel now db tbl i s)
  | ERevert ts => reply_of (fun _ => YDone) YError (RevertTableToTimestamp fuel db tbl ts s)
  | EScan => reply_of YRows YError (ScanTable db tbl s)
  | EStart => reply_of (fun _ => YDone) YError (Start s)
  | EStop => reply_of (fun _ => YDone) YError (Stop s)
  | ERestart => (YDone, (new_Engine root size, s.2))
  end.
Fixpoint e_run (os : list engine_op) (s : Engine P * disk) : list engine_reply * (Engine P * disk) :=
  match os with
  | [] => ([], s)
  | o :: os => let '(r, s1) := e_step o s in let '(rs, s2) := e_run os s1 in (r :: rs, s2)
  end.

Definition set_n_started (b : bool) (s : node) : node := mkNode b (n_rows s) (n_indexes s) (n_log s).
Definition a_step (o : engine_op) (s : node) : node_reply * node :=
  match o with
  | EInsert now tup => reply_of NRid NError (a_insert size desc tup (Some now) s)
  | EUpdate now i tup => reply_of (fun _ => NDone) NError (a_update size desc i tup (Some now) s)
  | EDelete now i => reply_of (fun _ => NDone) NError (a_delete size desc i (Some now) s)
  | ERevert ts => reply_of (fun _ => NDone) NError (a_revert size desc ts s)
  | EScan => (if n_started s then NRows (n_rows s) else NError kInternalError, s)
  | EStart => (NDone, set_n_started true s)
  | EStop => (NDone, set_n_started false s)
  | ERestart => (NDone, mkNode false (n_rows s)
      (ix_step size kDefaultMaxKeyPayload (index_file desc) IRestart (n_indexes s)).2 (n_log s))
  end.
Fixpoint a_run (os : list engine_op) (s : node) : list node_reply * node :=
  match os with
  | [] => ([], s)
  | o :: os => let '(r, s1) := a_step o s in let '(rs, s2) := a_run os s1 in (r :: rs, s2)
  end.
End calls.

(** The calls with values the formats can hold. *)
Definition engine_op_ok (o : engine_op) : Prop :=
  match o with
  | EInsert now tup | EUpdate now _ tup => in_i64 now /\ Forall value_ok tup
  | EDelete now _ => in_i64 now
  | _ => True
  end.

(** What a step may cost when the log has [n] records. *)
Definition step_cost (desc : TableDescriptor) (n : Z) : Z := 2 + row_cost desc * (1 + n).
Lemma row_cost_pos desc : 4 <= row_cost desc.
Proof. unfold row_cost. pose proof (zlen_nonneg (indexes desc)). lia. Qed.

Section run.
Context {P : Type} {PS : PageStore P} {PL : PageStoreLaws P}.
Context (root : string) (size : Z) (desc : TableDescriptor).
Context (Hsize : 36 <= size < 2 ^ 28) (Hdb : IsValidName (database_name desc) = true).
Context (Hstored : stored_table (database_name desc) (table_name desc) desc) (Hfiles : files_apart root desc).
Context (Hschema : schema_fits (schema desc)) (Hname : zlen (bytes_of_string (table_name desc)) < 2 ^ 28).
Context (Hcolumns : schema desc <> []).
Context (budget : Z) (fuel : nat).
Context (Hbudget : budget < 2 ^ 62) (Hroom : ps_room size (space budget)) (Hfuel : (Z.to_nat (space budget) <= fuel)%nat).

Abbreviation rep := (node_rep (P:=P) root size desc).
Abbreviation db := (database_name desc).
Abbreviation tbl := (table_name desc).

Lemma rep_low ot ol low low' u s e d :
  rep ot ol low u s e d -> low' <= t_next (n_rows s) -> rep ot ol low' u s e d.
Proof. intros [? ? ? ? ? ? ? ?] Hl. split; try done. lia. Qed.

(** From a simulation to answers. *)
Lemma sim_reply {X} n (m : M (Engine P * disk) X) a Q (f : X -> engine_reply) (g : X -> node_reply) u s e d :
  sim root size desc budget 0 (false, false) (false, false) n m a Q ->
  (forall x, agrees (f x) (g x)) -> 0 <= u -> u + n <= budget -> rep false false 0 u s e d ->
  exists e' d', (reply_of f YError (m (e, d))).2 = (e', d') /\
    agrees (reply_of f YError (m (e, d))).1 (reply_of g NError (a s)).1 /\
    rep false false 0 (u + n) (reply_of g NError (a s)).2 e' d'.
Proof.
  intros Hsim Hfg Hu Hb Hr. destruct (Hsim u s e d Hu Hb Hr) as (r & e' & d' & E & Hst & H).
  exists e', d'. rewrite E. unfold reply_of. cbn [fst snd]. destruct (a s) as [r' s']. cbn [fst snd] in *.
  destruct r as [x|c msg], r' as [x'|c' msg']; try done; cbn in Hst; subst; split_and!; try done. apply H.
Qed.

(** ** Calls that do not write rows *)

Lemma rep_Start u s e d :
  rep false false 0 u s e d -> exists e', Start (e, d) = (Ok tt, (e', d)) /\ rep false false 0 u (set_n_started true s) e' d.
Proof.
  intros [? ? Hs ? ? ? ? ?]. unfold Start. dunfold. destruct (started_ e) eqn:Es; eexists; (split; [reflexivity|]); by split.
Qed.

(** Forgetting what is open keeps what is stored. *)
Lemma table_rep_close o u t (e e' : Engine P) d :
  table_rep size desc o u t e d -> opened_tables_ e' = ∅ -> table_rep size desc false u t e' d.
Proof.
  intros [(ts & ? & ? & ? & ? & ? & _)|(? & ? & _)] E; [left; exists ts; split_and!; try done|right; split_and!; try done];
    rewrite E, lookup_empty; auto.
Qed.
Lemma log_rep_close o rs (e e' : Engine P) d :
  log_rep root desc o rs e d -> opened_version_logs_ e' = ∅ -> log_rep root desc false rs e' d.
Proof.
  intros [(l & ? & ? & _)|(? & ? & _)] E; [left; exists l; split_and!; try done|right; split_and!; try done];
    rewrite E, lookup_empty; auto.
Qed.

Lemma rep_Stop u s e d :
  rep false false 0 u s e d -> exists e', Stop (e, d) = (Ok tt, (e', d)) /\ rep false false 0 u (set_n_started false s) e' d.
Proof.
  intros [? ? Hs ? ? ? ? ?]. unfold Stop. dunfold. eexists. split; [reflexivity|].
  split; try done; [by eapply table_rep_close|by eapply log_rep_close].
Qed.
Lemma rep_Restart u s e d :
  rep false false 0 u s e d -> rep false false 0 u (a_step size desc ERestart s).2 (new_Engine root size) d.
Proof.
  intros [? ? Hs ? ? ? (k & p & Him & ? & ?) ?]. split; try done; [by eapply table_rep_close| |by eapply log_rep_close].
  exists k, p. split_and!; try done; try lia. by eapply im_restart_refines.
Qed.

Lemma rep_Scan u s e d :
  0 <= u -> u + 2 <= budget -> rep false false 0 u s e d ->
  exists r e' d', reply_of YRows YError (ScanTable db tbl (e, d)) = (r, (e', d')) /\
    agrees r (a_step size desc EScan s).1 /\ rep false false 0 (u + 2) s e' d'.
Proof.
  intros Hu Hb Hr. unfold ScanTable, a_step. rewrite M_bind_eq. unfold EnsureStarted. dunfold.
  rewrite (nr_started _ _ _ _ _ _ _ _ _ _ Hr). destruct (n_started s); cbn [negb fst].
  2: { eexists _, e, d. split_and!; [reflexivity|done|]. apply (node_rep_more root size desc _ _ _ u); [done|lia]. }
  destruct (sim_OpenTable root size desc Hsize Hdb Hstored Hfiles Hschema budget fuel 0 Hbudget Hroom Hfuel (false, false) u s e d)
    as (r & e1 & d1 & E1 & Hst & H1); [done|lia|done|]. cbn [fst snd mret M_ret] in *. destruct r as [x|]; [|done].
  destruct H1 as [-> Hr1]. rewrite E1.
  destruct (nr_table _ _ _ _ _ _ _ _ _ _ Hr1) as [(ts & Hts & Hd & Hps & Hpc & Hrc & [Hop|[_ ?]])|(_ & _ & _ & ?)]; [|done..].
  destruct (Scan_refines (row_store_ ts) d1 (n_rows s)) as (rows & Es & Hscan); [apply Hts| |].
  { eapply (table_room size Hsize budget fuel Hroom Hfuel (u + 1)); try done; lia. }
  unfold on_table. cbn [fst snd]. rewrite Hop. unfold ts_Scan. rewrite ts_open_run by apply Hts. unfold on_rows, on_part.
  cbn [fst snd ot_storage ot_descriptor]. rewrite Es. eexists _, _, d1. split_and!; [reflexivity|exact Hscan|].
  replace (set_row_store (row_store_ ts) ts) with ts by by destruct ts.
  destruct s as [b t m l]. cbn [n_rows] in *. apply (rep_weaken root size desc 0 true false).
  apply (node_rep_table root size desc Hfiles true false 0 (u + 1) (u + 2) (mkNode b t m l) e1 d1 true t); try done; try lia.
  - left. exists ts. split_and!; try done; try lia. left. apply lookup_insert_eq.
  - pose proof (nr_next _ _ _ _ _ _ _ _ _ _ Hr1). cbn [n_rows] in *. lia.
Qed.

(** ** Steps and runs *)

Lemma log_inverse_ok s u :
  node_inv size desc s -> t_next (n_rows s) <= u -> u <= budget ->
  Forall (inverse_ok size desc (t_next (n_rows s))) (n_log s).
Proof.
  intros [_ Hlog] Hu Hb. eapply Forall_impl; [exact Hlog|]. intros r. unfold rec_inv, inverse_ok.
  destruct (vr_op r); try done; intros ((Hi & Hn) & Hc & Hok & Hfit); [done|]. split_and!; try done; try lia.
  intros tup'. rewrite (Prepare_conforming _ _ Hcolumns Hc). by intros [= <-].
Qed.

Lemma a_step_inv o s : engine_op_ok o -> node_inv size desc s -> node_inv size desc (a_step size desc o s).2.
Proof.
  intros Ho Hs. destruct o; cbn [a_step engine_op_ok reply_of fst snd] in *; try done.
  - destruct Ho. apply (know_insert size desc Hschema [] tup (Some now)); [done|done|constructor].
  - destruct Ho. apply (know_update size desc Hschema [] i tup (Some now)); [done|done|constructor].
  - apply (know_delete size desc Hschema [] i (Some now)); [done|constructor].
  - by apply revert_inv.
Qed.
Lemma a_step_log o s : zlen (n_log (a_step size desc o s).2) <= zlen (n_log s) + 1.
Proof.
  clear Hfuel. destruct o; cbn [a_step reply_of fst snd n_log set_n_started]; try lia.
  - apply (logs_insert size desc tup (Some now)).
  - apply (logs_update size desc i tup (Some now)).
  - apply (logs_delete size desc i (Some now)).
  - unfold a_revert. rewrite M_bind_eq. cbn [get fst snd]. pose proof (logs_inverses size desc
      (rev (CollectRollbackRecords tbl (n_log s) timestamp)) s). lia.
Qed.

(** The step [o] at the cost [n]. *)
Definition step_ok (o : engine_op) (n u : Z) (s : node) (e : Engine P) (d : disk) : Prop :=
  exists r e' d', e_step fuel root size desc o (e, d) = (r, (e', d')) /\ agrees r (a_step size desc o s).1 /\
    rep false false 0 (u + n) (a_step size desc o s).2 e' d'.

Lemma step_ok_more o n n' u s e d : step_ok o n u s e d -> n <= n' -> step_ok o n' u s e d.
Proof. intros (r & e' & d' & E & Hag & H) Hn. exists r, e', d'. split_and!; try done. eapply node_rep_more; [exact H|lia]. Qed.

Lemma step_sim {X} o (m : M (Engine P * disk) X) a (f : X -> engine_reply) (g : X -> node_reply) u s e d :
  (forall s, e_step fuel root size desc o s = reply_of f YError (m s)) ->
  (forall s, a_step size desc o s = reply_of g NError (a s)) -> (forall x, agrees (f x) (g x)) ->
  sim root size desc budget 0 (false, false) (false, false) (row_cost desc) m a (fun _ => True) ->
  0 <= u -> u + row_cost desc <= budget -> rep false false 0 u s e d -> step_ok o (row_cost desc) u s e d.
Proof.
  intros He Ha Hfg Hsim Hu Hb Hr. destruct (sim_reply _ _ _ _ _ _ _ _ _ _ Hsim Hfg Hu Hb Hr) as (e' & d' & E & Hag & Hr').
  unfold step_ok. rewrite He, Ha. destruct (reply_of f YError (m (e, d))) as [r z]. cbn [fst snd] in *. subst z. by exists r, e', d'.
Qed.

Lemma step_revert ts u s e d :
  0 <= u -> u + step_cost desc (zlen (n_log s)) <= budget -> node_inv size desc s -> rep false false 0 u s e d ->
  step_ok (ERevert ts) (1 + row_cost desc * zlen (n_log s)) u s e d.
Proof.
  intros Hu Hb Hs Hr. pose proof (row_cost_pos desc) as Hc. pose proof (zlen_nonneg (n_log s)) as Hl. unfold step_cost in Hb.
  pose proof (nr_next _ _ _ _ _ _ _ _ _ _ Hr) as Hn.
  destruct (sim_revert root size desc Hsize Hdb Hstored Hfiles Hschema Hname budget fuel (t_next (n_rows s)) Hbudget Hroom Hfuel
    false false u s e d ts) as (r & e' & d' & E & Hst & Hr').
  { done. }
  { eapply rep_low; [done|lia]. }
  { eapply log_inverse_ok; [done|apply Hn|nia]. }
  { nia. }
  unfold step_ok. cbn [e_step a_step]. rewrite E. eexists _, e', d'. split_and!; [reflexivity| |].
  - unfold reply_of. destruct (a_revert size desc ts s) as [r' s']. cbn [fst snd] in *. by destruct r, r'.
  - cbn [reply_of snd]. rewrite Z.add_assoc. eapply rep_low; [exact Hr'|].
    pose proof (nr_next _ _ _ _ _ _ _ _ _ _ Hr'). destruct Hs as [[Hz _] _]. lia.
Qed.

Lemma e_step_refines o u s e d :
  0 <= u -> u + step_cost desc (zlen (n_log s)) <= budget -> engine_op_ok o -> node_inv size desc s ->
  rep false false 0 u s e d -> step_ok o (step_cost desc (zlen (n_log s))) u s e d.
Proof.
  intros Hu Hb Ho Hs Hr. pose proof (row_cost_pos desc) as Hc. pose proof (zlen_nonneg (n_log s)) as Hl.
  assert (row_cost desc <= step_cost desc (zlen (n_log s)) /\ 2 <= step_cost desc (zlen (n_log s)) /\
    1 + row_cost desc * zlen (n_log s) <= step_cost desc (zlen (n_log s))) as (H1 & H2 & H3) by (unfold step_cost; nia).
  destruct o; cbn [engine_op_ok] in Ho.
  - destruct Ho. eapply step_ok_more; [|exact H1]. eapply step_sim; try done; [|lia]. by eapply sim_insert.
  - destruct Ho. eapply step_ok_more; [|exact H1]. eapply step_sim; try done; [|lia]. by eapply sim_update.
  - eapply step_ok_more; [|exact H1]. eapply step_sim; try done; [|lia]. by eapply sim_delete.
  - eapply step_ok_more; [|exact H3]. by apply step_revert.
  - eapply step_ok_more; [|exact H2]. destruct (rep_Scan u s e d Hu) as (r & e' & d' & E & Hag & Hr'); [lia|done|].
    by exists r, e', d'.
  - eapply (step_ok_more _ 0); [|lia]. destruct (rep_Start u s e d Hr) as (e' & E & Hr'). unfold step_ok.
    cbn [e_step]. rewrite E, Z.add_0_r. by eexists _, e', d.
  - eapply (step_ok_more _ 0); [|lia]. destruct (rep_Stop u s e d Hr) as (e' & E & Hr'). unfold step_ok.
    cbn [e_step]. rewrite E, Z.add_0_r. by eexists _, e', d.
  - eapply (step_ok_more _ 0); [|lia]. eexists _, _, d. rewrite Z.add_0_r. split_and!; [reflexivity|done|].
    by apply rep_Restart with (e := e).
Qed.

Lemma e_run_refines os : forall u s e d n,
  0 <= u -> zlen (n_log s) + zlen os <= n -> u + zlen os * step_cost desc n <= budget -> Forall engine_op_ok os ->
  node_inv size desc s -> rep false false 0 u s e d ->
  exists rs e' d', e_run fuel root size desc os (e, d) = (rs, (e', d')) /\ Forall2 agrees rs (a_run size desc os s).1 /\
    rep false false 0 (u + zlen os * step_cost desc n) (a_run size desc os s).2 e' d' /\ node_inv size desc (a_run size desc os s).2.
Proof.
  induction os as [|o os IH]; intros u s e d n Hu Hn Hb Hok Hs Hr; cbn [e_run a_run].
  { exists [], e, d. change (zlen []) with 0. rewrite Z.mul_0_l, Z.add_0_r. by split_and!. }
  apply Forall_cons in Hok as [Ho Hok]. rewrite zlen_cons in *. pose proof (zlen_nonneg os). pose proof (zlen_nonneg (n_log s)).
  pose proof (row_cost_pos desc) as Hc.
  assert (0 <= step_cost desc (zlen (n_log s)) <= step_cost desc n) as Hcost by (unfold step_cost; nia).
  assert (0 <= zlen os * step_cost desc n) by nia.
  assert (step_ok o (step_cost desc n) u s e d) as (r & e1 & d1 & -> & Hag & Hr1).
  { eapply step_ok_more; [apply e_step_refines; try done; nia|lia]. }
  pose proof (a_step_inv o s Ho Hs) as Hs1. pose proof (a_step_log o s) as Hl1.
  destruct (a_step size desc o s) as [r' s1]. cbn [fst snd] in *.
  destruct (IH (u + step_cost desc n) s1 e1 d1 n) as (rs & e2 & d2 & -> & Hag2 & Hr2 & Hs2); try done; try lia.
  destruct (a_run size desc os s1) as [rs' s2]. cbn [fst snd] in *. exists (r :: rs), e2, d2. split_and!; try done.
  - by constructor.
  - replace (u + (1 + zlen os) * step_cost desc n) with (u + step_cost desc n + zlen os * step_cost desc n) by lia. done.
Qed.
End run.
