(* ===== verification/EngineCreate.v ===== *)
(** * Creating a table, and the engine's theorem

    From a catalog in which the table's database exists, [CreateTable] leaves a
    represented node without rows; every run of calls from there answers as the
    abstract node does. *)

From S2P Require Import Prelude BinaryIO Values Serialization Disk PageStore PageManager.
From S2P Require Import RowStore RowStoreSpec RowTable TableStorage VersionLog Catalog CatalogSpec KeyEncoder.
From S2P Require Import BStarTree BStarTreeHeap BStarTreeSearch BStarTreeInsert BStarTreeLeaves BStarTreeSpec.
From S2P Require Import IndexManager Engine EngineSpec EngineSim EngineTable EngineRun.

Abbreviation kvar := kDefaultMaxKeyPayload.

(** The indexes of the table can be made: their columns exist and their keys fit
    the pages. *)
Definition index_ready (size : Z) (desc : TableDescriptor) (ix : IndexDescriptor) : Prop :=
  ValidateDescriptor ix = Ok tt /\
  exists kt c, index_key_type desc ix = Ok kt /\ index_config size kvar (index_file desc) (idx_name ix) kt = Ok c.

(** A table as the catalog stores it, in places of its own. *)
Record table_ready (root : string) (size : Z) (desc : TableDescriptor) : Prop := {
  tr_size : 36 <= size < 2 ^ 28;
  tr_database : IsValidName (database_name desc) = true;
  tr_stored : stored_table (database_name desc) (table_name desc) desc;
  tr_files : files_apart root desc;
  tr_columns : schema desc <> [];
  tr_schema : schema_fits (schema desc);
  tr_name : zlen (bytes_of_string (table_name desc)) < 2 ^ 28;
  tr_indexes : Forall (index_ready size desc) (indexes desc);
  tr_dir : Forall (fun ix => dir_of (idx_file_path ix) = index_dir desc) (indexes desc) /\
    (indexes desc = [] \/ index_dir desc <> "")
}.

(** The places of the table's files are free. *)
Definition table_free (root : string) (desc : TableDescriptor) (d : disk) : Prop :=
  Forall (fun p => free_path d p /\ apart p (TableMetaPath root (database_name desc) (table_name desc)))
    (data_file desc :: ResolveVersionLogPath root desc :: map idx_file_path (indexes desc)).

(** The node [CreateTable] leaves. *)
Definition empty_node : node := mkNode true empty_table ∅ [].
Definition created (size : Z) (desc : TableDescriptor) : node := (a_open_indexes size desc true empty_node).2.

(** ** The indexes of a new table *)

Lemma open_fresh_ok size desc ixs : forall s,
  Forall (index_ready size desc) ixs -> NoDup (map idx_name ixs) ->
  Forall (fun ix => n_indexes s !! idx_name ix = None) ixs ->
  exists m, a_for (fun ix => kt ← lift (index_key_type desc ix); a_index size desc (IRegister ix kt true)) ixs s =
      (Ok tt, with_indexes m s) /\
    (forall ix, ix ∈ ixs -> exists kt, index_key_type desc ix = Ok kt /\ m !! idx_name ix = Some (mkIndex kt true [])) /\
    (forall n, n ∉ map idx_name ixs -> m !! n = n_indexes s !! n).
Proof.
  induction ixs as [|ix ixs IH]; intros s Hr Hnd Hm; cbn [a_for].
  { exists (n_indexes s). split_and!; [by destruct s|by intros ix ?%elem_of_nil|done]. }
  apply Forall_cons in Hr as [(Hv & kt & c & Hkt & Hc) Hr]. apply NoDup_cons in Hnd as [Hni Hnd]. apply Forall_cons in Hm as [Hm0 Hm].
  assert ((kt ← lift (index_key_type desc ix); a_index size desc (IRegister ix kt true)) s =
    (Ok tt, with_indexes (<[idx_name ix := mkIndex kt true []]> (n_indexes s)) s)) as E.
  { rewrite Hkt. unfold a_index, ix_step, ix_register. dunfold. rewrite Hv, Hm0. cbn [negb]. by rewrite Hc. }
  rewrite M_bind_eq, E.
  destruct (IH (with_indexes (<[idx_name ix := mkIndex kt true []]> (n_indexes s)) s)) as (m & E' & Hin & Hout); [done|done| |].
  { apply Forall_forall. intros ix' Hix'. eapply Forall_forall in Hm; [|exact Hix']. cbn. rewrite lookup_insert_ne; [done|].
    intros En. apply Hni. rewrite En. by apply list_elem_of_fmap_2. }
  exists m. split_and!; [exact E'| |].
  - intros ix' [->|Hix']%elem_of_cons; [|by apply Hin]. exists kt. split; [done|]. rewrite Hout by done. cbn. apply lookup_insert_eq.
  - intros n Hn. cbn in Hn. apply not_elem_of_cons in Hn as [Hne Hn]. rewrite Hout by done. cbn. by apply lookup_insert_ne.
Qed.

Section create.
Context {P : Type} {PS : PageStore P} {PL : PageStoreLaws P}.
Context (root : string) (size : Z) (desc0 : TableDescriptor) (fuel : nat) (budget : Z).
Abbreviation desc := (NormalizeTableDescriptor root desc0).
Abbreviation rep := (node_rep (P:=P) root size desc).
Context (Hready : table_ready root size desc).
Context (Hbudget : zlen (indexes desc) <= budget < 2 ^ 62) (Hroom : ps_room size (space budget))
  (Hfuel : (Z.to_nat (space budget) <= fuel)%nat).

Definition started_engine : Engine P := set_started true (new_Engine root size).

(** Making the directory of the indexes. *)
Lemma index_dir_rep d :
  meta_on root desc d -> Forall (free_path d) (data_file desc :: ResolveVersionLogPath root desc :: map idx_file_path (indexes desc)) ->
  exists d', (match indexes desc with [] => mret tt | _ :: _ => on_disk (EnsureDir (index_dir desc)) end) (started_engine, d) =
      (Ok tt, (started_engine, d')) /\ meta_on root desc d' /\
    Forall (free_path d') (data_file desc :: ResolveVersionLogPath root desc :: map idx_file_path (indexes desc)).
Proof.
  intros Hm Hfree. destruct Hready as [_ _ _ Hfiles _ _ _ _ [Hdir Hne]]. pose proof Hfiles as [_ _ _ _ Hdi Hli Hii _].
  destruct (indexes desc) as [|ix ixs] eqn:Ei; [by exists d|]. destruct Hne as [?|Hne]; [done|].
  apply Forall_cons in Hdir as [Edir _].
  assert (forall p, p ∈ dirs_of (index_dir desc) -> p ∈ parent_dirs (idx_file_path ix)) as Hsub.
  { intros p Hp. right. by rewrite Edir. }
  apply Forall_cons in Hfree as [Hfd Hfree]. apply Forall_cons in Hfree as [Hfl Hfx].
  assert (free_path d (idx_file_path ix)) as Hfix by by apply Forall_cons in Hfx as [? _].
  assert (dirs_clear d (index_dir desc)) as Hclear by (intros p Hp; apply (fp_dirs _ _ Hfix); auto).
  exists (with_dirs (index_dir desc) d). split_and!.
  - unfold on_disk. cbn [fst snd]. rewrite EnsureDir_healthy; [done|apply Hm|done|done].
  - destruct Hm as (? & ? & ?). split_and!; try done. cbn. set_solver.
  - apply Forall_cons in Hdi as [Hdi _]. apply Forall_cons in Hli as [Hli _]. constructor; [|constructor].
    + apply free_path_with_dirs; [done|done|]. intros Hp%Hsub. by apply (proj1 (proj2 Hdi)).
    + apply free_path_with_dirs; [done|done|]. intros Hp%Hsub. by apply (proj1 (proj2 Hli)).
    + apply Forall_forall. intros q (ix' & -> & Hix')%list_elem_of_fmap.
      assert (free_path d (idx_file_path ix')) as Hf'.
      { eapply Forall_forall in Hfx; [exact Hfx|]. by apply list_elem_of_fmap_2. }
      apply free_path_with_dirs; [done|done|]. intros Hin%Hsub. apply Forall_cons in Hii as [Hii _].
      eapply Forall_forall in Hii; [|exact Hix']. destruct Hii as [En|(_ & _ & Hap)]; [|done].
      assert (idx_file_path ix' = idx_file_path ix) as E.
      { rewrite <- !(index_file_elem desc) by (rewrite ?Ei; done || apply Hfiles || left). by rewrite En. }
      rewrite E in Hin. by apply (fp_self _ _ Hfix).
Qed.

Lemma fresh_rep d :
  meta_on root desc d -> Forall (free_path d) (data_file desc :: ResolveVersionLogPath root desc :: map idx_file_path (indexes desc)) ->
  rep false false 0 0 empty_node started_engine d.
Proof.
  intros Hm Hfree. apply Forall_cons in Hfree as [Hfd Hfree]. apply Forall_cons in Hfree as [Hfl Hfx].
  split; try done.
  - right. split_and!; done || apply lookup_empty.
  - exists 0%nat, 1. split_and!; try done. split; try done.
    + by destruct Hfd.
    + intros n (ix & -> & Hix)%list_elem_of_fmap _. rewrite index_file_elem by (done || apply Hready).
      eapply Forall_forall in Hfx; [exact Hfx|]. by apply list_elem_of_fmap_2.
  - right. split_and!; done || apply lookup_empty.
Qed.

Lemma CreateTable_rep cat tables d :
  cat_rep root d cat -> cat !! database_name desc = Some tables -> tables !! table_name desc = None -> table_free root desc d ->
  exists e' d', e_CreateTable desc0 (started_engine, d) = (Ok tt, (e', d')) /\
    rep false false 0 (zlen (indexes desc)) (created size desc) e' d'.
Proof.
  intros Hcat Hdb Htbl Hfree. pose proof Hready as [? Hvdb Hst Hfiles ? ? ? Hix _].
  destruct Hst as (Hvt & _ & _ & Hval & Hok).
  destruct (CreateTable_ok root d cat desc0 Hcat Hvdb Hok) as (d1 & E1 & Hcat1 & Hse1).
  unfold c_create_table in E1, Hcat1. rewrite Hdb, Hval, Htbl in E1, Hcat1. cbn [fst snd] in E1, Hcat1.
  assert (meta_on root desc d1) as Hm1.
  { pose proof Hcat1 as [? _ _ _ Hnames _ Htables _ _].
    destruct (Hnames (database_name desc) _ (lookup_insert_eq _ _ _)) as (_ & ? & _).
    destruct (Htables (database_name desc) _ (table_name desc) (lookup_insert_eq _ _ _) Hvt) as [Hf _].
    rewrite lookup_insert_eq in Hf. by split_and!. }
  destruct (index_dir_rep d1 Hm1) as (d2 & E2 & Hm2 & Hfree2).
  { eapply Forall_impl; [exact Hfree|]. intros p [Hp Hap]. by eapply free_path_frame. }
  pose proof (fresh_rep d2 Hm2 Hfree2) as Hr2.
  pose proof (sim_register_indexes root size desc ltac:(done) Hfiles budget fuel 0 Hroom Hfuel (false, false) true) as Hsim.
  destruct (Hsim 0 empty_node started_engine d2) as (r & e3 & d3 & E3 & Hst3 & H3); [lia|lia|done|].
  destruct (open_fresh_ok size desc (indexes desc) empty_node Hix (fa_names _ _ Hfiles)) as (m & Ea & _).
  { apply Forall_forall. intros. apply lookup_empty. }
  exists e3, d3. unfold created. rewrite Z.add_0_l in H3. unfold a_open_indexes in *. rewrite Ea in *.
  destruct r as [[]|]; [|done]. split; [|apply H3].
  unfold e_CreateTable. rewrite M_bind_eq. unfold EnsureStarted. dunfold. cbn [started_engine set_started started_ negb data_dir new_Engine].
  rewrite E1. cbn beta iota. unfold LoadTableDescriptor. dunfold. cbn [data_dir started_engine set_started new_Engine].
  change (GetTable root (database_name desc0) (table_name desc0) d1) with (GetTable root (database_name desc) (table_name desc) d1).
  rewrite (meta_GetTable root desc d1 Hm1 Hvdb) by by split_and!. unfold EnsureTableIndexesCreated. rewrite M_bind_eq.
  fold started_engine. rewrite E2. exact E3.
Qed.
End create.

(** ** Theorems *)

(** C2. The engine implements a table with indexes and a log.  Let the database
    exist and the table not, and let the places of its files be free.  Then
    [CreateTable] succeeds, and for every sequence of insertions, updates,
    deletions, reverts and scans of the table, stops and restarts of the engine
    included, each call of the engine returns what the abstract node returns:
    the same row id, the live rows, or the same error code.  The node is a map
    of rows, a sorted list per index and a list of version records; page files,
    trees, log format, caches and catalog are invisible.  Failing calls are
    covered with the changes they leave behind. *)
Theorem engine_implements_table root size desc0 cat tables d os fuel :
  let desc := NormalizeTableDescriptor root desc0 in
  let budget := zlen (indexes desc) + zlen os * step_cost desc (zlen os) in
  table_ready root size desc -> cat_rep root d cat -> cat !! database_name desc = Some tables ->
  tables !! table_name desc = None -> table_free root desc d -> Forall engine_op_ok os ->
  budget < 2 ^ 62 -> page_room size (space budget) -> (Z.to_nat (space budget) <= fuel)%nat ->
  exists s0 rs s, e_CreateTable desc0 (started_engine (P:=PageManager) root size, d) = (Ok tt, s0) /\
    e_run fuel root size desc os s0 = (rs, s) /\ Forall2 agrees rs (a_run size desc os (created size desc)).1.
Proof.
  cbv zeta. intros Hready Hcat Hdb Htbl Hfree Hops Hb Hroom Hfuel.
  set (desc := NormalizeTableDescriptor root desc0) in *. pose proof Hready as [].
  assert (0 <= zlen os * step_cost desc (zlen os)) as Hpos.
  { pose proof (zlen_nonneg os). pose proof (row_cost_pos desc). apply Z.mul_nonneg_nonneg; [lia|].
    unfold step_cost. apply Z.add_nonneg_nonneg; [lia|]. apply Z.mul_nonneg_nonneg; lia. }
  assert (zlen (indexes desc) <= zlen (indexes desc) + zlen os * step_cost desc (zlen os) < 2 ^ 62) as Hb' by lia.
  destruct (CreateTable_rep (PL:=PageManager_laws) root size desc0 fuel _ Hready Hb' Hroom Hfuel cat tables d)
    as (e0 & d0 & E0 & Hr0); try done. fold desc in Hr0.
  assert (n_rows (created size desc) = empty_table /\ n_log (created size desc) = []) as [Et El] by apply open_indexes_same.
  destruct (e_run_refines (PL:=PageManager_laws) root size desc tr_size0 tr_database0 tr_stored0 tr_files0 tr_schema0 tr_name0
    tr_columns0 _ fuel Hb Hroom Hfuel os (zlen (indexes desc)) (created size desc) e0 d0 (zlen os))
    as (rs & e1 & d1 & E1 & Hag & _); try done.
  - apply zlen_nonneg.
  - rewrite El. change (zlen []) with 0. lia.
  - split; rewrite ?Et, ?El; [|constructor]. by split.
  - by exists (e0, d0), rs, (e1, d1).
Qed.

Definition sample_engine_table : TableDescriptor :=
  mkTableDescriptor "shop" "users" "" ""
    [mkColumnSchema "id" ctInt true true None; mkColumnSchema "name" ctString false false None]
    [mkIndexDescriptor "by_id" "" "id" "" true].
Definition sample_engine_ops : list engine_op :=
  [EInsert 5 [VInt 1; VString "ann"]; EInsert 6 [VInt 1]; EUpdate 7 0 [VInt 2]; ERestart; EScan; EStart; EDelete 8 0;
   ERevert 5; EScan].

Lemma sample_engine_ready :
  table_ready "data" 4096 (NormalizeTableDescriptor "data" sample_engine_table).
Proof.
  split; try by_computation.
  - split_and!; first [by_computation|by vm_compute].
  - split; try by_computation.
  - repeat constructor. eexists vtInt, _. split; [reflexivity|]. vm_compute. reflexivity.
Qed.
Lemma sample_engine_free :
  table_free "data" (NormalizeTableDescriptor "data" sample_engine_table) shop_disk.
Proof.
  assert (forall p, p ∈ ["data/shop/tables/users.tbl"; "data/shop/versions/users.vlog"; "data/shop/indexes/users/by_id.idx"] ->
    free_path shop_disk p /\ apart p "data/shop/catalog/users.meta") as H.
  { intros p Hp. repeat (apply elem_of_cons in Hp as [->|Hp]); [..|by apply elem_of_nil in Hp].
    all: split; [|by_computation]; split; try by_computation; try done; try apply (cr_wf _ _ _ shop_disk_rep). }
  apply Forall_forall. exact H.
Qed.

Lemma engine_implements_table_witness :
  let desc := NormalizeTableDescriptor "data" sample_engine_table in
  let budget := zlen (indexes desc) + zlen sample_engine_ops * step_cost desc (zlen sample_engine_ops) in
  exists s0 rs s, e_CreateTable sample_engine_table (started_engine (P:=PageManager) "data" 4096, shop_disk) = (Ok tt, s0) /\
    e_run (Z.to_nat (space budget)) "data" 4096 desc sample_engine_ops s0 = (rs, s) /\
    Forall2 agrees rs (a_run 4096 desc sample_engine_ops (created 4096 desc)).1.
Proof.
  cbv zeta. apply (engine_implements_table "data" 4096 sample_engine_table (<["shop" := ∅]> ∅) ∅ shop_disk sample_engine_ops).
  - exact sample_engine_ready.
  - exact shop_disk_rep.
  - reflexivity.
  - reflexivity.
  - exact sample_engine_free.
  - repeat constructor; by_computation.
  - by vm_compute.
  - by vm_compute.
  - reflexivity.
Defined.
