(* ===== verification/EngineIndex.v ===== *)
(** * The indexes follow the rows

    On the abstract node of [EngineSpec.v]: an operation that succeeds leaves
    every index with exactly the non-null keys of the live rows, and the index
    updates succeed exactly when the keys stay valid and distinct. *)

From S2P Require Import Prelude BinaryIO Values Serialization Disk RowStore RowTable TableStorage VersionLog Catalog KeyEncoder.
From S2P Require Import PageStore BStarTree BStarTreePages BStarTreeHeap BStarTreeOrder BStarTreeSearch BStarTreeLeafDelete BStarTreeSpec.
From S2P Require Import IndexManager Engine EngineSpec EngineTable EngineCreate.

(** ** Live rows *)

Definition live (t : table) : gmap Z Tuple := omap (fun e => if e.2 : bool then None else Some e.1) (t_rows t).

Lemma live_Some t i tup : live t !! i = Some tup <-> t_rows t !! i = Some (tup, false).
Proof.
  unfold live. rewrite lookup_omap. destruct (t_rows t !! i) as [[tup' []]|]; cbn; [by split|..|by split].
  split; [by intros [= ->]|by intros [= ->]].
Qed.
Lemma live_set t i tup next : live (mkTable (<[i := (tup, false)]> (t_rows t)) next) = <[i := tup]> (live t).
Proof. unfold live. cbn [t_rows]. by rewrite (omap_insert_Some _ _ _ _ tup). Qed.
Lemma live_kill t i tup next : live (mkTable (<[i := (tup, true)]> (t_rows t)) next) = delete i (live t).
Proof. unfold live. cbn [t_rows]. by rewrite omap_insert_None. Qed.

(** ** One index *)

Lemma find_key_None es key : find_key es key = None <-> forall r, mkLeafEntry key r ∉ es.
Proof.
  induction es as [|[k r] es IH]; cbn [find_key entry_key entry_rid]; [split; [by intros _ r ?%elem_of_nil|done]|].
  unfold value_eqb. case_bool_decide as E.
  - subst k. split; [done|]. intros H. destruct (H r). by left.
  - rewrite IH. split; intros H r'; specialize (H r'); rewrite elem_of_cons in *; naive_solver.
Qed.
Lemma elem_of_add_key es key rid e :
  find_key es key = None -> e ∈ add_key es key rid <-> e = mkLeafEntry key rid \/ e ∈ es.
Proof.
  intros Hf. destruct (add_key_split es key rid Hf) as (l1 & l2 & -> & _ & -> & _).
  rewrite !elem_of_app, elem_of_cons. tauto.
Qed.
Lemma elem_of_del_key es key e : e ∈ del_key es key <-> entry_key e <> key /\ e ∈ es.
Proof. unfold del_key. by rewrite list_elem_of_filter. Qed.
Lemma find_key_elem es key r : find_key es key = Some r -> mkLeafEntry key r ∈ es.
Proof.
  induction es as [|[k r'] es IH]; cbn [find_key entry_key entry_rid]; [done|]. unfold value_eqb. case_bool_decide as E.
  - subst k. intros [= ->]. by left.
  - intros H. right. auto.
Qed.

Section indexes.
Context (size : Z) (desc : TableDescriptor).

(** The key of a row in an index, when it has one. *)
Definition key_at (ix : IndexDescriptor) (tup : Tuple) : option Value :=
  match ExtractIndexKey desc ix tup with
  | Ok k => if is_null k then None else Some k
  | Err _ _ => None
  end.

(** The row [r] of [L] has the key [k] in [ix]. *)
Definition has (ix : IndexDescriptor) (L : gmap Z Tuple) (k : Value) (r : Z) : Prop :=
  exists tup, L !! r = Some tup /\ key_at ix tup = Some k.

(** The keys of the rows [L] are valid and belong to one row each. *)
Definition good (ix : IndexDescriptor) (c : config) (L : gmap Z Tuple) : Prop :=
  (forall k r, has ix L k r -> valid_key c k = true) /\ (forall k r r', has ix L k r -> has ix L k r' -> r = r').

(** The index [ix] holds the keys of the rows [L]. *)
Definition holds (o : bool) (ix : IndexDescriptor) (c : config) (L : gmap Z Tuple) (m : gmap string index) : Prop :=
  exists kt es, index_key_type desc ix = Ok kt /\ index_config size kvar (index_file desc) (idx_name ix) kt = Ok c /\
    m !! idx_name ix = Some (mkIndex kt o es) /\ good ix c L /\ (forall k r, mkLeafEntry k r ∈ es <-> has ix L k r).

Lemma has_insert ix L rid tup k r :
  has ix (<[rid := tup]> L) k r <-> r = rid /\ key_at ix tup = Some k \/ r <> rid /\ has ix L k r.
Proof.
  unfold has. destruct (decide (r = rid)) as [->|Hne].
  - rewrite lookup_insert_eq. naive_solver.
  - rewrite lookup_insert_ne by done. naive_solver.
Qed.
Lemma has_delete ix L rid k r : has ix (delete rid L) k r <-> r <> rid /\ has ix L k r.
Proof.
  unfold has. destruct (decide (r = rid)) as [->|Hne].
  - rewrite lookup_delete_eq. naive_solver.
  - rewrite lookup_delete_ne by done. naive_solver.
Qed.
Lemma has_None ix L r k : L !! r = None -> ~ has ix L k r.
Proof. intros E (tup & E' & _). congruence. Qed.

(** [good] and [holds] depend on the keys only. *)
Lemma good_ext ix c L L' : (forall k r, has ix L k r <-> has ix L' k r) -> good ix c L -> good ix c L'.
Proof. intros E [Hv Hu]. split; intros; [eapply Hv|eapply Hu]; by apply E. Qed.
Lemma holds_ext o ix c L L' m : (forall k r, has ix L k r <-> has ix L' k r) -> holds o ix c L m -> holds o ix c L' m.
Proof.
  intros E (kt & es & ? & ? & ? & Hg & Hes). exists kt, es. split_and!; try done; [by eapply good_ext|].
  intros k r. by rewrite Hes, E.
Qed.

(** Adding a key, and the row with it. *)
Lemma holds_insert ix c L m rid tup k s :
  holds true ix c L m -> n_indexes s = m -> L !! rid = None -> key_at ix tup = Some k ->
  let r := a_index size desc (ICall (idx_name ix) (TInsert k rid)) s in
  (good ix c (<[rid := tup]> L) -> r.1 = Ok tt) /\
  (r.1 = Ok tt -> exists x, r = (Ok tt, with_indexes (<[idx_name ix := x]> m) s) /\
     holds true ix c (<[rid := tup]> L) (<[idx_name ix := x]> m)).
Proof.
  intros (kt & es & Hkt & Hc & Hm & [Hv Hu] & Hes) Hs Hr Hk. cbv zeta. unfold a_index, ix_step. rewrite Hs, Hm, Hc.
  assert (has ix (<[rid := tup]> L) k rid) as Hnew by (apply has_insert; auto).
  cbn [index_do]. destruct (valid_key c k) eqn:Ev; cbn [negb].
  2: { cbn [status fst]. split; [|done]. intros [Hv' _]. by rewrite (Hv' k rid Hnew) in Ev. }
  destruct (find_key es k) as [r0|] eqn:Ef.
  - cbn [status fst]. split; [|done]. intros [_ Hu']. exfalso. apply find_key_elem, Hes in Ef as Hh.
    assert (r0 <> rid) as Hne by (intros ->; by apply (has_None _ _ _ _ Hr) in Hh).
    apply Hne, (Hu' k); [|done]. apply has_insert. auto.
  - cbn [status fst]. split; [done|]. intros _. eexists. split; [reflexivity|].
    assert (forall r, ~ has ix L k r) as Hno by (intros r Hh%Hes; by apply (proj1 (find_key_None es k) Ef) in Hh).
    exists kt, (add_key es k rid). split_and!; try done; [apply lookup_insert_eq|split|].
    + intros k' r [[-> E]|[_ Hh]]%has_insert; [congruence|by eapply Hv].
    + intros k' r r' [[-> E]|[_ Hh]]%has_insert [[-> E']|[_ Hh']]%has_insert; try done.
      * rewrite Hk in E. injection E as <-. by apply Hno in Hh'.
      * rewrite Hk in E'. injection E' as <-. by apply Hno in Hh.
      * by eapply Hu.
    + intros k' r. rewrite elem_of_add_key, has_insert, Hes by done. split.
      * intros [[= -> ->]|Hh]; [auto|]. right. split; [|done]. intros ->. by apply (has_None _ _ _ _ Hr) in Hh.
      * intros [[-> E]|[_ Hh]]; [left; congruence|auto].
Qed.

(** Removing a key, and the row with it. *)
Lemma holds_delete ix c L m rid tup k s :
  holds true ix c L m -> n_indexes s = m -> L !! rid = Some tup -> key_at ix tup = Some k ->
  exists x, a_index size desc (ICall (idx_name ix) (TDelete k)) s = (Ok tt, with_indexes (<[idx_name ix := x]> m) s) /\
    holds true ix c (delete rid L) (<[idx_name ix := x]> m).
Proof.
  intros (kt & es & Hkt & Hc & Hm & [Hv Hu] & Hes) Hs Hr Hk. unfold a_index, ix_step. rewrite Hs, Hm, Hc.
  assert (has ix L k rid) as Hold by by exists tup.
  cbn [index_do]. rewrite (Hv _ _ Hold). cbn [negb].
  destruct (find_key es k) as [r0|] eqn:Ef; [|apply Hes in Hold; by apply (proj1 (find_key_None es k) Ef) in Hold].
  eexists. split; [reflexivity|]. exists kt, (del_key es k). split_and!; try done; [apply lookup_insert_eq|split|].
  - intros k' r [_ Hh]%has_delete. by eapply Hv.
  - intros k' r r' [_ Hh]%has_delete [_ Hh']%has_delete. by eapply Hu.
  - intros k' r. rewrite elem_of_del_key, has_delete, Hes. cbn [entry_key]. split; intros [Hne Hh]; (split; [|done]); intros ->.
    + destruct Hh as (tup' & E & Ek). congruence.
    + apply Hne. by eapply Hu.
Qed.

(** ** All indexes of the table *)

Lemma holds_lookup o ix c L m m' :
  m' !! idx_name ix = m !! idx_name ix -> holds o ix c L m -> holds o ix c L m'.
Proof. intros E (kt & es & ? & ? & ? & ? & ?). exists kt, es. split_and!; try done. congruence. Qed.

Definition all_hold (o : bool) (L : gmap Z Tuple) (ixs : list IndexDescriptor) (m : gmap string index) : Prop :=
  forall ix, ix ∈ ixs -> exists c, holds o ix c L m.

(** The result of a successful step on one index. *)
Definition moved (ix : IndexDescriptor) (c : config) (L : gmap Z Tuple) (s : node) (r : result unit * node) : Prop :=
  exists x, r = (Ok tt, with_indexes (<[idx_name ix := x]> (n_indexes s)) s) /\
    holds true ix c L (<[idx_name ix := x]> (n_indexes s)).

Lemma for_holds body L L' ixs : forall s,
  NoDup (map idx_name ixs) ->
  (forall ix c s, ix ∈ ixs -> holds true ix c L (n_indexes s) -> (body ix s).1 = Ok tt -> moved ix c L' s (body ix s)) ->
  all_hold true L ixs (n_indexes s) ->
  ((a_for body ixs s).1 = Ok tt -> exists m, a_for body ixs s = (Ok tt, with_indexes m s) /\ all_hold true L' ixs m /\
     forall n, n ∉ map idx_name ixs -> m !! n = n_indexes s !! n) /\
  ((forall ix c s, ix ∈ ixs -> holds true ix c L (n_indexes s) -> (body ix s).1 = Ok tt) -> (a_for body ixs s).1 = Ok tt).
Proof.
  induction ixs as [|ix ixs IH]; intros s Hnd Hb Hall; cbn [a_for].
  { split; [|done]. intros _. exists (n_indexes s). split_and!; [by destruct s|by intros ? ?%elem_of_nil|done]. }
  apply NoDup_cons in Hnd as [Hni Hnd]. destruct (Hall ix ltac:(left)) as [c Hc]. rewrite M_bind_eq.
  assert (forall x, all_hold true L ixs (<[idx_name ix := x]> (n_indexes s))) as Hrest.
  { intros x ix' Hix'. destruct (Hall ix') as [c' Hc']; [by right|]. exists c'. eapply holds_lookup; [|done].
    apply lookup_insert_ne. intros E. apply Hni. rewrite E. by apply list_elem_of_fmap_2. }
  assert (forall ix c s, ix ∈ ixs -> holds true ix c L (n_indexes s) -> (body ix s).1 = Ok tt -> moved ix c L' s (body ix s))
    as Hb' by (intros; apply Hb; [by right|done|done]).
  split.
  - intros Hok. destruct (body ix s) as [[[]|code msg] s1] eqn:E; [|done]. 
    destruct (Hb ix c s ltac:(left) Hc) as (x & Ex & Hx); [by rewrite E|]. rewrite E in Ex. injection Ex as ->.
    destruct (IH (with_indexes (<[idx_name ix := x]> (n_indexes s)) s) Hnd Hb' (Hrest x)) as [H1 _]. destruct (H1 Hok) as (m & Em & Hm & Hout). exists m. split_and!; [exact Em| |].
    + intros ix' [->|Hix']%elem_of_cons; [|by apply Hm]. exists c. eapply holds_lookup; [|exact Hx]. by apply Hout.
    + intros n Hn. apply not_elem_of_cons in Hn as [Hne Hn]. rewrite Hout by done. cbn. by apply lookup_insert_ne.
  - intros Hok. assert ((body ix s).1 = Ok tt) as E by (apply (Hok ix c); [left|done]).
    destruct (Hb ix c s ltac:(left) Hc E) as (x & -> & _). destruct (IH (with_indexes (<[idx_name ix := x]> (n_indexes s)) s) Hnd Hb' (Hrest x)) as [_ H2].
    apply H2. intros. by apply (Hok ix0 c0); [right|].
Qed.

(** A conforming row has a value in every indexed column. *)
Lemma Extract_conforming ix kt tup :
  index_key_type desc ix = Ok kt -> conforms (schema desc) tup -> exists k, ExtractIndexKey desc ix tup = Ok k.
Proof.
  unfold index_key_type, FindColumnSchema, ExtractIndexKey. cbv zeta. intros Hkt Hc.
  destruct (_ <? 0) eqn:El; [done|]. destruct (znth (schema desc) _) as [col|] eqn:Ec; [|done].
  apply Forall2_length in Hc. apply znth_Some_range in Ec. cbn [check_not mbind result_bind].
  destruct (znth tup _) as [k|] eqn:Ek; [by exists k|]. unfold znth in Ek. rewrite El in Ek.
  apply lookup_ge_None_1 in Ek. unfold zlen in Ec. lia.
Qed.

Definition conf (ix : IndexDescriptor) (c : config) : Prop :=
  exists kt, index_key_type desc ix = Ok kt /\ index_config size kvar (index_file desc) (idx_name ix) kt = Ok c.
(** The keys of the rows are valid and distinct in every index. *)
Definition all_good (L : gmap Z Tuple) : Prop := forall ix c, ix ∈ indexes desc -> conf ix c -> good ix c L.

Lemma holds_conf o ix c L m : holds o ix c L m -> conf ix c /\ good ix c L.
Proof. intros (kt & es & ? & ? & _ & ? & _). split; [by exists kt|done]. Qed.
Lemma all_hold_good o L m : all_hold o L (indexes desc) m -> all_good L.
Proof.
  intros Hall ix c Hix (kt & Hkt & Hc). destruct (Hall ix Hix) as [c' Hh].
  destruct (holds_conf _ _ _ _ _ Hh) as [(kt' & Hkt' & Hc') Hg]. congruence.
Qed.

Context (Hnames : NoDup (index_names desc)).

(** A loop over the indexes whose body follows the rows from [L] to [L']. *)
Lemma loop_holds body L L' s :
  (forall ix c s, ix ∈ indexes desc -> holds true ix c L (n_indexes s) ->
    ((body ix s).1 = Ok tt -> moved ix c L' s (body ix s)) /\ (good ix c L' -> (body ix s).1 = Ok tt)) ->
  all_hold true L (indexes desc) (n_indexes s) ->
  ((a_for body (indexes desc) s).1 = Ok tt -> exists m, a_for body (indexes desc) s = (Ok tt, with_indexes m s) /\
     all_hold true L' (indexes desc) m) /\
  (all_good L' -> (a_for body (indexes desc) s).1 = Ok tt).
Proof.
  intros Hb Hall. destruct (for_holds body L L' (indexes desc) s Hnames) as [H1 H2]; [|done|].
  { intros ix c s' Hix Hh. by apply Hb. }
  split.
  - intros Hok. destruct (H1 Hok) as (m & E & Hm & _). by exists m.
  - intros Hg. apply H2. intros ix c s' Hix Hh. apply (Hb ix c s' Hix Hh), Hg; [done|]. by eapply holds_conf.
Qed.

(** A body that leaves an index alone. *)
Lemma moved_same ix c L L' s :
  (forall k r, has ix L k r <-> has ix L' k r) -> holds true ix c L (n_indexes s) -> moved ix c L' s (Ok tt, s).
Proof.
  intros E Hh. pose proof Hh as (kt & es & _ & _ & Hm & _). exists (mkIndex kt true es).
  rewrite insert_id by done. split; [by destruct s|by eapply holds_ext].
Qed.

Lemma key_at_Ok ix tup k : ExtractIndexKey desc ix tup = Ok k -> key_at ix tup = if is_null k then None else Some k.
Proof. unfold key_at. by intros ->. Qed.

Lemma insert_holds L s tup rid :
  all_hold true L (indexes desc) (n_indexes s) -> L !! rid = None -> conforms (schema desc) tup ->
  ((a_index_insert size desc tup rid s).1 = Ok tt -> exists m, a_index_insert size desc tup rid s = (Ok tt, with_indexes m s) /\
     all_hold true (<[rid := tup]> L) (indexes desc) m) /\
  (all_good (<[rid := tup]> L) -> (a_index_insert size desc tup rid s).1 = Ok tt).
Proof.
  intros Hall Hr Hc. apply loop_holds with (L := L); [|done]. intros ix c s' Hix Hh.
  pose proof Hh as (kt & _ & Hkt & _). destruct (Extract_conforming ix kt tup Hkt Hc) as [k Hk]. rewrite M_bind_eq, Hk.
  pose proof (key_at_Ok _ _ _ Hk) as Ha. unfold lift. destruct (is_null k).
  - split; [|done]. intros _. apply (moved_same _ _ L); [|done]. intros k' r. rewrite has_insert, Ha. split.
    + intros Hh'. right. split; [|done]. intros ->. by apply (has_None _ _ _ _ Hr) in Hh'.
    + by intros [[_ ?]|[_ ?]].
  - destruct (holds_insert ix c L _ rid tup k s' Hh eq_refl Hr Ha) as [H1 H2]. split; [exact H2|exact H1].
Qed.

Lemma all_good_delete L rid : all_good L -> all_good (delete rid L).
Proof.
  intros Hg ix c Hix Hcf. destruct (Hg ix c Hix Hcf) as [Hv Hu]. split.
  - intros k r [_ Hh]%has_delete. by eapply Hv.
  - intros k r r' [_ Hh]%has_delete [_ Hh']%has_delete. by eapply Hu.
Qed.

Lemma delete_holds L s tup rid :
  all_hold true L (indexes desc) (n_indexes s) -> L !! rid = Some tup -> conforms (schema desc) tup ->
  exists m, a_index_delete size desc tup s = (Ok tt, with_indexes m s) /\ all_hold true (delete rid L) (indexes desc) m.
Proof.
  intros Hall Hr Hc.
  enough (((a_index_delete size desc tup s).1 = Ok tt -> exists m, a_index_delete size desc tup s = (Ok tt, with_indexes m s) /\
    all_hold true (delete rid L) (indexes desc) m) /\
    (all_good (delete rid L) -> (a_index_delete size desc tup s).1 = Ok tt)) as [H1 H2].
  { eapply H1, H2, all_good_delete, all_hold_good. exact Hall. }
  apply loop_holds with (L := L); [|done]. intros ix c s' Hix Hh.
  pose proof Hh as (kt & _ & Hkt & _). destruct (Extract_conforming ix kt tup Hkt Hc) as [k Hk].
  rewrite M_bind_eq, Hk. pose proof (key_at_Ok _ _ _ Hk) as Ha. unfold lift. destruct (is_null k).
  - split; [|done]. intros _. apply (moved_same _ _ L); [|done]. intros k' r. rewrite has_delete. split; [|by intros [_ ?]].
    intros Hh'. split; [|done]. intros ->. destruct Hh' as (tup' & E & Ek). congruence.
  - destruct (holds_delete ix c L _ rid tup k s' Hh eq_refl Hr Ha) as (x & -> & Hx). split; [|done]. intros _. by exists x.
Qed.

(** The row [rid] of [L] changes from [old] to [new], seen from one index. *)
Lemma has_update_same ix L rid old new :
  L !! rid = Some old -> key_at ix old = key_at ix new -> forall k r, has ix L k r <-> has ix (<[rid := new]> L) k r.
Proof.
  intros Hr E k r. rewrite has_insert. split.
  - intros Hh. destruct (decide (r = rid)) as [->|]; [|auto]. left. split; [done|]. destruct Hh as (tup & ? & ?). congruence.
  - intros [[-> E']|[_ ?]]; [|done]. exists old. split; congruence.
Qed.
Lemma has_delete_null ix L rid old :
  L !! rid = Some old -> key_at ix old = None -> forall k r, has ix L k r <-> has ix (delete rid L) k r.
Proof.
  intros Hr E k r. rewrite has_delete. split; [|by intros [_ ?]]. intros Hh. split; [|done].
  intros ->. destruct Hh as (tup & ? & ?). congruence.
Qed.
Lemma has_insert_null ix L rid new :
  key_at ix new = None -> forall k r, has ix (delete rid L) k r <-> has ix (<[rid := new]> L) k r.
Proof. intros E k r. rewrite has_insert, has_delete, E. naive_solver. Qed.

(** Adding the new key of a row whose old key is gone. *)
Lemma holds_reinsert ix c L rid new k m s :
  holds true ix c (delete rid L) m -> n_indexes s = m -> key_at ix new = Some k ->
  let r := a_index size desc (ICall (idx_name ix) (TInsert k rid)) s in
  (good ix c (<[rid := new]> L) -> r.1 = Ok tt) /\
  (r.1 = Ok tt -> exists x, r = (Ok tt, with_indexes (<[idx_name ix := x]> m) s) /\
     holds true ix c (<[rid := new]> L) (<[idx_name ix := x]> m)).
Proof.
  intros Hh Hs Hk. destruct (holds_insert ix c (delete rid L) m rid new k s Hh Hs (lookup_delete_eq _ _) Hk) as [H1 H2].
  cbv zeta in *. rewrite insert_delete_eq in H1, H2. done.
Qed.

Lemma update_body ix c L s old new rid k1 k2 :
  holds true ix c L (n_indexes s) -> L !! rid = Some old ->
  key_at ix old = (if is_null k1 then None else Some k1) -> key_at ix new = (if is_null k2 then None else Some k2) ->
  let body : M node unit :=
    if is_null k1 && is_null k2 then mret tt
    else if is_null k1 && negb (is_null k2) then a_index size desc (ICall (idx_name ix) (TInsert k2 rid))
    else if negb (is_null k1) && is_null k2 then a_index size desc (ICall (idx_name ix) (TDelete k1))
    else if value_eqb k1 k2 then mret tt
    else _ ← a_index size desc (ICall (idx_name ix) (TDelete k1)); a_index size desc (ICall (idx_name ix) (TInsert k2 rid)) in
  ((body s).1 = Ok tt -> moved ix c (<[rid := new]> L) s (body s)) /\ (good ix c (<[rid := new]> L) -> (body s).1 = Ok tt).
Proof.
  intros Hh Hr Ha1 Ha2. cbv zeta.
  assert (key_at ix old = key_at ix new -> moved ix c (<[rid := new]> L) s (Ok tt, s)) as Hsame.
  { intros E. apply (moved_same _ _ L); [|done]. by apply (has_update_same ix L rid old). }
  destruct (is_null k1) eqn:E1, (is_null k2) eqn:E2; cbn [andb negb].
  - split; [|done]. intros _. apply Hsame. congruence.
  - assert (holds true ix c (delete rid L) (n_indexes s)) as Hd
      by (eapply holds_ext; [by eapply (has_delete_null ix L rid old)|done]).
    destruct (holds_reinsert ix c L rid new k2 _ s Hd eq_refl Ha2). by split.
  - destruct (holds_delete ix c L _ rid old k1 s Hh eq_refl Hr Ha1) as (x & -> & Hx). split; [|done]. intros _. exists x.
    split; [done|]. eapply holds_ext; [|exact Hx]. by apply has_insert_null.
  - unfold value_eqb. case_bool_decide as Ek; [subst k2; split; [|done]; intros _; apply Hsame; congruence|].
    destruct (holds_delete ix c L _ rid old k1 s Hh eq_refl Hr Ha1) as (x & E & Hx). rewrite M_bind_eq, E.
    destruct (holds_reinsert ix c L rid new k2 _ (with_indexes (<[idx_name ix := x]> (n_indexes s)) s) Hx eq_refl Ha2) as [H1 H2].
    split; [|done]. intros Hok. destruct (H2 Hok) as (y & -> & Hy). exists y.
    rewrite insert_insert_eq in Hy. cbn [n_indexes with_indexes] in *. rewrite insert_insert_eq. by split.
Qed.

Lemma update_holds L s old new rid :
  all_hold true L (indexes desc) (n_indexes s) -> L !! rid = Some old ->
  conforms (schema desc) old -> conforms (schema desc) new ->
  ((a_index_update size desc old new rid s).1 = Ok tt ->
     exists m, a_index_update size desc old new rid s = (Ok tt, with_indexes m s) /\
       all_hold true (<[rid := new]> L) (indexes desc) m) /\
  (all_good (<[rid := new]> L) -> (a_index_update size desc old new rid s).1 = Ok tt).
Proof.
  intros Hall Hr Hc Hc'. apply loop_holds with (L := L); [|done]. intros ix c s' Hix Hh.
  pose proof Hh as (kt & _ & Hkt & _). destruct (Extract_conforming ix kt old Hkt Hc) as [k1 Hk1].
  destruct (Extract_conforming ix kt new Hkt Hc') as [k2 Hk2].
  rewrite M_bind_eq, Hk1. unfold lift at 1. rewrite M_bind_eq, Hk2. unfold lift.
  apply (update_body ix c L s' old new rid k1 k2 Hh Hr); by apply key_at_Ok.
Qed.

(** ** Operations on a consistent node *)

Context (Hready : Forall (index_ready size desc) (indexes desc)) (Hcolumns : schema desc <> []) (Hschema : schema_fits (schema desc)).

(** Every index, open or not, holds the keys of the rows [L]. *)
Definition all_stored (L : gmap Z Tuple) (m : gmap string index) : Prop :=
  forall ix, ix ∈ indexes desc -> exists o c, holds o ix c L m.
(** The indexes of the node hold the keys of its live rows. *)
Definition consistent (s : node) : Prop := all_stored (live (n_rows s)) (n_indexes s).

(** The same, with every index open. *)
Definition opened (s : node) : Prop := all_hold true (live (n_rows s)) (indexes desc) (n_indexes s).

Lemma all_hold_stored L m : all_hold true L (indexes desc) m -> all_stored L m.
Proof. intros H ix Hix. destruct (H ix Hix) as [c Hc]. by exists true, c. Qed.

Lemma open_one ix c o L s :
  index_ready size desc ix -> holds o ix c L (n_indexes s) ->
  exists x, (kt ← lift (index_key_type desc ix); a_index size desc (IRegister ix kt false)) s =
      (Ok tt, with_indexes (<[idx_name ix := x]> (n_indexes s)) s) /\ holds true ix c L (<[idx_name ix := x]> (n_indexes s)).
Proof.
  intros [Hv _] (kt & es & Hkt & Hc & Hm & Hg & Hes). exists (mkIndex kt true es). split.
  - rewrite M_bind_eq, Hkt. unfold lift, a_index, ix_step, ix_register. rewrite Hv, Hm, Hc. destruct o.
    + cbn [status]. rewrite insert_id by done. done.
    + rewrite bool_decide_true by done. done.
  - exists kt, es. split_and!; try done. apply lookup_insert_eq.
Qed.

Lemma open_holds L ixs : forall s,
  Forall (index_ready size desc) ixs -> NoDup (map idx_name ixs) ->
  (forall ix, ix ∈ ixs -> exists o c, holds o ix c L (n_indexes s)) ->
  exists m, a_for (fun ix => kt ← lift (index_key_type desc ix); a_index size desc (IRegister ix kt false)) ixs s =
      (Ok tt, with_indexes m s) /\ all_hold true L ixs m /\ (forall n, n ∉ map idx_name ixs -> m !! n = n_indexes s !! n).
Proof.
  induction ixs as [|ix ixs IH]; intros s Hr Hnd Hall; cbn [a_for].
  { exists (n_indexes s). split_and!; [by destruct s|by intros ix ?%elem_of_nil|done]. }
  apply Forall_cons in Hr as [Hix Hr]. apply NoDup_cons in Hnd as [Hni Hnd].
  destruct (Hall ix ltac:(left)) as (o & c & Hh). destruct (open_one ix c o L s Hix Hh) as (x & E & Hx). rewrite M_bind_eq, E.
  destruct (IH (with_indexes (<[idx_name ix := x]> (n_indexes s)) s)) as (m & Em & Hm & Hout); [done|done| |].
  { intros ix' Hix'. destruct (Hall ix') as (o' & c' & Hc'); [by right|]. exists o', c'. eapply holds_lookup; [|done].
    apply lookup_insert_ne. intros En. apply Hni. rewrite En. by apply list_elem_of_fmap_2. }
  exists m. split_and!; [exact Em| |].
  - intros ix' [->|Hix']%elem_of_cons; [|by apply Hm]. exists c. eapply holds_lookup; [|exact Hx]. by apply Hout.
  - intros n Hn. apply not_elem_of_cons in Hn as [Hne Hn]. rewrite Hout by done. cbn. by apply lookup_insert_ne.
Qed.

(** The start of every operation: the checks pass, the indexes are open. *)
Lemma prologue {X} s (f : M node X) :
  consistent s -> n_started s = true ->
  exists m, (_ ← a_started; _ ← a_open_indexes size desc false; f) s = f (with_indexes m s) /\
    all_hold true (live (n_rows s)) (indexes desc) m.
Proof.
  intros Hc Hs. destruct (open_holds (live (n_rows s)) (indexes desc) s Hready Hnames Hc) as (m & E & Hm & _).
  exists m. split; [|done].
  assert (a_started s = (Ok tt, s)) as Ea by (unfold a_started; dunfold; by rewrite Hs).
  rewrite M_bind_eq, Ea, M_bind_eq. unfold a_open_indexes. by rewrite E.
Qed.

(** The state after an operation: rows [L], log extended by [rs]. *)
Record ends (s s' : node) (L : gmap Z Tuple) (rs : list VersionRecord) : Prop := {
  en_started : n_started s' = n_started s;
  en_live : live (n_rows s') = L;
  en_log : n_log s' = n_log s ++ rs;
  en_indexes : opened s'
}.
Lemma opened_consistent s : opened s -> consistent s.
Proof. apply all_hold_stored. Qed.
Definition record (version : option Z) (i : Z) (o : VersionOp) (old new : Tuple) : list VersionRecord :=
  match version with Some now => [mkVersionRecord now (table_name desc) i o old new] | None => [] end.

Lemma a_version_eq version i o old new s :
  a_version desc version i o old new s = (Ok tt, with_log (n_log s ++ record version i o old new) s).
Proof. destruct version; cbn; [done|]. rewrite app_nil_r. by destruct s. Qed.

Lemma ends_intro s t m L version i o old new :
  live t = L -> all_hold true L (indexes desc) m ->
  ends s (with_log (n_log s ++ record version i o old new) (mkNode (n_started s) t m (n_log s))) L (record version i o old new).
Proof. intros El Hm. split; try done. unfold opened. cbn. by rewrite El. Qed.

Lemma live_conforms s i tup : node_inv size desc s -> live (n_rows s) !! i = Some tup -> row_inv size desc (t_next (n_rows s)) i tup.
Proof. intros [[_ Hr] _] Hl%live_Some. by eapply Hr. Qed.

Lemma a_get_eq s i tup : live (n_rows s) !! i = Some tup -> a_get i s = (Ok (mkRow i tup false), s).
Proof. intros Hl%live_Some. unfold a_get, a_table, t_get. rewrite Hl. by destruct s. Qed.
Lemma a_get_None s i : live (n_rows s) !! i = None -> exists msg, a_get i s = (Err kNotFound msg, s).
Proof.
  intros Hl. unfold a_get, a_table, t_get. destruct (t_rows (n_rows s) !! i) as [[tup []]|] eqn:E.
  - eexists. by destruct s.
  - apply live_Some in E. congruence.
  - eexists. by destruct s.
Qed.

Lemma insert_ok s tup version i :
  node_inv size desc s -> consistent s -> n_started s = true -> Forall value_ok tup ->
  (a_insert size desc tup version s).1 = Ok i ->
  exists new, i = t_next (n_rows s) /\ live (n_rows s) !! i = None /\ PrepareTupleForWrite desc tup = Ok new /\
    ends s (a_insert size desc tup version s).2 (<[i := new]> (live (n_rows s))) (record version i voInsert [] new).
Proof.
  intros Hinv Hcon Hs Hv. unfold a_insert. destruct (prologue s (i ← a_table (checked desc tup (t_insert size));
    row ← a_get i; _ ← a_index_insert size desc (tuple row) i; _ ← a_version desc version i voInsert [] (tuple row); mret i) Hcon Hs)
    as (m & -> & Hm).
  rewrite M_bind_eq. unfold a_table, checked. cbn [n_rows with_indexes].
  destruct (PrepareTupleForWrite desc tup) as [new|] eqn:Ep; [|done]. unfold t_insert.
  destruct (RowTable.entry_fits _ _); [|done]. set (n := t_next (n_rows s)).
  assert (live (n_rows s) !! n = None) as Hn.
  { destruct (live (n_rows s) !! n) eqn:E; [|done]. apply live_conforms in E as ((_ & ?) & _); [|done]. unfold n in *. lia. }
  set (t' := mkTable (<[n := (new, false)]> (t_rows (n_rows s))) (n + 1)).
  assert (live t' = <[n := new]> (live (n_rows s))) as Hl by apply live_set.
  rewrite M_bind_eq, (a_get_eq _ n new) by (cbn [n_rows with_rows with_indexes]; rewrite Hl; apply lookup_insert_eq). cbn [tuple].
  assert (conforms (schema desc) new) as Hcf by by apply PrepareTupleForWrite_Ok in Ep as (_ & _ & _ & ?).
  destruct (insert_holds (live (n_rows s)) (with_rows t' (with_indexes m s)) new n Hm Hn Hcf) as [H1 _].
  rewrite M_bind_eq. destruct (a_index_insert _ _ _ _ _) as [[[]|] s2] eqn:Ei; [|done].
  destruct (H1 eq_refl) as (m' & [= ->] & Hm'). rewrite M_bind_eq, a_version_eq. intros [= <-]. exists new.
  split_and!; try done. by apply (ends_intro s t' m').
Qed.

(** An insert succeeds when the row fits and its keys are valid and new. *)
Lemma insert_accepts s tup version new :
  node_inv size desc s -> consistent s -> n_started s = true -> PrepareTupleForWrite desc tup = Ok new ->
  RowTable.entry_fits size (mkRow (t_next (n_rows s)) new false) = true -> all_good (<[t_next (n_rows s) := new]> (live (n_rows s))) ->
  (a_insert size desc tup version s).1 = Ok (t_next (n_rows s)).
Proof.
  intros Hinv Hcon Hs Hp Hf Hg. unfold a_insert. destruct (prologue s (i ← a_table (checked desc tup (t_insert size));
    row ← a_get i; _ ← a_index_insert size desc (tuple row) i; _ ← a_version desc version i voInsert [] (tuple row); mret i) Hcon Hs)
    as (m & -> & Hm).
  rewrite M_bind_eq. unfold a_table, checked. cbn [n_rows with_indexes]. rewrite Hp. unfold t_insert. rewrite Hf. clear Hf.
  set (n := t_next (n_rows s)) in *.
  assert (live (n_rows s) !! n = None) as Hn.
  { destruct (live (n_rows s) !! n) eqn:E; [|done]. apply live_conforms in E as ((_ & ?) & _); [|done]. unfold n in *. lia. }
  set (t' := mkTable (<[n := (new, false)]> (t_rows (n_rows s))) (n + 1)).
  rewrite M_bind_eq, (a_get_eq _ n new) by (cbn [n_rows with_rows with_indexes]; unfold t'; rewrite live_set; apply lookup_insert_eq). cbn [tuple].
  assert (conforms (schema desc) new) as Hcf by by apply PrepareTupleForWrite_Ok in Hp as (_ & _ & _ & ?).
  destruct (insert_holds (live (n_rows s)) (with_rows t' (with_indexes m s)) new n Hm Hn Hcf) as [_ H2].
  rewrite M_bind_eq. specialize (H2 Hg). destruct (a_index_insert _ _ _ _ _) as [[[]|] s2]; [|done]. by rewrite M_bind_eq, a_version_eq.
Qed.

Lemma delete_ok s i version tup :
  node_inv size desc s -> consistent s -> n_started s = true -> live (n_rows s) !! i = Some tup ->
  (a_delete size desc i version s).1 = Ok tt /\
  ends s (a_delete size desc i version s).2 (delete i (live (n_rows s))) (record version i voDelete tup []).
Proof.
  intros Hinv Hcon Hs Hi. unfold a_delete. destruct (prologue s (old ← a_get i; _ ← a_index_delete size desc (tuple old);
    _ ← a_table (t_delete i); a_version desc version i voDelete (tuple old) []) Hcon Hs) as (m & -> & Hm).
  rewrite M_bind_eq, (a_get_eq _ i tup) by done. cbn [tuple]. destruct (live_conforms _ _ _ Hinv Hi) as (_ & Hcf & _).
  destruct (delete_holds (live (n_rows s)) (with_indexes m s) tup i Hm Hi Hcf) as (m' & Ei & Hm').
  rewrite M_bind_eq, Ei, M_bind_eq. unfold a_table, t_delete. cbn [n_rows with_indexes].
  pose proof (proj1 (live_Some _ _ _) Hi) as Hrow. rewrite Hrow, a_version_eq. split; [done|].
  apply (ends_intro s (t_set i (tup, true) (n_rows s)) m'); [apply live_kill|done].
Qed.
Lemma delete_live s i version :
  consistent s -> n_started s = true -> (a_delete size desc i version s).1 = Ok tt -> exists tup, live (n_rows s) !! i = Some tup.
Proof.
  intros Hcon Hs. unfold a_delete. destruct (prologue s (old ← a_get i; _ ← a_index_delete size desc (tuple old);
    _ ← a_table (t_delete i); a_version desc version i voDelete (tuple old) []) Hcon Hs) as (m & -> & Hm).
  rewrite M_bind_eq. destruct (live (n_rows s) !! i) as [tup|] eqn:E; [by exists tup|].
  by destruct (a_get_None (with_indexes m s) i E) as (msg & ->).
Qed.

Lemma update_ok s i tup version old new :
  node_inv size desc s -> consistent s -> n_started s = true -> live (n_rows s) !! i = Some old ->
  PrepareTupleForWrite desc tup = Ok new -> RowTable.entry_fits size (mkRow i new false) = true ->
  ((a_update size desc i tup version s).1 = Ok tt ->
    ends s (a_update size desc i tup version s).2 (<[i := new]> (live (n_rows s))) (record version i voUpdate old new)) /\
  (all_good (<[i := new]> (live (n_rows s))) -> (a_update size desc i tup version s).1 = Ok tt).
Proof.
  intros Hinv Hcon Hs Hi Ep Hfit. unfold a_update.
  destruct (prologue s (old ← a_get i; _ ← a_table (checked desc tup (t_update size i)); new ← a_get i;
    _ ← a_index_update size desc (tuple old) (tuple new) i; a_version desc version i voUpdate (tuple old) (tuple new)) Hcon Hs)
    as (m & -> & Hm).
  rewrite M_bind_eq, (a_get_eq _ i old) by done. cbn [tuple]. rewrite M_bind_eq. unfold a_table, checked, t_update.
  cbn [n_rows with_indexes]. pose proof (proj1 (live_Some _ _ _) Hi) as Hrow. rewrite Ep, Hrow, Hfit.
  set (t' := t_set i (new, false) (n_rows s)). assert (live t' = <[i := new]> (live (n_rows s))) as Hl by apply live_set.
  rewrite M_bind_eq, (a_get_eq _ i new) by (cbn [n_rows with_rows with_indexes]; rewrite Hl; apply lookup_insert_eq). cbn [tuple].
  destruct (live_conforms _ _ _ Hinv Hi) as (_ & Hcf & _).
  assert (conforms (schema desc) new) as Hcf' by by apply PrepareTupleForWrite_Ok in Ep as (_ & _ & _ & ?).
  destruct (update_holds (live (n_rows s)) (with_rows t' (with_indexes m s)) old new i Hm Hi Hcf Hcf') as [H1 H2].
  rewrite M_bind_eq. split.
  - destruct (a_index_update _ _ _ _ _ _) as [[[]|] s2] eqn:Ei; [|done]. destruct (H1 eq_refl) as (m' & [= ->] & Hm').
    intros _. rewrite a_version_eq. by apply (ends_intro s t' m').
  - intros Hg. specialize (H2 Hg). destruct (a_index_update _ _ _ _ _ _) as [[[]|] s2] eqn:Ei; [|done]. by rewrite a_version_eq.
Qed.
Lemma update_live s i tup version :
  consistent s -> n_started s = true -> (a_update size desc i tup version s).1 = Ok tt ->
  exists old new, live (n_rows s) !! i = Some old /\ PrepareTupleForWrite desc tup = Ok new /\
    RowTable.entry_fits size (mkRow i new false) = true.
Proof.
  intros Hcon Hs. unfold a_update.
  destruct (prologue s (old ← a_get i; _ ← a_table (checked desc tup (t_update size i)); new ← a_get i;
    _ ← a_index_update size desc (tuple old) (tuple new) i; a_version desc version i voUpdate (tuple old) (tuple new)) Hcon Hs)
    as (m & -> & Hm).
  rewrite M_bind_eq. destruct (live (n_rows s) !! i) as [old|] eqn:E; [|by destruct (a_get_None (with_indexes m s) i E) as (msg & ->)].
  rewrite (a_get_eq _ i old) by done. rewrite M_bind_eq. unfold a_table, checked, t_update. cbn [n_rows with_indexes].
  destruct (PrepareTupleForWrite desc tup) as [new|] eqn:Ep; [|done]. pose proof (proj1 (live_Some _ _ _) E) as Hrow. rewrite Hrow.
  destruct (RowTable.entry_fits _ _) eqn:Ef; [|done]. intros _. by exists old, new.
Qed.

Definition restore_rest (i : Z) (tup : Tuple) (version : option Z) : M node unit :=
  existing ← status_of (a_get i);
  _ ← match existing with
      | Ok _ => throw kAlreadyExists "Row already exists"
      | Err code msg => reject_if (negb (bool_decide (code = kNotFound))) code msg
      end;
  _ ← a_table (checked desc tup (fun tup' t => (Ok tt, t_restore i tup' t)));
  row ← a_get i;
  _ ← a_index_insert size desc (tuple row) i;
  a_version desc version i voInsert [] (tuple row).

Lemma restore_ok s i tup version :
  node_inv size desc s -> consistent s -> n_started s = true -> live (n_rows s) !! i = None -> conforms (schema desc) tup ->
  ((a_restore size desc i tup version s).1 = Ok tt ->
    ends s (a_restore size desc i tup version s).2 (<[i := tup]> (live (n_rows s))) (record version i voInsert [] tup)) /\
  (all_good (<[i := tup]> (live (n_rows s))) -> (a_restore size desc i tup version s).1 = Ok tt).
Proof.
  intros Hinv Hcon Hs Hi Hcf. unfold a_restore.
  destruct (prologue s (restore_rest i tup version) Hcon Hs) as (m & E & Hm). unfold restore_rest in E. rewrite E. clear E.
  destruct (a_get_None (with_indexes m s) i Hi) as (msg & Eg).
  assert (status_of (a_get i) (with_indexes m s) = (Ok (Err kNotFound msg), with_indexes m s)) as Es
    by (unfold status_of; by rewrite Eg).
  rewrite M_bind_eq, Es, M_bind_eq. rewrite bool_decide_true by done. cbn [negb reject_if].
  unfold mret, M_ret. rewrite M_bind_eq. unfold a_table, checked. rewrite (Prepare_conforming _ _ Hcolumns Hcf).
  cbn [n_rows with_indexes]. set (t' := t_restore i tup (n_rows s)).
  assert (live t' = <[i := tup]> (live (n_rows s))) as Hl by apply live_set.
  rewrite M_bind_eq, (a_get_eq _ i tup) by (cbn [n_rows with_rows with_indexes]; rewrite Hl; apply lookup_insert_eq). cbn [tuple].
  destruct (insert_holds (live (n_rows s)) (with_rows t' (with_indexes m s)) tup i Hm Hi Hcf) as [H1 H2].
  rewrite M_bind_eq. split.
  - destruct (a_index_insert _ _ _ _ _) as [[[]|] s2] eqn:Ei; [|done]. destruct (H1 eq_refl) as (m' & [= ->] & Hm').
    intros _. rewrite a_version_eq. exact (ends_intro s t' m' _ version i voInsert [] tup Hl Hm').
  - intros Hg. specialize (H2 Hg). destruct (a_index_insert _ _ _ _ _) as [[[]|] s2] eqn:Ei; [|done]. by rewrite a_version_eq.
Qed.
Lemma restore_dead s i tup version :
  consistent s -> n_started s = true -> (a_restore size desc i tup version s).1 = Ok tt -> live (n_rows s) !! i = None.
Proof.
  intros Hcon Hs. unfold a_restore.
  destruct (prologue s (restore_rest i tup version) Hcon Hs) as (m & E & Hm). unfold restore_rest in E. rewrite E. clear E.
  destruct (live (n_rows s) !! i) as [old|] eqn:Ei; [|done]. rewrite M_bind_eq.
  assert (status_of (a_get i) (with_indexes m s) = (Ok (Ok (mkRow i old false)), with_indexes m s)) as Es
    by (unfold status_of; by rewrite (a_get_eq _ i old)). by rewrite Es.
Qed.
Lemma not_started {X} s (f : M node X) x : n_started s = false -> ((_ ← a_started; f) s).1 <> Ok x.
Proof. intros Hs. rewrite M_bind_eq. unfold a_started. dunfold. by rewrite Hs. Qed.
End indexes.
