(* ===== verification/EngineRevert.v ===== *)
(** * Consistency of the indexes, and revert

    Successful calls keep every index equal to the keys of the live rows, and
    reverting a table to a time undoes exactly the calls after it. *)

From S2P Require Import Prelude BinaryIO Values Serialization Disk PageStore PageManager.
From S2P Require Import BStarTree BStarTreePages BStarTreeHeap BStarTreeOrder BStarTreeSearch BStarTreeSpec.
From S2P Require Import RowStore RowStoreSpec RowTable TableStorage VersionLog Catalog CatalogSpec KeyEncoder.
From S2P Require Import IndexManager Engine EngineSpec EngineSim EngineTable EngineRun EngineCreate EngineIndex.

Lemma filter_all {A} (Q : A -> Prop) `{forall x, Decision (Q x)} l : Forall Q l -> filter Q l = l.
Proof. induction 1 as [|x l Hx _ IH]; [done|]. by rewrite filter_cons_True, IH. Qed.
Lemma filter_none {A} (Q : A -> Prop) `{forall x, Decision (Q x)} l : Forall (fun x => ~ Q x) l -> filter Q l = [].
Proof. induction 1 as [|x l Hx _ IH]; [done|]. by rewrite filter_cons_False. Qed.

Section revert.
Context (size : Z) (desc : TableDescriptor).
Context (Hnames : NoDup (index_names desc)) (Hready : Forall (index_ready size desc) (indexes desc)).
Context (Hcolumns : schema desc <> []) (Hschema : schema_fits (schema desc)).

(** A node between calls. *)
Definition sound (s : node) : Prop := node_inv size desc s /\ consistent size desc s.

(** The record [r] leads from the rows [L] to the rows [L']. *)
Definition leads (r : VersionRecord) (L L' : gmap Z Tuple) : Prop :=
  match vr_op r with
  | voInsert => L !! vr_rid r = None /\ L' = <[vr_rid r := after r]> L
  | voDelete => L !! vr_rid r = Some (before r) /\ L' = delete (vr_rid r) L
  | voUpdate => L !! vr_rid r = Some (before r) /\ L' = <[vr_rid r := after r]> L
  | voOther _ => False
  end.

(** ** A successful call *)

Definition is_error (r : node_reply) : bool := match r with NError _ => true | _ => false end.
Definition op_time (o : engine_op) : option Z :=
  match o with EInsert now _ | EUpdate now _ _ | EDelete now _ => Some now | _ => None end.

Lemma reply_ok {A S} (f : A -> node_reply) (r : result A * S) :
  (forall a, is_error (f a) = false) -> is_error (reply_of f NError r).1 = false -> exists a, r.1 = Ok a.
Proof. intros Hf. unfold reply_of. cbn [fst]. destruct r.1 as [a|]; [by exists a|done]. Qed.

(** A write leaves one record behind that leads from the old rows to the new. *)
Lemma write_step o s now :
  sound s -> engine_op_ok o -> op_time o = Some now -> is_error (a_step size desc o s).1 = false ->
  exists r, ends size desc s (a_step size desc o s).2 (live (n_rows (a_step size desc o s).2)) [r] /\
    leads r (live (n_rows s)) (live (n_rows (a_step size desc o s).2)) /\ timestamp_ms r = now /\ vr_table_name r = table_name desc.
Proof.
  intros [Hinv Hcon] Ho Ht Hok.
  assert (n_started s = true) as Hs.
  { destruct (n_started s) eqn:Es; [done|]. exfalso. destruct o; try done; cbn [a_step] in Hok;
      (apply reply_ok in Hok as [x Hx]; [|done]); by apply not_started in Hx. }
  destruct o; try done; cbn [a_step op_time engine_op_ok reply_of snd] in *; injection Ht as ->;
    (apply reply_ok in Hok as [x Hx]; [|done]).
  - destruct Ho as [_ Hv].
    destruct (insert_ok size desc Hnames Hready s tup (Some now) x Hinv Hcon Hs Hv Hx) as (new & Ei & Hi & _ & He).
    eexists. rewrite (en_live _ _ _ _ _ _ He). split_and!; [exact He|by split|done|done].
  - destruct x. destruct (update_live size desc Hnames Hready s i tup (Some now) Hcon Hs Hx) as (old & new & Hi & Hp & Hf).
    destruct (update_ok size desc Hnames Hready s i tup (Some now) old new Hinv Hcon Hs Hi Hp Hf) as [He _]. specialize (He Hx).
    eexists. rewrite (en_live _ _ _ _ _ _ He). split_and!; [exact He|by split|done|done].
  - destruct x. destruct (delete_live size desc Hnames Hready s i (Some now) Hcon Hs Hx) as (tup & Hi).
    destruct (delete_ok size desc Hnames Hready s i (Some now) tup Hinv Hcon Hs Hi) as [_ He].
    eexists. rewrite (en_live _ _ _ _ _ _ He). split_and!; [exact He|by split|done|done].
Qed.

(** ** Undoing a record *)

Abbreviation good := (all_good size desc).

Lemma consistent_good s : consistent size desc s -> good (live (n_rows s)).
Proof.
  intros Hcon ix c Hix (kt & Hkt & Hc). destruct (Hcon ix Hix) as (o & c' & Hh).
  destruct (holds_conf _ _ _ _ _ _ _ Hh) as [(kt' & Hkt' & Hc') Hg]. congruence.
Qed.

Lemma inverse_inv r s : rec_inv size desc (t_next (n_rows s)) r -> node_inv size desc s -> node_inv size desc (a_inverse size desc r s).2.
Proof.
  intros Hr Hs. unfold a_inverse. unfold rec_inv in Hr. destruct (vr_op r); try done.
  - apply (know_delete size desc Hschema [] (vr_rid r) None); [done|constructor].
  - destruct Hr as (_ & _ & ? & _). apply (know_update size desc Hschema [] (vr_rid r) (before r) None); [done|done|constructor].
  - apply (know_restore size desc [(vr_rid r, before r)] (vr_rid r) (before r) None); [done|left|done|]. by constructor.
Qed.

(** From rows that [r] leads to, its inverse goes back. *)
Lemma undo_step r s L :
  sound s -> n_started s = true -> leads r L (live (n_rows s)) -> good L -> rec_inv size desc (t_next (n_rows s)) r ->
  (a_inverse size desc r s).1 = Ok tt /\ ends size desc s (a_inverse size desc r s).2 L [].
Proof.
  intros [Hinv Hcon] Hs Hl Hg Hr. unfold leads, a_inverse, rec_inv in *. destruct (vr_op r); try done.
  - destruct Hl as [Hn El].
    destruct (delete_ok size desc Hnames Hready s (vr_rid r) None (after r) Hinv Hcon Hs) as [H1 H2].
    { rewrite El. apply lookup_insert_eq. }
    rewrite El, delete_insert_id in H2 by done. by split.
  - destruct Hl as [Hn El]. destruct Hr as (_ & Hcf & Hv & Hfit).
    destruct (update_ok size desc Hnames Hready s (vr_rid r) (before r) None (after r) (before r) Hinv Hcon Hs) as [H1 H2]; [|by apply Prepare_conforming|done|].
    { rewrite El. apply lookup_insert_eq. }
    rewrite El, insert_insert_eq, insert_id in H1, H2 by done. split; [by apply H2|by apply H1, H2].
  - destruct Hl as [Hn El]. destruct Hr as (_ & Hcf & Hv & Hfit).
    destruct (restore_ok size desc Hnames Hready Hcolumns s (vr_rid r) (before r) None Hinv Hcon Hs) as [H1 H2]; [|done|].
    { rewrite El. apply lookup_delete_eq. }
    rewrite El, insert_delete_id in H1, H2 by done. split; [by apply H2|by apply H1, H2].
Qed.

(** The records [rs] lead from [L] to [L'], over rows with good keys. *)
Inductive trail (L : gmap Z Tuple) : list VersionRecord -> gmap Z Tuple -> Prop :=
  | trail_nil : trail L [] L
  | trail_snoc rs r L1 L2 : trail L rs L1 -> good L1 -> leads r L1 L2 -> trail L (rs ++ [r]) L2.

Lemma undo_trail L rs L' : trail L rs L' -> forall s,
  sound s -> n_started s = true -> live (n_rows s) = L' -> (forall r, r ∈ rs -> r ∈ n_log s) ->
  (a_inverses size desc (rev rs) s).1 = Ok tt /\ live (n_rows (a_inverses size desc (rev rs) s).2) = L /\
  n_started (a_inverses size desc (rev rs) s).2 = true.
Proof.
  induction 1 as [|rs r L1 L2 Htr IH Hg Hl]; intros s Hs Hst El Hrs; [done|]. subst L2.
  assert (rec_inv size desc (t_next (n_rows s)) r) as Hr.
  { destruct Hs as [[_ Hlog] _]. eapply Forall_forall in Hlog; [exact Hlog|]. apply Hrs. set_solver. }
  destruct (undo_step r s L1 Hs Hst Hl Hg Hr) as [H1 [E1 E2 E3 E4%opened_consistent]].
  rewrite rev_app_distr. cbn [rev app a_inverses]. rewrite M_bind_eq.
  pose proof (inverse_inv r s Hr (proj1 Hs)) as Hinv.
  destruct (a_inverse size desc r s) as [r1 s1]. cbn [fst snd] in *. subst r1. apply IH; [by split|congruence|done|].
  intros r' Hr'. rewrite E3, app_nil_r. apply Hrs. set_solver.
Qed.

(** ** Successful runs *)

(** An inverse that succeeds keeps the indexes consistent as well. *)
Lemma inverse_sound r s :
  sound s -> rec_inv size desc (t_next (n_rows s)) r -> (a_inverse size desc r s).1 = Ok tt ->
  sound (a_inverse size desc r s).2 /\ n_log (a_inverse size desc r s).2 = n_log s /\ opened size desc (a_inverse size desc r s).2.
Proof.
  intros [Hinv Hcon] Hr Hok. pose proof (inverse_inv r s Hr Hinv) as Hinv'.
  assert (n_started s = true) as Hs.
  { destruct (n_started s) eqn:Es; [done|]. exfalso. unfold a_inverse in Hok.
    destruct (vr_op r); try done; by apply not_started in Hok. }
  enough (exists L, ends size desc s (a_inverse size desc r s).2 L []) as (L & [_ _ El He]).
  { split; [split; [done|by apply opened_consistent]|]. by rewrite El, app_nil_r. }
  unfold a_inverse, rec_inv in *. destruct (vr_op r); try done.
  - destruct (delete_live size desc Hnames Hready s (vr_rid r) None Hcon Hs Hok) as (tup & Hi). eexists.
    by apply (delete_ok size desc Hnames Hready s (vr_rid r) None tup).
  - destruct (update_live size desc Hnames Hready s (vr_rid r) (before r) None Hcon Hs Hok) as (old & new & Hi & Hp & Hf). eexists.
    by apply (update_ok size desc Hnames Hready s (vr_rid r) (before r) None old new).
  - pose proof (restore_dead size desc Hnames Hready s (vr_rid r) (before r) None Hcon Hs Hok) as Hi. eexists.
    apply (restore_ok size desc Hnames Hready Hcolumns s (vr_rid r) (before r) None); try done. apply Hr.
Qed.

Lemma inverses_sound rs : forall s,
  sound s -> (forall r, r ∈ rs -> r ∈ n_log s) -> (a_inverses size desc rs s).1 = Ok tt ->
  sound (a_inverses size desc rs s).2 /\ n_log (a_inverses size desc rs s).2 = n_log s /\
  (opened size desc s -> opened size desc (a_inverses size desc rs s).2).
Proof.
  induction rs as [|r rs IH]; intros s Hs Hrs; cbn [a_inverses]; [done|]. rewrite M_bind_eq.
  assert (rec_inv size desc (t_next (n_rows s)) r) as Hr.
  { destruct Hs as [[_ Hlog] _]. eapply Forall_forall in Hlog; [exact Hlog|]. apply Hrs. left. }
  pose proof (inverse_sound r s Hs Hr) as H1. destruct (a_inverse size desc r s) as [[[]|] s1]; [|done].
  destruct (H1 eq_refl) as (Hs1 & E1 & Ho1). cbn [fst snd] in *. intros Hok.
  destruct (IH s1 Hs1) as (Hs2 & E2 & Ho2); [|done|split_and!; [done|congruence|auto]]. intros r' Hr'. rewrite E1. apply Hrs. by right.
Qed.

Lemma rollback_in_log ts l r : r ∈ rev (CollectRollbackRecords (table_name desc) l ts) -> r ∈ l.
Proof. intros Hr. apply list_elem_of_In, in_rev, list_elem_of_In in Hr. by apply list_elem_of_filter in Hr as [_ ?]. Qed.

(** A successful call keeps the node sound; only writes change the log. *)
Lemma step_sound o s :
  sound s -> engine_op_ok o -> is_error (a_step size desc o s).1 = false ->
  sound (a_step size desc o s).2 /\ (op_time o = None -> n_log (a_step size desc o s).2 = n_log s).
Proof.
  intros Hs Ho Hok. pose proof Hs as [Hinv Hcon]. pose proof (a_step_inv size desc Hschema Hcolumns o s Ho Hinv) as Hinv'.
  destruct (op_time o) as [now|] eqn:Et.
  - destruct (write_step o s now Hs Ho Et Hok) as (r & [_ _ _ He%opened_consistent] & _). by split.
  - destruct o; try done; cbn [a_step reply_of fst snd] in *.
    + apply reply_ok in Hok as [[] Hx]; [|done]. unfold a_revert in *. rewrite M_bind_eq in *. cbn [get fst snd] in *.
      destruct (fun H => inverses_sound _ s Hs H Hx) as (H1 & H2 & _); [|by split]. intros r Hr. by eapply rollback_in_log.
    + split; [|done]. split; [done|]. intros ix Hix. destruct (Hcon ix Hix) as (o & c & kt & es & Hkt & Hc & Hm & Hg & Hes).
      exists false, c, kt, es. split_and!; try done. cbn. by rewrite lookup_fmap, Hm.
Qed.

(** Short of a restart, the indexes stay open. *)
Lemma step_opened o s :
  sound s -> engine_op_ok o -> is_error (a_step size desc o s).1 = false -> o <> ERestart -> opened size desc s ->
  opened size desc (a_step size desc o s).2.
Proof.
  intros Hs Ho Hok Hne Hop. destruct (op_time o) as [now|] eqn:Et.
  - by destruct (write_step o s now Hs Ho Et Hok) as (r & [_ _ _ He] & _).
  - destruct o; try done; cbn [a_step reply_of fst snd] in *.
    apply reply_ok in Hok as [[] Hx]; [|done]. unfold a_revert in *. rewrite M_bind_eq in *. cbn [get fst snd] in *.
    destruct (fun H => inverses_sound _ s Hs H Hx) as (_ & _ & H3); [|by apply H3]. intros r Hr. by eapply rollback_in_log.
Qed.

Definition succeeds (os : list engine_op) (s : node) : Prop := Forall (fun r => is_error r = false) (a_run size desc os s).1.

Lemma run_app os os' s :
  a_run size desc (os ++ os') s = ((a_run size desc os s).1 ++ (a_run size desc os' (a_run size desc os s).2).1,
    (a_run size desc os' (a_run size desc os s).2).2).
Proof.
  revert s. induction os as [|o os IH]; intros s; cbn [app a_run fst snd]; [by destruct (a_run size desc os' s)|].
  destruct (a_step size desc o s) as [r s1]. rewrite IH. by destruct (a_run size desc os s1).
Qed.

Lemma run_sound os : forall s,
  sound s -> Forall engine_op_ok os -> succeeds os s -> sound (a_run size desc os s).2.
Proof.
  unfold succeeds. induction os as [|o os IH]; intros s Hs Hops Hok; cbn [a_run] in *; [done|].
  apply Forall_cons in Hops as [Ho Hops]. pose proof (step_sound o s Hs Ho) as H1.
  destruct (a_step size desc o s) as [r s1]. specialize (IH s1). destruct (a_run size desc os s1) as [rs s2]. cbn [fst snd] in *.
  apply Forall_cons in Hok as [Hr Hok]. apply IH; [by apply H1|done|done].
Qed.

Lemma run_opened os : forall s,
  sound s -> Forall engine_op_ok os -> succeeds os s -> ERestart ∉ os -> opened size desc s -> opened size desc (a_run size desc os s).2.
Proof.
  unfold succeeds. induction os as [|o os IH]; intros s Hs Hops Hok Hno Hop; cbn [a_run] in *; [done|].
  apply Forall_cons in Hops as [Ho Hops]. apply not_elem_of_cons in Hno as [Hne Hno].
  pose proof (step_sound o s Hs Ho) as H1. pose proof (step_opened o s Hs Ho) as H2.
  destruct (a_step size desc o s) as [r s1]. specialize (IH s1). destruct (a_run size desc os s1) as [rs s2]. cbn [fst snd] in *.
  apply Forall_cons in Hok as [Hr Hok]. apply IH; [by apply H1|done|done|done|by apply H2].
Qed.

(** The times of the writes. *)
Definition times (Q : Z -> Prop) (os : list engine_op) : Prop :=
  Forall (fun o => match op_time o with Some now => Q now | None => True end) os.
Definition is_revert (o : engine_op) : bool := match o with ERevert _ => true | _ => false end.

Lemma run_log Q os : forall s,
  sound s -> Forall engine_op_ok os -> succeeds os s -> times Q os ->
  exists rs, n_log (a_run size desc os s).2 = n_log s ++ rs /\
    Forall (fun r => Q (timestamp_ms r) /\ vr_table_name r = table_name desc) rs /\
    (Forall (fun o => is_revert o = false) os -> trail (live (n_rows s)) rs (live (n_rows (a_run size desc os s).2))).
Proof.
  induction os as [|o os IH] using rev_ind; intros s Hs Hops Hok Ht.
  { exists []. rewrite app_nil_r. split_and!; [done|constructor|intros _; constructor]. }
  apply Forall_app in Hops as [Hops Ho]. apply Forall_app in Ht as [Ht Hto].
  apply Forall_cons in Ho as [Ho _]. apply Forall_cons in Hto as [Hto _].
  unfold succeeds in Hok. rewrite run_app in Hok |- *. cbn [fst snd] in *. apply Forall_app in Hok as [Hok Hoko].
  destruct (IH s Hs Hops Hok Ht) as (rs & El & Hrs & Htr). pose proof (run_sound os s Hs Hops Hok) as Hs1.
  set (s1 := (a_run size desc os s).2) in *. cbn [a_run fst snd] in *.
  assert (is_error (a_step size desc o s1).1 = false) as Hok1 by (destruct (a_step size desc o s1); by apply Forall_cons in Hoko as [? _]).
  assert ((let '(r, s2) := a_step size desc o s1 in ([r], s2)).2 = (a_step size desc o s1).2) as E2 by by destruct (a_step size desc o s1).
  rewrite E2 in *. destruct (op_time o) as [now|] eqn:Et.
  - destruct (write_step o s1 now Hs1 Ho Et Hok1) as (r & [_ _ E3 _] & Hl & Hr & Hn). exists (rs ++ [r]). split_and!.
    + by rewrite E3, El, app_assoc.
    + apply Forall_app. split; [done|]. constructor; [|done]. by rewrite Hr.
    + intros [Hno _]%Forall_app. eapply trail_snoc; [by apply Htr|by apply consistent_good, Hs1|done].
  - destruct (step_sound o s1 Hs1 Ho Hok1) as [_ E3]. exists rs. split_and!; [by rewrite E3|done|].
    intros [Hno Hno1]%Forall_app. apply Forall_cons in Hno1 as [Hno1 _].
    assert (n_rows (a_step size desc o s1).2 = n_rows s1) as -> by by destruct o. by apply Htr.
Qed.

(** Reverting a sound node whose last calls are [os]. *)
Lemma revert_run os s ts :
  sound s -> Forall engine_op_ok os -> succeeds os s -> times (fun now => ts < now) os ->
  Forall (fun o => is_revert o = false) os -> Forall (fun r => timestamp_ms r <= ts) (n_log s) ->
  n_started (a_run size desc os s).2 = true ->
  (a_revert size desc ts (a_run size desc os s).2).1 = Ok tt /\
  live (n_rows (a_revert size desc ts (a_run size desc os s).2).2) = live (n_rows s) /\
  n_started (a_revert size desc ts (a_run size desc os s).2).2 = true.
Proof.
  intros Hs Hops Hok Ht Hno Hold Hst. destruct (run_log _ os s Hs Hops Hok Ht) as (rs & El & Hrs & Htr).
  pose proof (run_sound os s Hs Hops Hok) as Hs1. set (s1 := (a_run size desc os s).2) in *.
  unfold a_revert. rewrite M_bind_eq. cbn [get fst snd].
  assert (CollectRollbackRecords (table_name desc) (n_log s1) ts = rs) as ->.
  { rewrite El. unfold CollectRollbackRecords. rewrite filter_app, filter_none, filter_all; [done|..].
    - eapply Forall_impl; [exact Hrs|]. by intros r [].
    - eapply Forall_impl; [exact Hold|]. intros r Hr [_ ?]. cbn in Hr. lia. }
  eapply undo_trail; [by apply Htr|done|done|done|]. intros r Hr. rewrite El. set_solver.
Qed.
Lemma run_log_length os s : zlen (n_log (a_run size desc os s).2) <= zlen (n_log s) + zlen os.
Proof.
  revert s. induction os as [|o os IH]; intros s; cbn [a_run]; [change (zlen []) with 0; cbn [snd]; lia|].
  pose proof (a_step_log size desc o s) as H1. destruct (a_step size desc o s) as [r s1]. specialize (IH s1).
  destruct (a_run size desc os s1). cbn [snd] in *. rewrite zlen_cons. lia.
Qed.

(** The node before and after: started, then scanned; started, reverted, then
    scanned. *)
Lemma revert_scan os s ts :
  sound s -> Forall engine_op_ok os -> succeeds os s -> times (fun now => ts < now) os ->
  Forall (fun o => is_revert o = false) os -> Forall (fun r => timestamp_ms r <= ts) (n_log s) ->
  exists t, (a_run size desc [EStart; ERevert ts; EScan] (a_run size desc os s).2).1 = [NDone; NDone; NRows t] /\
    live t = live (n_rows s).
Proof.
  intros Hs Hops Hok Ht Hno Hold.
  destruct (revert_run (os ++ [EStart]) s ts) as (H1 & H2 & H3); try done.
  - apply Forall_app. by split; [|repeat constructor].
  - unfold succeeds in *. rewrite run_app. cbn [fst]. apply Forall_app. by split; [|repeat constructor].
  - apply Forall_app. by split; [|repeat constructor].
  - apply Forall_app. by split; [|repeat constructor].
  - by rewrite run_app.
  - rewrite run_app in *. cbn [a_run a_step fst snd] in *. set (s1 := (a_run size desc os s).2) in *.
    exists (n_rows (a_revert size desc ts (set_n_started true s1)).2).
    destruct (a_revert size desc ts (set_n_started true s1)) as [[[]|] s2]; [|done]. cbn [reply_of fst snd] in *. by rewrite H3.
Qed.
End revert.

(** ** The engine *)

Definition no_error (rs : list engine_reply) : Prop := Forall (fun r => match r with YError _ => False | _ => True end) rs.

Lemma agrees_no_error rs rs' : Forall2 agrees rs rs' -> no_error rs -> Forall (fun r => is_error r = false) rs'.
Proof.
  unfold no_error. induction 1 as [|r r' rs rs' Hr _ IH]; intros H; [constructor|]. apply Forall_cons in H as [H1 H].
  constructor; [|auto]. by destruct r, r'.
Qed.

Lemma agrees_scan k rs t :
  Forall2 agrees rs (replicate k NDone ++ [NRows t]) ->
  exists rows, rs = replicate k YDone ++ [YRows rows] /\ is_scan rows t.
Proof.
  revert rs. induction k as [|k IH]; intros rs H; cbn [replicate app] in *;
    apply Forall2_cons_inv_r in H as (y & rs' & Hy & H & ->); destruct y; try done.
  - apply Forall2_nil_inv_r in H as ->. by eexists.
  - apply IH in H as (rows & -> & H). by exists rows.
Qed.

(** Two scans of tables with the same live rows. *)
Lemma scan_live rows rows' t t' : is_scan rows t -> is_scan rows' t' -> live t = live t' -> rows ≡ₚ rows'.
Proof.
  intros [Hnd Hin] [Hnd' Hin'] El. apply NoDup_Permutation; [done|done|]. intros r. rewrite Hin, Hin'.
  by rewrite <- !live_Some, El.
Qed.

Lemma created_opened root size desc : table_ready root size desc -> opened size desc (created size desc).
Proof.
  intros [_ _ _ Hf _ _ _ Hready _]. destruct (open_fresh_ok size desc (indexes desc) empty_node Hready (fa_names _ _ Hf)) as (m & E & Hm & _).
  { apply Forall_forall. intros. apply lookup_empty. }
  unfold created, a_open_indexes. rewrite E. cbn [snd].
  intros ix Hix. destruct (Hm ix Hix) as (kt & Hkt & Hl). eapply Forall_forall in Hready as (_ & kt' & c & Hkt' & Hc); [|exact Hix].
  rewrite Hkt in Hkt'. injection Hkt' as <-. exists c, kt, []. split_and!; try done.
  - split; intros k r; [|intros r']; by intros (tup & Ht & _).
  - intros k r. split; [by intros ?%elem_of_nil|]. by intros (tup & Ht & _).
Qed.
Lemma created_sound root size desc : table_ready root size desc -> sound size desc (created size desc) /\ n_log (created size desc) = [].
Proof.
  intros Hr. pose proof (created_opened _ _ _ Hr) as Ho. destruct (open_indexes_same size desc true empty_node) as [Et El].
  change (n_rows (created size desc) = empty_table) in Et. change (n_log (created size desc) = []) in El. split; [|done].
  split; [|by apply opened_consistent]. split; rewrite ?Et, ?El; [by split|constructor].
Qed.

Section theorems.
Context (root : string) (size : Z) (desc0 : TableDescriptor) (cat : catalog) (tables : gmap string TableDescriptor) (d : disk).
Context (n : Z) (fuel : nat).
Abbreviation desc := (NormalizeTableDescriptor root desc0).
Abbreviation budget := (zlen (indexes desc) + n * step_cost desc n).

(** The situation the theorems start from: the table can be created, and there
    is room for [n] calls. *)
Record setting : Prop := {
  st_ready : table_ready root size desc;
  st_catalog : cat_rep root d cat;
  st_database : cat !! database_name desc = Some tables;
  st_table : tables !! table_name desc = None;
  st_free : table_free root desc d;
  st_calls : 0 <= n;
  st_budget : budget < 2 ^ 62;
  st_room : page_room size (space budget);
  st_fuel : (Z.to_nat (space budget) <= fuel)%nat
}.

Abbreviation rep := (node_rep (P:=PageManager) root size desc false false 0).

Lemma setting_create : setting ->
  exists e0 d0, e_CreateTable desc0 (started_engine (P:=PageManager) root size, d) = (Ok tt, (e0, d0)) /\
    rep (zlen (indexes desc)) (created size desc) e0 d0.
Proof.
  intros []. pose proof (row_cost_pos desc).
  assert (0 <= n * step_cost desc n) by (unfold step_cost; apply Z.mul_nonneg_nonneg; [done|apply Z.add_nonneg_nonneg; [lia|apply Z.mul_nonneg_nonneg; lia]]).
  apply (CreateTable_rep (PL:=PageManager_laws) root size desc0 fuel budget st_ready0) with (cat := cat) (tables := tables); try done; lia.
Qed.

(** A stretch of calls, [k] calls after the creation. *)
Lemma setting_run os s e d1 k :
  setting -> 0 <= k -> k + zlen os <= n -> zlen (n_log s) <= k -> Forall engine_op_ok os -> node_inv size desc s ->
  rep (zlen (indexes desc) + k * step_cost desc n) s e d1 ->
  exists rs e' d', e_run fuel root size desc os (e, d1) = (rs, (e', d')) /\ Forall2 agrees rs (a_run size desc os s).1 /\
    rep (zlen (indexes desc) + (k + zlen os) * step_cost desc n) (a_run size desc os s).2 e' d' /\
    node_inv size desc (a_run size desc os s).2.
Proof.
  intros Hset Hk Hn Hlog Hops Hs Hr. destruct Hset as [[Hsz Hdb Hst Hfl Hco Hsc Hnm _ _] _ _ _ _ _ Hb Hroom Hfuel].
  pose proof (row_cost_pos desc). pose proof (zlen_nonneg os). pose proof (zlen_nonneg (indexes desc)).
  assert (0 <= step_cost desc n) as Hc by (unfold step_cost; apply Z.add_nonneg_nonneg; [lia|apply Z.mul_nonneg_nonneg; lia]).
  destruct (e_run_refines (PL:=PageManager_laws) root size desc Hsz Hdb Hst Hfl Hsc Hnm
    Hco _ fuel Hb Hroom Hfuel os (zlen (indexes desc) + k * step_cost desc n) s e d1 n)
    as (rs & e1 & d2 & E1 & Hag & Hr1 & Hs1); try done; try nia.
  exists rs, e1, d2. split_and!; try done. by replace (zlen (indexes desc) + (k + zlen os) * step_cost desc n)
    with (zlen (indexes desc) + k * step_cost desc n + zlen os * step_cost desc n) by lia.
Qed.

Lemma e_run_app os os' s :
  e_run (P:=PageManager) fuel root size desc (os ++ os') s =
    ((e_run fuel root size desc os s).1 ++ (e_run fuel root size desc os' (e_run fuel root size desc os s).2).1,
     (e_run fuel root size desc os' (e_run fuel root size desc os s).2).2).
Proof.
  revert s. induction os as [|o os IH]; intros s; cbn [app e_run fst snd]; [by destruct (e_run fuel root size desc os' s)|].
  destruct (e_step fuel root size desc o s) as [r s1]. rewrite IH. by destruct (e_run fuel root size desc os s1).
Qed.

(** Calls that succeed on the abstract node succeed on the engine. *)
Lemma setting_succeeds os os' : setting -> forall s0 rs s1 rs' s2,
  e_CreateTable desc0 (started_engine (P:=PageManager) root size, d) = (Ok tt, s0) ->
  e_run fuel root size desc os s0 = (rs, s1) -> e_run fuel root size desc os' s1 = (rs', s2) ->
  zlen (os ++ os') <= n -> Forall engine_op_ok (os ++ os') -> succeeds size desc (os ++ os') (created size desc) ->
  no_error rs /\ no_error rs'.
Proof.
  intros Hset s0 rs s1 rs' s2 E0 E1 E2 Hn Hops Hok.
  destruct (setting_create Hset) as (e0 & d0 & E0' & Hr0). rewrite E0 in E0'. injection E0' as ->.
  destruct (created_sound _ _ _ (st_ready Hset)) as [Hs0 El0].
  destruct (setting_run (os ++ os') (created size desc) e0 d0 0 Hset) as (rsa & e1 & d1 & Ea & Hag & _);
    rewrite ?El0, ?Z.mul_0_l, ?Z.add_0_r; try done; [apply Hs0|].
  rewrite e_run_app, E1 in Ea. cbn [fst snd] in Ea. rewrite E2 in Ea. cbn [fst snd] in Ea. injection Ea as <- _.
  apply Forall_app. unfold succeeds in Hok. revert Hag Hok. generalize (a_run size desc (os ++ os') (created size desc)).1 as ys.
  induction 1 as [|y y' ys ys' Hy _ IH]; intros Hok; [constructor|]. apply Forall_cons in Hok as [H1 Hok].
  constructor; [by destruct y, y'|by apply IH].
Qed.
End theorems.

(** ** Theorems *)


Definition sample_first : list engine_op := [EInsert 5 [VInt 1; VString "ann"]; EInsert 6 [VInt 2; VString "bob"]; EDelete 7 0].
Definition sample_later : list engine_op :=
  [EUpdate 8 1 [VInt 4]; EInsert 9 [VInt 2; VString "cid"]; ERestart; EStart; EScan; EDelete 10 1; EInsert 11 [VInt 4]; EStop].
Abbreviation sample_desc := (NormalizeTableDescriptor "data" sample_engine_table).
Definition sample_fuel : nat := Z.to_nat (space (zlen (indexes sample_desc) + 14 * step_cost sample_desc 14)).
Lemma sample_setting : setting "data" 4096 sample_engine_table (<["shop" := ∅]> ∅) ∅ shop_disk 14 sample_fuel.
Proof.
  split; [exact sample_engine_ready|exact shop_disk_rep|reflexivity|reflexivity|exact sample_engine_free|done|by vm_compute|by vm_compute|].
  unfold sample_fuel. exact (le_n _).
Qed.
Abbreviation sample_run := (e_run sample_fuel "data" 4096 sample_desc).

