(* ===== verification/Sql.v ===== *)
(** * SQL statements

    The expressions of [include/parser/ast.h], the statements of
    [include/parser/sql_statement.h], the tokens of [include/parser/token.h],
    and the outcome of the lexer and the parser, which report errors by throwing
    [ParseError] ([include/parser/parse_error.h]). *)
From S2P Require Import Prelude Values.

(** ** Expressions *)

Inductive BinaryOp := opEq | opNe | opLt | opGt | opLe | opGe.
Inductive LogicalOp := opAnd | opOr.

Inductive Expr :=
  | ColumnRefExpr (column_name : string)
  | LiteralExpr (value : Value)
  | BinaryExpr (op : BinaryOp) (left right : Expr)
  | LogicalExpr (op : LogicalOp) (left right : Expr)
  | BetweenExpr (value low high : Expr)
  | LikeExpr (value pattern : Expr).

#[export] Instance BinaryOp_eq_dec : EqDecision BinaryOp.
Proof. solve_decision. Defined.
#[export] Instance LogicalOp_eq_dec : EqDecision LogicalOp.
Proof. solve_decision. Defined.
#[export] Instance Expr_eq_dec : EqDecision Expr.
Proof. solve_decision. Defined.

(** ** Statements *)

Record SelectItem := mkSelectItem { item_column : string; item_alias : string }.
#[export] Instance SelectItem_eq_dec : EqDecision SelectItem.
Proof. solve_decision. Defined.

(** An absent [where] is a null pointer in the code. *)
Inductive SqlStatement :=
  | CreateDatabaseStatement (db_name : string)
  | DropDatabaseStatement (db_name : string)
  | UseDatabaseStatement (db_name : string)
  | CreateTableStatement (database_name table_name : string) (schema : TableSchema)
  | DropTableStatement (database_name table_name : string)
  | InsertStatement (database_name table_name : string) (columns : list string) (rows : list (list Value))
  | SelectStatement (database_name table_name : string) (select_all : bool) (columns : list SelectItem) (where_ : option Expr)
  | UpdateStatement (database_name table_name : string) (assignments : list (string * Value)) (where_ : option Expr)
  | DeleteStatement (database_name table_name : string) (where_ : option Expr)
  | RevertStatement (database_name table_name : string) (timestamp_ms : Z)
  | CreateUserStatement (user_id password : string)
  | DropUserStatement (user_id : string)
  | LoginStatement (user_id password : string)
  | CreateGroupStatement (group_name : string)
  | DropGroupStatement (group_name : string)
  | AddUserToGroupStatement (user_id group_name : string)
  | GrantStatement (permission target_type target_name : string)
  | RevokeStatement (permission target_type target_name : string)
  | SubmitQueryStatement (inner_sql : string)
  | GetTaskStatement (request_id : string)
  | CancelTaskStatement (request_id : string)
  | ShowMetricsStatement.

Inductive StatementKind :=
  | kCreateDatabase | kDropDatabase | kUseDatabase | kCreateTable | kDropTable
  | kInsert | kSelect | kUpdate | kDelete | kRevert
  | kCreateUser | kDropUser | kLogin | kCreateGroup | kDropGroup | kAddUserToGroup | kGrant | kRevoke
  | kSubmitQuery | kGetTask | kCancelTask | kShowMetrics.

Definition kind (stmt : SqlStatement) : StatementKind :=
  match stmt with
  | CreateDatabaseStatement _ => kCreateDatabase | DropDatabaseStatement _ => kDropDatabase
  | UseDatabaseStatement _ => kUseDatabase | CreateTableStatement _ _ _ => kCreateTable
  | DropTableStatement _ _ => kDropTable | InsertStatement _ _ _ _ => kInsert
  | SelectStatement _ _ _ _ _ => kSelect | UpdateStatement _ _ _ _ => kUpdate
  | DeleteStatement _ _ _ => kDelete | RevertStatement _ _ _ => kRevert
  | CreateUserStatement _ _ => kCreateUser | DropUserStatement _ => kDropUser
  | LoginStatement _ _ => kLogin | CreateGroupStatement _ => kCreateGroup
  | DropGroupStatement _ => kDropGroup | AddUserToGroupStatement _ _ => kAddUserToGroup
  | GrantStatement _ _ _ => kGrant | RevokeStatement _ _ _ => kRevoke
  | SubmitQueryStatement _ => kSubmitQuery | GetTaskStatement _ => kGetTask
  | CancelTaskStatement _ => kCancelTask | ShowMetricsStatement => kShowMetrics
  end.

(** ** Tokens *)

Inductive TokenType :=
  | tkEof | tkIdentifier | tkNumber | tkString | tkComma | tkSemicolon | tkLParen | tkRParen
  | tkDot | tkStar | tkEq | tkNe | tkLt | tkGt | tkLe | tkGe | tkKeyword.
#[export] Instance TokenType_eq_dec : EqDecision TokenType.
Proof. solve_decision. Defined.

Record Token := mkToken { token_type : TokenType; lexeme : string }.
#[export] Instance Token_eq_dec : EqDecision Token.
Proof. solve_decision. Defined.

(** ** Outcomes

    A run of the lexer or of the parser returns, throws [ParseError], or does
    what no run does, as the theorems show: uses up the fuel of the model, or
    reads the token vector out of range. *)
Inductive parsed (A : Type) :=
  | Parsed (a : A)
  | ParseError (what : string)
  | OutOfFuel
  | OutOfRange.
Arguments Parsed {A} a.
Arguments ParseError {A} what.
Arguments OutOfFuel {A}.
Arguments OutOfRange {A}.

(** The run ends the way the code can end. *)
Definition completes {A} (r : parsed A) : Prop :=
  match r with Parsed _ | ParseError _ => True | OutOfFuel | OutOfRange => False end.
