(* ===== verification/Lexer.v ===== *)
(** * The lexer

    [src/parser/lexer.cpp].  The rest of the input from position [i] on stands
    for the pair of [input_] and [i].  The main loop carries fuel; every
    iteration moves on by at least one character, so the length of the input is
    enough ([tokenize_completes]).  [tokenize_render] is the round trip: the
    text of a list of tokens, written with blanks between them and string
    literals escaped, is read back as that list. *)
From S2P Require Import Prelude Values Sql.

(** ** Definitions *)

Definition IsIdentifierStart (ch : ascii) : bool := isalpha ch || bool_decide (ch = "_"%char).
Definition IsIdentifierPart (ch : ascii) : bool := isalnum ch || bool_decide (ch = "_"%char).

(** [while (i < size && p(input_[i])) ++i]: what the loop passes over, and the
    rest. *)
Fixpoint skip_while (p : ascii -> bool) (s : string) : string * string :=
  match s with
  | String c s' => if p c then let '(a, r) := skip_while p s' in (String c a, r) else ("", s)
  | EmptyString => ("", "")
  end.

(** The loop over groups that start with a dash and a letter or digit. *)
Fixpoint dashed_parts (fuel : nat) (s : string) : string * string :=
  match fuel, s with
  | S fuel, String "-" (String c _ as s') =>
      if isalnum c then
        let '(a, r) := skip_while IsIdentifierPart s' in
        let '(b, r') := dashed_parts fuel r in (String "-" (a +:+ b), r')
      else ("", s)
  | _, _ => ("", s)
  end.

(** The loop behind a first digit: the flag is [identifier_like]. *)
Fixpoint number_parts (identifier_like : bool) (s : string) : bool * string * string :=
  match s with
  | String c s' =>
      if isalnum c then
        let '(b, a, r) := number_parts (identifier_like || negb (isdigit c)) s' in (b, String c a, r)
      else if bool_decide (c = "."%char) || bool_decide (c = "-"%char) || bool_decide (c = ":"%char) then
        let '(b, a, r) := number_parts true s' in (b, String c a, r)
      else (identifier_like, "", s)
  | EmptyString => (identifier_like, "", "")
  end.

(** The body of a string literal and what follows the closing quote. *)
Fixpoint quoted (quote : ascii) (s : string) : option (string * string) :=
  match s with
  | EmptyString => None
  | String c s' =>
      if bool_decide (c = quote) then Some ("", s')
      else if bool_decide (c = "\"%char) then
        match s' with
        | String d s'' => '(literal, rest) ← quoted quote s''; Some (String d literal, rest)
        | EmptyString => None
        end
      else '(literal, rest) ← quoted quote s'; Some (String c literal, rest)
  end.

Definition char_string (c : ascii) : string := String c "".
Definition single_quote : ascii := "'"%char.
Definition double_quote : ascii := ascii_of_N 34.

(** One iteration of the loop at the character [ch] followed by [s]: the token
    pushed, if any, and the rest. *)
Definition next_token (ch : ascii) (s : string) : parsed (option Token * string) :=
  if isspace ch then Parsed (None, s)
  else if IsIdentifierStart ch then
    let '(a, r) := skip_while IsIdentifierPart s in
    let '(b, r') := dashed_parts (String.length r) r in
    Parsed (Some (mkToken tkIdentifier (String ch (a +:+ b))), r')
  else if isdigit ch then
    let '(identifier_like, a, r) := number_parts false s in
    Parsed (Some (mkToken (if identifier_like then tkIdentifier else tkNumber) (String ch a)), r)
  else if bool_decide (ch = double_quote) || bool_decide (ch = single_quote) then
    match quoted ch s with
    | Some (literal, r) => Parsed (Some (mkToken tkString literal), r)
    | None => ParseError "unterminated string literal"
    end
  else match ch, s with
  | "="%char, String "=" r => Parsed (Some (mkToken tkEq "=="), r)
  | "!"%char, String "=" r => Parsed (Some (mkToken tkNe "!="), r)
  | "<"%char, String "=" r => Parsed (Some (mkToken tkLe "<="), r)
  | ">"%char, String "=" r => Parsed (Some (mkToken tkGe ">="), r)
  | ","%char, _ => Parsed (Some (mkToken tkComma ","), s)
  | ";"%char, _ => Parsed (Some (mkToken tkSemicolon ";"), s)
  | "("%char, _ => Parsed (Some (mkToken tkLParen "("), s)
  | ")"%char, _ => Parsed (Some (mkToken tkRParen ")"), s)
  | "."%char, _ => Parsed (Some (mkToken tkDot "."), s)
  | "*"%char, _ => Parsed (Some (mkToken tkStar "*"), s)
  | "="%char, _ => Parsed (Some (mkToken tkEq "="), s)
  | "<"%char, _ => Parsed (Some (mkToken tkLt "<"), s)
  | ">"%char, _ => Parsed (Some (mkToken tkGt ">"), s)
  | _, _ => ParseError ("unexpected character: " +:+ char_string ch)
  end.

Fixpoint Tokenize_loop (fuel : nat) (s : string) : parsed (list Token) :=
  match s with
  | EmptyString => Parsed [mkToken tkEof ""]
  | String ch s' =>
      match fuel with
      | O => OutOfFuel
      | S fuel =>
          match next_token ch s' with
          | Parsed (t, r) =>
              match Tokenize_loop fuel r with
              | Parsed ts => Parsed (match t with Some t => t :: ts | None => ts end)
              | ParseError what => ParseError what
              | OutOfFuel => OutOfFuel
              | OutOfRange => OutOfRange
              end
          | ParseError what => ParseError what
          | OutOfFuel => OutOfFuel
          | OutOfRange => OutOfRange
          end
      end
  end.
Definition Tokenize (input : string) : parsed (list Token) := Tokenize_loop (String.length input) input.

(** ** Progress and termination *)

Lemma strlen_app s t : String.length (s +:+ t) = (String.length s + String.length t)%nat.
Proof. induction s as [|c s IH]; [done|]. change (S (String.length (s +:+ t)) = S (String.length s + String.length t)). by rewrite IH. Qed.

Lemma skip_while_app p s : s = (skip_while p s).1 +:+ (skip_while p s).2.
Proof.
  induction s as [|c s IH]; [done|]. cbn [skip_while]. destruct (p c); [|done].
  destruct (skip_while p s) as [a r]. cbn [fst snd] in *. by rewrite IH at 1.
Qed.
Lemma skip_while_length p s : (String.length (skip_while p s).2 <= String.length s)%nat.
Proof. rewrite (skip_while_app p s) at 2. rewrite strlen_app. lia. Qed.

Lemma dashed_parts_length fuel s : (String.length (dashed_parts fuel s).2 <= String.length s)%nat.
Proof.
  revert s. induction fuel as [|fuel IH]; intros s; [done|]. cbn [dashed_parts].
  destruct s as [|c s]; [done|]. destruct (decide (c = "-"%char)) as [->|Hc].
  - destruct s as [|d s]; [done|]. destruct (isalnum d); [|done].
    pose proof (skip_while_length IsIdentifierPart (String d s)) as H. destruct (skip_while _ _) as [a r].
    specialize (IH r). destruct (dashed_parts fuel r) as [b r']. cbn [fst snd String.length] in *. lia.
  - by case_all.
Qed.

Lemma number_parts_length b s : (String.length (number_parts b s).2 <= String.length s)%nat.
Proof.
  revert b. induction s as [|c s IH]; intros b; [done|]. cbn [number_parts].
  destruct (isalnum c); [|destruct (_ || _)]; [..|done].
  - specialize (IH (b || negb (isdigit c))). destruct (number_parts _ s) as [[b' a] r]. cbn [snd String.length] in *. lia.
  - specialize (IH true). destruct (number_parts _ s) as [[b' a] r]. cbn [snd String.length] in *. lia.
Qed.

Lemma quoted_length n : forall quote s literal r,
  (String.length s <= n)%nat -> quoted quote s = Some (literal, r) -> (String.length r < String.length s)%nat.
Proof.
  induction n as [|n IH]; intros quote s literal r Hn; (destruct s as [|c s]; [done|]); cbn [String.length] in Hn; [lia|].
  cbn [quoted]. case_bool_decide; [intros [= _ <-]; cbn; lia|]. case_bool_decide.
  - destruct s as [|d s]; [done|]. cbn [String.length] in *. destruct (quoted quote s) as [[l r']|] eqn:E; [|done].
    intros [= _ <-]. apply IH in E; cbn [String.length] in *; lia.
  - destruct (quoted quote s) as [[l r']|] eqn:E; [|done]. intros [= _ <-]. apply IH in E; cbn [String.length] in *; lia.
Qed.

(** An iteration pushes no end-of-input token and does not go back. *)
Definition lexed (s : string) (x : parsed (option Token * string)) : Prop :=
  match x with
  | Parsed (t, r) => (String.length r <= String.length s)%nat /\ (forall t', t = Some t' -> token_type t' <> tkEof)
  | ParseError _ => True
  | OutOfFuel | OutOfRange => False
  end.
Lemma lexed_token s ty lex r : (String.length r <= String.length s)%nat -> ty <> tkEof -> lexed s (Parsed (Some (mkToken ty lex), r)).
Proof. intros Hr Hty. split; [done|]. by intros t' [= <-]. Qed.

Lemma next_token_lexed ch s : lexed s (next_token ch s).
Proof.
  unfold next_token. destruct (isspace ch); [by split|]. destruct (IsIdentifierStart ch).
  { pose proof (skip_while_length IsIdentifierPart s). destruct (skip_while _ s) as [a r].
    pose proof (dashed_parts_length (String.length r) r). destruct (dashed_parts _ r) as [b r']. cbn [snd] in *.
    apply lexed_token; [lia|done]. }
  destruct (isdigit ch).
  { pose proof (number_parts_length false s). destruct (number_parts _ s) as [[[] a] r]; cbn [snd] in *; by apply lexed_token. }
  destruct (_ || _).
  { destruct (quoted ch s) as [[l r]|] eqn:E; [|done]. apply (quoted_length _ _ _ _ _ (le_n _)) in E. apply lexed_token; [lia|done]. }
  repeat match goal with |- lexed _ (match ?x with _ => _ end) => destruct x end; try done; apply lexed_token; cbn; try lia; done.
Qed.

(** What the lexer returns: tokens, and the end of input as the last and only
    token of its kind. *)
Definition terminated (ts : list Token) : Prop :=
  exists body eof, ts = body ++ [eof] /\ token_type eof = tkEof /\ Forall (fun t => token_type t <> tkEof) body.

Lemma Tokenize_loop_ok fuel : forall s, (String.length s <= fuel)%nat ->
  match Tokenize_loop fuel s with Parsed ts => terminated ts | ParseError _ => True | OutOfFuel | OutOfRange => False end.
Proof.
  induction fuel as [|fuel IH]; intros [|ch s] Hs; cbn [Tokenize_loop String.length] in *; try lia.
  1, 2: by exists [], (mkToken tkEof "").
  pose proof (next_token_lexed ch s) as Hl. destruct (next_token ch s) as [[t r]|what| |]; try done.
  destruct Hl as [Hr Ht]. specialize (IH r). destruct (Tokenize_loop fuel r) as [ts|what| |]; try (apply IH; lia).
  destruct IH as (body & eof & -> & He & Hb); [lia|]. destruct t as [t|]; [|by exists body, eof].
  exists (t :: body), eof. split_and!; try done. constructor; [by apply Ht|done].
Qed.
Lemma Tokenize_ok input :
  match Tokenize input with Parsed ts => terminated ts | ParseError _ => True | OutOfFuel | OutOfRange => False end.
Proof. by apply Tokenize_loop_ok. Qed.

(** ** The text of a token *)

Fixpoint all_chars (p : ascii -> bool) (s : string) : bool :=
  match s with String c s => p c && all_chars p s | EmptyString => true end.

(** The rest of an identifier: letters, digits, underscores, and dashes that a
    letter or digit follows. *)
Fixpoint dashed_word (s : string) : bool :=
  match s with
  | EmptyString => true
  | String c s' =>
      if IsIdentifierPart c then dashed_word s'
      else bool_decide (c = "-"%char) && match s' with String d _ => isalnum d | EmptyString => false end && dashed_word s'
  end.
Definition number_char (c : ascii) : bool :=
  isalnum c || bool_decide (c = "."%char) || bool_decide (c = "-"%char) || bool_decide (c = ":"%char).
(** The words the lexer takes for identifiers: proper ones, and the mixtures of
    digits, letters, dots, dashes and colons that timestamps and ids are. *)
Definition identifier_word (w : string) : bool :=
  match w with
  | EmptyString => false
  | String c s =>
      (IsIdentifierStart c && dashed_word s) || (isdigit c && all_chars number_char s && negb (all_chars isdigit s))
  end.
Definition number_word (w : string) : bool :=
  match w with EmptyString => false | String c s => isdigit c && all_chars isdigit s end.

Definition plain_lexeme (ty : TokenType) (lex : string) : bool :=
  match ty with
  | tkComma => bool_decide (lex = ",") | tkSemicolon => bool_decide (lex = ";")
  | tkLParen => bool_decide (lex = "(") | tkRParen => bool_decide (lex = ")")
  | tkDot => bool_decide (lex = ".") | tkStar => bool_decide (lex = "*")
  | tkEq => bool_decide (lex = "=") || bool_decide (lex = "==") | tkNe => bool_decide (lex = "!=")
  | tkLt => bool_decide (lex = "<") | tkGt => bool_decide (lex = ">")
  | tkLe => bool_decide (lex = "<=") | tkGe => bool_decide (lex = ">=")
  | tkIdentifier => identifier_word lex
  | tkNumber => number_word lex
  | tkString | tkEof | tkKeyword => false
  end.
(** Tokens that have a text: string literals may hold any characters. *)
Definition printable (t : Token) : bool :=
  bool_decide (token_type t = tkString) || plain_lexeme (token_type t) (lexeme t).

(** A literal between quotes, with a backslash before quotes and backslashes. *)
Fixpoint escape (quote : ascii) (s : string) : string :=
  match s with
  | EmptyString => String quote ""
  | String c s =>
      if bool_decide (c = quote) || bool_decide (c = "\"%char) then String "\" (String c (escape quote s))
      else String c (escape quote s)
  end.
Definition token_text (t : Token) : string :=
  if bool_decide (token_type t = tkString) then String single_quote (escape single_quote (lexeme t)) else lexeme t.
Fixpoint render (ts : list Token) : string :=
  match ts with [] => "" | t :: ts => token_text t +:+ String " " (render ts) end.

(** ** The round trip *)

Lemma quoted_escape quote s r : quote <> "\"%char -> quoted quote (escape quote s +:+ r) = Some (s, r).
Proof.
  intros Hq. induction s as [|c s IH]; cbn [escape].
  - change (String quote "" +:+ r) with (String quote r). cbn [quoted]. by rewrite bool_decide_true.
  - destruct (bool_decide (c = quote) || bool_decide (c = "\"%char)) eqn:E.
    + change (String "\" (String c (escape quote s)) +:+ r) with (String "\" (String c (escape quote s +:+ r))).
      cbn [quoted]. rewrite bool_decide_false by congruence. by rewrite IH.
    + apply orb_false_iff in E as [E1 E2]. change (String c (escape quote s) +:+ r) with (String c (escape quote s +:+ r)).
      cbn [quoted]. by rewrite E1, E2, IH.
Qed.

Lemma skip_while_stop p a c r : all_chars p a = true -> p c = false -> skip_while p (a +:+ String c r) = (a, String c r).
Proof.
  intros Ha Hc. induction a as [|x a IH].
  - cbn [skip_while]. change ("" +:+ String c r) with (String c r). cbn [skip_while]. by rewrite Hc.
  - cbn [all_chars] in Ha. apply andb_true_iff in Ha as [Hx Ha].
    change (String x a +:+ String c r) with (String x (a +:+ String c r)). cbn [skip_while]. by rewrite Hx, IH.
Qed.

Lemma identifier_loops s r : forall fuel, dashed_word s = true ->
  (String.length (skip_while IsIdentifierPart (s +:+ String " " r)).2 <= fuel)%nat ->
  let x := skip_while IsIdentifierPart (s +:+ String " " r) in
  x.1 +:+ (dashed_parts fuel x.2).1 = s /\ (dashed_parts fuel x.2).2 = String " " r.
Proof.
  induction s as [|c s IH]; intros fuel Hs Hf; cbv zeta in *.
  - change ("" +:+ String " " r) with (String " " r) in *. cbn [skip_while fst snd]. by destruct fuel.
  - change (String c s +:+ String " " r) with (String c (s +:+ String " " r)) in *. cbn [dashed_word] in Hs.
    cbn [skip_while] in *. destruct (IsIdentifierPart c) eqn:Ec.
    + specialize (IH fuel Hs). destruct (skip_while _ _) as [a r1]. cbn [fst snd] in *. destruct IH as [E1 E2]; [done|].
      split; [|done]. destruct (dashed_parts fuel r1). cbn [fst] in *. change (String c (a +:+ s0) = String c s). by rewrite E1.
    + apply andb_true_iff in Hs as [Hs Hw]. apply andb_true_iff in Hs as [Hc Hd]. apply bool_decide_eq_true in Hc as ->.
      destruct s as [|d s]; [done|]. cbn [fst snd String.length] in *. destruct fuel as [|fuel]; [lia|].
      change (String d s +:+ String " " r) with (String d (s +:+ String " " r)) in *. cbn [dashed_parts]. rewrite Hd.
      pose proof (skip_while_length IsIdentifierPart (String d (s +:+ String " " r))). specialize (IH fuel Hw).
      destruct (skip_while _ _) as [a r1]. cbn [fst snd String.length] in *. destruct IH as [E1 E2]; [lia|].
      destruct (dashed_parts fuel r1) as [b r2]. cbn [fst snd] in *. split; [|done]. by rewrite <- E1.
Qed.

Lemma isalnum_digit c : isdigit c = true -> isalnum c = true.
Proof. unfold isalnum. intros ->. by rewrite orb_true_r. Qed.
Lemma number_loop s r : forall b, all_chars number_char s = true ->
  number_parts b (s +:+ String " " r) = (b || negb (all_chars isdigit s), s, String " " r).
Proof.
  induction s as [|c s IH]; intros b Hs.
  - change ("" +:+ String " " r) with (String " " r). destruct b; reflexivity.
  - change (String c s +:+ String " " r) with (String c (s +:+ String " " r)). cbn [number_parts all_chars] in *.
    apply andb_true_iff in Hs as [Hc Hs]. unfold number_char in Hc. destruct (isalnum c) eqn:Ea.
    + rewrite IH by done. do 2 f_equal. by destruct b, (isdigit c).
    + destruct (_ || _ || _); [|done]. rewrite IH by done. do 2 f_equal.
      destruct (isdigit c) eqn:Ed; [by rewrite isalnum_digit in Ea|]. by rewrite orb_true_r.
Qed.
Lemma digits_number_chars s : all_chars isdigit s = true -> all_chars number_char s = true.
Proof.
  induction s as [|c s IH]; [done|]. cbn [all_chars]. rewrite !andb_true_iff. intros [Hc Hs]. split; [|auto].
  unfold number_char. by rewrite isalnum_digit.
Qed.

Lemma start_class c : IsIdentifierStart c = true -> isspace c = false.
Proof. by destruct c as [[] [] [] [] [] [] [] []]. Qed.
Lemma digit_class c : isdigit c = true -> isspace c = false /\ IsIdentifierStart c = false.
Proof. by destruct c as [[] [] [] [] [] [] [] []]. Qed.

Lemma next_token_identifier c s r : identifier_word (String c s) = true ->
  next_token c (s +:+ String " " r) = Parsed (Some (mkToken tkIdentifier (String c s)), String " " r).
Proof.
  cbn [identifier_word]. rewrite orb_true_iff, !andb_true_iff, negb_true_iff. unfold next_token. intros [[Hc Hs]|[[Hc Hs] Hn]].
  - rewrite (start_class c Hc), Hc. destruct (identifier_loops s r _ Hs (le_n _)) as [E1 E2].
    destruct (skip_while _ _) as [a r1]. cbn [fst snd] in *. destruct (dashed_parts _ r1) as [b r2]. cbn [fst snd] in *. by subst.
  - destruct (digit_class c Hc) as [-> ->]. by rewrite Hc, number_loop, Hn.
Qed.
Lemma next_token_number c s r : number_word (String c s) = true ->
  next_token c (s +:+ String " " r) = Parsed (Some (mkToken tkNumber (String c s)), String " " r).
Proof.
  cbn [number_word]. rewrite andb_true_iff. unfold next_token. intros [Hc Hs]. destruct (digit_class c Hc) as [-> ->].
  by rewrite Hc, number_loop, Hs by by apply digits_number_chars.
Qed.

Lemma next_token_text t r : printable t = true -> exists c s,
  token_text t = String c s /\ next_token c (s +:+ String " " r) = Parsed (Some t, String " " r).
Proof.
  unfold printable, token_text. destruct t as [ty lex]. cbn [token_type lexeme]. case_bool_decide as Hty.
  { intros _. subst ty. exists single_quote, (escape single_quote lex). split; [done|]. unfold next_token. cbn -[quoted].
    by rewrite quoted_escape. }
  cbn [orb]. destruct ty; cbn [plain_lexeme]; try done.
  1, 2: destruct lex as [|c s]; [done|]; intros Hw; exists c, s; split; [done|];
    by first [apply next_token_identifier|apply next_token_number].
  7: intros [->%bool_decide_eq_true| ->%bool_decide_eq_true]%orb_true_iff.
  all: try intros ->%bool_decide_eq_true.
  all: eexists _, _; split; reflexivity.
Qed.

Lemma Tokenize_loop_render ts : forall fuel, Forall (fun t => printable t = true) ts ->
  (String.length (render ts) <= fuel)%nat -> Tokenize_loop fuel (render ts) = Parsed (ts ++ [mkToken tkEof ""]).
Proof.
  induction ts as [|t ts IH]; intros fuel Hp Hf; [by destruct fuel|]. apply Forall_cons in Hp as [Ht Hp].
  cbn [render] in *. destruct (next_token_text t (render ts) Ht) as (c & s & E & Hn). rewrite E in *.
  change (String c s +:+ String " " (render ts)) with (String c (s +:+ String " " (render ts))) in *.
  cbn [String.length] in Hf. rewrite strlen_app in Hf. cbn [String.length] in Hf.
  destruct fuel as [|[|fuel]]; [lia|lia|]. cbn [Tokenize_loop]. rewrite Hn. cbn [Tokenize_loop next_token].
  change (next_token " " (render ts)) with (Parsed (@None Token, render ts)). cbv iota beta. by rewrite IH by (done || lia).
Qed.

(** ** Theorems *)

(** C37. The lexer reads back what it is given: the text of any list of
    identifiers, numbers, string literals with arbitrary contents, operators and
    punctuation is split into exactly those tokens, followed by the end of
    input. *)
Theorem tokenize_render ts :
  Forall (fun t => printable t = true) ts -> Tokenize (render ts) = Parsed (ts ++ [mkToken tkEof ""]).
Proof. intros Hp. by apply Tokenize_loop_render. Qed.

Lemma tokenize_render_witness :
  let ts := [mkToken tkIdentifier "task-7b"; mkToken tkIdentifier "2024.01.02-03:04:05.678"; mkToken tkNumber "042";
             mkToken tkString "it's a \ here"; mkToken tkEq "=="; mkToken tkSemicolon ";"] in
  render ts = "task-7b 2024.01.02-03:04:05.678 042 'it\'s a \\ here' == ; " /\
  Tokenize (render ts) = Parsed (ts ++ [mkToken tkEof ""]).
Proof. cbv zeta. split; [reflexivity|]. apply tokenize_render. repeat constructor. Defined.
