(* ===== verification/Parser.v ===== *)
(** * The parser

    [src/parser/parser.cpp]: [ParserImpl] over the vector [tokens_] with the
    position [pos_].  Reading the vector at or past its end is [OutOfRange];
    the loops and the recursion through parentheses carry fuel.  The theorems
    about it are in [ParserSpec]. *)
From S2P Require Import Prelude Values Sql Lexer.

(** ** Helpers *)

Fixpoint Upper (s : string) : string :=
  match s with String c s => String (toupper c) (Upper s) | EmptyString => "" end.

Fixpoint any_char (p : ascii -> bool) (s : string) : bool :=
  match s with String c s => p c || any_char p s | EmptyString => false end.
Definition IsSingleCaseWord (word : string) : bool := negb (any_char islower word && any_char isupper word).

(** [strtoll] on a string of decimal digits: the value, and [LLONG_MAX] when it
    does not fit. *)
Definition digit_value (c : ascii) : Z := char_code c - 48.
Fixpoint digits_value (acc : Z) (s : string) : Z :=
  match s with String c s => digits_value (acc * 10 + digit_value c) s | EmptyString => acc end.
Definition strtoll (text : string) : Z := Z.min (digits_value 0 text) (2 ^ 63 - 1).

(** *** Timestamps

    [std::mktime] is a parameter: it takes the fields of [std::tm] that the code
    sets and returns the [time_t]. *)
Record tm := mk_tm { tm_year : Z; tm_mon : Z; tm_mday : Z; tm_hour : Z; tm_min : Z; tm_sec : Z; tm_isdst : Z }.

Definition IsDigitAt (raw : string) (pos : nat) : bool :=
  match String.get pos raw with Some c => isdigit c | None => false end.
Definition Require_ (raw : string) (pos : nat) (expected : ascii) : bool :=
  match String.get pos raw with Some c => bool_decide (c = expected) | None => false end.
Fixpoint Number_from (raw : string) (value : Z) (pos count : nat) : option Z :=
  match count with
  | O => Some value
  | S count =>
      match String.get pos raw with
      | Some c => if isdigit c then Number_from raw (value * 10 + digit_value c) (S pos) count else None
      | None => None
      end
  end.
Definition Number (raw : string) (pos count : nat) : option Z := Number_from raw 0 pos count.

Definition ParseRevertTimestampMs (mktime : tm -> Z) (raw : string) : option Z :=
  if Z.of_nat (String.length raw) <? 23 then None
  else if negb (Require_ raw 4 "." && Require_ raw 7 "." && Require_ raw 10 "-" &&
                Require_ raw 13 ":" && Require_ raw 16 ":" && Require_ raw 19 ".") then None
  else
    year ← Number raw 0 4; month ← Number raw 5 2; day ← Number raw 8 2; hour ← Number raw 11 2;
    minute ← Number raw 14 2; second ← Number raw 17 2; millis ← Number raw 20 3;
    if (month <? 1) || (12 <? month) || (day <? 1) || (31 <? day) || (hour <? 0) || (23 <? hour) ||
       (minute <? 0) || (59 <? minute) || (second <? 0) || (59 <? second) then None
    else if any_char (fun c => negb (isdigit c)) (String.substring 23 (String.length raw - 23) raw) then None
    else
      let seconds_since_epoch := mktime (mk_tm (year - 1900) (month - 1) day hour minute second (-1)) in
      if seconds_since_epoch =? -1 then None else Some (i64 (seconds_since_epoch * 1000 + millis)).

(** ** The parser *)

Definition P (A : Type) : Type := nat -> parsed (A * nat).
#[export] Instance P_ret : MRet P := fun A a pos => Parsed (a, pos).
#[export] Instance P_bind : MBind P := fun A B k m pos =>
  match m pos with
  | Parsed (a, pos') => k a pos'
  | ParseError what => ParseError what
  | OutOfFuel => OutOfFuel
  | OutOfRange => OutOfRange
  end.
Definition fail {A} (what : string) : P A := fun _ => ParseError what.
Definition out_of_fuel {A} : P A := fun _ => OutOfFuel.

Section parser.
Context (mktime : tm -> Z) (tokens_ : list Token).

Definition Peek : P Token := fun pos_ =>
  match tokens_ !! pos_ with Some t => Parsed (t, pos_) | None => OutOfRange end.
Definition At (type : TokenType) : P bool := t ← Peek; mret (bool_decide (token_type t = type)).
Definition advance : P unit := fun pos_ => Parsed (tt, S pos_).
Definition Consume : P Token := t ← Peek; _ ← advance; mret t.
Definition Match (type : TokenType) : P bool :=
  b ← At type; if negb b then mret false else _ ← advance; mret true.

Definition MatchKeyword (keyword : string) : P bool :=
  t ← Peek;
  if negb (bool_decide (token_type t = tkIdentifier)) then mret false
  else if negb (bool_decide (Upper (lexeme t) = keyword)) then mret false
  else if negb (IsSingleCaseWord (lexeme t)) then fail ("mixed-case keyword is not allowed: " +:+ lexeme t)
  else _ ← advance; mret true.

Definition Expect (type : TokenType) (what : string) : P unit :=
  b ← Match type; if negb b then fail ("expected " +:+ what) else mret tt.
Definition ExpectKeyword (keyword : string) : P unit :=
  b ← MatchKeyword keyword; if negb b then fail ("expected " +:+ keyword) else mret tt.
Definition ParseIdentifier : P string :=
  b ← At tkIdentifier; if negb b then fail "expected identifier" else t ← Consume; mret (lexeme t).
Definition ParseQualifiedName : P (string * string) :=
  first ← ParseIdentifier;
  dot ← Match tkDot;
  if dot : bool then table ← ParseIdentifier; mret (first, table) else mret ("", first).

(** A quoted string, or the error [what]. *)
Definition ParseQuoted (what : string) : P string :=
  b ← At tkString; if negb b then fail what else t ← Consume; mret (lexeme t).

Definition ParseLiteralValue : P Value :=
  number ← At tkNumber;
  if number : bool then t ← Consume; mret (VInt (strtoll (lexeme t))) else
  str ← At tkString;
  if str : bool then t ← Consume; mret (VString (lexeme t)) else
  null ← MatchKeyword "NULL";
  if null : bool then mret VNull else fail "expected literal value".

Definition ParseOperand : P Expr :=
  number ← At tkNumber; str ← At tkString;
  if number || str then v ← ParseLiteralValue; mret (LiteralExpr v) else
  null ← MatchKeyword "NULL";
  if null : bool then mret (LiteralExpr VNull) else
  ident ← At tkIdentifier;
  if ident : bool then name ← ParseIdentifier; mret (ColumnRefExpr name) else fail "expected expression operand".

Definition ParseBinaryOp : P BinaryOp :=
  b ← Match tkEq; if b : bool then mret opEq else
  b ← Match tkNe; if b : bool then mret opNe else
  b ← Match tkLt; if b : bool then mret opLt else
  b ← Match tkGt; if b : bool then mret opGt else
  b ← Match tkLe; if b : bool then mret opLe else
  b ← Match tkGe; if b : bool then mret opGe else
  fail "expected comparison operator".

Fixpoint ParsePredicate (fuel : nat) : P Expr :=
  match fuel with
  | O => out_of_fuel
  | S fuel =>
      paren ← Match tkLParen;
      if paren : bool then expr ← ParseOr fuel; _ ← Expect tkRParen ")"; mret expr else
      left ← ParseOperand;
      between ← MatchKeyword "BETWEEN";
      if between : bool then
        low ← ParseOperand; _ ← ExpectKeyword "AND"; high ← ParseOperand; mret (BetweenExpr left low high) else
      like ← MatchKeyword "LIKE";
      if like : bool then pattern ← ParseOperand; mret (LikeExpr left pattern) else
      op ← ParseBinaryOp; right ← ParseOperand; mret (BinaryExpr op left right)
  end
with ParseAnd (fuel : nat) : P Expr :=
  match fuel with O => out_of_fuel | S fuel => expr ← ParsePredicate fuel; ParseAnd_loop fuel expr end
with ParseAnd_loop (fuel : nat) (expr : Expr) : P Expr :=
  match fuel with
  | O => out_of_fuel
  | S fuel =>
      more ← MatchKeyword "AND";
      if more : bool then right ← ParsePredicate fuel; ParseAnd_loop fuel (LogicalExpr opAnd expr right) else mret expr
  end
with ParseOr (fuel : nat) : P Expr :=
  match fuel with O => out_of_fuel | S fuel => expr ← ParseAnd fuel; ParseOr_loop fuel expr end
with ParseOr_loop (fuel : nat) (expr : Expr) : P Expr :=
  match fuel with
  | O => out_of_fuel
  | S fuel =>
      more ← MatchKeyword "OR";
      if more : bool then right ← ParseAnd fuel; ParseOr_loop fuel (LogicalExpr opOr expr right) else mret expr
  end.

Definition expr_fuel : nat := (4 * length tokens_)%nat.
Definition loop_fuel : nat := length tokens_.

Definition ParseWhereIfPresent : P (option Expr) :=
  b ← MatchKeyword "WHERE"; if negb b then mret None else e ← ParseOr expr_fuel; mret (Some e).

(** [do { item } while (Match(kComma))] *)
Fixpoint comma_list {A} (item : P A) (fuel : nat) : P (list A) :=
  match fuel with
  | O => out_of_fuel
  | S fuel =>
      x ← item; more ← Match tkComma;
      if more : bool then xs ← comma_list item fuel; mret (x :: xs) else mret [x]
  end.

Definition Finish : P unit :=
  _ ← Match tkSemicolon;
  b ← At tkEof; if negb b then fail "unexpected tokens after statement" else mret tt.

(** The flags of a column definition. *)
Fixpoint ParseColumnFlags (fuel : nat) (not_null indexed : bool) : P (bool * bool) :=
  match fuel with
  | O => out_of_fuel
  | S fuel =>
      ident ← At tkIdentifier;
      if negb ident then mret (not_null, indexed) else
      b ← MatchKeyword "NOT_NULL";
      if b : bool then ParseColumnFlags fuel true indexed else
      b ← MatchKeyword "INDEXED";
      if b : bool then ParseColumnFlags fuel true true else mret (not_null, indexed)
  end.
Definition ParseColumnType : P ColumnType :=
  word ← ParseIdentifier;
  if bool_decide (Upper word = "INT") then mret ctInt
  else if bool_decide (Upper word = "STRING") then mret ctString
  else fail "expected INT or STRING column type".
Definition ParseColumn : P ColumnSchema :=
  name ← ParseIdentifier;
  type ← ParseColumnType;
  '(not_null, indexed) ← ParseColumnFlags loop_fuel false false;
  mret (mkColumnSchema name type not_null indexed None).

Definition ParseCreateTable : P SqlStatement :=
  '(database_name, table_name) ← ParseQualifiedName;
  _ ← Expect tkLParen "(";
  columns ← comma_list ParseColumn loop_fuel;
  _ ← Expect tkRParen ")";
  _ ← Finish;
  mret (CreateTableStatement database_name table_name columns).

Definition ParseRow : P (list Value) :=
  _ ← Expect tkLParen "("; row ← comma_list ParseLiteralValue loop_fuel; _ ← Expect tkRParen ")"; mret row.
Definition ParseInsert : P SqlStatement :=
  _ ← ExpectKeyword "INTO";
  '(database_name, table_name) ← ParseQualifiedName;
  _ ← Expect tkLParen "(";
  columns ← comma_list ParseIdentifier loop_fuel;
  _ ← Expect tkRParen ")";
  _ ← ExpectKeyword "VALUE";
  rows ← comma_list ParseRow loop_fuel;
  _ ← Finish;
  mret (InsertStatement database_name table_name columns rows).

Definition ParseSelectItem : P SelectItem :=
  column ← ParseIdentifier;
  as_ ← MatchKeyword "AS";
  if as_ : bool then alias ← ParseIdentifier; mret (mkSelectItem column alias) else mret (mkSelectItem column "").
Definition ParseSelect : P SqlStatement :=
  star ← Match tkStar;
  columns ← (if star : bool then mret [] else
    _ ← Expect tkLParen "("; items ← comma_list ParseSelectItem loop_fuel; _ ← Expect tkRParen ")"; mret items);
  _ ← ExpectKeyword "FROM";
  '(database_name, table_name) ← ParseQualifiedName;
  where_ ← ParseWhereIfPresent;
  _ ← Finish;
  mret (SelectStatement database_name table_name star columns where_).

Definition ParseAssignment : P (string * Value) :=
  column ← ParseIdentifier; _ ← Expect tkEq "="; v ← ParseLiteralValue; mret (column, v).
Definition ParseUpdate : P SqlStatement :=
  '(database_name, table_name) ← ParseQualifiedName;
  _ ← ExpectKeyword "SET";
  assignments ← comma_list ParseAssignment loop_fuel;
  _ ← ExpectKeyword "WHERE";
  e ← ParseOr expr_fuel;
  _ ← Finish;
  mret (UpdateStatement database_name table_name assignments (Some e)).

Definition ParseDelete : P SqlStatement :=
  _ ← ExpectKeyword "FROM";
  '(database_name, table_name) ← ParseQualifiedName;
  _ ← ExpectKeyword "WHERE";
  e ← ParseOr expr_fuel;
  _ ← Finish;
  mret (DeleteStatement database_name table_name (Some e)).

Definition ParseRevert : P SqlStatement :=
  '(database_name, table_name) ← ParseQualifiedName;
  ident ← At tkIdentifier; number ← At tkNumber;
  if negb ident && negb number then fail "expected revert timestamp" else
  t ← Consume;
  match ParseRevertTimestampMs mktime (lexeme t) with
  | None => fail "expected timestamp in yyyy.mm.dd-hh:mm:ss.mmm format"
  | Some timestamp_ms => _ ← Finish; mret (RevertStatement database_name table_name timestamp_ms)
  end.

Definition ParseCreateUser : P SqlStatement :=
  user_id ← ParseIdentifier;
  _ ← ExpectKeyword "PASSWORD";
  password ← ParseQuoted "expected quoted password string";
  _ ← Finish;
  mret (CreateUserStatement user_id password).
Definition ParseCreateGroup : P SqlStatement :=
  group_name ← ParseIdentifier; _ ← Finish; mret (CreateGroupStatement group_name).
Definition ParseLogin : P SqlStatement :=
  user_id ← ParseIdentifier;
  _ ← ExpectKeyword "PASSWORD";
  password ← ParseQuoted "expected quoted password string";
  _ ← Finish;
  mret (LoginStatement user_id password).

(** The words of a permission up to the word [stop], joined by underscores. *)
Fixpoint ParsePermission (stop : string) (fuel : nat) (permission : string) : P string :=
  match fuel with
  | O => out_of_fuel
  | S fuel =>
      ident ← At tkIdentifier;
      t ← Peek;
      if ident && negb (bool_decide (Upper (lexeme t) = stop)) then
        _ ← Consume; ParsePermission stop fuel (permission +:+ "_" +:+ Upper (lexeme t))
      else mret permission
  end.
Definition ParseTargetType (what : string) : P string :=
  b ← MatchKeyword "USER"; if b : bool then mret "USER" else
  b ← MatchKeyword "GROUP"; if b : bool then mret "GROUP" else fail what.
Definition ParseGrant : P SqlStatement :=
  first ← ParseIdentifier;
  permission ← ParsePermission "TO" loop_fuel (Upper first);
  _ ← ExpectKeyword "TO";
  target_type ← ParseTargetType "expected USER or GROUP after TO in GRANT";
  target_name ← ParseIdentifier;
  _ ← Finish;
  mret (GrantStatement permission target_type target_name).
Definition ParseRevoke : P SqlStatement :=
  first ← ParseIdentifier;
  permission ← ParsePermission "FROM" loop_fuel (Upper first);
  _ ← ExpectKeyword "FROM";
  target_type ← ParseTargetType "expected USER or GROUP after FROM in REVOKE";
  target_name ← ParseIdentifier;
  _ ← Finish;
  mret (RevokeStatement permission target_type target_name).

Definition ParseAddUserToGroup : P SqlStatement :=
  _ ← ExpectKeyword "USER";
  user_id ← ParseIdentifier;
  _ ← ExpectKeyword "TO"; _ ← ExpectKeyword "GROUP";
  group_name ← ParseIdentifier;
  _ ← Finish;
  mret (AddUserToGroupStatement user_id group_name).

Definition ParseSubmitQuery : P SqlStatement :=
  _ ← ExpectKeyword "QUERY";
  inner_sql ← ParseQuoted "expected quoted SQL string after SUBMIT QUERY";
  _ ← Finish;
  mret (SubmitQueryStatement inner_sql).
Definition ParseGetTask : P SqlStatement :=
  _ ← ExpectKeyword "TASK"; request_id ← ParseIdentifier; _ ← Finish; mret (GetTaskStatement request_id).
Definition ParseCancelTask : P SqlStatement :=
  _ ← ExpectKeyword "TASK"; request_id ← ParseIdentifier; _ ← Finish; mret (CancelTaskStatement request_id).

(** [if (MatchKeyword(keyword)) return ...] *)
Definition on_keyword {A} (keyword : string) (then_ else_ : P A) : P A :=
  b ← MatchKeyword keyword; if b : bool then then_ else else_.

Definition ParseCreate : P SqlStatement :=
  on_keyword "DATABASE" (db_name ← ParseIdentifier; _ ← Finish; mret (CreateDatabaseStatement db_name))
  (on_keyword "TABLE" ParseCreateTable
  (on_keyword "USER" ParseCreateUser
  (on_keyword "GROUP" ParseCreateGroup
  (fail "expected DATABASE, TABLE, USER or GROUP after CREATE")))).
Definition ParseDrop : P SqlStatement :=
  on_keyword "DATABASE" (db_name ← ParseIdentifier; _ ← Finish; mret (DropDatabaseStatement db_name))
  (on_keyword "TABLE" ('(database_name, table_name) ← ParseQualifiedName; _ ← Finish;
                       mret (DropTableStatement database_name table_name))
  (on_keyword "USER" (user_id ← ParseIdentifier; _ ← Finish; mret (DropUserStatement user_id))
  (on_keyword "GROUP" (group_name ← ParseIdentifier; _ ← Finish; mret (DropGroupStatement group_name))
  (fail "expected DATABASE, TABLE, USER or GROUP after DROP")))).

Definition ParseStatement : P SqlStatement :=
  on_keyword "CREATE" ParseCreate
  (on_keyword "DROP" ParseDrop
  (on_keyword "USE" (db_name ← ParseIdentifier; _ ← Finish; mret (UseDatabaseStatement db_name))
  (on_keyword "INSERT" ParseInsert
  (on_keyword "SELECT" ParseSelect
  (on_keyword "UPDATE" ParseUpdate
  (on_keyword "DELETE" ParseDelete
  (on_keyword "REVERT" ParseRevert
  (on_keyword "LOGIN" ParseLogin
  (on_keyword "GRANT" ParseGrant
  (on_keyword "REVOKE" ParseRevoke
  (on_keyword "ADD" ParseAddUserToGroup
  (on_keyword "SUBMIT" ParseSubmitQuery
  (on_keyword "GET" ParseGetTask
  (on_keyword "CANCEL" ParseCancelTask
  (on_keyword "SHOW"
    (on_keyword "METRICS" (_ ← Finish; mret ShowMetricsStatement) (fail "expected METRICS after SHOW"))
  (fail "unknown SQL command")))))))))))))))).
End parser.

(** [Parser::Parse] *)
Definition Parse (mktime : tm -> Z) (sql : string) : parsed SqlStatement :=
  match Tokenize sql with
  | Parsed tokens => match ParseStatement mktime tokens 0%nat with
                     | Parsed (stmt, _) => Parsed stmt
                     | ParseError what => ParseError what
                     | OutOfFuel => OutOfFuel
                     | OutOfRange => OutOfRange
                     end
  | ParseError what => ParseError what
  | OutOfFuel => OutOfFuel
  | OutOfRange => OutOfRange
  end.
