(* ===== verification/ParserSpec.v ===== *)
(** * The grammar of the SQL subset, and the parser against it

    [statement] says which token sequences are texts of a statement: keywords in
    one case, qualified names, comma lists, and the usual grammar of predicates
    in which AND binds tighter than OR, both to the left.  The parser is shown
    to accept exactly these texts and to return their statement
    ([parse_exact]), to read the token vector only inside its bounds and to
    end on every input ([parse_in_bounds]). *)
From S2P Require Import Prelude Values Sql Lexer Parser.

Create HintDb sound.

(** ** Phrases *)

Definition phrase : Type := list Token -> Prop.
Definition seq (p q : phrase) : phrase := fun ts => exists a b, ts = a ++ b /\ p a /\ q b.
Declare Scope phrase_scope.
Delimit Scope phrase_scope with phrase.
Bind Scope phrase_scope with phrase.
Infix "⋅" := seq (at level 42, right associativity) : phrase_scope.
Local Open Scope phrase_scope.

Definition nothing : phrase := fun ts => ts = [].
Definition either (p q : phrase) : phrase := fun ts => p ts \/ q ts.
(** One token with a property. *)
Definition one (p : Token -> Prop) : phrase := fun ts => exists t, ts = [t] /\ p t.

Definition is_keyword (keyword : string) (t : Token) : Prop :=
  token_type t = tkIdentifier /\ Upper (lexeme t) = keyword /\ IsSingleCaseWord (lexeme t) = true.
Definition tok (type : TokenType) : phrase := one (fun t => token_type t = type).
Definition kw (keyword : string) : phrase := one (is_keyword keyword).
Definition ident (name : string) : phrase := one (fun t => token_type t = tkIdentifier /\ lexeme t = name).
Definition quoted_text (s : string) : phrase := one (fun t => token_type t = tkString /\ lexeme t = s).
Definition qualified (database_name table_name : string) : phrase :=
  either (fun ts => database_name = "" /\ ident table_name ts) (ident database_name ⋅ tok tkDot ⋅ ident table_name).

Definition is_literal (v : Value) (t : Token) : Prop :=
  (token_type t = tkNumber /\ v = VInt (strtoll (lexeme t))) \/ (token_type t = tkString /\ v = VString (lexeme t)) \/
  (is_keyword "NULL" t /\ v = VNull).
Definition literal (v : Value) : phrase := one (is_literal v).

(** Items separated by commas. *)
Fixpoint commas {A} (item : A -> phrase) (xs : list A) : phrase :=
  match xs with
  | [] => fun _ => False
  | [x] => item x
  | x :: xs => item x ⋅ tok tkComma ⋅ commas item xs
  end.

(** *** Predicates *)

Definition is_operand (e : Expr) (t : Token) : Prop :=
  match e with
  | LiteralExpr v => is_literal v t
  | ColumnRefExpr name => token_type t = tkIdentifier /\ lexeme t = name /\ Upper name <> "NULL"
  | _ => False
  end.
Definition operand (e : Expr) : phrase := one (is_operand e).
Definition op_type (op : BinaryOp) : TokenType :=
  match op with opEq => tkEq | opNe => tkNe | opLt => tkLt | opGt => tkGt | opLe => tkLe | opGe => tkGe end.

Inductive level := atPredicate | atAnd | atOr.
Inductive expr : level -> Expr -> phrase :=
  | expr_binary op l r ts : (operand l ⋅ tok (op_type op) ⋅ operand r) ts -> expr atPredicate (BinaryExpr op l r) ts
  | expr_between v l h ts :
      (operand v ⋅ kw "BETWEEN" ⋅ operand l ⋅ kw "AND" ⋅ operand h) ts -> expr atPredicate (BetweenExpr v l h) ts
  | expr_like v p ts : (operand v ⋅ kw "LIKE" ⋅ operand p) ts -> expr atPredicate (LikeExpr v p) ts
  | expr_paren e a b c : tok tkLParen a -> expr atOr e b -> tok tkRParen c -> expr atPredicate e (a ++ b ++ c)
  | expr_and1 e ts : expr atPredicate e ts -> expr atAnd e ts
  | expr_and l r a b c : expr atAnd l a -> kw "AND" b -> expr atPredicate r c -> expr atAnd (LogicalExpr opAnd l r) (a ++ b ++ c)
  | expr_or1 e ts : expr atAnd e ts -> expr atOr e ts
  | expr_or l r a b c : expr atOr l a -> kw "OR" b -> expr atAnd r c -> expr atOr (LogicalExpr opOr l r) (a ++ b ++ c).

Definition where_clause (w : option Expr) : phrase :=
  match w with None => nothing | Some e => kw "WHERE" ⋅ expr atOr e end.
Definition required_where (w : option Expr) : phrase :=
  match w with None => fun _ => False | Some _ => where_clause w end.

(** *** Statements *)

Definition word (p : string -> Prop) : phrase := one (fun t => token_type t = tkIdentifier /\ p (Upper (lexeme t))).
Definition column_type (ty : ColumnType) : phrase :=
  match ty with
  | ctInt => word (fun w => w = "INT")
  | ctString => word (fun w => w = "STRING")
  | _ => fun _ => False
  end.
(** Any sequence of flags; [INDEXED] implies [NOT_NULL]. *)
Inductive column_flags : bool -> bool -> phrase :=
  | flags_none : column_flags false false []
  | flags_not_null n i a b : kw "NOT_NULL" a -> column_flags n i b -> column_flags true i (a ++ b)
  | flags_indexed n i a b : kw "INDEXED" a -> column_flags n i b -> column_flags true true (a ++ b).
Definition column (c : ColumnSchema) : phrase := fun ts =>
  default_value c = None /\ (ident (col_name c) ⋅ column_type (col_type c) ⋅ column_flags (not_null c) (indexed c)) ts.

Definition row (vs : list Value) : phrase := tok tkLParen ⋅ commas literal vs ⋅ tok tkRParen.
Definition select_item (i : SelectItem) : phrase :=
  ident (item_column i) ⋅ either (fun ts => item_alias i = "" /\ nothing ts) (kw "AS" ⋅ ident (item_alias i)).
Definition select_list (all : bool) (items : list SelectItem) : phrase :=
  if all then fun ts => items = [] /\ tok tkStar ts else tok tkLParen ⋅ commas select_item items ⋅ tok tkRParen.
Definition assignment (a : string * Value) : phrase := ident a.1 ⋅ tok tkEq ⋅ literal a.2.
(** The words of a permission: the first one, then any up to [stop]. *)
Inductive more_words (stop : string) : string -> string -> phrase :=
  | words_none p : more_words stop p p []
  | words_more p w q a b : word (fun x => x = w /\ w <> stop) a -> more_words stop (p +:+ "_" +:+ w) q b ->
      more_words stop p q (a ++ b).
Definition permission_words (stop permission : string) : phrase := fun ts =>
  exists w, (word (fun x => x = w) ⋅ more_words stop w permission) ts.
Definition target (target_type : string) : phrase := fun ts =>
  (target_type = "USER" \/ target_type = "GROUP") /\ kw target_type ts.

Definition statement (mktime : tm -> Z) (stmt : SqlStatement) : phrase :=
  match stmt with
  | CreateDatabaseStatement n => kw "CREATE" ⋅ kw "DATABASE" ⋅ ident n
  | DropDatabaseStatement n => kw "DROP" ⋅ kw "DATABASE" ⋅ ident n
  | UseDatabaseStatement n => kw "USE" ⋅ ident n
  | CreateTableStatement d t cs =>
      kw "CREATE" ⋅ kw "TABLE" ⋅ qualified d t ⋅ tok tkLParen ⋅ commas column cs ⋅ tok tkRParen
  | DropTableStatement d t => kw "DROP" ⋅ kw "TABLE" ⋅ qualified d t
  | InsertStatement d t cs rs =>
      kw "INSERT" ⋅ kw "INTO" ⋅ qualified d t ⋅ tok tkLParen ⋅ commas ident cs ⋅ tok tkRParen ⋅
      kw "VALUE" ⋅ commas row rs
  | SelectStatement d t all items w =>
      kw "SELECT" ⋅ select_list all items ⋅ kw "FROM" ⋅ qualified d t ⋅ where_clause w
  | UpdateStatement d t asgs w => kw "UPDATE" ⋅ qualified d t ⋅ kw "SET" ⋅ commas assignment asgs ⋅ required_where w
  | DeleteStatement d t w => kw "DELETE" ⋅ kw "FROM" ⋅ qualified d t ⋅ required_where w
  | RevertStatement d t ts => kw "REVERT" ⋅ qualified d t ⋅
      one (fun x => (token_type x = tkIdentifier \/ token_type x = tkNumber) /\ ParseRevertTimestampMs mktime (lexeme x) = Some ts)
  | CreateUserStatement u p => kw "CREATE" ⋅ kw "USER" ⋅ ident u ⋅ kw "PASSWORD" ⋅ quoted_text p
  | DropUserStatement u => kw "DROP" ⋅ kw "USER" ⋅ ident u
  | LoginStatement u p => kw "LOGIN" ⋅ ident u ⋅ kw "PASSWORD" ⋅ quoted_text p
  | CreateGroupStatement g => kw "CREATE" ⋅ kw "GROUP" ⋅ ident g
  | DropGroupStatement g => kw "DROP" ⋅ kw "GROUP" ⋅ ident g
  | AddUserToGroupStatement u g => kw "ADD" ⋅ kw "USER" ⋅ ident u ⋅ kw "TO" ⋅ kw "GROUP" ⋅ ident g
  | GrantStatement p ty n => kw "GRANT" ⋅ permission_words "TO" p ⋅ kw "TO" ⋅ target ty ⋅ ident n
  | RevokeStatement p ty n => kw "REVOKE" ⋅ permission_words "FROM" p ⋅ kw "FROM" ⋅ target ty ⋅ ident n
  | SubmitQueryStatement s => kw "SUBMIT" ⋅ kw "QUERY" ⋅ quoted_text s
  | GetTaskStatement r => kw "GET" ⋅ kw "TASK" ⋅ ident r
  | CancelTaskStatement r => kw "CANCEL" ⋅ kw "TASK" ⋅ ident r
  | ShowMetricsStatement => kw "SHOW" ⋅ kw "METRICS"
  end.
(** A statement and an optional semicolon. *)
Definition sentence (mktime : tm -> Z) (stmt : SqlStatement) : phrase :=
  statement mktime stmt ⋅ either nothing (tok tkSemicolon).

(** ** Running the parser on a suffix of the tokens *)

Section parser.
Context (mktime : tm -> Z) (tokens : list Token).

(** The parser [p], at the suffix [s], returns [a] and moves to [s']. *)
Definition step {A} (p : P A) (s : list Token) (a : A) (s' : list Token) : Prop :=
  forall pos, drop pos tokens = s -> exists pos', p pos = Parsed (a, pos') /\ drop pos' tokens = s'.
(** At any suffix of at most [m] tokens, [p] completes; when it returns, it has
    consumed a phrase of its value. *)
Definition sound {A} (m : nat) (p : P A) (G : A -> phrase) : Prop :=
  forall pos s, drop pos tokens = s -> terminated s -> (length s <= m)%nat ->
  match p pos with
  | Parsed (a, pos') => exists ts s', s = ts ++ s' /\ drop pos' tokens = s' /\ terminated s' /\ G a ts
  | ParseError _ => True
  | OutOfFuel | OutOfRange => False
  end.

Lemma step_ret {A} (a : A) s : step (mret a) s a s.
Proof. intros pos H. by exists pos. Qed.
Lemma step_bind {A B} (p : P A) (f : A -> P B) s a s1 b s2 :
  step p s a s1 -> step (f a) s1 b s2 -> step (p ≫= f) s b s2.
Proof.
  intros Hp Hf pos Hpos. destruct (Hp pos Hpos) as (pos1 & E1 & H1). destruct (Hf pos1 H1) as (pos2 & E2 & H2).
  exists pos2. unfold mbind, P_bind. by rewrite E1.
Qed.

Lemma sound_ret {A} m (a : A) : sound m (mret a) (fun x ts => x = a /\ ts = []).
Proof. intros pos s Hs Ht _. cbn. by exists [], s. Qed.
Lemma sound_fail {A} m what (G : A -> phrase) : sound m (fail what) G.
Proof. done. Qed.
Lemma sound_mono {A} m m' (p : P A) G G' :
  sound m p G -> (m' <= m)%nat -> (forall a ts, G a ts -> G' a ts) -> sound m' p G'.
Proof.
  intros Hp Hm HG pos s Hs Ht Hl. specialize (Hp pos s Hs Ht ltac:(lia)). destruct (p pos) as [[a pos']|what| |]; try done.
  destruct Hp as (ts & s' & ? & ? & ? & ?). exists ts, s'. eauto.
Qed.

(** Sequencing; a parser that consumes a token leaves a shorter suffix. *)
Definition then_ {A B} (G : A -> phrase) (H : A -> B -> phrase) (b : B) : phrase := fun ts =>
  exists a t1 t2, ts = t1 ++ t2 /\ G a t1 /\ H a b t2.
Lemma sound_bind_len {A B} m (p : P A) (f : A -> P B) G H (k : A -> nat) :
  sound m p G -> (forall a ts, G a ts -> (k a <= length ts)%nat) -> (forall a, sound (m - k a) (f a) (H a)) ->
  sound m (p ≫= f) (then_ G H).
Proof.
  intros Hp Hk Hf pos s Hs Ht Hl. specialize (Hp pos s Hs Ht Hl). unfold mbind, P_bind.
  destruct (p pos) as [[a pos1]|what| |]; try done. destruct Hp as (t1 & s1 & -> & Hs1 & Ht1 & HG).
  pose proof (Hk a t1 HG). rewrite length_app in Hl. specialize (Hf a pos1 s1 Hs1 Ht1 ltac:(lia)).
  destruct (f a pos1) as [[b pos2]|what| |]; try done. destruct Hf as (t2 & s2 & -> & Hs2 & Ht2 & HH).
  exists (t1 ++ t2), s2. split_and!; try done; [by rewrite app_assoc|]. by exists a, t1, t2.
Qed.
Lemma sound_bind {A B} m (p : P A) (f : A -> P B) G H :
  sound m p G -> (forall a, sound m (f a) (H a)) -> sound m (p ≫= f) (then_ G H).
Proof.
  intros Hp Hf. apply (sound_bind_len m p f G H (fun _ => O)); [done|intros; lia|]. intros a. by rewrite Nat.sub_0_r.
Qed.

(** ** Parsers that look at one token

    [f t] is the value returned at the token [t] and whether [t] is consumed. *)
Definition looks {A} (p : P A) (f : Token -> parsed (A * bool)) : Prop := forall pos,
  p pos = match tokens !! pos with
          | Some t => match f t with
                      | Parsed (a, c) => Parsed (a, if c : bool then S pos else pos)
                      | ParseError what => ParseError what
                      | OutOfFuel => OutOfFuel
                      | OutOfRange => OutOfRange
                      end
          | None => OutOfRange
          end.

Lemma drop_head pos t s : drop pos tokens = t :: s -> tokens !! pos = Some t /\ drop (S pos) tokens = s.
Proof.
  intros H. split.
  - rewrite <- (Nat.add_0_r pos), <- lookup_drop. by rewrite H.
  - by rewrite <- Nat.add_1_r, <- drop_drop, H.
Qed.
Lemma terminated_head s : terminated s -> exists t s', s = t :: s' /\ (token_type t <> tkEof -> terminated s').
Proof.
  intros (body & eof & -> & He & Hb). destruct body as [|t body]; [by exists eof, []|]. exists t, (body ++ [eof]).
  split; [done|]. intros _. apply Forall_cons in Hb as [_ Hb]. by exists body, eof.
Qed.

Lemma looks_step {A} (p : P A) f t s a (c : bool) :
  looks p f -> f t = Parsed (a, c) -> step p (t :: s) a (if c then s else t :: s).
Proof.
  intros Hp Hf pos [Ht Hs]%drop_head. rewrite Hp, Ht, Hf. eexists. split; [done|]. destruct c; [done|].
  by apply drop_S in Ht as ->; rewrite Hs.
Qed.
Lemma looks_sound {A} m (p : P A) f :
  looks p f -> (forall t, match f t with Parsed (_, c) => c = true -> token_type t <> tkEof | ParseError _ => True | _ => False end) ->
  sound m p (fun a ts => (exists t, ts = [t] /\ f t = Parsed (a, true)) \/ ts = [] /\ exists t, f t = Parsed (a, false)).
Proof.
  intros Hp Hf pos s Hs Ht _. destruct (terminated_head s Ht) as (t & s1 & -> & Ht1). apply drop_head in Hs as Hd. destruct Hd as [E Hd].
  rewrite Hp, E. specialize (Hf t). destruct (f t) as [[a c]|what| |] eqn:Ef; try done. destruct c.
  - exists [t], s1. split_and!; try done; [auto|]. left. by exists t.
  - exists [], (t :: s1). split_and!; try done. right. split; [done|]. by exists t.
Qed.

Definition f_match (type : TokenType) (t : Token) : parsed (bool * bool) :=
  let b := bool_decide (token_type t = type) in Parsed (b, b).
Definition f_keyword (keyword : string) (t : Token) : parsed (bool * bool) :=
  if bool_decide (token_type t = tkIdentifier) && bool_decide (Upper (lexeme t) = keyword)
  then if IsSingleCaseWord (lexeme t) then Parsed (true, true) else ParseError ("mixed-case keyword is not allowed: " +:+ lexeme t)
  else Parsed (false, false).
Definition f_ident (t : Token) : parsed (string * bool) :=
  if bool_decide (token_type t = tkIdentifier) then Parsed (lexeme t, true) else ParseError "expected identifier".
Definition f_quoted (what : string) (t : Token) : parsed (string * bool) :=
  if bool_decide (token_type t = tkString) then Parsed (lexeme t, true) else ParseError what.
Definition f_null {A} (a : A) (other : parsed (A * bool)) (t : Token) : parsed (A * bool) :=
  match f_keyword "NULL" t with
  | Parsed (true, _) => Parsed (a, true)
  | Parsed (false, _) => other
  | ParseError what => ParseError what
  | _ => OutOfRange
  end.
Definition f_literal (t : Token) : parsed (Value * bool) :=
  match token_type t with
  | tkNumber => Parsed (VInt (strtoll (lexeme t)), true)
  | tkString => Parsed (VString (lexeme t), true)
  | _ => f_null VNull (ParseError "expected literal value") t
  end.
Definition f_operand (t : Token) : parsed (Expr * bool) :=
  match token_type t with
  | tkNumber => Parsed (LiteralExpr (VInt (strtoll (lexeme t))), true)
  | tkString => Parsed (LiteralExpr (VString (lexeme t)), true)
  | tkIdentifier => f_null (LiteralExpr VNull) (Parsed (ColumnRefExpr (lexeme t), true)) t
  | _ => ParseError "expected expression operand"
  end.
Definition f_op (t : Token) : parsed (BinaryOp * bool) :=
  match token_type t with
  | tkEq => Parsed (opEq, true) | tkNe => Parsed (opNe, true) | tkLt => Parsed (opLt, true)
  | tkGt => Parsed (opGt, true) | tkLe => Parsed (opLe, true) | tkGe => Parsed (opGe, true)
  | _ => ParseError "expected comparison operator"
  end.
Definition f_column_type (t : Token) : parsed (ColumnType * bool) :=
  if bool_decide (token_type t = tkIdentifier) then
    if bool_decide (Upper (lexeme t) = "INT") then Parsed (ctInt, true)
    else if bool_decide (Upper (lexeme t) = "STRING") then Parsed (ctString, true)
    else ParseError "expected INT or STRING column type"
  else ParseError "expected identifier".

Ltac look := intros pos; unfold mbind, P_bind, mret, P_ret, Peek, advance, fail;
  destruct (tokens !! pos) as [t|] eqn:E; [|done]; rewrite ?E.
Lemma looks_At type : looks (At tokens type) (fun t => Parsed (bool_decide (token_type t = type), false)).
Proof. unfold At. by look. Qed.
Lemma looks_Match type : looks (Match tokens type) (f_match type).
Proof. unfold Match, At, f_match. look. by case_bool_decide. Qed.
Lemma looks_MatchKeyword keyword : looks (MatchKeyword tokens keyword) (f_keyword keyword).
Proof. unfold MatchKeyword, f_keyword. look. case_bool_decide; [|done]. case_bool_decide; [|done]. by destruct (IsSingleCaseWord _). Qed.
Lemma looks_ParseIdentifier : looks (ParseIdentifier tokens) f_ident.
Proof. unfold ParseIdentifier, Consume, At, f_ident. look. case_bool_decide; [|done]. cbn. by rewrite E. Qed.
Lemma looks_ParseQuoted what : looks (ParseQuoted tokens what) (f_quoted what).
Proof. unfold ParseQuoted, Consume, At, f_quoted. look. case_bool_decide; [|done]. cbn. by rewrite E. Qed.

Ltac look_again := repeat (match goal with
  | H : tokens !! _ = Some _ |- context [tokens !! _] => rewrite H
  | |- context [bool_decide (?x = ?y)] => first [rewrite (bool_decide_true (x = y)) by done|rewrite (bool_decide_false (x = y)) by done]
  end; cbn -[Upper IsSingleCaseWord strtoll]).
Lemma looks_ParseLiteralValue : looks (ParseLiteralValue tokens) f_literal.
Proof.
  unfold ParseLiteralValue, Consume, At, MatchKeyword, f_literal, f_null, f_keyword. look. destruct t as [ty lex].
  destruct ty; look_again; try done. case_bool_decide; [|done]. cbn -[IsSingleCaseWord]. by destruct (IsSingleCaseWord _).
Qed.
Lemma looks_ParseOperand : looks (ParseOperand tokens) f_operand.
Proof.
  unfold ParseOperand, f_operand, f_null, f_keyword. intros pos.
  pose proof (looks_At tkNumber pos) as H1. pose proof (looks_At tkString pos) as H2. pose proof (looks_At tkIdentifier pos) as H5.
  pose proof (looks_ParseLiteralValue pos) as H3. pose proof (looks_MatchKeyword "NULL" pos) as H4.
  pose proof (looks_ParseIdentifier pos) as H6.
  unfold mbind, P_bind, mret, P_ret, fail. rewrite H1. destruct (tokens !! pos) as [[ty lex]|]; [|done].
  cbn -[f_literal f_keyword f_ident]. rewrite H2. cbn -[f_literal f_keyword f_ident].
  destruct ty; look_again; rewrite ?H3, ?H4; try done; unfold f_keyword; look_again; rewrite ?H5; try done.
  destruct (bool_decide (Upper lex = "NULL")); [by destruct (IsSingleCaseWord lex)|]. rewrite H5.
  rewrite bool_decide_true by done. by rewrite H6.
Qed.
Lemma looks_ParseBinaryOp : looks (ParseBinaryOp tokens) f_op.
Proof.
  unfold ParseBinaryOp, Match, At, f_op. look. destruct t as [ty lex]. destruct ty; look_again; done.
Qed.
Lemma looks_ParseColumnType : looks (ParseColumnType tokens) f_column_type.
Proof.
  unfold ParseColumnType. intros pos. unfold mbind, P_bind. rewrite looks_ParseIdentifier. unfold f_column_type, f_ident.
  destruct (tokens !! pos) as [t|]; [|done]. case_bool_decide; [|done]. case_bool_decide; [done|]. by case_bool_decide.
Qed.

(** ** Soundness of the parts *)

Definition when (G : phrase) (b : bool) : phrase := if b then G else nothing.

Lemma sound_At m type : sound m (At tokens type) (fun _ => nothing).
Proof.
  eapply sound_mono; [apply (looks_sound m _ _ (looks_At type))|done|]; [done|]. by intros a ts [(t & _ & ?)|[-> _]].
Qed.
Lemma sound_Match m type : type <> tkEof -> sound m (Match tokens type) (when (tok type)).
Proof.
  intros Hty. eapply sound_mono; [apply (looks_sound m _ _ (looks_Match type))|done|].
  - intros t Ht%bool_decide_eq_true. congruence.
  - intros b ts [(t & -> & [= <- Hb])|[-> (t & [= <- Hb])]]; rewrite Hb; [|done]. apply bool_decide_eq_true in Hb. by exists t.
Qed.
Lemma keyword_consumed keyword t b c : f_keyword keyword t = Parsed (b, c) -> b = c /\ (c = true -> is_keyword keyword t).
Proof.
  unfold f_keyword. destruct (_ && _) eqn:E; [|by intros [= <- <-]]. destruct (IsSingleCaseWord (lexeme t)) eqn:Es; [|done].
  intros [= <- <-]. split; [done|]. intros _. apply andb_true_iff in E as [E1%bool_decide_eq_true E2%bool_decide_eq_true]. by split.
Qed.
Lemma f_keyword_completes keyword t :
  match f_keyword keyword t with Parsed (_, c) => c = true -> token_type t <> tkEof | ParseError _ => True | _ => False end.
Proof.
  pose proof (keyword_consumed keyword t) as H. unfold f_keyword in *. destruct (_ && _); [|done].
  destruct (IsSingleCaseWord _); [|done]. intros _. destruct (H true true eq_refl) as [_ Hk]. destruct (Hk eq_refl) as (-> & _). done.
Qed.
Lemma sound_MatchKeyword m keyword : sound m (MatchKeyword tokens keyword) (when (kw keyword)).
Proof.
  eapply sound_mono; [apply (looks_sound m _ _ (looks_MatchKeyword keyword) (f_keyword_completes keyword))|done|].
  intros b ts [(t & -> & H%keyword_consumed)|[-> (t & H%keyword_consumed)]]; destruct H as [-> H]; [|done]. exists t. auto.
Qed.

Lemma sound_bool {A} m (p : P bool) G (q r : P A) H :
  sound m p (when G) -> (forall ts, G ts -> ts <> []) ->
  sound (m - 1) q (fun a ts => forall t1, G t1 -> H a (t1 ++ ts)) -> sound m r H ->
  sound m (b ← p; if b : bool then q else r) H.
Proof.
  intros Hp Hne Hq Hr. eapply sound_mono;
    [apply (sound_bind_len m p _ (when G) (fun b a ts => if b : bool then forall t1, G t1 -> H a (t1 ++ ts) else H a ts)
       (fun b => if b : bool then 1%nat else O)); [done| |]|done|].
  - intros [] ts HG; cbn in HG; [|lia]. specialize (Hne ts HG). destruct ts; [done|]. cbn. lia.
  - intros []; [done|]. by rewrite Nat.sub_0_r.
  - intros a ts (b & t1 & t2 & -> & HG & HH). destruct b; cbn in HG; [auto|]. by rewrite HG.
Qed.
Lemma one_nonempty p ts : one p ts -> ts <> [].
Proof. by intros (t & -> & _). Qed.

Lemma sound_fail_if m (p : P bool) G what :
  sound m p (when G) -> sound m (b ← p; if negb b then fail what else mret tt) (fun (_ : unit) => G).
Proof.
  intros Hp. eapply sound_mono; [apply (sound_bind m p _ (when G) (fun b (_ : unit) ts => b = true /\ ts = []) Hp)|done|].
  - intros []; [|apply sound_fail]. eapply sound_mono; [apply sound_ret|done|]. by intros ? ? [_ ->].
  - intros a ts (b & t1 & t2 & -> & HG & -> & ->). by rewrite app_nil_r.
Qed.
Lemma sound_Expect m type what : type <> tkEof -> sound m (Expect tokens type what) (fun _ => tok type).
Proof. intros H. by apply sound_fail_if, sound_Match. Qed.
Lemma sound_ExpectKeyword m keyword : sound m (ExpectKeyword tokens keyword) (fun _ => kw keyword).
Proof. by apply sound_fail_if, sound_MatchKeyword. Qed.

Lemma sound_one {A} m (p : P A) f (Q : A -> Token -> Prop) : looks p f ->
  (forall t, match f t with Parsed (a, c) => c = true /\ token_type t <> tkEof /\ Q a t | ParseError _ => True | _ => False end) ->
  sound m p (fun a => one (Q a)).
Proof.
  intros Hp Hf. eapply sound_mono; [apply (looks_sound m _ _ Hp)|done|].
  - intros t. specialize (Hf t). destruct (f t) as [[a c]|what| |]; naive_solver.
  - intros a ts [(t & -> & E)|[-> (t & E)]]; specialize (Hf t); rewrite E in Hf; destruct Hf as (? & _ & ?); [by exists t|done].
Qed.
Lemma sound_ParseIdentifier m : sound m (ParseIdentifier tokens) ident.
Proof. apply (sound_one m _ _ _ looks_ParseIdentifier). intros t. unfold f_ident. case_bool_decide as E; [|done]. by rewrite E. Qed.
Lemma sound_ParseQuoted m what : sound m (ParseQuoted tokens what) quoted_text.
Proof. apply (sound_one m _ _ _ (looks_ParseQuoted what)). intros t. unfold f_quoted. case_bool_decide as E; [|done]. by rewrite E. Qed.
Lemma f_null_cases {A} (a : A) other t :
  (is_keyword "NULL" t /\ f_null a other t = Parsed (a, true)) \/ (f_null a other t = other /\ (token_type t = tkIdentifier -> Upper (lexeme t) <> "NULL")) \/
  (exists what, f_null a other t = ParseError what).
Proof.
  pose proof (keyword_consumed "NULL" t true true) as Hk. unfold f_null, f_keyword in *.
  destruct (_ && _) eqn:E; [|right; left; split; [done|]].
  - destruct (IsSingleCaseWord (lexeme t)); [left|right; right; eauto]. split; [|done]. by apply Hk.
  - intros Ht Hu. by apply andb_false_iff in E as [E%bool_decide_eq_false|E%bool_decide_eq_false].
Qed.
Lemma sound_ParseLiteralValue m : sound m (ParseLiteralValue tokens) literal.
Proof.
  apply (sound_one m _ _ _ looks_ParseLiteralValue). intros t. unfold f_literal, is_literal.
  destruct (f_null_cases VNull (ParseError "expected literal value") t) as [[Hk E]|[[E _]|(what & E)]]; rewrite E.
  1: pose proof Hk as (Ht & _); rewrite Ht; split_and!; try done; right; by right.
  all: destruct (token_type t) eqn:Et; try done; split_and!; try done; auto.
Qed.
Lemma sound_ParseOperand m : sound m (ParseOperand tokens) operand.
Proof.
  apply (sound_one m _ _ _ looks_ParseOperand). intros t. unfold f_operand, is_operand, is_literal.
  destruct (token_type t) eqn:Et; try done; [|split_and!; auto; done..].
  destruct (f_null_cases (LiteralExpr VNull) (Parsed (ColumnRefExpr (lexeme t), true)) t) as [[Hk ->]|[[-> Hu]|(what & ->)]]; [| |done].
  - split_and!; try done. right; by right.
  - by split_and!; try apply Hu.
Qed.
Lemma sound_ParseBinaryOp m : sound m (ParseBinaryOp tokens) (fun op => tok (op_type op)).
Proof. apply (sound_one m _ _ _ looks_ParseBinaryOp). intros t. unfold f_op. by destruct (token_type t). Qed.
Lemma sound_ParseColumnType m : sound m (ParseColumnType tokens) column_type.
Proof.
  eapply sound_mono; [apply (sound_one m _ _ (fun ty t => column_type ty [t]) looks_ParseColumnType)|done|].
  - intros t. unfold f_column_type. case_bool_decide as Et; [|done]. rewrite Et.
    case_bool_decide; [|case_bool_decide; [|done]]; split_and!; try done; by exists t.
  - by intros a ts (t & -> & H).
Qed.

Lemma sound_0 {A} (p : P A) G : sound 0 p G.
Proof. intros pos s _ (t & s' & -> & _)%terminated_head Hl. cbn in Hl. lia. Qed.
(** Sequencing, with the phrase of the whole in the end. *)
Lemma sound_then_lt {A B} m (p : P A) (f : A -> P B) G K :
  sound m p G -> (forall a ts, G a ts -> ts <> []) ->
  (forall a, sound (m - 1) (f a) (fun b ts => forall t1, G a t1 -> K b (t1 ++ ts))) -> sound m (p ≫= f) K.
Proof.
  intros Hp Hne Hf. eapply sound_mono; [apply (sound_bind_len m p f G (fun a b ts => forall t1, G a t1 -> K b (t1 ++ ts)) (fun _ => 1%nat) Hp); [|exact Hf]|done|].
  - intros a ts HG. specialize (Hne a ts HG). destruct ts; [done|]. cbn. lia.
  - intros b ts (a & t1 & t2 & -> & HG & HK). auto.
Qed.
Lemma sound_then {A B} m (p : P A) (f : A -> P B) G K :
  sound m p G -> (forall a, sound m (f a) (fun b ts => forall t1, G a t1 -> K b (t1 ++ ts))) -> sound m (p ≫= f) K.
Proof.
  intros Hp Hf. eapply sound_mono; [apply (sound_bind m p f G (fun a b ts => forall t1, G a t1 -> K b (t1 ++ ts)) Hp Hf)|done|]. intros b ts (a & t1 & t2 & -> & HG & HK). auto.
Qed.
Lemma sound_done {A} m (a : A) (K : A -> phrase) : K a [] -> sound m (mret a) K.
Proof. intros HK. eapply sound_mono; [apply sound_ret|done|]. by intros ? ? [-> ->]. Qed.
(** A choice by a keyword or a token. *)
Lemma sound_choice {A} m (p : P bool) (G : Token -> Prop) (q r : P A) K :
  sound m p (when (one G)) -> sound (m - 1) q (fun a ts => forall t1, one G t1 -> K a (t1 ++ ts)) -> sound m r K ->
  sound m (b ← p; if b : bool then q else r) K.
Proof. intros Hp Hq Hr. eapply sound_bool; [exact Hp|apply one_nonempty|exact Hq|exact Hr]. Qed.

Lemma sound_le {A} m m' (p : P A) G : sound m p G -> (m' <= m)%nat -> sound m' p G.
Proof. intros Hp Hm. by eapply sound_mono. Qed.

#[local] Hint Resolve sound_At sound_Match sound_MatchKeyword sound_Expect sound_ExpectKeyword sound_ParseIdentifier
  sound_ParseQuoted sound_ParseLiteralValue sound_ParseOperand sound_ParseBinaryOp sound_ParseColumnType : sound.
#[local] Hint Extern 1 (_ <> tkEof) => discriminate : sound.
(** One call of the parser; one choice. *)
Ltac sound_call := eapply sound_then; [eauto with sound|].
Ltac sound_case := eapply sound_choice; [eauto with sound| |].
(** The parts, put together. *)
Ltac phrases := repeat (eexists _, _; split_and!; [reflexivity|eassumption|]).

Lemma sound_commas {A} (item : P A) G fuel : forall m,
  (m <= fuel)%nat -> sound m item G -> sound m (comma_list tokens item fuel) (commas G).
Proof.
  induction fuel as [|fuel IH]; intros m Hm Hi; [replace m with O by lia; apply sound_0|]. cbn [comma_list].
  sound_call. intros x. sound_case.
  - apply (sound_then (m - 1) _ _ (commas G)); [apply IH; [lia|]; eapply sound_le; [exact Hi|lia]|]. intros xs. apply sound_done.
    intros t3 H3 t2 H2 t1 H1. rewrite app_nil_r. destruct xs as [|y xs]; [done|]. by phrases.
  - apply sound_done. intros t1 H1. by rewrite app_nil_r.
Qed.

Lemma sound_exprs fuel : forall m,
  ((4 * m <= fuel + 3)%nat -> sound m (ParsePredicate tokens fuel) (expr atPredicate)) /\
  ((4 * m <= fuel + 2)%nat -> sound m (ParseAnd tokens fuel) (expr atAnd)) /\
  ((4 * m <= fuel + 3)%nat -> forall e, sound m (ParseAnd_loop tokens fuel e) (fun e' ts => forall t0, expr atAnd e t0 -> expr atAnd e' (t0 ++ ts))) /\
  ((4 * m <= fuel + 1)%nat -> sound m (ParseOr tokens fuel) (expr atOr)) /\
  ((4 * m <= fuel + 3)%nat -> forall e, sound m (ParseOr_loop tokens fuel e) (fun e' ts => forall t0, expr atOr e t0 -> expr atOr e' (t0 ++ ts))).
Proof.
  induction fuel as [|fuel IH]; intros m.
  { split_and!; intros; replace m with O by lia; apply sound_0. }
  split_and!.
  - intros Hm. cbn [ParsePredicate]. sound_case.
    + apply (sound_then _ _ _ (expr atOr)); [apply IH; lia|]. intros e. sound_call. intros ?. apply sound_done.
      intros t3 H3 t2 H2 t1 H1. rewrite app_nil_r. by constructor.
    + sound_call. intros left. sound_case; [|sound_case].
      * sound_call. intros low. sound_call. intros ?. sound_call. intros high. apply sound_done. intros. rewrite app_nil_r.
        constructor. by phrases.
      * sound_call. intros pattern. apply sound_done. intros. rewrite app_nil_r. constructor. by phrases.
      * sound_call. intros op. sound_call. intros right. apply sound_done. intros. rewrite app_nil_r. constructor. by phrases.
  - intros Hm. cbn [ParseAnd]. apply (sound_then _ _ _ (expr atPredicate)); [apply IH; lia|]. intros e.
    eapply (sound_mono m); [apply IH; lia|done|]. intros e' ts He t1 H1. apply He. by constructor.
  - intros Hm e. cbn [ParseAnd_loop]. sound_case.
    + apply (sound_then _ _ _ (expr atPredicate)); [apply IH; lia|]. intros r. eapply (sound_mono (m - 1)); [apply IH; lia|done|].
      intros e' ts He t2 H2 t1 H1 t0 H0. rewrite !app_assoc, <- (app_assoc t0). apply He. by constructor.
    + apply sound_done. intros t0 H0. by rewrite app_nil_r.
  - intros Hm. cbn [ParseOr]. apply (sound_then _ _ _ (expr atAnd)); [apply IH; lia|]. intros e.
    eapply (sound_mono m); [apply IH; lia|done|]. intros e' ts He t1 H1. apply He. by constructor.
  - intros Hm e. cbn [ParseOr_loop]. sound_case.
    + apply (sound_then _ _ _ (expr atAnd)); [apply IH; lia|]. intros r. eapply (sound_mono (m - 1)); [apply IH; lia|done|].
      intros e' ts He t2 H2 t1 H1 t0 H0. rewrite !app_assoc, <- (app_assoc t0). apply He. by constructor.
    + apply sound_done. intros t0 H0. by rewrite app_nil_r.
Qed.
Lemma sound_ParseOr m : (m <= length tokens)%nat -> sound m (ParseOr tokens (expr_fuel tokens)) (expr atOr).
Proof. intros Hm. apply sound_exprs. unfold expr_fuel. lia. Qed.

Lemma sound_ParseQualifiedName m : sound m (ParseQualifiedName tokens) (fun n => qualified n.1 n.2).
Proof.
  unfold ParseQualifiedName. sound_call. intros first. sound_case.
  - sound_call. intros table. apply sound_done. intros. rewrite app_nil_r. right. by phrases.
  - apply sound_done. intros t1 H1. rewrite app_nil_r. by left.
Qed.
#[local] Hint Resolve sound_ParseQualifiedName : sound.

Lemma sound_ParseWhereIfPresent m : (m <= length tokens)%nat -> sound m (ParseWhereIfPresent tokens) where_clause.
Proof.
  intros Hm. unfold ParseWhereIfPresent. eapply sound_then; [eauto with sound|]. intros [].
  - cbn [negb]. eapply sound_then; [by apply sound_ParseOr|]. intros e. apply sound_done. intros. rewrite app_nil_r. by phrases.
  - apply sound_done. intros t1 ->. done.
Qed.

Lemma sound_ParseColumnFlags fuel : forall m n i, (m <= fuel)%nat ->
  sound m (ParseColumnFlags tokens fuel n i) (fun r ts => exists n' i', column_flags n' i' ts /\ r = (n || n', i || i')).
Proof.
  induction fuel as [|fuel IH]; intros m n i Hm; [replace m with O by lia; apply sound_0|]. cbn [ParseColumnFlags].
  assert (sound m (mret (n, i)) (fun r ts => exists n' i', column_flags n' i' ts /\ r = (n || n', i || i'))) as Hret.
  { apply sound_done. exists false, false. split; [constructor|]. by rewrite !orb_false_r. }
  sound_call. intros [].
  2: { cbn [negb]. eapply (sound_mono m); [exact Hret|done|]. by intros r ts H t1 ->. }
  cbn [negb]. eapply (sound_mono m) with (G := fun r ts => exists n' i', column_flags n' i' ts /\ r = (n || n', i || i')); [|done|by intros r ts H t1 ->].
  sound_case; [|sound_case; [|exact Hret]].
  - eapply (sound_mono (m - 1)); [apply IH; lia|done|]. intros r ts (n' & i' & Hf & ->) t1 H1. exists true, i'.
    split; [by econstructor|]. by rewrite orb_true_r.
  - eapply (sound_mono (m - 1)); [apply IH; lia|done|]. intros r ts (n' & i' & Hf & ->) t1 H1. exists true, true.
    split; [by econstructor|]. by rewrite !orb_true_r.
Qed.
Lemma sound_ParseColumn m : (m <= length tokens)%nat -> sound m (ParseColumn tokens) column.
Proof.
  intros Hm. unfold ParseColumn. sound_call. intros name. sound_call. intros ty.
  eapply sound_then; [by apply sound_ParseColumnFlags|]. intros [n i]. apply sound_done.
  intros t3 (n' & i' & Hf & [= -> ->]) t2 H2 t1 H1. rewrite app_nil_r. split; [done|]. by phrases.
Qed.
Lemma sound_ParseRow m : (m <= length tokens)%nat -> sound m (ParseRow tokens) row.
Proof.
  intros Hm. unfold ParseRow. sound_call. intros ?. eapply sound_then; [apply sound_commas; [done|eauto with sound]|].
  intros vs. sound_call. intros ?. apply sound_done. intros. rewrite app_nil_r. by phrases.
Qed.
Lemma sound_ParseSelectItem m : sound m (ParseSelectItem tokens) select_item.
Proof.
  unfold ParseSelectItem. sound_call. intros column. sound_case.
  - sound_call. intros alias. apply sound_done. intros. rewrite app_nil_r. eexists _, _; split_and!; [reflexivity|eassumption|].
    right. by phrases.
  - apply sound_done. intros t1 H1. rewrite app_nil_r. exists t1, []. rewrite app_nil_r. split_and!; try done. by left.
Qed.
Lemma sound_ParseAssignment m : sound m (ParseAssignment tokens) assignment.
Proof.
  unfold ParseAssignment. sound_call. intros column. sound_call. intros ?. sound_call. intros v. apply sound_done.
  intros. rewrite app_nil_r. by phrases.
Qed.

(** *** Permissions and timestamps *)

Definition maybe_word (stop : string) : P (option string) := fun pos =>
  match tokens !! pos with
  | Some t => if bool_decide (token_type t = tkIdentifier) && negb (bool_decide (Upper (lexeme t) = stop))
              then Parsed (Some (Upper (lexeme t)), S pos) else Parsed (None, pos)
  | None => OutOfRange
  end.
Lemma ParsePermission_eq stop fuel p pos :
  ParsePermission tokens stop (S fuel) p pos =
  (o ← maybe_word stop; match o with Some w => ParsePermission tokens stop fuel (p +:+ "_" +:+ w) | None => mret p end) pos.
Proof.
  cbn [ParsePermission]. unfold At, Consume, maybe_word, mbind, P_bind, mret, P_ret, Peek, advance.
  destruct (tokens !! pos) as [t|] eqn:E; [|done]. rewrite E. destruct (_ && _); [|done]. by rewrite E.
Qed.
Lemma sound_maybe_word m stop :
  sound m (maybe_word stop) (fun o => match o with Some w => word (fun x => x = w /\ w <> stop) | None => nothing end).
Proof.
  intros pos s Hs Ht _. destruct (terminated_head s Ht) as (t & s1 & -> & Ht1). apply drop_head in Hs as Hd. destruct Hd as [E Hd].
  unfold maybe_word. rewrite E. destruct (_ && _) eqn:Ew; [|by exists [], (t :: s1)].
  apply andb_true_iff in Ew as [E1%bool_decide_eq_true E2%negb_true_iff]. apply bool_decide_eq_false in E2.
  exists [t], s1. split_and!; try done; [apply Ht1; congruence|]. by exists t.
Qed.
Lemma sound_ext {A} m (p q : P A) G : (forall pos, p pos = q pos) -> sound m q G -> sound m p G.
Proof. intros E H pos s Hs. rewrite E. by apply H. Qed.
Lemma sound_ParsePermission stop fuel : forall m p, (m <= fuel)%nat ->
  sound m (ParsePermission tokens stop fuel p) (more_words stop p).
Proof.
  induction fuel as [|fuel IH]; intros m p Hm; [replace m with O by lia; apply sound_0|].
  eapply sound_ext; [apply ParsePermission_eq|].
  eapply sound_mono; [apply (sound_bind_len m _ _ _ (fun o q ts => match o with Some w => more_words stop (p +:+ "_" +:+ w) q ts | None => q = p /\ ts = [] end)
    (fun o => match o with Some _ => 1%nat | None => O end) (sound_maybe_word m stop))|done|].
  - intros [w|] ts; [|cbn; lia]. intros (t & -> & _). cbn. lia.
  - intros [w|]; [apply IH; lia|]. apply sound_ret.
  - intros q ts ([w|] & t1 & t2 & -> & H1 & H2); [by econstructor|]. destruct H2 as [-> ->]. rewrite H1. constructor.
Qed.

Lemma sound_assoc {A B C} m (p : P A) (f : A -> P B) (g : B -> P C) K :
  sound m (x ← (a ← p; f a); g x) K -> sound m (a ← p; x ← f a; g x) K.
Proof. apply sound_ext. intros pos. unfold mbind, P_bind. by destruct (p pos) as [[]|what| |]. Qed.

Lemma sound_permission m stop : (m <= length tokens)%nat ->
  sound m (first ← ParseIdentifier tokens; ParsePermission tokens stop (loop_fuel tokens) (Upper first)) (permission_words stop).
Proof.
  intros Hm. sound_call. intros first. eapply (sound_mono m); [by apply sound_ParsePermission|done|].
  intros p ts Hw t1 (t & -> & Ht & <-). exists (Upper (lexeme t)), [t], ts. split_and!; try done. by exists t.
Qed.
Lemma sound_ParseTargetType m what : sound m (ParseTargetType tokens what) target.
Proof.
  unfold ParseTargetType. sound_case; [|sound_case; [|apply sound_fail]]; apply sound_done; intros t1 H1; rewrite app_nil_r;
    split; auto.
Qed.

(** A timestamp token. *)
Definition ParseStamp : P Z :=
  ident ← At tokens tkIdentifier; number ← At tokens tkNumber;
  if negb ident && negb number then fail "expected revert timestamp" else
  t ← Consume tokens;
  match ParseRevertTimestampMs mktime (lexeme t) with
  | None => fail "expected timestamp in yyyy.mm.dd-hh:mm:ss.mmm format"
  | Some timestamp_ms => mret timestamp_ms
  end.
Definition f_stamp (t : Token) : parsed (Z * bool) :=
  if bool_decide (token_type t = tkIdentifier) || bool_decide (token_type t = tkNumber) then
    match ParseRevertTimestampMs mktime (lexeme t) with
    | None => ParseError "expected timestamp in yyyy.mm.dd-hh:mm:ss.mmm format"
    | Some timestamp_ms => Parsed (timestamp_ms, true)
    end
  else ParseError "expected revert timestamp".
Lemma looks_ParseStamp : looks ParseStamp f_stamp.
Proof.
  unfold ParseStamp, At, Consume, f_stamp. look. rewrite <- negb_orb. destruct (_ || _); cbn [negb]; [|done]. rewrite E.
  by destruct (ParseRevertTimestampMs mktime (lexeme t)).
Qed.
Lemma ParseRevert_eq pos :
  ParseRevert mktime tokens pos =
  ('(database_name, table_name) ← ParseQualifiedName tokens; timestamp_ms ← ParseStamp; _ ← Finish tokens;
   mret (RevertStatement database_name table_name timestamp_ms)) pos.
Proof.
  unfold ParseRevert, ParseStamp, mbind, P_bind. destruct (ParseQualifiedName tokens pos) as [[[d t] pos1]|what| |]; try done.
  destruct (At tokens tkIdentifier pos1) as [[b1 pos2]|what| |]; try done. destruct (At tokens tkNumber pos2) as [[b2 pos3]|what| |]; try done.
  destruct (_ && _); [done|]. destruct (Consume tokens pos3) as [[x pos4]|what| |]; try done.
  by destruct (ParseRevertTimestampMs mktime (lexeme x)).
Qed.
Lemma sound_ParseStamp m : sound m ParseStamp (fun z => one (fun x =>
  (token_type x = tkIdentifier \/ token_type x = tkNumber) /\ ParseRevertTimestampMs mktime (lexeme x) = Some z)).
Proof.
  apply (sound_one m _ _ _ looks_ParseStamp). intros t. unfold f_stamp. destruct (_ || _) eqn:E; [|done].
  destruct (ParseRevertTimestampMs mktime (lexeme t)); [|done]. apply orb_true_iff in E as [E%bool_decide_eq_true|E%bool_decide_eq_true];
    rewrite E; split_and!; auto; done.
Qed.

(** ** Soundness of the statements *)

Definition ending : phrase := either nothing (tok tkSemicolon).
Lemma sound_Finish m : sound m (Finish tokens) (fun _ => ending).
Proof.
  unfold Finish. eapply sound_then; [eauto with sound|]. intros b. eapply sound_then; [eauto with sound|]. intros [].
  - apply sound_done. intros t2 -> t1 H1. rewrite app_nil_r. destruct b; [by right|by left].
  - apply sound_fail.
Qed.
Lemma seq_shift p q r ts : (p ⋅ q ⋅ r) ts -> ((p ⋅ q) ⋅ r) ts.
Proof.
  intros (a & x & -> & Hp & b & c & -> & Hq & Hr). exists (a ++ b), c. split_and!; [by rewrite app_assoc| |done]. by exists a, b.
Qed.
#[local] Hint Resolve sound_Finish sound_ParseStamp sound_ParseTargetType sound_ParseSelectItem sound_ParseAssignment
  sound_ParseWhereIfPresent sound_ParseColumn sound_ParseRow sound_ParseOr sound_permission : sound.
#[local] Hint Extern 1 (sound _ (comma_list _ _ _) _) => apply sound_commas : sound.
#[local] Hint Extern 1 (_ <= loop_fuel _)%nat => unfold loop_fuel; lia : sound.
(** What completes [G] after the words already read. *)
Definition after (words : phrase) (G : SqlStatement -> phrase) (stmt : SqlStatement) : phrase := fun ts =>
  forall t0, words t0 -> G stmt (t0 ++ ts).
Abbreviation whole := (sentence mktime).
(** The statement, from its parts. *)
Ltac sentence := unfold after; intros; rewrite app_nil_r; unfold sentence; cbn [statement required_where where_clause];
  repeat (apply seq_shift; eexists _, _; split_and!; [reflexivity|eassumption|]); eexists _, _; split_and!; [reflexivity|eassumption|eassumption].
Ltac sound_calls := repeat (sound_call; intros ?); apply sound_done; sentence.

Lemma sound_on_keyword m keyword p q G :
  sound (m - 1) p (after (kw keyword) G) -> sound m q G -> sound m (on_keyword tokens keyword p q) G.
Proof. intros Hp Hq. unfold on_keyword. eapply sound_choice; [apply sound_MatchKeyword|exact Hp|exact Hq]. Qed.

Lemma sound_ParseInsert m : (m <= length tokens)%nat -> sound m (ParseInsert tokens) (after (kw "INSERT") whole).
Proof. intros Hm. unfold ParseInsert. sound_call. intros ?. sound_call. intros [d t]. cbn [fst snd]. sound_calls. Qed.
Lemma sound_ParseCreateTable m :
  (m <= length tokens)%nat -> sound m (ParseCreateTable tokens) (after (kw "TABLE") (after (kw "CREATE") whole)).
Proof. intros Hm. unfold ParseCreateTable. sound_call. intros [d t]. cbn [fst snd]. sound_calls. Qed.
Lemma sound_ParseSelect m : (m <= length tokens)%nat -> sound m (ParseSelect tokens) (after (kw "SELECT") whole).
Proof.
  intros Hm. unfold ParseSelect. sound_call. intros star.
  apply (sound_then m _ _ (fun cs ts => forall t0, when (tok tkStar) star t0 -> select_list star cs (t0 ++ ts))).
  { destruct star; [apply sound_done; intros t0 H0; by rewrite app_nil_r|]. repeat (sound_call; intros ?). apply sound_done.
    intros t3 H3 t2 H2 t1 H1 t0 ->. rewrite app_nil_r. cbn [app]. by phrases. }
  intros items. sound_call. intros ?. sound_call. intros [d t]. cbn [fst snd]. sound_call. intros w. sound_call. intros ?.
  apply sound_done. intros t6 H6 t5 H5 t4 H4 t3 H3 t2 H2 t1 H1 t0 H0. specialize (H2 t1 H1). rewrite (app_assoc t1 t2).
  revert H0 H2 H3 H4 H5 H6. generalize (t1 ++ t2). sentence.
Qed.
Lemma sound_ParseUpdate m : (m <= length tokens)%nat -> sound m (ParseUpdate tokens) (after (kw "UPDATE") whole).
Proof. intros Hm. unfold ParseUpdate. sound_call. intros [d t]. cbn [fst snd]. sound_calls. Qed.
Lemma sound_ParseDelete m : (m <= length tokens)%nat -> sound m (ParseDelete tokens) (after (kw "DELETE") whole).
Proof. intros Hm. unfold ParseDelete. sound_call. intros ?. sound_call. intros [d t]. cbn [fst snd]. sound_calls. Qed.
Lemma sound_ParseRevert m : sound m (ParseRevert mktime tokens) (after (kw "REVERT") whole).
Proof. eapply sound_ext; [apply ParseRevert_eq|]. sound_call. intros [d t]. cbn [fst snd]. sound_calls. Qed.
Lemma sound_ParseCreate m : (m <= length tokens)%nat -> sound m (ParseCreate tokens) (after (kw "CREATE") whole).
Proof.
  intros Hm. unfold ParseCreate. repeat apply sound_on_keyword; [|apply sound_ParseCreateTable; lia|..|apply sound_fail].
  - sound_calls.
  - unfold ParseCreateUser. sound_calls.
  - unfold ParseCreateGroup. sound_calls.
Qed.
Lemma sound_ParseDrop m : sound m (ParseDrop tokens) (after (kw "DROP") whole).
Proof.
  unfold ParseDrop. repeat apply sound_on_keyword; [..|apply sound_fail].
  - sound_calls.
  - sound_call. intros [d t]. cbn [fst snd]. sound_calls.
  - sound_calls.
  - sound_calls.
Qed.
Lemma sound_ParseGrant m : (m <= length tokens)%nat -> sound m (ParseGrant tokens) (after (kw "GRANT") whole).
Proof. intros Hm. unfold ParseGrant. apply sound_assoc. sound_calls. Qed.
Lemma sound_ParseRevoke m : (m <= length tokens)%nat -> sound m (ParseRevoke tokens) (after (kw "REVOKE") whole).
Proof. intros Hm. unfold ParseRevoke. apply sound_assoc. sound_calls. Qed.

Lemma sound_ParseStatement : sound (length tokens) (ParseStatement mktime tokens) whole.
Proof.
  unfold ParseStatement. repeat match goal with |- sound _ (on_keyword _ _ _ _) _ => apply sound_on_keyword end.
  - apply sound_ParseCreate. lia.
  - apply sound_ParseDrop.
  - sound_calls.
  - apply sound_ParseInsert. lia.
  - apply sound_ParseSelect. lia.
  - apply sound_ParseUpdate. lia.
  - apply sound_ParseDelete. lia.
  - apply sound_ParseRevert.
  - unfold ParseLogin. sound_calls.
  - apply sound_ParseGrant. lia.
  - apply sound_ParseRevoke. lia.
  - unfold ParseAddUserToGroup. sound_calls.
  - unfold ParseSubmitQuery. sound_calls.
  - unfold ParseGetTask. sound_calls.
  - unfold ParseCancelTask. sound_calls.
  - sound_calls.
  - apply sound_fail.
  - apply sound_fail.
Qed.

(** ** The end of a statement *)

Definition ends_at_eof {A} (p : P A) : Prop := forall pos a pos',
  p pos = Parsed (a, pos') -> exists t, tokens !! pos' = Some t /\ token_type t = tkEof.
Lemma ends_bind {A B} (p : P A) (f : A -> P B) : (forall a, ends_at_eof (f a)) -> ends_at_eof (p ≫= f).
Proof. intros Hf pos b pos'. unfold mbind, P_bind. destruct (p pos) as [[a pos1]|what| |]; try done. apply Hf. Qed.
Lemma ends_Finish (stmt : SqlStatement) : ends_at_eof (_ ← Finish tokens; mret stmt).
Proof.
  intros pos a pos'. unfold Finish, mbind, P_bind, mret, P_ret. destruct (Match tokens tkSemicolon pos) as [[b pos1]|what| |]; try done.
  rewrite looks_At. destruct (tokens !! pos1) as [t|] eqn:E; [|done]. case_bool_decide as Et; [|done]. cbn. intros [= _ <-]. by exists t.
Qed.
Lemma ends_fail {A} what : ends_at_eof (A := A) (fail what).
Proof. done. Qed.
Ltac ends := repeat first [apply ends_Finish|apply ends_fail|
  match goal with |- ends_at_eof (mbind _ _) => apply ends_bind; intros ? | x : _ * _ |- _ => destruct x | x : bool |- _ => destruct x end].
Lemma ends_ParseStatement : ends_at_eof (ParseStatement mktime tokens).
Proof.
  unfold ParseStatement, on_keyword, ParseCreate, ParseDrop, ParseInsert, ParseSelect, ParseUpdate, ParseDelete, ParseLogin,
    ParseGrant, ParseRevoke, ParseAddUserToGroup, ParseSubmitQuery, ParseGetTask, ParseCancelTask, on_keyword,
    ParseCreateTable, ParseCreateUser, ParseCreateGroup, ParseRevert.
  ends; cbn [andb negb]; try done.
  all: apply ends_bind; intros t; destruct (ParseRevertTimestampMs mktime (lexeme t)); ends.
Qed.

(** ** Completeness of the parts *)

Lemma step_bounded {A} (p : P A) s a s' : ((length s <= length tokens)%nat -> step p s a s') -> step p s a s'.
Proof. intros H pos Hs. apply H; [|done]. rewrite <- Hs, length_drop. lia. Qed.
Lemma step_one {A} (p : P A) f (Q : Token -> Prop) a ts rest :
  looks p f -> (forall t, Q t -> f t = Parsed (a, true)) -> one Q ts -> step p (ts ++ rest) a rest.
Proof. intros Hp Hf (t & -> & Ht). by apply (looks_step p f t rest a true Hp), Hf. Qed.

(** The next token is not of the type, or not the keyword. *)
Definition not_tok (type : TokenType) (s : list Token) : Prop := exists t s', s = t :: s' /\ token_type t <> type.
Definition not_kw (keyword : string) (s : list Token) : Prop :=
  exists t s', s = t :: s' /\ (token_type t = tkIdentifier -> Upper (lexeme t) <> keyword).

Lemma f_keyword_hit keyword t : is_keyword keyword t -> f_keyword keyword t = Parsed (true, true).
Proof. intros (H1 & H2 & H3). unfold f_keyword. by rewrite !bool_decide_true, H3. Qed.
Lemma f_keyword_miss keyword t :
  (token_type t = tkIdentifier -> Upper (lexeme t) <> keyword) -> f_keyword keyword t = Parsed (false, false).
Proof.
  intros H. unfold f_keyword. destruct (_ && _) eqn:E; [|done]. apply andb_true_iff in E as [E1%bool_decide_eq_true E2%bool_decide_eq_true].
  by apply H in E1.
Qed.
Lemma step_kw keyword ts rest : kw keyword ts -> step (MatchKeyword tokens keyword) (ts ++ rest) true rest.
Proof. apply (step_one _ _ _ _ _ _ (looks_MatchKeyword keyword)), f_keyword_hit. Qed.
Lemma step_kw_miss keyword s : not_kw keyword s -> step (MatchKeyword tokens keyword) s false s.
Proof. intros (t & s' & -> & H). by apply (looks_step _ _ t s' false false (looks_MatchKeyword keyword)), f_keyword_miss. Qed.
Lemma step_tok type ts rest : tok type ts -> step (Match tokens type) (ts ++ rest) true rest.
Proof. apply (step_one _ _ _ _ _ _ (looks_Match type)). intros t Ht. unfold f_match. by rewrite bool_decide_true. Qed.
Lemma step_tok_miss type s : not_tok type s -> step (Match tokens type) s false s.
Proof.
  intros (t & s' & -> & H). apply (looks_step _ _ t s' false false (looks_Match type)). unfold f_match. by rewrite bool_decide_false.
Qed.
Lemma step_Expect type what ts rest : tok type ts -> step (Expect tokens type what) (ts ++ rest) tt rest.
Proof. intros H. eapply step_bind; [by apply step_tok|]. apply step_ret. Qed.
Lemma step_ExpectKeyword keyword ts rest : kw keyword ts -> step (ExpectKeyword tokens keyword) (ts ++ rest) tt rest.
Proof. intros H. eapply step_bind; [by apply step_kw|]. apply step_ret. Qed.
Lemma step_ident name ts rest : ident name ts -> step (ParseIdentifier tokens) (ts ++ rest) name rest.
Proof. apply (step_one _ _ _ _ _ _ looks_ParseIdentifier). intros t [Ht <-]. unfold f_ident. by rewrite bool_decide_true. Qed.
Lemma step_quoted what x ts rest : quoted_text x ts -> step (ParseQuoted tokens what) (ts ++ rest) x rest.
Proof. apply (step_one _ _ _ _ _ _ (looks_ParseQuoted what)). intros t [Ht <-]. unfold f_quoted. by rewrite bool_decide_true. Qed.
Lemma step_literal v ts rest : literal v ts -> step (ParseLiteralValue tokens) (ts ++ rest) v rest.
Proof.
  apply (step_one _ _ _ _ _ _ looks_ParseLiteralValue). unfold f_literal, f_null. intros t [[-> ->]|[[-> ->]|[Hk ->]]]; [done|done|].
  pose proof Hk as (-> & _). by rewrite f_keyword_hit.
Qed.
Lemma step_operand e ts rest : operand e ts -> step (ParseOperand tokens) (ts ++ rest) e rest.
Proof.
  apply (step_one _ _ _ _ _ _ looks_ParseOperand). unfold f_operand, f_null, is_operand. intros t Ht. destruct e; try done.
  - destruct Ht as (-> & <- & Hu). by rewrite f_keyword_miss.
  - destruct Ht as [[-> ->]|[[-> ->]|[Hk ->]]]; [done|done|]. pose proof Hk as (-> & _). by rewrite f_keyword_hit.
Qed.
Lemma step_op op ts rest : tok (op_type op) ts -> step (ParseBinaryOp tokens) (ts ++ rest) op rest.
Proof. apply (step_one _ _ _ _ _ _ looks_ParseBinaryOp). unfold f_op. intros t ->. by destruct op. Qed.
Lemma step_column_type ty ts rest : column_type ty ts -> step (ParseColumnType tokens) (ts ++ rest) ty rest.
Proof.
  destruct ty; try done; apply (step_one _ _ _ _ _ _ looks_ParseColumnType); unfold f_column_type; intros t [Ht Hw];
    rewrite (bool_decide_true _ Ht), Hw; done.
Qed.

(** The next token after a phrase that starts with a token of a kind. *)
Lemma not_kw_kw keyword keyword' ts rest : kw keyword' ts -> keyword' <> keyword -> not_kw keyword (ts ++ rest).
Proof. intros (t & -> & (_ & Hu & _)) Hne. exists t, rest. split; [done|]. intros _. congruence. Qed.
Lemma not_kw_tok keyword type ts rest : tok type ts -> type <> tkIdentifier -> not_kw keyword (ts ++ rest).
Proof. intros (t & -> & Ht) Hne. exists t, rest. split; [done|]. intros Ht'. congruence. Qed.
Lemma not_tok_one type (p : Token -> Prop) ts rest : one p ts -> (forall t, p t -> token_type t <> type) -> not_tok type (ts ++ rest).
Proof. intros (t & -> & Ht) Hp. exists t, rest. auto. Qed.
Lemma operand_type e t : is_operand e t -> token_type t = tkNumber \/ token_type t = tkString \/ token_type t = tkIdentifier.
Proof. destruct e; try done; [intros (-> & _); auto|]. intros [[-> _]|[[-> _]|[(-> & _) _]]]; auto. Qed.
Lemma length_one p ts : one p ts -> length ts = 1%nat.
Proof. by intros (t & -> & _). Qed.

Definition parses_expr (l : level) (e : Expr) (ts : list Token) : Prop :=
  match l with
  | atPredicate => forall fuel rest, (4 * length ts <= fuel)%nat -> step (ParsePredicate tokens fuel) (ts ++ rest) e rest
  | atAnd => forall fuel rest b s', (4 * length ts + 1 <= fuel)%nat ->
      (forall f, (fuel - length ts <= f)%nat -> step (ParseAnd_loop tokens f e) rest b s') -> step (ParseAnd tokens fuel) (ts ++ rest) b s'
  | atOr => forall fuel rest b s', (4 * length ts + 2 <= fuel)%nat -> not_kw "AND" rest ->
      (forall f, (fuel - length ts <= f)%nat -> step (ParseOr_loop tokens f e) rest b s') -> step (ParseOr tokens fuel) (ts ++ rest) b s'
  end.

Lemma stop_and e f rest : (1 <= f)%nat -> not_kw "AND" rest -> step (ParseAnd_loop tokens f e) rest e rest.
Proof. intros Hf Hr. destruct f; [lia|]. cbn [ParseAnd_loop]. eapply step_bind; [by apply step_kw_miss|]. apply step_ret. Qed.
Lemma stop_or e f rest : (1 <= f)%nat -> not_kw "OR" rest -> step (ParseOr_loop tokens f e) rest e rest.
Proof. intros Hf Hr. destruct f; [lia|]. cbn [ParseOr_loop]. eapply step_bind; [by apply step_kw_miss|]. apply step_ret. Qed.

(** The predicates proper. *)
Lemma step_paren_miss e ts rest : operand e ts -> step (Match tokens tkLParen) (ts ++ rest) false (ts ++ rest).
Proof. intros H. apply step_tok_miss. eapply not_tok_one; [exact H|]. by intros t [->|[->| ->]]%operand_type. Qed.
Ltac parts := repeat match goal with H : (_ ⋅ _) _ |- _ => destruct H as (? & ? & -> & ? & ?) end; rewrite <- ?app_assoc.
Ltac atom := intros; parts; match goal with fuel : nat |- _ => destruct fuel as [|fuel]; [lia|] end; cbn [ParsePredicate];
  (eapply step_bind; [by eapply step_paren_miss|]); (eapply step_bind; [by apply step_operand|]); cbv iota beta.
Lemma step_binary op l r ts fuel rest : (1 <= fuel)%nat ->
  (operand l ⋅ tok (op_type op) ⋅ operand r) ts -> step (ParsePredicate tokens fuel) (ts ++ rest) (BinaryExpr op l r) rest.
Proof.
  atom. assert (op_type op <> tkIdentifier) by by destruct op.
  eapply step_bind; [apply step_kw_miss; by eapply not_kw_tok|]. eapply step_bind; [apply step_kw_miss; by eapply not_kw_tok|].
  eapply step_bind; [by apply step_op|]. eapply step_bind; [by apply step_operand|]. apply step_ret.
Qed.
Lemma step_between v l h ts fuel rest : (1 <= fuel)%nat ->
  (operand v ⋅ kw "BETWEEN" ⋅ operand l ⋅ kw "AND" ⋅ operand h) ts ->
  step (ParsePredicate tokens fuel) (ts ++ rest) (BetweenExpr v l h) rest.
Proof.
  atom. eapply step_bind; [by apply step_kw|]. eapply step_bind; [by apply step_operand|].
  eapply step_bind; [by apply step_ExpectKeyword|]. eapply step_bind; [by apply step_operand|]. apply step_ret.
Qed.
Lemma step_like v p ts fuel rest : (1 <= fuel)%nat ->
  (operand v ⋅ kw "LIKE" ⋅ operand p) ts -> step (ParsePredicate tokens fuel) (ts ++ rest) (LikeExpr v p) rest.
Proof.
  atom. eapply step_bind; [apply step_kw_miss; by eapply not_kw_kw|]. eapply step_bind; [by apply step_kw|].
  eapply step_bind; [by apply step_operand|]. apply step_ret.
Qed.

Lemma expr_length l e ts : expr l e ts -> (1 <= length ts)%nat.
Proof.
  induction 1; parts; rewrite ?length_app; repeat match goal with H : _ _ ?x |- context [length ?x] => rewrite (length_one _ x H) end; lia.
Qed.
Lemma expr_complete l e ts : expr l e ts -> parses_expr l e ts.
Proof.
  induction 1 as [op l r ts H|v lo h ts H|v p ts H|e a b c Ha Hb IH Hc|e ts H IH|l r a b c Ha IHa Hb Hc IHc|e ts H IH|l r a b c Ha IHa Hb Hc IHc].
  - pose proof (expr_length _ _ _ (expr_binary _ _ _ _ H)). intros fuel rest Hf. apply step_binary; [lia|done].
  - pose proof (expr_length _ _ _ (expr_between _ _ _ _ H)). intros fuel rest Hf. apply step_between; [lia|done].
  - pose proof (expr_length _ _ _ (expr_like _ _ _ H)). intros fuel rest Hf. apply step_like; [lia|done].
  - intros fuel rest Hf. rewrite !length_app, (length_one _ _ Ha), (length_one _ _ Hc) in Hf. rewrite <- !app_assoc.
    destruct fuel as [|fuel]; [lia|]. cbn [ParsePredicate]. eapply step_bind; [by apply step_tok|].
    eapply step_bind; [apply IH; [lia|by eapply not_kw_tok|]|].
    { intros f Hf'. apply stop_or; [lia|by eapply not_kw_tok]. }
    eapply step_bind; [by apply step_Expect|]. apply step_ret.
  - pose proof (expr_length _ _ _ H). intros fuel rest b s' Hf Hk. destruct fuel as [|fuel]; [lia|]. cbn [ParseAnd].
    eapply step_bind; [apply IH; lia|]. apply Hk. lia.
  - pose proof (expr_length _ _ _ Ha). pose proof (expr_length _ _ _ Hc). intros fuel rest x s' Hf Hk.
    rewrite !length_app, (length_one _ _ Hb) in *. rewrite <- !app_assoc.
    apply IHa; [lia|]. intros f Hf'. destruct f as [|f]; [lia|]. cbn [ParseAnd_loop].
    eapply step_bind; [by apply step_kw|]. eapply step_bind; [apply IHc; lia|]. apply Hk. lia.
  - pose proof (expr_length _ _ _ H). intros fuel rest b s' Hf Hr Hk. destruct fuel as [|fuel]; [lia|]. cbn [ParseOr].
    eapply step_bind; [apply IH; [lia|]|apply Hk; lia]. intros f Hf'. apply stop_and; [lia|done].
  - pose proof (expr_length _ _ _ Ha). pose proof (expr_length _ _ _ Hc). intros fuel rest x s' Hf Hr Hk.
    rewrite !length_app, (length_one _ _ Hb) in *. rewrite <- !app_assoc.
    apply IHa; [lia|by eapply not_kw_kw|]. intros f Hf'. destruct f as [|f]; [lia|]. cbn [ParseOr_loop].
    eapply step_bind; [by apply step_kw|]. eapply step_bind; [apply IHc; [lia|]|apply Hk; lia].
    intros f' Hf''. apply stop_and; [lia|done].
Qed.
Lemma step_ParseOr e ts rest : expr atOr e ts -> not_kw "AND" rest -> not_kw "OR" rest ->
  step (ParseOr tokens (expr_fuel tokens)) (ts ++ rest) e rest.
Proof.
  intros He Ha Ho. apply step_bounded. intros Hl. rewrite length_app in Hl. destruct Ha as (t & s' & -> & Ht). cbn [length] in Hl.
  apply (expr_complete atOr e ts He); unfold expr_fuel; [lia|by exists t, s'|]. intros f Hf. apply stop_or; [lia|done].
Qed.

Create HintDb step.
Ltac step_call := eapply step_bind; [by eauto with step|].
#[local] Hint Resolve step_ident step_quoted step_literal step_operand step_Expect step_ExpectKeyword step_tok step_kw
  step_column_type : step.

Lemma not_tok_tok type type' ts rest : tok type' ts -> type' <> type -> not_tok type (ts ++ rest).
Proof. intros H Hne. eapply not_tok_one; [exact H|]. intros t ->. done. Qed.
Lemma not_tok_kw type keyword ts rest : kw keyword ts -> type <> tkIdentifier -> not_tok type (ts ++ rest).
Proof. intros H Hne. eapply not_tok_one; [exact H|]. intros t (-> & _). done. Qed.
Lemma step_qualified d t ts rest : qualified d t ts -> not_tok tkDot rest -> step (ParseQualifiedName tokens) (ts ++ rest) (d, t) rest.
Proof.
  intros [[-> H]|H] Hr; unfold ParseQualifiedName.
  - step_call. eapply step_bind; [by apply step_tok_miss|]. apply step_ret.
  - parts. do 3 step_call. apply step_ret.
Qed.

Lemma commas_length {A} (G : A -> phrase) xs : forall ts,
  (forall x ts, G x ts -> (1 <= length ts)%nat) -> commas G xs ts -> (length xs <= length ts)%nat.
Proof.
  induction xs as [|x xs IH]; intros ts HG H; [cbn; lia|]. destruct xs as [|y xs]; [by apply HG in H; cbn|].
  destruct H as (a & b & -> & Ha & c & d & -> & Hc & Hd). apply HG in Ha. apply IH in Hd; [|done]. rewrite !length_app. cbn in *. lia.
Qed.
Lemma step_commas {A} (item : P A) G (F : list Token -> Prop) :
  (forall x ts rest, G x ts -> F rest -> step item (ts ++ rest) x rest) ->
  (forall ts rest, tok tkComma ts -> F (ts ++ rest)) -> (forall x ts, G x ts -> (1 <= length ts)%nat) ->
  forall xs ts rest, commas G xs ts -> F rest -> not_tok tkComma rest ->
  step (comma_list tokens item (loop_fuel tokens)) (ts ++ rest) xs rest.
Proof.
  intros Hi Hc HG xs ts rest H HF Hr. apply step_bounded. intros Hl.
  assert (length xs <= loop_fuel tokens)%nat as Hf.
  { unfold loop_fuel. pose proof (commas_length G xs ts HG H). rewrite length_app in Hl. lia. }
  clear Hl. revert ts rest H HF Hr Hf. generalize (loop_fuel tokens) as fuel.
  induction xs as [|x xs IH]; intros fuel ts rest H HF Hr Hf; [done|]. destruct fuel as [|fuel]; [cbn in Hf; lia|].
  cbn [comma_list]. destruct xs as [|y xs].
  - eapply step_bind; [by apply Hi|]. eapply step_bind; [by apply step_tok_miss|]. apply step_ret.
  - destruct H as (a & b & -> & Ha & c & d & -> & Hc' & Hd). rewrite <- !app_assoc.
    eapply step_bind; [apply Hi; [done|by apply Hc]|]. eapply step_bind; [by apply step_tok|].
    eapply step_bind; [apply IH; try done; cbn in *; lia|]. apply step_ret.
Qed.
(** Items that look at no token after themselves. *)
Lemma step_commas' {A} (item : P A) (G : A -> Token -> Prop) :
  (forall x ts rest, one (G x) ts -> step item (ts ++ rest) x rest) ->
  forall xs ts rest, commas (fun x => one (G x)) xs ts -> not_tok tkComma rest ->
  step (comma_list tokens item (loop_fuel tokens)) (ts ++ rest) xs rest.
Proof.
  intros Hi xs ts rest H Hr. apply (step_commas item (fun x => one (G x)) (fun _ => True)); auto.
  intros x t Hx. by rewrite (length_one _ _ Hx).
Qed.

Definition not_ident (s : list Token) : Prop := not_tok tkIdentifier s.
Lemma not_ident_kw keyword s : not_ident s -> not_kw keyword s.
Proof. intros (t & s' & -> & Ht). by exists t, s'. Qed.
Lemma step_At_ident ts keyword rest : kw keyword ts -> step (At tokens tkIdentifier) (ts ++ rest) true (ts ++ rest).
Proof.
  intros (t & -> & (Ht & _)). apply (looks_step _ _ t rest true false (looks_At tkIdentifier)). by rewrite bool_decide_true.
Qed.
Lemma step_flags n i ts : column_flags n i ts -> forall fuel n0 i0 rest, (length ts < fuel)%nat -> not_ident rest ->
  step (ParseColumnFlags tokens fuel n0 i0) (ts ++ rest) (n0 || n, i0 || i) rest.
Proof.
  induction 1 as [|n i a b Ha Hb IH|n i a b Ha Hb IH]; intros fuel n0 i0 rest Hf Hr; (destruct fuel as [|fuel]; [lia|]);
    cbn [ParseColumnFlags]; rewrite ?length_app, ?(length_one _ _ Ha) in Hf.
  - destruct Hr as (t & s' & -> & Ht). rewrite !orb_false_r. eapply step_bind.
    + apply (looks_step _ _ t s' false false (looks_At tkIdentifier)). by rewrite bool_decide_false.
    + apply step_ret.
  - rewrite <- app_assoc. eapply step_bind; [by eapply step_At_ident|]. cbn [negb]. step_call.
    rewrite orb_true_r. apply (IH fuel true i0 rest); [lia|done].
  - rewrite <- app_assoc. eapply step_bind; [by eapply step_At_ident|]. cbn [negb].
    eapply step_bind; [apply step_kw_miss; by eapply not_kw_kw|]. step_call.
    rewrite !orb_true_r. apply (IH fuel true true rest); [lia|done].
Qed.
Lemma step_column c ts rest : column c ts -> not_ident rest -> step (ParseColumn tokens) (ts ++ rest) c rest.
Proof.
  intros [Hd H] Hr. apply step_bounded. intros Hl. destruct H as (a & x & -> & Ha & b & f & -> & Hb & Hf). destruct c as [nm ty nn ix dv].
  cbn in Hd. subst dv. rewrite !length_app, (length_one _ _ Ha) in Hl. rewrite <- !app_assoc. unfold ParseColumn.
  do 2 step_call. eapply step_bind; [apply (step_flags nn ix); [done|unfold loop_fuel; lia|done]|]. apply step_ret.
Qed.
Lemma column_length c ts : column c ts -> (1 <= length ts)%nat.
Proof. intros [_ (a & b & -> & Ha & _)]. rewrite length_app, (length_one _ _ Ha). lia. Qed.
Lemma row_length vs ts : row vs ts -> (1 <= length ts)%nat.
Proof. intros (a & b & -> & Ha & _). rewrite length_app, (length_one _ _ Ha). lia. Qed.
Lemma select_item_length i ts : select_item i ts -> (1 <= length ts)%nat.
Proof. intros (a & b & -> & Ha & _). rewrite length_app, (length_one _ _ Ha). lia. Qed.
Lemma assignment_length a ts : assignment a ts -> (1 <= length ts)%nat.
Proof. intros (x & b & -> & Ha & _). rewrite length_app, (length_one _ _ Ha). lia. Qed.

Lemma step_row vs ts rest : row vs ts -> step (ParseRow tokens) (ts ++ rest) vs rest.
Proof.
  intros H. unfold row in H. parts. unfold ParseRow. step_call.
  eapply step_bind; [eapply (step_commas' _ is_literal); [apply step_literal|done|by eapply not_tok_tok]|]. step_call. apply step_ret.
Qed.
Lemma step_select_item i ts rest : select_item i ts -> not_ident rest -> step (ParseSelectItem tokens) (ts ++ rest) i rest.
Proof.
  intros (a & b & -> & Ha & Hb) Hr. destruct i as [col al]. cbn [item_column item_alias] in *. rewrite <- app_assoc. unfold ParseSelectItem. step_call.
  destruct Hb as [[-> ->]|H].
  - eapply step_bind; [by apply step_kw_miss, not_ident_kw|]. apply step_ret.
  - parts. do 2 step_call. apply step_ret.
Qed.
Lemma step_assignment a ts rest : assignment a ts -> step (ParseAssignment tokens) (ts ++ rest) a rest.
Proof. intros H. unfold assignment in H. destruct a as [c v]. parts. unfold ParseAssignment. do 3 step_call. apply step_ret. Qed.

Lemma step_ext {A} (p q : P A) s a s' : (forall pos, p pos = q pos) -> step q s a s' -> step p s a s'.
Proof. intros E H pos Hs. rewrite E. by apply H. Qed.
Lemma looks_maybe_word stop : looks (maybe_word stop) (fun t =>
  if bool_decide (token_type t = tkIdentifier) && negb (bool_decide (Upper (lexeme t) = stop))
  then Parsed (Some (Upper (lexeme t)), true) else Parsed (None, false)).
Proof. intros pos. unfold maybe_word. destruct (tokens !! pos); [|done]. by destruct (_ && _). Qed.
Lemma step_more_words stop p q ts : more_words stop p q ts -> forall fuel stopt rest, (length ts < fuel)%nat -> kw stop stopt ->
  step (ParsePermission tokens stop fuel p) (ts ++ stopt ++ rest) q (stopt ++ rest).
Proof.
  induction 1 as [p|p w q a b (t & -> & Ht & <- & Hw) Hb IH]; intros fuel stopt rest Hf Hs; (destruct fuel as [|fuel]; [lia|]);
    (eapply step_ext; [apply ParsePermission_eq|]).
  - destruct Hs as (t & -> & (Ht & Hu & _)). eapply (step_bind _ _ _ None); [|apply step_ret].
    apply (looks_step _ _ t rest None false (looks_maybe_word stop)). by rewrite Hu, (bool_decide_true (stop = stop)), andb_false_r.
  - eapply (step_bind _ _ _ (Some (Upper (lexeme t)))); [|apply IH; [cbn in Hf; lia|done]].
    apply (looks_step _ _ t (b ++ stopt ++ rest) (Some (Upper (lexeme t))) true (looks_maybe_word stop)).
    by rewrite (bool_decide_true _ Ht), (bool_decide_false _ Hw).
Qed.
Lemma step_assoc {A B C} (p : P A) (f : A -> P B) (g : B -> P C) s c s' :
  step (x ← (a ← p; f a); g x) s c s' -> step (a ← p; x ← f a; g x) s c s'.
Proof. apply step_ext. intros pos. unfold mbind, P_bind. by destruct (p pos) as [[]|what| |]. Qed.
Lemma step_permission stop p ts stopt rest : permission_words stop p ts -> kw stop stopt ->
  step (first ← ParseIdentifier tokens; ParsePermission tokens stop (loop_fuel tokens) (Upper first)) (ts ++ stopt ++ rest) p (stopt ++ rest).
Proof.
  intros (w & a & b & -> & (t & -> & Ht & <-) & Hb) Hs. apply step_bounded. intros Hl. rewrite <- app_assoc.
  eapply step_bind; [apply step_ident; by exists t|]. apply step_more_words; [done| |done].
  rewrite !length_app in Hl. cbn in Hl. unfold loop_fuel. lia.
Qed.
Lemma step_target what ty ts rest : target ty ts -> step (ParseTargetType tokens what) (ts ++ rest) ty rest.
Proof.
  intros [[->| ->] H]; unfold ParseTargetType.
  - step_call. apply step_ret.
  - eapply step_bind; [apply step_kw_miss; by eapply not_kw_kw|]. step_call. apply step_ret.
Qed.
Lemma step_stamp z ts rest :
  one (fun x => (token_type x = tkIdentifier \/ token_type x = tkNumber) /\ ParseRevertTimestampMs mktime (lexeme x) = Some z) ts ->
  step ParseStamp (ts ++ rest) z rest.
Proof.
  apply (step_one _ _ _ _ _ _ looks_ParseStamp). intros t [[Ht|Ht] E]; unfold f_stamp; rewrite Ht, E; done.
Qed.

(** *** The end of a statement *)

Definition at_end (s : list Token) : Prop := exists b eof, s = b ++ [eof] /\ ending b /\ token_type eof = tkEof.
Lemma at_end_head s : at_end s -> exists t s', s = t :: s' /\ (token_type t = tkEof \/ token_type t = tkSemicolon).
Proof.
  intros (b & eof & -> & [->|(t & -> & Ht)] & He); [by exists eof, []; auto|]. exists t, [eof]. auto.
Qed.
Lemma at_end_not type s : at_end s -> type <> tkEof -> type <> tkSemicolon -> not_tok type s.
Proof. intros (t & s' & -> & Ht)%at_end_head H1 H2. exists t, s'. split; [done|]. destruct Ht; congruence. Qed.
Lemma at_end_not_kw keyword s : at_end s -> not_kw keyword s.
Proof. intros H. apply not_ident_kw. by apply at_end_not. Qed.
Lemma step_Finish s : at_end s -> exists eof, step (Finish tokens) s tt [eof].
Proof.
  intros (b & eof & -> & Hb & He). exists eof. unfold Finish.
  assert (step (x ← At tokens tkEof; if negb x then fail "unexpected tokens after statement" else mret tt) [eof] tt [eof]) as Hend.
  { eapply step_bind; [apply (looks_step _ _ eof [] true false (looks_At tkEof)); by rewrite bool_decide_true|]. apply step_ret. }
  destruct Hb as [->|H].
  - eapply step_bind; [apply step_tok_miss|exact Hend]. exists eof, []. split; [done|]. by rewrite He.
  - eapply step_bind; [by apply step_tok|exact Hend].
Qed.

(** ** Completeness of the statements *)

Lemma step_columns cs ts rest : commas column cs ts -> not_ident rest -> not_tok tkComma rest ->
  step (comma_list tokens (ParseColumn tokens) (loop_fuel tokens)) (ts ++ rest) cs rest.
Proof.
  apply (step_commas _ column not_ident); [apply step_column| |apply column_length]. intros t r Ht. by eapply not_tok_tok.
Qed.
Lemma step_items cs ts rest : commas select_item cs ts -> not_ident rest -> not_tok tkComma rest ->
  step (comma_list tokens (ParseSelectItem tokens) (loop_fuel tokens)) (ts ++ rest) cs rest.
Proof.
  apply (step_commas _ select_item not_ident); [apply step_select_item| |apply select_item_length]. intros t r Ht. by eapply not_tok_tok.
Qed.
Lemma step_idents cs ts rest : commas ident cs ts -> not_tok tkComma rest ->
  step (comma_list tokens (ParseIdentifier tokens) (loop_fuel tokens)) (ts ++ rest) cs rest.
Proof. apply (step_commas' _ (fun name t => token_type t = tkIdentifier /\ lexeme t = name)), step_ident. Qed.
Lemma step_rows rs ts rest : commas row rs ts -> not_tok tkComma rest ->
  step (comma_list tokens (ParseRow tokens) (loop_fuel tokens)) (ts ++ rest) rs rest.
Proof. intros H Hr. apply (step_commas _ row (fun _ => True)); eauto using row_length. intros; by apply step_row. Qed.
Lemma step_assignments asgs ts rest : commas assignment asgs ts -> not_tok tkComma rest ->
  step (comma_list tokens (ParseAssignment tokens) (loop_fuel tokens)) (ts ++ rest) asgs rest.
Proof. intros H Hr. apply (step_commas _ assignment (fun _ => True)); eauto using assignment_length. intros; by apply step_assignment. Qed.
Lemma step_or_end e ts rest : expr atOr e ts -> at_end rest -> step (ParseOr tokens (expr_fuel tokens)) (ts ++ rest) e rest.
Proof. intros He Hr. apply step_ParseOr; [done|by apply at_end_not_kw..]. Qed.
Lemma step_where w ts rest : where_clause w ts -> at_end rest -> step (ParseWhereIfPresent tokens) (ts ++ rest) w rest.
Proof.
  intros Hw Hr. unfold ParseWhereIfPresent. destruct w as [e|]; cbn [where_clause] in Hw.
  - parts. step_call. eapply step_bind; [by apply step_or_end|]. apply step_ret.
  - rewrite Hw. eapply step_bind; [by apply step_kw_miss, at_end_not_kw|]. apply step_ret.
Qed.
Lemma where_not_tok type w ts rest : where_clause w ts -> at_end rest -> type <> tkIdentifier -> type <> tkEof -> type <> tkSemicolon ->
  not_tok type (ts ++ rest).
Proof.
  intros Hw Hr H1 H2 H3. destruct w as [e|]; cbn [where_clause] in Hw; [parts; by eapply not_tok_kw|]. rewrite Hw. by apply at_end_not.
Qed.

Lemma on_hit {A} keyword (p q : P A) ts rest a s' : kw keyword ts -> step p rest a s' -> step (on_keyword tokens keyword p q) (ts ++ rest) a s'.
Proof. intros Hk Hp. unfold on_keyword. step_call. done. Qed.
Lemma on_miss {A} keyword keyword' (p q : P A) ts rest a s' : kw keyword' ts -> keyword' <> keyword ->
  step q (ts ++ rest) a s' -> step (on_keyword tokens keyword p q) (ts ++ rest) a s'.
Proof. intros Hk Hne Hq. unfold on_keyword. eapply step_bind; [apply step_kw_miss; by eapply not_kw_kw|]. done. Qed.
Ltac dispatch := repeat first [eapply on_hit; [eassumption|]|eapply on_miss; [eassumption|discriminate|]].
#[local] Hint Resolve step_qualified step_columns step_items step_idents step_rows step_assignments step_where step_or_end
  step_permission step_target step_stamp not_tok_tok not_tok_kw where_not_tok : step.
#[local] Hint Extern 1 (_ <> _) => discriminate : step.
#[local] Hint Extern 2 (not_tok _ _) => apply at_end_not : step.
#[local] Hint Extern 1 (not_ident _) => eapply not_tok_tok : step.
Ltac step_calls := repeat step_call; apply step_ret.

Lemma select_complete d t all items w ta tb tc td rest eof : at_end rest -> step (Finish tokens) rest tt [eof] ->
  select_list all items ta -> kw "FROM" tb -> qualified d t tc -> where_clause w td ->
  step (ParseSelect tokens) (ta ++ tb ++ tc ++ td ++ rest) (SelectStatement d t all items w) [eof].
Proof.
  intros Hr HF Ha Hb Hc Hd. unfold ParseSelect. destruct all; cbn [select_list] in *.
  - destruct Ha as [-> H]. step_call. eapply step_bind; [apply step_ret|]. step_calls.
  - parts. eapply step_bind; [apply step_tok_miss; by eapply not_tok_tok|].
    eapply step_bind; [do 3 step_call; apply step_ret|]. step_calls.
Qed.
Lemma statement_complete stmt ts rest : statement mktime stmt ts -> at_end rest ->
  exists eof, step (ParseStatement mktime tokens) (ts ++ rest) stmt [eof].
Proof.
  intros H Hr. destruct (step_Finish rest Hr) as [eof HF]. exists eof. unfold ParseStatement.
  destruct stmt; cbn [statement] in H; parts.
  all: try match goal with H : required_where ?w _ |- _ => destruct w; [|done]; cbn [required_where where_clause] in H; parts end.
  all: dispatch; unfold ParseCreate, ParseDrop; dispatch.
  all: try (by eapply select_complete).
  all: unfold ParseCreateTable, ParseInsert, ParseUpdate, ParseDelete, ParseCreateUser, ParseLogin, ParseCreateGroup,
    ParseAddUserToGroup, ParseSubmitQuery, ParseGetTask, ParseCancelTask, ParseGrant, ParseRevoke.
  all: try solve [step_calls].
  1: eapply step_ext; [apply ParseRevert_eq|]; (eapply step_bind; [apply step_qualified; [done|]; eapply not_tok_one; [exact H1|];
    by intros t [[->| ->] _]|]); step_calls.
  all: apply step_assoc; step_calls.
Qed.
End parser.

(** ** Theorems *)

Lemma terminated_eof ts t : terminated (t :: ts) -> token_type t = tkEof -> ts = [].
Proof.
  intros (body & eof & E & _ & Hb) Ht. destruct body as [|x body]; [by injection E|]. injection E as -> ->.
  by apply Forall_cons in Hb as [Hb _].
Qed.
Lemma ParseStatement_ok mktime tokens : terminated tokens ->
  match ParseStatement mktime tokens O with
  | Parsed (stmt, _) => exists body eof, tokens = body ++ [eof] /\ sentence mktime stmt body
  | ParseError _ => True
  | OutOfFuel | OutOfRange => False
  end.
Proof.
  intros Ht. pose proof (sound_ParseStatement mktime tokens O tokens eq_refl Ht (le_n _)) as Hs.
  destruct (ParseStatement mktime tokens O) as [[stmt pos]|what| |] eqn:E; try done.
  destruct Hs as (ts & s' & Et & Hd & Ht' & HG). exists ts. destruct (ends_ParseStatement mktime tokens _ _ _ E) as (t & Hl & Hty).
  destruct s' as [|t' s']; [by destruct Ht' as ([|] & ? & ? & _)|]. apply drop_head in Hd as [Hl' _]. rewrite Hl in Hl'. injection Hl' as <-.
  apply terminated_eof in Ht' as ->; [|done]. by exists t.
Qed.
Lemma ParseStatement_complete mktime stmt body eof : sentence mktime stmt body -> token_type eof = tkEof ->
  exists pos, ParseStatement mktime (body ++ [eof]) O = Parsed (stmt, pos).
Proof.
  intros (a & b & -> & Ha & Hb) He. rewrite <- app_assoc.
  destruct (statement_complete mktime (a ++ b ++ [eof]) stmt a (b ++ [eof]) Ha) as [eof' H]; [by exists b, eof|].
  destruct (H O eq_refl) as (pos & E & _). by exists pos.
Qed.

Lemma parse_sentence mktime sql stmt : Parse mktime sql = Parsed stmt ->
  exists body eof, Tokenize sql = Parsed (body ++ [eof]) /\ token_type eof = tkEof /\ sentence mktime stmt body.
Proof.
  unfold Parse. pose proof (Tokenize_ok sql) as Hl. destruct (Tokenize sql) as [tokens|what| |]; try done.
  pose proof (ParseStatement_ok mktime tokens Hl) as Hp. destruct (ParseStatement mktime tokens O) as [[stmt' pos]|what| |]; try done.
  intros [= ->]. destruct Hp as (body & eof & -> & Hs). exists body, eof. split_and!; try done.
  destruct Hl as (body' & eof' & E & He & _). by apply app_inj_tail in E as [_ ->].
Qed.

(** C24. On every input, however malformed, the parser either returns a
    statement or throws [ParseError]: it never reads the token vector at or past
    its end, and its loops and its recursion end. *)
Theorem parse_in_bounds mktime sql : completes (Parse mktime sql).
Proof.
  unfold Parse. pose proof (Tokenize_ok sql) as Hl. destruct (Tokenize sql) as [tokens|what| |]; try done.
  pose proof (ParseStatement_ok mktime tokens Hl) as Hp. by destruct (ParseStatement mktime tokens O) as [[stmt pos]|what| |].
Qed.


(** C25. Printing and parsing round trip: the text of any token sequence that the
    grammar gives to a statement, written with blanks between the tokens and
    string literals escaped, is parsed to that statement. *)
Theorem parse_render mktime stmt ts :
  sentence mktime stmt ts -> Forall (fun t => printable t = true) ts -> Parse mktime (render ts) = Parsed stmt.
Proof.
  intros Hs Hp. unfold Parse. unfold Tokenize. rewrite Tokenize_loop_render by done.
  by destruct (ParseStatement_complete mktime stmt ts (mkToken tkEof "") Hs eq_refl) as [pos ->].
Qed.

Definition sample_tokens : list Token :=
  [mkToken tkIdentifier "select"; mkToken tkStar "*"; mkToken tkIdentifier "FROM"; mkToken tkIdentifier "t"; mkToken tkIdentifier "where";
   mkToken tkIdentifier "id"; mkToken tkEq "="; mkToken tkNumber "7"; mkToken tkIdentifier "or";
   mkToken tkIdentifier "id"; mkToken tkGt ">"; mkToken tkNumber "9"; mkToken tkIdentifier "AND";
   mkToken tkIdentifier "name"; mkToken tkIdentifier "like"; mkToken tkString "it's"; mkToken tkSemicolon ";"].
Definition sample_statement : SqlStatement :=
  SelectStatement "" "t" true [] (Some (LogicalExpr opOr (BinaryExpr opEq (ColumnRefExpr "id") (LiteralExpr (VInt 7)))
    (LogicalExpr opAnd (BinaryExpr opGt (ColumnRefExpr "id") (LiteralExpr (VInt 9)))
       (LikeExpr (ColumnRefExpr "name") (LiteralExpr (VString "it's")))))).
Ltac next_word := eexists [_], _; split; [reflexivity|]; split; [try (eexists; by repeat split)|].
Lemma parse_render_witness :
  render sample_tokens = "select * FROM t where id = 7 or id > 9 AND name like 'it\'s' ; " /\
  Parse (fun _ => 0) (render sample_tokens) = Parsed sample_statement.
Proof.
  split; [reflexivity|]. apply (parse_render (fun _ => 0) sample_statement sample_tokens); [|repeat constructor].
  exists (take 16 sample_tokens), (drop 16 sample_tokens). split; [reflexivity|]. split; [|right; by eexists].
  do 2 next_word. { split; [done|]. by eexists. } do 2 next_word. { left. split; [done|]. eexists. by repeat split. } next_word.
  apply (expr_or _ _ (take 3 (drop 5 sample_tokens)) (take 1 (drop 8 sample_tokens)) (take 7 (drop 9 sample_tokens))).
  - apply expr_or1, expr_and1, expr_binary. do 2 next_word. eexists. split; [reflexivity|]. by left.
  - eexists. by repeat split.
  - apply (expr_and _ _ (take 3 (drop 9 sample_tokens)) (take 1 (drop 12 sample_tokens)) (take 3 (drop 13 sample_tokens))).
    + apply expr_and1, expr_binary. do 2 next_word. eexists. split; [reflexivity|]. by left.
    + eexists. by repeat split.
    + apply expr_like. do 2 next_word. eexists. split; [reflexivity|]. right. by left.
Defined.
