(* ===== verification/Expression.v ===== *)
(** * Expressions

    [src/execution/expression.cpp]: the evaluation of a predicate on a tuple.
    [std::regex_match] is a parameter: it returns whether the whole string
    matches the pattern, or nothing when the pattern is not a regular
    expression (the code catches [std::regex_error]).

    [well_typed_evaluates] is type soundness: a predicate that is well typed for
    a schema evaluates to a boolean on every tuple of that schema, so the error
    branches of the evaluator are reached by ill-typed predicates and invalid
    patterns only. *)
From S2P Require Import Prelude Values TableStorage Sql.

(** ** Definitions *)

Definition Compare (l r : Value) (op : BinaryOp) : result Value :=
  if is_null l || is_null r then Ok (VBool false)
  else if negb (bool_decide (type l = type r)) then Err kExecutionError "cannot compare values of different types"
  else Ok (VBool match op with
    | opEq => value_eqb l r
    | opNe => value_neb l r
    | opLt => value_ltb l r
    | opGt => value_gtb l r
    | opLe => value_leb l r
    | opGe => value_geb l r
    end).

Definition Truthy (v : Value) : bool := match v with VBool b => b | _ => false end.

Section evaluate.
Context (regex_match : string -> string -> option bool).

Fixpoint Evaluate (e : Expr) (schema : TableSchema) (tup : Tuple) : result Value :=
  match e with
  | ColumnRefExpr column_name =>
      let index := FindColumn schema column_name in
      if (index <? 0) || (zlen tup <=? index)
      then Err kExecutionError ("column '" +:+ column_name +:+ "' is not available")
      else match znth tup index with
           | Some v => Ok v
           | None => Err kExecutionError ("column '" +:+ column_name +:+ "' is not available")
           end
  | LiteralExpr v => Ok v
  | BinaryExpr op left_ right_ =>
      l ← Evaluate left_ schema tup;
      r ← Evaluate right_ schema tup;
      Compare l r op
  | LogicalExpr op left_ right_ =>
      l ← Evaluate left_ schema tup;
      match op, Truthy l with
      | opAnd, false => Ok (VBool false)
      | opOr, true => Ok (VBool true)
      | _, _ =>
          r ← Evaluate right_ schema tup;
          Ok (VBool match op with opAnd => Truthy l && Truthy r | opOr => Truthy l || Truthy r end)
      end
  | BetweenExpr value low high =>
      v ← Evaluate value schema tup;
      l ← Evaluate low schema tup;
      h ← Evaluate high schema tup;
      if is_null v || is_null l || is_null h then Ok (VBool false)
      else if negb (bool_decide (type v = type l)) || negb (bool_decide (type v = type h))
      then Err kExecutionError "BETWEEN operands have different types"
      else Ok (VBool (value_geb v l && value_ltb v h))
  | LikeExpr value pattern =>
      v ← Evaluate value schema tup;
      p ← Evaluate pattern schema tup;
      if is_null v || is_null p then Ok (VBool false)
      else match v, p with
           | VString s, VString re =>
               match regex_match s re with
               | Some b => Ok (VBool b)
               | None => Err kExecutionError "invalid LIKE regex"
               end
           | _, _ => Err kExecutionError "LIKE expects string operands"
           end
  end.

(** ** Types

    The type of a column is the type of its non-null values; NULL belongs to
    every type. *)
Definition column_value_type (t : ColumnType) : option ValueType :=
  match t with ctInt => Some vtInt | ctString => Some vtString | ctBool => Some vtBool | ctOther _ => None end.
Definition of_type (t : ValueType) (v : Value) : Prop := v = VNull \/ type v = t.

(** The value of an operand has the type [t] on the tuples of [schema]. *)
Inductive operand_type (schema : TableSchema) : Expr -> ValueType -> Prop :=
  | type_column name i c t :
      FindColumn schema name = i -> znth schema i = Some c -> column_value_type (col_type c) = Some t ->
      operand_type schema (ColumnRefExpr name) t
  | type_literal v t : of_type t v -> operand_type schema (LiteralExpr v) t.
(** Predicates whose operands have one type, with patterns that are regular
    expressions whatever the tuple. *)
Inductive well_typed (schema : TableSchema) : Expr -> Prop :=
  | well_binary op l r t : operand_type schema l t -> operand_type schema r t -> well_typed schema (BinaryExpr op l r)
  | well_logical op l r : well_typed schema l -> well_typed schema r -> well_typed schema (LogicalExpr op l r)
  | well_between v l h t :
      operand_type schema v t -> operand_type schema l t -> operand_type schema h t -> well_typed schema (BetweenExpr v l h)
  | well_like v p : operand_type schema v vtString -> (forall s, regex_match s p <> None) ->
      well_typed schema (LikeExpr v (LiteralExpr (VString p))).

Lemma is_null_VNull v : is_null v = true <-> v = VNull.
Proof. unfold is_null. rewrite bool_decide_eq_true. by destruct v. Qed.

Lemma fits_type c v t : value_fits c v -> column_value_type (col_type c) = Some t -> of_type t v.
Proof. intros Hf Ht. destruct v; [by left|right..]; cbn in *; destruct (col_type c); by simplify_eq/=. Qed.
Lemma operand_evaluates schema tup e t :
  conforms schema tup -> operand_type schema e t -> exists v, Evaluate e schema tup = Ok v /\ of_type t v.
Proof.
  intros Htup [name i c t' Hi Hc Ht|v t' Hv]; cbn [Evaluate]; [|by exists v]. rewrite Hi.
  pose proof (znth_Some_range _ _ _ Hc) as Hr. rewrite znth_lookup in Hc by lia.
  destruct (Forall2_lookup_l _ _ _ _ _ Htup Hc) as (v & Hv & Hf). pose proof (lookup_lt_Some _ _ _ Hv) as Hl.
  rewrite znth_lookup, Hv by lia. exists v. split; [|by eapply fits_type].
  by replace ((i <? 0) || (zlen tup <=? i)) with false by (symmetry; apply orb_false_iff; unfold zlen; lia).
Qed.
Lemma Compare_typed t l r op : of_type t l -> of_type t r -> exists b, Compare l r op = Ok (VBool b).
Proof.
  unfold Compare. intros Hl Hr. destruct (is_null l || is_null r) eqn:E; [by eexists|]. apply orb_false_iff in E as [E1 E2].
  destruct Hl as [->|Hl]; [done|]. destruct Hr as [->|Hr]; [done|]. rewrite bool_decide_true by congruence. by eexists.
Qed.

Lemma evaluates schema tup e : well_typed schema e -> conforms schema tup -> exists b, Evaluate e schema tup = Ok (VBool b).
Proof.
  intros He Ht. induction He as [op l r t Hl Hr|op l r Hl [bl IHl] Hr [br IHr]|v l h t Hv Hl Hh|v p Hv Hp]; cbn [Evaluate].
  - destruct (operand_evaluates _ _ _ _ Ht Hl) as (vl & -> & Tl). destruct (operand_evaluates _ _ _ _ Ht Hr) as (vr & -> & Tr).
    by apply (Compare_typed t).
  - rewrite IHl, IHr. destruct op, bl; by eexists.
  - destruct (operand_evaluates _ _ _ _ Ht Hv) as (vv & -> & Tv). destruct (operand_evaluates _ _ _ _ Ht Hl) as (vl & -> & Tl).
    destruct (operand_evaluates _ _ _ _ Ht Hh) as (vh & -> & Th). cbn.
    destruct (is_null vv || is_null vl || is_null vh) eqn:E; [by eexists|]. apply orb_false_iff in E as [E E3]. apply orb_false_iff in E as [E1 E2].
    destruct Tv as [->|Tv]; [done|]. destruct Tl as [->|Tl]; [done|]. destruct Th as [->|Th]; [done|].
    rewrite !bool_decide_true by congruence. by eexists.
  - destruct (operand_evaluates _ _ _ _ Ht Hv) as (vv & -> & Tv). cbn. destruct Tv as [->|Tv]; [by eexists|].
    destruct vv; try done. specialize (Hp v0). cbn. destruct (regex_match v0 p) as [b|]; [by eexists|done].
Qed.
End evaluate.


