(* ===== verification/Planner.v ===== *)
(** * The binder and the planner

    [src/planner/binder.cpp] and [src/planner/planner.cpp], with the plans of
    [include/planner/logical_plan.h] and [include/planner/physical_plan.h].  The
    binder reads the catalog, so binding and planning are programs over the
    disk. *)
From S2P Require Import Prelude Values Disk Catalog Sql.

(** ** The binder *)

Definition ResolveDb (current_db explicit_db : string) : string :=
  if bool_decide (explicit_db = "") then current_db else explicit_db.
Definition RequireDb (db_name : string) : result unit :=
  check_not (bool_decide (db_name = "")) kBindError "database is not selected".

Definition CheckValueType (column : ColumnSchema) (value : Value) : result unit :=
  if is_null value then
    check_not (not_null column || indexed column) kConstraintViolation ("column '" +:+ col_name column +:+ "' cannot be NULL")
  else if bool_decide (col_type column = ctInt) && negb (bool_decide (type value = vtInt)) then
    Err kBindError ("column '" +:+ col_name column +:+ "' expects INT")
  else if bool_decide (col_type column = ctString) && negb (bool_decide (type value = vtString)) then
    Err kBindError ("column '" +:+ col_name column +:+ "' expects STRING")
  else Ok tt.

Definition unknown_column (name : string) : string := "unknown column '" +:+ name +:+ "'".

Fixpoint CheckExprColumns (e : Expr) (schema : TableSchema) : result unit :=
  match e with
  | ColumnRefExpr column_name => check_not (FindColumn schema column_name <? 0) kBindError (unknown_column column_name)
  | LiteralExpr _ => Ok tt
  | BinaryExpr _ l r | LogicalExpr _ l r => _ ← CheckExprColumns l schema; CheckExprColumns r schema
  | BetweenExpr v l h => _ ← CheckExprColumns v schema; _ ← CheckExprColumns l schema; CheckExprColumns h schema
  | LikeExpr v p => _ ← CheckExprColumns v schema; CheckExprColumns p schema
  end.
Definition CheckWhere (w : option Expr) (schema : TableSchema) : result unit :=
  match w with None => Ok tt | Some e => CheckExprColumns e schema end.

(** The loops of [Binder::Bind]. *)
Fixpoint CheckCreateColumns (seen : list string) (columns : TableSchema) : result unit :=
  match columns with
  | [] => Ok tt
  | c :: cs =>
      if bool_decide (col_name c ∈ seen) then Err kBindError ("duplicate column '" +:+ col_name c +:+ "'")
      else if indexed c && negb (not_null c) then Err kBindError "INDEXED column must be NOT_NULL"
      else CheckCreateColumns (col_name c :: seen) cs
  end.
Fixpoint CheckSelectItems (items : list SelectItem) (schema : TableSchema) : result unit :=
  match items with
  | [] => Ok tt
  | i :: is_ =>
      if FindColumn schema (item_column i) <? 0 then Err kBindError (unknown_column (item_column i))
      else CheckSelectItems is_ schema
  end.
(** A name and the value for it. *)
Definition CheckAssignment (schema : TableSchema) (name : string) (value : Value) : result unit :=
  match znth schema (FindColumn schema name) with
  | None => Err kBindError (unknown_column name)
  | Some column => CheckValueType column value
  end.
Fixpoint CheckAssignments (schema : TableSchema) (names : list string) (values : list Value) : result unit :=
  match names, values with
  | name :: names, value :: values => _ ← CheckAssignment schema name value; CheckAssignments schema names values
  | _, _ => Ok tt
  end.
Fixpoint CheckInsertRows (schema : TableSchema) (columns : list string) (rows : list (list Value)) : result unit :=
  match rows with
  | [] => Ok tt
  | row :: rows =>
      if negb (zlen row =? zlen columns) then Err kBindError "INSERT values count does not match columns count"
      else _ ← CheckAssignments schema columns row; CheckInsertRows schema columns rows
  end.
Fixpoint CheckRequired (provided : list string) (schema : TableSchema) : result unit :=
  match schema with
  | [] => Ok tt
  | c :: cs =>
      if (not_null c || indexed c) && negb (bool_decide (col_name c ∈ provided))
      then Err kConstraintViolation ("required column '" +:+ col_name c +:+ "' is missing")
      else CheckRequired provided cs
  end.

(** The database and the table a statement is about; [None] for the kinds the
    binder passes without looking at the catalog. *)
Definition bound_name (current_db : string) (stmt : SqlStatement) : option (string * string) :=
  match stmt with
  | DropTableStatement d t | InsertStatement d t _ _ | SelectStatement d t _ _ _ | UpdateStatement d t _ _
  | DeleteStatement d t _ | RevertStatement d t _ => Some (ResolveDb current_db d, t)
  | _ => None
  end.
(** The checks against the descriptor. *)
Definition CheckStatement (stmt : SqlStatement) (table : TableDescriptor) : result unit :=
  match stmt with
  | SelectStatement _ _ select_all columns w =>
      _ ← (if select_all then Ok tt else CheckSelectItems columns (schema table)); CheckWhere w (schema table)
  | InsertStatement _ _ columns rows =>
      _ ← check_not (bool_decide (columns = [])) kBindError "INSERT column list is empty";
      _ ← CheckInsertRows (schema table) columns rows;
      CheckRequired columns (schema table)
  | UpdateStatement _ _ assignments w =>
      _ ← CheckAssignments (schema table) (map fst assignments) (map snd assignments); CheckWhere w (schema table)
  | DeleteStatement _ _ w => CheckWhere w (schema table)
  | _ => Ok tt
  end.

Definition no_table : TableDescriptor := mkTableDescriptor "" "" "" "" [] [].
(** [Binder::Bind]: the descriptor stored to [bound_table], when there is one. *)
Definition Bind (root_dir current_db : string) (stmt : SqlStatement) : M disk TableDescriptor :=
  match stmt with
  | CreateTableStatement d _ columns =>
      _ ← lift (RequireDb (ResolveDb current_db d)); _ ← lift (CheckCreateColumns [] columns); mret no_table
  | _ =>
      match bound_name current_db stmt with
      | None => mret no_table
      | Some (db_name, table_name) =>
          _ ← lift (RequireDb db_name);
          table ← GetTable root_dir db_name table_name;
          _ ← lift (CheckStatement stmt table);
          mret table
      end
  end.

(** ** Plans *)

Inductive LogicalPlan :=
  | LogicalCreateDatabasePlan (database_name : string)
  | LogicalDropDatabasePlan (database_name : string)
  | LogicalUseDatabasePlan (database_name : string)
  | LogicalCreateTablePlan (database_name table_name : string) (schema : TableSchema)
  | LogicalDropTablePlan (database_name table_name : string)
  | LogicalSeqScanPlan (database_name table_name : string) (select_all : bool) (columns : list SelectItem) (predicate : option Expr)
  | LogicalIndexScanPlan (database_name table_name index_name : string) (select_all : bool) (columns : list SelectItem) (predicate : option Expr)
  | LogicalInsertPlan (database_name table_name : string) (columns : list string) (rows : list (list Value))
  | LogicalUpdatePlan (database_name table_name : string) (assignments : list (string * Value)) (predicate : option Expr)
  | LogicalDeletePlan (database_name table_name : string) (predicate : option Expr)
  | LogicalCreateIndexPlan (descriptor : IndexDescriptor) (key_type : ValueType)
  | LogicalRevertPlan (database_name table_name : string) (timestamp_ms : Z).

Inductive PhysicalPlan :=
  | CreateDatabasePhysicalPlan (database_name : string)
  | DropDatabasePhysicalPlan (database_name : string)
  | UseDatabasePhysicalPlan (database_name : string)
  | CreateTablePhysicalPlan (descriptor : TableDescriptor)
  | DropTablePhysicalPlan (database_name table_name : string)
  | SeqScanPhysicalPlan (database_name table_name : string) (select_all : bool) (columns : list SelectItem) (predicate : option Expr)
  | IndexScanPhysicalPlan (database_name table_name index_name : string) (select_all : bool) (columns : list SelectItem) (predicate : option Expr)
  | InsertPhysicalPlan (database_name table_name : string) (columns : list string) (rows : list (list Value))
  | UpdatePhysicalPlan (database_name table_name : string) (assignments : list (string * Value)) (predicate : option Expr)
  | DeletePhysicalPlan (database_name table_name : string) (predicate : option Expr)
  | CreateIndexPhysicalPlan (descriptor : IndexDescriptor) (key_type : ValueType)
  | RevertPhysicalPlan (database_name table_name : string) (timestamp_ms : Z).

(** ** The planner *)

Fixpoint CloneExpr (e : Expr) : Expr :=
  match e with
  | ColumnRefExpr column_name => ColumnRefExpr column_name
  | LiteralExpr v => LiteralExpr v
  | BinaryExpr op l r => BinaryExpr op (CloneExpr l) (CloneExpr r)
  | LogicalExpr op l r => LogicalExpr op (CloneExpr l) (CloneExpr r)
  | BetweenExpr v l h => BetweenExpr (CloneExpr v) (CloneExpr l) (CloneExpr h)
  | LikeExpr v p => LikeExpr (CloneExpr v) (CloneExpr p)
  end.

Definition IsColumnEqLiteral (e : Expr) : option string :=
  match e with
  | BinaryExpr opEq (ColumnRefExpr column_name) (LiteralExpr _) | BinaryExpr opEq (LiteralExpr _) (ColumnRefExpr column_name) => Some column_name
  | _ => None
  end.

Definition default_index_name (table_name column_name : string) : string := table_name +:+ "_" +:+ column_name +:+ "_idx".
Definition index_on (table : TableDescriptor) (column_name : string) : option string :=
  match list_find (fun ix => idx_column_name ix = column_name) (indexes table) with
  | Some (_, ix) => Some (idx_name ix)
  | None =>
      match list_find (fun c => col_name c = column_name /\ indexed c = true) (schema table) with
      | Some (_, c) => Some (default_index_name (table_name table) (col_name c))
      | None => None
      end
  end.
Fixpoint FindIndexedEquality (e : Expr) (table : TableDescriptor) : option string :=
  match IsColumnEqLiteral e ≫= index_on table with
  | Some index_name => Some index_name
  | None =>
      match e with
      | LogicalExpr opAnd l r =>
          match FindIndexedEquality l table with
          | Some index_name => Some index_name
          | None => FindIndexedEquality r table
          end
      | _ => None
      end
  end.

Definition MakeTableDescriptor (db_name table_name : string) (columns : TableSchema) : TableDescriptor :=
  mkTableDescriptor db_name table_name "" "" columns
    (map (fun c => mkIndexDescriptor (default_index_name table_name (col_name c)) table_name (col_name c) "" true)
         (filter (fun c => indexed c = true) columns)).

Definition BuildLogicalPlan (root_dir current_db : string) (stmt : SqlStatement) : M disk LogicalPlan :=
  table ← Bind root_dir current_db stmt;
  match stmt with
  | CreateDatabaseStatement n => mret (LogicalCreateDatabasePlan n)
  | DropDatabaseStatement n => mret (LogicalDropDatabasePlan n)
  | UseDatabaseStatement n => mret (LogicalUseDatabasePlan n)
  | CreateTableStatement d t columns => mret (LogicalCreateTablePlan (ResolveDb current_db d) t columns)
  | DropTableStatement d t => mret (LogicalDropTablePlan (ResolveDb current_db d) t)
  | InsertStatement d t columns rows => mret (LogicalInsertPlan (ResolveDb current_db d) t columns rows)
  | SelectStatement d t select_all columns w =>
      match w ≫= (fun e => FindIndexedEquality e table) with
      | Some index_name =>
          mret (LogicalIndexScanPlan (ResolveDb current_db d) t index_name select_all columns (CloneExpr <$> w))
      | None => mret (LogicalSeqScanPlan (ResolveDb current_db d) t select_all columns (CloneExpr <$> w))
      end
  | UpdateStatement d t assignments w => mret (LogicalUpdatePlan (ResolveDb current_db d) t assignments (CloneExpr <$> w))
  | DeleteStatement d t w => mret (LogicalDeletePlan (ResolveDb current_db d) t (CloneExpr <$> w))
  | RevertStatement d t timestamp_ms => mret (LogicalRevertPlan (ResolveDb current_db d) t timestamp_ms)
  | _ => throw kPlanError "unsupported statement"
  end.

Definition PhysicalOf (logical : LogicalPlan) : result PhysicalPlan :=
  match logical with
  | LogicalCreateDatabasePlan n => Ok (CreateDatabasePhysicalPlan n)
  | LogicalDropDatabasePlan n => Ok (DropDatabasePhysicalPlan n)
  | LogicalUseDatabasePlan n => Ok (UseDatabasePhysicalPlan n)
  | LogicalCreateTablePlan d t columns => Ok (CreateTablePhysicalPlan (MakeTableDescriptor d t columns))
  | LogicalDropTablePlan d t => Ok (DropTablePhysicalPlan d t)
  | LogicalSeqScanPlan d t all columns p => Ok (SeqScanPhysicalPlan d t all columns (CloneExpr <$> p))
  | LogicalIndexScanPlan d t i all columns p => Ok (IndexScanPhysicalPlan d t i all columns (CloneExpr <$> p))
  | LogicalInsertPlan d t columns rows => Ok (InsertPhysicalPlan d t columns rows)
  | LogicalUpdatePlan d t assignments p => Ok (UpdatePhysicalPlan d t assignments (CloneExpr <$> p))
  | LogicalDeletePlan d t p => Ok (DeletePhysicalPlan d t (CloneExpr <$> p))
  | LogicalCreateIndexPlan _ _ => Err kPlanError "explicit CREATE INDEX is not part of SQL subset"
  | LogicalRevertPlan d t timestamp_ms => Ok (RevertPhysicalPlan d t timestamp_ms)
  end.
Definition BuildPhysicalPlan (root_dir current_db : string) (stmt : SqlStatement) : M disk PhysicalPlan :=
  logical ← BuildLogicalPlan root_dir current_db stmt; lift (PhysicalOf logical).
