(* ===== verification/Executor.v ===== *)
(** * The executors

    [src/execution]: the executors of the physical plans over the storage
    engine, and the dispatch of [executor.cpp].  [FromStatus] turns a status
    into a result at the end of every executor.  Where the code indexes a vector
    with a column number, a number out of range is [out_of_range]; the binder
    rules it out ([project_bound] and [BuildTuple_ok] of [ExecutorSpec.v]).  The clock is read once per row written: [clock i] is the reading
    of the [i]-th write. *)
From S2P Require Import Prelude Values Disk PageStore IndexManager Engine Sql Expression Planner.

(** ** Results *)

Record QueryResult := mkQueryResult {
  ok : bool;
  error : string;
  result_columns : list string;
  result_rows : list Tuple;
  affected_rows : Z
}.
Definition empty_result : QueryResult := mkQueryResult true "" [] [] 0.
Definition ErrorResult (message : string) : QueryResult := mkQueryResult false message [] [] 0.
(** [status.ok() ? result : FromStatus(status)] *)
Definition FromStatus (r : result QueryResult) : QueryResult :=
  match r with Ok q => q | Err _ message => ErrorResult message end.

Section executor.
Context {P : Type} {PS : PageStore P} (regex_match : string -> string -> option bool) (fuel : nat) (clock : nat -> Z).
Abbreviation T := (M (Engine P * disk)).

Definition out_of_range {A} : T A := throw kInternalError "vector index out of range".

(** ** Scans *)

(** The predicate holds; an error of the evaluation is the executor's. *)
Definition Matches (predicate : option Expr) (schema : TableSchema) (tup : Tuple) : result bool :=
  match predicate with
  | None => Ok true
  | Some e => v ← Evaluate regex_match e schema tup; Ok (match v with VBool b => b | _ => false end)
  end.

Fixpoint project (schema : TableSchema) (columns : list SelectItem) (tup : Tuple) : option Tuple :=
  match columns with
  | [] => Some []
  | item :: columns => v ← znth tup (FindColumn schema (item_column item)); vs ← project schema columns tup; Some (v :: vs)
  end.
Definition ProjectRow (schema : TableSchema) (select_all : bool) (columns : list SelectItem) (tup : Tuple) : option Tuple :=
  if select_all then Some tup else project schema columns tup.
Definition FillColumns (schema : TableSchema) (select_all : bool) (columns : list SelectItem) : list string :=
  if select_all then map col_name schema
  else map (fun item => if bool_decide (item_alias item = "") then item_column item else item_alias item) columns.

(** The loop over the rows: those that are not deleted, pass [keep] and match. *)
Fixpoint select_rows (table : TableDescriptor) (keep : Row -> bool) (select_all : bool) (columns : list SelectItem)
    (predicate : option Expr) (rows : list Row) : T (list Tuple) :=
  match rows with
  | [] => mret []
  | r :: rows =>
      if deleted r || negb (keep r) then select_rows table keep select_all columns predicate rows
      else
        matches ← lift (Matches predicate (schema table) (tuple r));
        if matches : bool then
          match ProjectRow (schema table) select_all columns (tuple r) with
          | Some projected => rest ← select_rows table keep select_all columns predicate rows; mret (projected :: rest)
          | None => out_of_range
          end
        else select_rows table keep select_all columns predicate rows
  end.
Definition scan_result (table : TableDescriptor) (select_all : bool) (columns : list SelectItem) (rows : list Tuple) : QueryResult :=
  mkQueryResult true "" (FillColumns (schema table) select_all columns) rows (zlen rows).

Definition SeqScan (database_name table_name : string) (select_all : bool) (columns : list SelectItem) (predicate : option Expr)
  : T QueryResult :=
  table ← GetTableDescriptor database_name table_name;
  rows ← ScanTable database_name table_name;
  selected ← select_rows table (fun _ => true) select_all columns predicate rows;
  mret (scan_result table select_all columns selected).

Fixpoint ExtractEqualityKey (e : Expr) : option Value :=
  match e with
  | LogicalExpr opAnd l r => match ExtractEqualityKey l with Some key => Some key | None => ExtractEqualityKey r end
  | BinaryExpr opEq (ColumnRefExpr _) (LiteralExpr v) | BinaryExpr opEq (LiteralExpr v) (ColumnRefExpr _) => Some v
  | _ => None
  end.
Definition IndexScan (database_name table_name index_name : string) (select_all : bool) (columns : list SelectItem)
    (predicate : option Expr) : T QueryResult :=
  table ← GetTableDescriptor database_name table_name;
  match predicate ≫= ExtractEqualityKey with
  | None => throw kExecutionError "IndexScan requires equality predicate with literal key"
  | Some key =>
      found ← on_indexes (im_Find fuel index_name key);
      match found with
      | None => mret (mkQueryResult true "" (FillColumns (schema table) select_all columns) [] 0)
      | Some r =>
          rows ← ScanTable database_name table_name;
          selected ← select_rows table (fun row => rid row =? r) select_all columns predicate rows;
          mret (scan_result table select_all columns selected)
      end
  end.

(** ** Writes *)

Fixpoint fill_values (schema : TableSchema) (seen columns : list string) (values : list Value) (out : Tuple) : result Tuple :=
  match columns, values with
  | name :: columns, v :: values =>
      if bool_decide (name ∈ seen) then Err kExecutionError ("duplicate INSERT column '" +:+ name +:+ "'")
      else
        let index := FindColumn schema name in
        if index <? 0 then Err kExecutionError ("unknown INSERT column '" +:+ name +:+ "'")
        else fill_values schema (name :: seen) columns values (zset index v out)
  | _, _ => Ok out
  end.
Fixpoint fill_defaults (columns : TableSchema) (out : Tuple) : result Tuple :=
  match columns, out with
  | c :: columns, v :: out =>
      let v := if is_null v then default v (default_value c) else v in
      if is_null v && (not_null c || indexed c)
      then Err kConstraintViolation ("column '" +:+ col_name c +:+ "' cannot be NULL")
      else rest ← fill_defaults columns out; Ok (v :: rest)
  | _, _ => Ok []
  end.
Definition BuildTuple (table : TableDescriptor) (columns : list string) (values : list Value) : result Tuple :=
  if negb (zlen columns =? zlen values) then Err kExecutionError "INSERT values count does not match columns count"
  else
    out ← fill_values (schema table) [] columns values (zreplicate (zlen (schema table)) VNull);
    fill_defaults (schema table) out.

Fixpoint insert_rows (table : TableDescriptor) (database_name table_name : string) (columns : list string) (i : nat)
    (rows : list (list Value)) : T Z :=
  match rows with
  | [] => mret (Z.of_nat i)
  | values :: rows =>
      tup ← lift (BuildTuple table columns values);
      _ ← e_Insert fuel (clock i) database_name table_name tup;
      insert_rows table database_name table_name columns (S i) rows
  end.
Definition affected (n : Z) : QueryResult := mkQueryResult true "" [] [] n.
Definition InsertExecutor (database_name table_name : string) (columns : list string) (rows : list (list Value)) : T QueryResult :=
  table ← GetTableDescriptor database_name table_name;
  n ← insert_rows table database_name table_name columns O rows;
  mret (affected n).

Fixpoint assign (schema : TableSchema) (assignments : list (string * Value)) (updated : Tuple) : result Tuple :=
  match assignments with
  | [] => Ok updated
  | (name, v) :: assignments =>
      match znth schema (FindColumn schema name) with
      | None => Err kExecutionError ("unknown UPDATE column '" +:+ name +:+ "'")
      | Some column =>
          if is_null v && (not_null column || indexed column)
          then Err kConstraintViolation ("column '" +:+ col_name column +:+ "' cannot be NULL")
          else assign schema assignments (zset (FindColumn schema name) v updated)
      end
  end.
Fixpoint update_rows (table : TableDescriptor) (database_name table_name : string) (assignments : list (string * Value))
    (predicate : option Expr) (i : nat) (rows : list Row) : T Z :=
  match rows with
  | [] => mret (Z.of_nat i)
  | r :: rows =>
      if deleted r then update_rows table database_name table_name assignments predicate i rows
      else
        matches ← lift (Matches predicate (schema table) (tuple r));
        if negb matches then update_rows table database_name table_name assignments predicate i rows
        else
          updated ← lift (assign (schema table) assignments (tuple r));
          _ ← e_Update fuel (clock i) database_name table_name (rid r) updated;
          update_rows table database_name table_name assignments predicate (S i) rows
  end.
Definition UpdateExecutor (database_name table_name : string) (assignments : list (string * Value)) (predicate : option Expr)
  : T QueryResult :=
  table ← GetTableDescriptor database_name table_name;
  rows ← ScanTable database_name table_name;
  n ← update_rows table database_name table_name assignments predicate O rows;
  mret (affected n).

Fixpoint delete_rows (table : TableDescriptor) (database_name table_name : string) (predicate : option Expr) (i : nat)
    (rows : list Row) : T Z :=
  match rows with
  | [] => mret (Z.of_nat i)
  | r :: rows =>
      if deleted r then delete_rows table database_name table_name predicate i rows
      else
        matches ← lift (Matches predicate (schema table) (tuple r));
        if negb matches then delete_rows table database_name table_name predicate i rows
        else
          _ ← e_Delete fuel (clock i) database_name table_name (rid r);
          delete_rows table database_name table_name predicate (S i) rows
  end.
Definition DeleteExecutor (database_name table_name : string) (predicate : option Expr) : T QueryResult :=
  table ← GetTableDescriptor database_name table_name;
  rows ← ScanTable database_name table_name;
  n ← delete_rows table database_name table_name predicate O rows;
  mret (affected n).

Definition CreateTableExecutor (descriptor : TableDescriptor) : T QueryResult :=
  _ ← e_CreateTable descriptor; mret empty_result.
Definition CreateIndexExecutor (descriptor : IndexDescriptor) (key_type : ValueType) : T QueryResult :=
  _ ← on_indexes (CreateIndex descriptor key_type); mret empty_result.

(** ** Dispatch

    The result and the session's database; only [kUseDatabase] changes the
    latter. *)
Definition then_ok {A} (m : T A) : T QueryResult := _ ← m; mret empty_result.
Definition run_plan (plan : PhysicalPlan) : T QueryResult :=
  match plan with
  | CreateDatabasePhysicalPlan n => then_ok (e_CreateDatabase n)
  | DropDatabasePhysicalPlan n => then_ok (e_DropDatabase n)
  | UseDatabasePhysicalPlan _ => mret empty_result
  | DropTablePhysicalPlan d t => then_ok (e_DropTable d t)
  | CreateTablePhysicalPlan descriptor => CreateTableExecutor descriptor
  | CreateIndexPhysicalPlan descriptor key_type => CreateIndexExecutor descriptor key_type
  | InsertPhysicalPlan d t columns rows => InsertExecutor d t columns rows
  | SeqScanPhysicalPlan d t all columns predicate => SeqScan d t all columns predicate
  | IndexScanPhysicalPlan d t index_name all columns predicate => IndexScan d t index_name all columns predicate
  | UpdatePhysicalPlan d t assignments predicate => UpdateExecutor d t assignments predicate
  | DeletePhysicalPlan d t predicate => DeleteExecutor d t predicate
  | RevertPhysicalPlan d t timestamp_ms => then_ok (RevertTableToTimestamp fuel d t timestamp_ms)
  end.
Definition Execute (plan : PhysicalPlan) (current_db : string) (s : Engine P * disk) : QueryResult * string * (Engine P * disk) :=
  let '(r, s') := run_plan plan s in
  (FromStatus r, match plan with UseDatabasePhysicalPlan n => n | _ => current_db end, s').
End executor.
