(* ===== verification/QueryProcessor.v ===== *)
(** * The query processor and the database

    [src/server/query_processor.cpp] and [src/server/database.cpp]: parsing,
    planning and executing one statement in a session, and the start and stop of
    the database.  The calls of the logger are left out. *)
From S2P Require Import Prelude Values Disk PageStore Engine Sql Lexer Parser Expression Planner Executor.

(** [include/server/session_context.h] *)
Record SessionContext := mkSessionContext {
  client_id : string;
  current_db : string;
  user_id : string;
  authenticated : bool
}.
Definition new_SessionContext : SessionContext := mkSessionContext "" "" "" false.
Definition set_current_db (d : string) (c : SessionContext) : SessionContext :=
  mkSessionContext (client_id c) d (user_id c) (authenticated c).
Definition set_user (u : string) (b : bool) (c : SessionContext) : SessionContext :=
  mkSessionContext (client_id c) (current_db c) u b.

Section processor.
Context {P : Type} {PS : PageStore P}.
Context (mktime : tm -> Z) (regex_match : string -> string -> option bool) (fuel : nat) (clock : nat -> Z).

Definition qp_Execute (sql : string) (session : SessionContext) (s : Engine P * disk)
  : QueryResult * SessionContext * (Engine P * disk) :=
  match Parse mktime sql with
  | Parsed stmt =>
      match on_disk (BuildPhysicalPlan (data_dir s.1) (current_db session) stmt) s with
      | (Err _ message, s1) => (ErrorResult ("[plan] " +:+ message), session, s1)
      | (Ok plan, s1) =>
          let '(r, d, s2) := Execute regex_match fuel clock plan (current_db session) s1 in
          (r, set_current_db d session, s2)
      end
  | ParseError what => (ErrorResult ("[parse] " +:+ what), session, s)
  | OutOfFuel | OutOfRange => (ErrorResult "[execute] ", session, s)
  end.

Definition db_Start : M (Engine P * disk) unit :=
  e ← this; _ ← on_disk (EnsureDir (data_dir e)); Start.
Definition db_Stop : M (Engine P * disk) unit := Stop.
End processor.
