(* ===== verification/Doubles.v ===== *)
(** * Numbers of type double

    IEEE 754 binary64 as the standard library specifies it: the conversions and
    operations the telemetry uses, and the bound on the index of a percentile. *)
From Stdlib Require Import SpecFloat.
From S2P Require Import Prelude.

Abbreviation double := spec_float.
(** [static_cast<double>(n)] *)
Definition dbl (n : Z) : double := binary_normalize 53 1024 n 0 false.
Definition d_add : double -> double -> double := SFadd 53 1024.
Definition d_mul : double -> double -> double := SFmul 53 1024.
Definition d_div : double -> double -> double := SFdiv 53 1024.
(** [std::max(x, y)] *)
Definition d_max (x y : double) : double := if SFltb x y then y else x.
(** [static_cast<std::size_t>(x)] of a value in range *)
Definition d_trunc (x : double) : Z :=
  match x with S754_finite s m e => (if s then -1 else 1) * (if 0 <=? e then Z.pos m * 2 ^ e else Z.pos m / 2 ^ (- e)) | _ => 0 end.
(** The quotient of two exact numbers is the number closest to it. *)
Definition ratio (n d : Z) : double := d_div (dbl n) (dbl d).
Lemma ratio_95 : ratio 95 100 = S754_finite false 8556839292003942 (-53).
Proof. vm_compute. reflexivity. Qed.
Lemma ratio_99 : ratio 99 100 = S754_finite false 8917127262193582 (-53).
Proof. vm_compute. reflexivity. Qed.

(** ** Rounding *)

Lemma digits_bounds p : 2 ^ (Z.pos (digits2_pos p) - 1) <= Z.pos p < 2 ^ Z.pos (digits2_pos p).
Proof.
  induction p as [p IH|p IH|]; cbn [digits2_pos]; [| |done].
  all: rewrite Pos2Z.inj_succ; replace (Z.succ (Z.pos (digits2_pos p)) - 1) with (Z.succ (Z.pos (digits2_pos p) - 1)) by lia.
  all: rewrite !Z.pow_succ_r by lia; lia.
Qed.
Lemma digits_unique p d : 2 ^ (d - 1) <= Z.pos p < 2 ^ d -> Z.pos (digits2_pos p) = d.
Proof.
  intros [H1 H2]. destruct (digits_bounds p) as [H3 H4]. destruct (Z.lt_trichotomy (Z.pos (digits2_pos p)) d) as [H|[H|H]]; [|done|].
  - assert (2 ^ Z.pos (digits2_pos p) <= 2 ^ (d - 1)) by (apply Z.pow_le_mono_r; lia). lia.
  - assert (2 ^ d <= 2 ^ (Z.pos (digits2_pos p) - 1)) by (apply Z.pow_le_mono_r; lia). lia.
Qed.
Lemma shr_1_half r : 0 <= shr_m r -> shr_m (shr_1 r) = shr_m r / 2.
Proof.
  destruct r as [[|[p|p|]|] r s]; cbn [shr_m shr_1]; intros ?; try done; try lia.
  - rewrite Pos2Z.inj_xI, Z.mul_comm, Z.div_add_l by lia. change (1 / 2) with 0. lia.
  - rewrite Pos2Z.inj_xO, Z.mul_comm, Z.div_mul by lia. done.
Qed.
Lemma shr_iter p : forall r, 0 <= shr_m r -> shr_m (SpecFloat.iter_pos shr_1 p r) = shr_m r / 2 ^ Z.pos p.
Proof.
  induction p as [p IH|p IH|]; intros r Hr; cbn [SpecFloat.iter_pos].
  - assert (0 <= shr_m (shr_1 r)) as H1 by (rewrite shr_1_half by done; apply Z.div_pos; lia).
    rewrite IH; [|rewrite IH by done; apply Z.div_pos; [done|lia]]. rewrite IH, shr_1_half by done.
    rewrite !Z.div_div by lia. f_equal. rewrite Pos2Z.inj_xI. rewrite <- !Z.pow_add_r, <- Z.pow_succ_r by lia. f_equal. lia.
  - rewrite IH; [|rewrite IH by done; apply Z.div_pos; [done|lia]]. rewrite IH by done.
    rewrite Z.div_div by lia. f_equal. rewrite Pos2Z.inj_xO, <- Z.pow_add_r by lia. f_equal. lia.
  - by apply shr_1_half.
Qed.
Lemma shr_spec r e n : 0 <= shr_m r -> 0 <= n -> shr_m (shr r e n).1 = shr_m r / 2 ^ n /\ (shr r e n).2 = e + n.
Proof.
  intros Hr Hn. destruct n as [|p|p]; cbn [shr fst snd]; [rewrite Z.pow_0_r, Z.div_1_r; lia| |lia]. by rewrite shr_iter.
Qed.
Lemma round_bound m l : m <= round_nearest_even m l <= m + 1.
Proof. unfold round_nearest_even. destruct l as [|[]]; try lia. destruct (Z.even m); lia. Qed.
Lemma fexp_normal e : -1021 <= e -> fexp 53 1024 e = e - 53.
Proof. intros. unfold fexp, emin. lia. Qed.
(** A number of 53 digits needs no rounding. *)
Lemma round_aux_exact m e : 2 ^ 52 <= Z.pos m < 2 ^ 53 -> -1074 <= e <= 971 -> binary_round_aux 53 1024 false (Z.pos m) e loc_Exact = S754_finite false m e.
Proof.
  intros Hm He. unfold binary_round_aux, shr_fexp. cbn [Zdigits2]. rewrite (digits_unique m 53) by done. rewrite fexp_normal by lia.
  replace (53 + e - 53 - e) with 0 by lia. cbn [shr shr_record_of_loc loc_of_shr_record round_nearest_even shr_m Zdigits2]. rewrite (digits_unique m 53) by done.
  rewrite fexp_normal by lia. replace (53 + e - 53 - e) with 0 by lia. cbn [shr shr_m]. by rewrite (proj2 (Z.leb_le e (1024 - 53)) ltac:(lia)).
Qed.
Lemma iter_xO d : forall p, Z.pos (Pos.iter xO p d) = Z.pos p * 2 ^ Z.pos d.
Proof.
  induction d as [|d IH] using Pos.peano_ind; intros p; [rewrite Z.pow_1_r; cbn; lia|]. rewrite Pos.iter_succ, Pos2Z.inj_xO, IH, Pos2Z.inj_succ, Z.pow_succ_r by lia. lia.
Qed.
(** Numbers below [2 ^ 53] are exact. *)
Lemma dbl_exact m : 0 < m < 2 ^ 53 -> exists M k, dbl m = S754_finite false M (- k) /\ Z.pos M = m * 2 ^ k /\ 0 <= k <= 52 /\ 2 ^ 52 <= Z.pos M < 2 ^ 53.
Proof.
  intros [H1 H2]. destruct m as [|p|]; [lia| |lia]. unfold dbl, binary_normalize, binary_round. pose proof (digits_bounds p) as [D1 D2].
  set (d := Z.pos (digits2_pos p)) in *. assert (1 <= d <= 53) as Hd.
  { split; [unfold d; lia|]. destruct (Z.le_gt_cases d 53); [done|]. assert (2 ^ 53 <= 2 ^ (d - 1)) by (apply Z.pow_le_mono_r; lia). lia. }
  rewrite fexp_normal by lia. unfold shl_align. replace (d + 0 - 53 - 0) with (- (53 - d)) by lia.
  assert (2 ^ 52 <= Z.pos p * 2 ^ (53 - d) < 2 ^ 53) as Hb.
  { replace (2 ^ 52) with (2 ^ (d - 1) * 2 ^ (53 - d)) by (rewrite <- Z.pow_add_r by lia; f_equal; lia).
    replace (2 ^ 53) with (2 ^ d * 2 ^ (53 - d)) by (rewrite <- Z.pow_add_r by lia; f_equal; lia). split; [apply Z.mul_le_mono_nonneg_r|apply Z.mul_lt_mono_pos_r]; lia. }
  destruct (53 - d) as [|k|k] eqn:Ek; [| |lia].
  - change (- 0) with 0. exists p, 0. rewrite Z.pow_0_r, Z.mul_1_r in *. rewrite round_aux_exact by lia. split_and!; (done || lia).
  - change (- Z.pos k) with (Z.neg k). cbv iota beta. exists (Pos.iter xO p k), (Z.pos k). rewrite round_aux_exact by (rewrite ?iter_xO; lia). rewrite iter_xO. split_and!; try lia. f_equal. lia.
Qed.
(** Rounding a product of two numbers of 53 digits. *)
Lemma round_product N e : 2 ^ 104 <= Z.pos N < 2 ^ 106 -> -900 <= e <= 800 -> exists s m1 m e',
  binary_round_aux 53 1024 false (Z.pos N) e loc_Exact = S754_finite false m e' /\ (s = 52 \/ s = 53) /\ m1 <= Z.pos N / 2 ^ s + 1 /\
  (Z.pos m = m1 /\ e' = e + s \/ Z.pos m = m1 / 2 /\ e' = e + s + 1).
Proof.
  intros HN He. unfold binary_round_aux, shr_fexp. cbn [Zdigits2]. assert (exists s, (s = 52 \/ s = 53) /\ Z.pos (digits2_pos N) = s + 53) as (s & Hs & Ed).
  { destruct (Z.lt_ge_cases (Z.pos N) (2 ^ 105)); [exists 52|exists 53]; (split; [lia|]); apply digits_unique; lia. }
  rewrite Ed, fexp_normal by lia. replace (s + 53 + e - 53 - e) with s by lia. cbn [shr_record_of_loc].
  pose proof (digits_bounds N) as HD. rewrite Ed in HD. destruct (shr_spec {| shr_m := Z.pos N; shr_r := false; shr_s := false |} e s) as [S1 S2]; [cbn; lia|lia|].
  destruct (shr _ e s) as [r e1]. cbn [fst snd shr_m] in S1, S2. subst e1.
  assert (2 ^ 52 <= shr_m r < 2 ^ 53) as Hr.
  { rewrite S1. replace (s + 53 - 1) with (s + 52) in HD by lia. rewrite !Z.pow_add_r in HD by lia. split; [apply Z.div_le_lower_bound|apply Z.div_lt_upper_bound]; lia. }
  pose proof (round_bound (shr_m r) (loc_of_shr_record r)) as Hm. set (m1 := round_nearest_even _ _) in *. rewrite S1 in Hm.
  destruct m1 as [|p|] eqn:Em; [lia| |lia]. cbn [Zdigits2]. destruct (Z.eq_dec (Z.pos p) (2 ^ 53)) as [Ep|Hne].
  - rewrite (digits_unique p 54) by lia. rewrite fexp_normal by lia. replace (54 + (e + s) - 53 - (e + s)) with 1 by lia.
    destruct (shr_spec (shr_record_of_loc (Z.pos p) loc_Exact) (e + s) 1) as [T1 T2]; [cbn; lia|lia|]. destruct (shr _ (e + s) 1) as [r' e2]. cbn [fst snd shr_m shr_record_of_loc] in T1, T2.
    rewrite T1, T2, Ep. change (2 ^ 53 / 2 ^ 1) with (2 ^ 52). cbn [Z.pow Z.pow_pos Pos.iter Z.mul Pos.mul]. rewrite (proj2 (Z.leb_le (e + s + 1) (1024 - 53)) ltac:(lia)).
    eexists s, (Z.pos p), _, _. split; [reflexivity|]. split; [done|]. split; [lia|]. right. rewrite Ep. done.
  - rewrite (digits_unique p 53) by lia. rewrite fexp_normal by lia. replace (53 + (e + s) - 53 - (e + s)) with 0 by lia. cbn [shr shr_record_of_loc shr_m].
    rewrite (proj2 (Z.leb_le (e + s) (1024 - 53)) ltac:(lia)). exists s, (Z.pos p), p, (e + s). split_and!; [done|done|lia|by left].
Qed.
(** A fraction below 1 - 2 ^ -14 of [m] is at most [m], the rounding included. *)
Lemma trunc_fraction P m : 2 ^ 52 <= Z.pos P <= 2 ^ 53 - 2 ^ 39 -> 0 <= m < 2 ^ 53 -> 0 <= d_trunc (d_mul (S754_finite false P (-53)) (dbl m)) <= m.
Proof.
  intros HP Hm. destruct (Z.eq_dec m 0) as [->|Hne]; [done|]. destruct (dbl_exact m ltac:(lia)) as (M & k & -> & EM & Hk & HM). unfold d_mul, SFmul. cbn [xorb].
  destruct (round_product (P * M) (-53 + - k)) as (s & m1 & m2 & e & -> & Hs & H1 & H2); [rewrite Pos2Z.inj_mul; split; [change (2 ^ 104) with (2 ^ 52 * 2 ^ 52)|change (2 ^ 106) with (2 ^ 53 * 2 ^ 53)]; nia|lia|].
  rewrite Pos2Z.inj_mul in H1. assert (m1 * 2 ^ s <= 2 ^ 53 * Z.pos M) as Hb.
  { assert (Z.pos P * Z.pos M / 2 ^ s * 2 ^ s <= Z.pos P * Z.pos M) as Hq by (rewrite Z.mul_comm; apply Z.mul_div_le; lia).
    assert (m1 * 2 ^ s <= Z.pos P * Z.pos M + 2 ^ s) as H3 by nia. assert (2 ^ s <= 2 ^ 39 * Z.pos M) as H4 by (destruct Hs as [-> | ->]; lia). nia. }
  cbn [d_trunc]. rewrite Z.mul_1_l. rewrite EM in Hb. pose proof (Pos2Z.is_pos m2) as Hm2.
  assert (Z.pos m2 * 2 ^ (e + 53 + k) <= 2 ^ 53 * (m * 2 ^ k)) as Hv.
  { destruct H2 as [[-> ->]|[E2 ->]]; [replace (-53 + - k + s + 53 + k) with s by lia; done|]. rewrite E2. replace (-53 + - k + s + 1 + 53 + k) with (Z.succ s) by lia.
    rewrite Z.pow_succ_r by lia. pose proof (Z.mul_div_le m1 2 ltac:(lia)). nia. }
  rewrite Z.mul_assoc, (Z.mul_comm (2 ^ 53)), <- Z.mul_assoc, <- Z.pow_add_r in Hv by lia. assert (-53 - k <= e) as He by (destruct H2 as [[_ ->]|[_ ->]]; lia).
  destruct (0 <=? e) eqn:E; zbool.
  - split; [apply Z.mul_nonneg_nonneg; lia|]. replace (e + 53 + k) with (e + (53 + k)) in Hv by lia. rewrite Z.pow_add_r, Z.mul_assoc in Hv by lia.
    apply (Z.mul_le_mono_pos_r _ _ (2 ^ (53 + k))); [lia|done].
  - split; [apply Z.div_pos; lia|]. apply Z.div_le_upper_bound; [lia|].
    assert (2 ^ (53 + k) = 2 ^ (- e) * 2 ^ (e + 53 + k)) as Ep by (rewrite <- Z.pow_add_r by lia; f_equal; lia).
    rewrite Ep, (Z.mul_comm (2 ^ (- e))), Z.mul_assoc in Hv. apply (Z.mul_le_mono_pos_r _ _ (2 ^ (e + 53 + k))); [lia|]. nia.
Qed.
