(* ===== verification/Protocol.v ===== *)
(** * The wire protocol

    [src/network/protocol.cpp], with [include/network/request.h] and
    [include/network/response.h]: requests and responses as strings.  The
    deserializers reject trailing bytes. *)
From S2P Require Import Prelude Values BinaryIO Serialization Executor.

Record Request := mkRequest { request_id : string; database : string; sql : string; auth_token : string }.
Record Response := mkResponse { resp_ok : bool; resp_error : string; resp_result : QueryResult }.

Definition SerializeRequest (req : Request) : string :=
  let buffer := WriteString [] (request_id req) in
  let buffer := WriteString buffer (database req) in
  let buffer := WriteString buffer (sql req) in
  string_of_bytes (WriteString buffer (auth_token req)).
Definition ReadRequest : reader Request :=
  request_id ← ReadString; database ← ReadString; sql ← ReadString; auth_token ← ReadString;
  mret (mkRequest request_id database sql auth_token).

(** [return offset == bytes.size()] after a reader. *)
Definition read_all {A} (rd : reader A) (data : string) : option A :=
  let bytes := bytes_of_string data in
  match rd bytes 0 with
  | Ok (x, offset) => if offset =? zlen bytes then Some x else None
  | Err _ _ => None
  end.
Definition DeserializeRequest (data : string) : option Request := read_all ReadRequest data.

Definition SerializeResponse (resp : Response) : string :=
  let r := resp_result resp in
  let buffer := WriteBool [] (resp_ok resp) in
  let buffer := WriteString buffer (resp_error resp) in
  let buffer := WriteBool buffer (ok r) in
  let buffer := WriteString buffer (error r) in
  let buffer := WriteUint32 buffer (u32 (affected_rows r)) in
  let buffer := WriteUint32 buffer (u32 (zlen (result_columns r))) in
  let buffer := fold_left (fun b col => WriteString b col) (result_columns r) buffer in
  let buffer := WriteUint32 buffer (u32 (zlen (result_rows r))) in
  string_of_bytes (fold_left (fun b row => SerializeTuple row b) (result_rows r) buffer).
Definition ReadResponse : reader Response :=
  resp_ok ← ReadBool; resp_error ← ReadString; ok ← ReadBool; error ← ReadString;
  affected ← ReadUint32;
  columns ← (col_count ← ReadUint32; read_loop ReadString (Z.to_nat col_count));
  rows ← (row_count ← ReadUint32; read_loop DeserializeTuple (Z.to_nat row_count));
  mret (mkResponse resp_ok resp_error (mkQueryResult ok error columns rows affected)).
Definition DeserializeResponse (data : string) : option Response := read_all ReadResponse data.

(** ** The messages that fit the format *)

Definition request_ok (r : Request) : Prop :=
  string_fits (request_id r) /\ string_fits (database r) /\ string_fits (sql r) /\ string_fits (auth_token r).
Definition result_ok (q : QueryResult) : Prop :=
  string_fits (error q) /\ in_u32 (affected_rows q) /\
  (zlen (result_columns q) < 2 ^ 32 /\ Forall string_fits (result_columns q)) /\
  (zlen (result_rows q) < 2 ^ 32 /\ Forall tuple_ok (result_rows q)).
Definition response_ok (r : Response) : Prop := string_fits (resp_error r) /\ result_ok (resp_result r).

Lemma zlen_nil_inv {A} (l : list A) : zlen l = 0 -> l = [].
Proof. destruct l; [done|]. rewrite zlen_cons. pose proof (zlen_nonneg l). lia. Qed.
(** A reader of a whole string. *)
Lemma read_all_exact {A} (rd : reader A) (good : A -> Prop) (enc : A -> bytes) data x :
  (forall y, good y -> decodes rd (enc y) y) -> consumes rd (fun y e => good y /\ e = enc y) ->
  read_all rd data = Some x <-> good x /\ data = string_of_bytes (enc x).
Proof.
  intros Hd Hc. unfold read_all. cbv zeta. split.
  - destruct (rd (bytes_of_string data) 0) as [[y off]|] eqn:E; [|done]. destruct (off =? _) eqn:El; [|done]. intros [= ->]. zbool.
    apply Hc in E as (pre & e & post & Eb & Hp & -> & Hg & ->); [|pose proof (zlen_nonneg (bytes_of_string data)); lia].
    split; [done|]. symmetry in Hp. apply zlen_nil_inv in Hp as ->. rewrite Eb, !zlen_app in El. change (zlen (@nil Byte.byte)) with 0 in El.
    assert (post = []) as -> by (apply zlen_nil_inv; lia). rewrite app_nil_r, app_nil_l in Eb. rewrite <- Eb. symmetry. apply String.string_of_list_byte_of_string.
  - intros [Hg ->]. rewrite String.list_byte_of_string_of_list_byte. specialize (Hd x Hg [] []). rewrite app_nil_l, app_nil_r in Hd. change (zlen (@nil Byte.byte)) with 0 in Hd.
    by rewrite Hd, Z.add_0_l, Z.eqb_refl.
Qed.

Definition request_bytes (r : Request) : bytes :=
  WriteString [] (request_id r) ++ WriteString [] (database r) ++ WriteString [] (sql r) ++ WriteString [] (auth_token r).
Lemma SerializeRequest_eq r : SerializeRequest r = string_of_bytes (request_bytes r).
Proof. unfold SerializeRequest, request_bytes. cbv zeta. to_append. done. Qed.
Lemma ReadRequest_decodes r : request_ok r -> decodes ReadRequest (request_bytes r) r.
Proof.
  intros (? & ? & ? & ?). unfold request_bytes. do 3 (eapply decodes_bind; [by apply ReadString_decodes|]).
  eapply decodes_map; [by apply ReadString_decodes|]. by destruct r.
Qed.
Lemma ReadRequest_consumes : consumes ReadRequest (fun r e => request_ok r /\ e = request_bytes r).
Proof.
  eapply consumes_weaken.
  - do 4 (eapply consumes_bind; [apply ReadString_consumes|]; intros ? _ _). apply consumes_ret.
  - intros r e (? & ? & ? & -> & [? ->] & ? & ? & ? & -> & [? ->] & ? & ? & ? & -> & [? ->] & ? & ? & ? & -> & [? ->] & -> & ->).
    split; [done|]. unfold request_bytes. cbn [request_id database sql auth_token]. by rewrite app_nil_r.
Qed.

Definition counted {A} (enc : A -> bytes) (xs : list A) : bytes := WriteUint32 [] (u32 (zlen xs)) ++ concat (map enc xs).
Definition response_bytes (r : Response) : bytes :=
  let q := resp_result r in
  WriteBool [] (resp_ok r) ++ WriteString [] (resp_error r) ++ WriteBool [] (ok q) ++ WriteString [] (error q) ++
  WriteUint32 [] (u32 (affected_rows q)) ++ counted (fun c => WriteString [] c) (result_columns q) ++
  counted (fun t => SerializeTuple t []) (result_rows q).
Lemma SerializeResponse_eq r : SerializeResponse r = string_of_bytes (response_bytes r).
Proof.
  unfold SerializeResponse, response_bytes, counted. cbv zeta.
  rewrite (fold_append (fun row b => SerializeTuple row b)) by (intros; apply SerializeTuple_append).
  rewrite (fold_append (fun col b => WriteString b col)) by (intros; apply WriteString_append). to_append. done.
Qed.
Lemma ReadResponse_decodes r : response_ok r -> decodes ReadResponse (response_bytes r) r.
Proof.
  intros (? & ? & ? & [? Hc] & [? Hr]). unfold response_bytes, counted. cbv zeta.
  eapply decodes_bind; [apply ReadBool_decodes|]. eapply decodes_bind; [by apply ReadString_decodes|].
  eapply decodes_bind; [apply ReadBool_decodes|]. eapply decodes_bind; [by apply ReadString_decodes|].
  eapply decodes_bind; [rewrite u32_id by done; by apply ReadUint32_decodes|].
  eapply decodes_bind; [apply counted_decodes; [done|]; intros c Hin; apply ReadString_decodes; by eapply Forall_forall in Hin|].
  eapply decodes_map; [apply counted_decodes; [done|]; intros t Hin; apply DeserializeTuple_decodes; by eapply Forall_forall in Hin|].
  by destruct r as [? ? []].
Qed.
Lemma ReadResponse_consumes : consumes ReadResponse (fun r e => response_ok r /\ e = response_bytes r).
Proof.
  eapply consumes_weaken.
  - eapply consumes_bind; [apply ReadBool_consumes|]; intros ? _ _. eapply consumes_bind; [apply ReadString_consumes|]; intros ? _ _.
    eapply consumes_bind; [apply ReadBool_consumes|]; intros ? _ _. eapply consumes_bind; [apply ReadString_consumes|]; intros ? _ _.
    eapply consumes_bind; [apply ReadUint32_consumes|]; intros ? _ _.
    eapply consumes_bind; [apply counted_consumes, ReadString_consumes|]; intros ? _ _.
    eapply consumes_bind; [apply counted_consumes, DeserializeTuple_consumes|]; intros ? _ _. apply consumes_ret.
  - intros r e (? & ? & ? & -> & [_ ->] & ? & ? & ? & -> & [? ->] & ? & ? & ? & -> & [_ ->] & ? & ? & ? & -> & [? ->] &
      ? & ? & ? & -> & [? ->] & ? & ? & ? & -> & [? ->] & ? & ? & ? & -> & [? ->] & -> & ->).
    split; [by split_and!|]. unfold response_bytes, counted. cbn [resp_ok resp_error resp_result ok error affected_rows result_columns result_rows].
    rewrite (u32_id x3) by done. by rewrite app_nil_r.
Qed.

Lemma DeserializeRequest_Serialize r : request_ok r -> DeserializeRequest (SerializeRequest r) = Some r.
Proof.
  intros Hr. rewrite SerializeRequest_eq. by apply (read_all_exact _ _ _ _ _ ReadRequest_decodes ReadRequest_consumes).
Qed.
Lemma DeserializeResponse_Serialize r : response_ok r -> DeserializeResponse (SerializeResponse r) = Some r.
Proof.
  intros Hr. rewrite SerializeResponse_eq. by apply (read_all_exact _ _ _ _ _ ReadResponse_decodes ReadResponse_consumes).
Qed.

(** C40. The request codec is exact: a string decodes to a request if and only
    if it is the encoding of this request, whose fields fit their length
    fields.  So every request survives the wire, and no other string, with a
    field cut short or with bytes left over, is taken for one. *)
Theorem request_codec data r : DeserializeRequest data = Some r <-> request_ok r /\ data = SerializeRequest r.
Proof.
  rewrite SerializeRequest_eq. apply read_all_exact; [apply ReadRequest_decodes|apply ReadRequest_consumes].
Qed.

(** C39. The response codec is exact, query results with their columns and rows
    included: a string decodes to a response if and only if it is the encoding
    of this response, whose counts and strings fit 32 bits and whose tuples are
    readable. *)
Theorem response_codec data r : DeserializeResponse data = Some r <-> response_ok r /\ data = SerializeResponse r.
Proof.
  rewrite SerializeResponse_eq. apply read_all_exact; [apply ReadResponse_decodes|apply ReadResponse_consumes].
Qed.

(** The count of affected rows is cut to 32 bits on the wire. *)
Lemma affected_rows_truncated error columns rows n :
  SerializeResponse (mkResponse true "" (mkQueryResult true error columns rows (n + 2 ^ 32))) =
  SerializeResponse (mkResponse true "" (mkQueryResult true error columns rows n)).
Proof.
  unfold SerializeResponse. cbn [resp_ok resp_error resp_result ok affected_rows result_columns result_rows]. cbv zeta.
  assert (u32 (n + 2 ^ 32) = u32 n) as ->; [|done]. unfold u32. rewrite <- (Z.mul_1_l (2 ^ 32)) at 1. apply Z.mod_add. lia.
Qed.
