(* ===== verification/Network.v ===== *)
(** * Connections

    [src/network/tcp_client.cpp] and [src/network/tcp_server.cpp]: a request and
    a response on a stream socket, each behind its length.  The system moves any
    number of bytes at every call or fails; the theorem is that a client gets the
    answer of the server's handler or a network error, and nothing else
    ([connection_delivers]).  The branches for Windows are not modelled. *)
From S2P Require Import Prelude Values BinaryIO Serialization Executor Protocol.

(** ** Sockets

    A connected socket: what the peer writes for the bytes it was sent, the bytes
    sent and the number of bytes received so far, and the number of bytes that
    the calls to come can move, where 0 or less is a failure.  A call that is not
    listed moves everything. *)
Record socket := mkSocket { peer : bytes -> bytes; sent : bytes; received : Z; io_calls : list Z }.

(** The loop around [::send], which is called while there are bytes left. *)
Fixpoint send_loop (calls : list Z) (data : bytes) (out : bytes) : bool * bytes * list Z :=
  match data, calls with
  | [], _ => (true, out, calls)
  | _, [] => (true, out ++ data, [])
  | _, c :: calls => if c <=? 0 then (false, out, calls) else send_loop calls (zdrop c data) (out ++ ztake c data)
  end.
Definition SendAll (data : bytes) (len : Z) : M socket bool := fun s =>
  let '(b, out, calls) := send_loop (io_calls s) (ztake len data) (sent s) in
  (Ok b, mkSocket (peer s) out (received s) calls).

(** The loop around [::recv], which returns 0 at the end of the stream. *)
Fixpoint recv_loop (calls : list Z) (len : Z) (stream data : bytes) : bool * bytes * list Z :=
  if len <=? 0 then (true, data, calls)
  else match calls with
  | [] => (len <=? zlen stream, data ++ ztake len stream, [])
  | c :: calls =>
      let got := ztake (Z.min c len) stream in
      if (c <=? 0) || (zlen got =? 0) then (false, data, calls)
      else recv_loop calls (len - zlen got) (zdrop (zlen got) stream) (data ++ got)
  end.
(** [None] is [false]; the bytes otherwise. *)
Definition RecvAll (len : Z) : M socket (option bytes) := fun s =>
  let '(b, data, calls) := recv_loop (io_calls s) len (zdrop (received s) (peer s (sent s))) [] in
  (Ok (if b then Some data else None), mkSocket (peer s) (sent s) (received s + zlen data) calls).

(** A length and as many bytes.  The buffer is zeroed and its length is cast to
    [int] for [RecvAll]. *)
Definition buffer_of (len : Z) (data : bytes) : string := string_of_bytes (data ++ zreplicate (len - zlen data) Byte.x00).

(** ** The client *)

(** What [socket], [inet_pton] and [connect] answer. *)
Record host_env := mkHostEnv { socket_created : bool; address_valid : string -> bool; connected : string -> Z -> bool }.

Definition Send (env : host_env) (host : string) (port : Z) (req : Request) : M socket Response :=
  _ ← reject_if (negb (socket_created env)) kNetworkError "socket creation failed";
  _ ← reject_if (negb (address_valid env host)) kNetworkError ("invalid server address: " +:+ host);
  _ ← reject_if (negb (connected env host port)) kNetworkError ("connect failed to " +:+ host +:+ ":" +:+ pretty port);
  let req_data := bytes_of_string (SerializeRequest req) in
  let req_len := u32 (zlen req_data) in
  b ← SendAll (le_bytes 4 req_len) 4;
  _ ← reject_if (negb b) kNetworkError "failed to send request length";
  b ← SendAll req_data (i32 (zlen req_data));
  _ ← reject_if (negb b) kNetworkError "failed to send request body";
  raw ← RecvAll 4;
  match raw with
  | None => throw kNetworkError "failed to read response length"
  | Some raw =>
      let resp_len := le_val raw in
      data ← RecvAll (i32 resp_len);
      match data with
      | None => throw kNetworkError "failed to read response body"
      | Some data =>
          match DeserializeResponse (buffer_of resp_len data) with
          | None => throw kNetworkError "failed to deserialize response"
          | Some resp => mret resp
          end
      end
  end.

(** ** The server *)

(** [include/network/session.h] *)
Record Session := mkSession { session_client : string; remote_addr : string }.

(** The thread of one connection, around the handler. *)
Definition serve {S} (handler : Session -> Request -> S -> Response * S) (remote : string) (st : S) (s : socket) : S * socket :=
  match RecvAll 4 s with
  | (Ok (Some raw), s) =>
      let req_len := le_val raw in
      match RecvAll (i32 req_len) s with
      | (Ok (Some data), s) =>
          let '(resp, st) :=
            match DeserializeRequest (buffer_of req_len data) with
            | None => (mkResponse false "failed to deserialize request" empty_result, st)
            | Some req => handler (mkSession (request_id req) remote) req st
            end in
          let resp_data := bytes_of_string (SerializeResponse resp) in
          match SendAll (le_bytes 4 (u32 (zlen resp_data))) 4 s with
          | (Ok true, s) => (st, (SendAll resp_data (i32 (zlen resp_data)) s).2)
          | (_, s) => (st, s)
          end
      | (_, s) => (st, s)
      end
  | (_, s) => (st, s)
  end.

(** The listening socket. *)
Record TcpServer := mkTcpServer { host_ : string; port_ : Z; listening : bool; serving : bool }.
Definition new_TcpServer (host : string) (port : Z) : TcpServer := mkTcpServer host port false false.
(** What [socket], [inet_pton], [bind] and [listen] answer. *)
Record listen_env := mkListenEnv { listen_created : bool; bind_address : string -> bool; bound : string -> Z -> bool; listened : bool }.
Definition srv_Start (env : listen_env) : M TcpServer unit :=
  s ← get;
  _ ← reject_if (negb (listen_created env)) kNetworkError "socket creation failed";
  _ ← reject_if (negb (bind_address env (host_ s))) kNetworkError ("invalid bind address: " +:+ host_ s);
  _ ← reject_if (negb (bound env (host_ s) (port_ s))) kNetworkError ("bind failed on " +:+ host_ s +:+ ":" +:+ pretty (port_ s));
  _ ← reject_if (negb (listened env)) kNetworkError "listen failed";
  put (mkTcpServer (host_ s) (port_ s) true true).
Definition srv_Stop : M TcpServer unit := modify (fun s => mkTcpServer (host_ s) (port_ s) false false).

(** ** Messages *)

Definition frame (data : bytes) : bytes := le_bytes 4 (u32 (zlen data)) ++ data.
Abbreviation working := (Forall (fun c => 0 < c)).

Lemma send_loop_spec calls : forall data out, match send_loop calls data out with (b, out', calls') =>
  (exists k, out' = out ++ k /\ k `prefix_of` data) /\ (b = true -> out' = out ++ data) /\ (working calls -> b = true /\ working calls') end.
Proof.
  induction calls as [|c calls IH]; intros [|x data] out; cbn [send_loop].
  - split; [exists []; by rewrite app_nil_r|]. by rewrite app_nil_r.
  - split; [by exists (x :: data)|]. done.
  - split; [exists []; by rewrite app_nil_r|]. by rewrite app_nil_r.
  - destruct (c <=? 0) eqn:Ec; zbool.
    + split; [exists []; split; [by rewrite app_nil_r|apply prefix_nil]|]. split; [done|]. intros [? _]%Forall_cons. lia.
    + specialize (IH (zdrop c (x :: data)) (out ++ ztake c (x :: data))). destruct (send_loop _ _ _) as [[b out'] calls'].
      destruct IH as ((k & -> & Hk) & H2 & H3). split; [exists (ztake c (x :: data) ++ k); split; [by rewrite app_assoc|]|split].
      * rewrite <- (ztake_zdrop c (x :: data)) at 2. by apply prefix_app.
      * intros ->%H2. by rewrite <- app_assoc, ztake_zdrop.
      * intros [_ Hc]%Forall_cons. by apply H3.
Qed.
Lemma ztake_ztake_le {A} n m (l : list A) : n <= m -> ztake n (ztake m l) = ztake n l.
Proof. intros. unfold ztake. rewrite take_take. f_equal. lia. Qed.
Lemma ztake_add {A} n m (l : list A) : 0 <= n -> 0 <= m -> ztake (n + m) l = ztake n l ++ ztake m (zdrop n l).
Proof. intros. unfold ztake, zdrop. rewrite Z2Nat.inj_add by lia. by rewrite take_take_drop. Qed.
Lemma recv_loop_spec calls : forall len stream data, 0 <= len -> match recv_loop calls len stream data with (b, data', calls') =>
  (b = true -> len <= zlen stream /\ data' = data ++ ztake len stream) /\ (working calls -> len <= zlen stream -> b = true /\ working calls') end.
Proof.
  induction calls as [|c calls IH]; intros len stream data Hlen; cbn [recv_loop]; destruct (len <=? 0) eqn:El; zbool.
  - assert (len = 0) as -> by lia. pose proof (zlen_nonneg stream). split; [intros _; split; [done|]; by rewrite app_nil_r|done].
  - split; [intros ?%Z.leb_le; done|]. intros _ ?. split; [by apply Z.leb_le|done].
  - assert (len = 0) as -> by lia. pose proof (zlen_nonneg stream). split; [intros _; split; [done|]; by rewrite app_nil_r|done].
  - set (got := ztake (Z.min c len) stream). pose proof (zlen_nonneg got) as Hg. destruct ((c <=? 0) || (zlen got =? 0)) eqn:E.
    + split; [done|]. intros [Hc _]%Forall_cons Hs. exfalso. apply orb_true_iff in E as [E|E]; zbool; [lia|].
      unfold got in E. rewrite zlen_ztake in E; lia.
    + apply orb_false_iff in E as [Ec Eg]. zbool.
      assert (zlen got <= zlen stream /\ zlen got <= len /\ got = ztake (zlen got) stream) as (H1 & H2 & H3).
      { unfold got, zlen, ztake. rewrite length_take. split_and!; [lia|lia|]. rewrite Nat2Z.id. destruct (decide (Z.to_nat (Z.min c len) <= length stream)%nat);
          [f_equal; lia|rewrite !take_ge by lia; done]. }
      specialize (IH (len - zlen got) (zdrop (zlen got) stream) (data ++ got) ltac:(lia)). destruct (recv_loop _ _ _ _) as [[b data'] calls'].
      rewrite zlen_zdrop in IH by lia. destruct IH as [I1 I2]. split.
      * intros [I3 ->]%I1. split; [lia|]. rewrite <- app_assoc. f_equal. rewrite H3 at 1. rewrite <- ztake_add by lia. f_equal. lia.
      * intros [_ Hc]%Forall_cons Hs. apply I2; [done|lia].
Qed.
Lemma SendAll_spec data len s : len = zlen data -> match SendAll data len s with
  | (Ok b, s') => peer s' = peer s /\ received s' = received s /\ (exists k, sent s' = sent s ++ k /\ k `prefix_of` data) /\
      (b = true -> sent s' = sent s ++ data) /\ (working (io_calls s) -> b = true /\ working (io_calls s'))
  | _ => False end.
Proof.
  intros ->. unfold SendAll. rewrite ztake_all. pose proof (send_loop_spec (io_calls s) data (sent s)) as H. destruct (send_loop _ _ _) as [[b out] calls]. by destruct H as (? & ? & ?).
Qed.
Definition stream_of (s : socket) : bytes := zdrop (received s) (peer s (sent s)).
Lemma RecvAll_spec len s : 0 <= len -> 0 <= received s -> match RecvAll len s with
  | (Ok r, s') => peer s' = peer s /\ sent s' = sent s /\
      (forall data, r = Some data -> len <= zlen (stream_of s) /\ data = ztake len (stream_of s) /\ 0 <= received s' /\ stream_of s' = zdrop len (stream_of s)) /\
      (working (io_calls s) -> len <= zlen (stream_of s) -> is_Some r /\ working (io_calls s'))
  | _ => False end.
Proof.
  intros Hl Hr. unfold RecvAll. fold (stream_of s). pose proof (recv_loop_spec (io_calls s) len (stream_of s) [] Hl) as H.
  destruct (recv_loop _ _ _ _) as [[b data] calls]. destruct H as [H1 H2]. split; [done|]. split; [done|]. split.
  - intros data' E. destruct b; [|done]. injection E as <-. destruct (H1 eq_refl) as [H3 ->]. cbn [app]. split_and!; [done|done| |].
    + cbn. pose proof (zlen_nonneg (ztake len (stream_of s))). lia.
    + unfold stream_of at 1. cbn [received peer sent]. rewrite zlen_ztake by lia. unfold stream_of. by rewrite zdrop_zdrop by lia.
  - intros Hc Hs. destruct (H2 Hc Hs) as [-> ?]. split; [by eexists|done].
Qed.
Lemma prefix_full {A} (k l : list A) : k `prefix_of` l -> zlen l <= zlen k -> k = l.
Proof. intros Hp Hl. apply prefix_length_eq; [done|]. unfold zlen in Hl. lia. Qed.

(** A message whose size fits an [int]. *)
Definition fits (data : bytes) : Prop := zlen data < 2 ^ 31.
Lemma fits_len data : fits data -> u32 (zlen data) = zlen data /\ i32 (zlen data) = zlen data /\ le_val (le_bytes 4 (zlen data)) = zlen data.
Proof.
  unfold fits. pose proof (zlen_nonneg data). intros. split_and!; [apply u32_id; unfold in_u32; lia|apply i32_id; lia|].
  rewrite le_val_bytes. apply Z.mod_small. change (256 ^ Z.of_nat 4) with (2 ^ 32). lia.
Qed.
Lemma buffer_of_full data : buffer_of (zlen data) data = string_of_bytes data.
Proof. unfold buffer_of, zreplicate. by rewrite Z.sub_diag, app_nil_r. Qed.
(** Receiving what may have been cut off a message. *)
Lemma recv_frame data s : fits data -> 0 <= received s -> stream_of s `prefix_of` frame data -> match RecvAll 4 s with
  | (Ok (Some raw), s1) => le_val raw = zlen data /\ match RecvAll (i32 (le_val raw)) s1 with
      | (Ok (Some got), s2) => got = data /\ stream_of s = frame data /\ peer s2 = peer s /\ sent s2 = sent s /\ (working (io_calls s) -> working (io_calls s2))
      | (Ok None, s2) => peer s2 = peer s /\ sent s2 = sent s /\ ~ (working (io_calls s) /\ stream_of s = frame data)
      | _ => False end
  | (Ok None, s1) => peer s1 = peer s /\ sent s1 = sent s /\ ~ (working (io_calls s) /\ stream_of s = frame data)
  | _ => False end.
Proof.
  intros Hf Hr [rest Hp]. destruct (fits_len data Hf) as (Eu & Ei & El). unfold frame in *. rewrite Eu in *. pose proof (zlen_le_bytes 4 (zlen data)) as E4.
  pose proof (zlen_nonneg data) as Hn. pose proof (RecvAll_spec 4 s ltac:(lia) Hr) as H. destruct (RecvAll 4 s) as [[[raw|]|] s1]; [|destruct H as (-> & -> & _ & H); split_and!; try done..|done].
  2:{ intros [Hw Hs]. destruct H as [[? ?] _]; [done| |done]. rewrite Hs, zlen_app. lia. }
  destruct H as (Hp1 & Hs1 & H1 & H2). destruct (H1 raw eq_refl) as (Hlen & -> & Hr1 & Hst). clear H1.
  assert (ztake 4 (stream_of s) = le_bytes 4 (zlen data)) as Eraw.
  { transitivity (ztake 4 (le_bytes 4 (zlen data) ++ data)); [|by apply ztake_app_eq]. rewrite Hp. unfold ztake. rewrite take_app_le; [done|]. unfold zlen in Hlen. lia. }
  rewrite Eraw, El. split; [done|]. rewrite Ei. pose proof (RecvAll_spec (zlen data) s1 ltac:(lia) Hr1) as H. rewrite Hst, zlen_zdrop in H by lia.
  destruct (RecvAll (zlen data) s1) as [[[got|]|] s3]; [| |done]; destruct H as (-> & -> & H3 & H4).
  - destruct (H3 got eq_refl) as (Hl & -> & _ & _). assert (stream_of s = le_bytes 4 (zlen data) ++ data) as Es.
    { apply prefix_full; [by exists rest|]. rewrite zlen_app, E4. lia. }
    rewrite Es, zdrop_app_eq, ztake_all by done. split_and!; try done. intros Hw. apply H4; [|lia]. apply H2; [done|lia].
  - split_and!; try done. intros [Hw Hs]. rewrite Hs, zlen_app, E4 in H4. destruct H4 as [[? ?] _]; [|lia|done]. apply H2; [done|]. rewrite Hs, zlen_app. lia.
Qed.
(** Sending a message, or the beginning of it. *)
Lemma send_frame data s : fits data -> match SendAll (le_bytes 4 (u32 (zlen data))) 4 s with
  | (Ok true, s1) => match SendAll data (i32 (zlen data)) s1 with
      | (Ok b, s2) => peer s2 = peer s /\ received s2 = received s /\ (exists k, sent s2 = sent s ++ k /\ k `prefix_of` frame data) /\
          (b = true -> sent s2 = sent s ++ frame data) /\ (working (io_calls s) -> b = true /\ working (io_calls s2))
      | _ => False end
  | (Ok false, s1) => (exists k, sent s1 = sent s ++ k /\ k `prefix_of` frame data) /\ ~ working (io_calls s)
  | _ => False end.
Proof.
  intros Hf. destruct (fits_len data Hf) as (Eu & Ei & _). pose proof (SendAll_spec (le_bytes 4 (u32 (zlen data))) 4 s) as H. rewrite zlen_le_bytes in H.
  specialize (H eq_refl). destruct (SendAll _ 4 s) as [[[|]|] s1]; [| |done].
  - destruct H as (Hp & Hr & _ & H1 & H2). pose proof (SendAll_spec data (i32 (zlen data)) s1 Ei) as H. destruct (SendAll data _ s1) as [[b|] s2]; [|done].
    rewrite (H1 eq_refl) in H. destruct H as (-> & -> & (k & Ek & Hk) & H3 & H4). split_and!; try done.
    + exists (le_bytes 4 (u32 (zlen data)) ++ k). split; [by rewrite Ek, app_assoc|]. by apply prefix_app.
    + intros Hb. rewrite (H3 Hb). unfold frame. by rewrite app_assoc.
    + intros Hw. apply H4. by apply H2.
  - destruct H as (_ & _ & (k & Ek & Hk) & _ & H2). split; [exists k; split; [done|]; by apply prefix_app_r|]. intros [? _]%H2. done.
Qed.

Section connection.
Context {S : Type} (handler : Session -> Request -> S -> Response * S) (remote : string) (st : S) (server_calls : list Z).

(** What the server writes on a connection on which it reads [inbox]. *)
Definition answer (inbox : bytes) : bytes := sent (serve handler remote st (mkSocket (fun _ => inbox) [] 0 server_calls)).2.
Definition response_to (req : Request) : Response * S := handler (mkSession (request_id req) remote) req st.
Abbreviation request_data req := (bytes_of_string (SerializeRequest req)).
Abbreviation response_data req := (bytes_of_string (SerializeResponse (response_to req).1)).

Lemma serve_request req : request_ok req -> fits (request_data req) -> fits (response_data req) ->
  answer (frame (request_data req)) `prefix_of` frame (response_data req) /\
  (working server_calls -> answer (frame (request_data req)) = frame (response_data req) /\
    (serve handler remote st (mkSocket (fun _ => frame (request_data req)) [] 0 server_calls)).1 = (response_to req).2).
Proof.
  intros Hok Hf Hf'. unfold answer, serve. set (s := mkSocket (fun _ => frame (request_data req)) [] 0 server_calls).
  assert (stream_of s = frame (request_data req)) as Es by apply zdrop_0.
  pose proof (recv_frame (request_data req) s Hf ltac:(done) ltac:(by rewrite Es)) as H.
  destruct (RecvAll 4 s) as [[[raw|]|] s1]; [|cbn [fst snd]; destruct H as (_ & -> & H); split; [apply prefix_nil|]; intros Hw; by destruct H|done].
  destruct H as [El H]. destruct (RecvAll (i32 (le_val raw)) s1) as [[[got|]|] s2]; [|cbn [fst snd]; destruct H as (_ & -> & H); split; [apply prefix_nil|]; intros Hw; by destruct H|done].
  destruct H as (-> & _ & _ & Hs & Hw). rewrite El, buffer_of_full, String.string_of_list_byte_of_string, DeserializeRequest_Serialize by done.
  fold (response_to req). destruct (response_to req) as [resp st'] eqn:Er. cbn [fst snd] in *.
  pose proof (send_frame _ s2 Hf') as H. destruct (SendAll _ 4 s2) as [[[|]|] s3]; [| |done].
  - cbn [fst snd]. destruct (SendAll _ _ s3) as [[b|] s4]; [|done]. cbn [fst snd]. destruct H as (_ & _ & (k & Ek & Hk) & H1 & H2). rewrite Hs in *. cbn in Ek, H1. split; [by rewrite Ek|].
    intros Hc. destruct (H2 (Hw Hc)) as [Hb _]. split; [by apply H1|done].
  - cbn [fst snd]. destruct H as [(k & Ek & Hk) Hn]. rewrite Hs in Ek. cbn in Ek. split; [by rewrite Ek|]. intros Hc. by destruct Hn; apply Hw.
Qed.
Definition reachable (env : host_env) (host : string) (port : Z) : Prop := socket_created env = true /\ address_valid env host = true /\ connected env host port = true.
Lemma Send_cases env host port req client_calls : request_ok req -> fits (request_data req) -> fits (response_data req) -> response_ok (response_to req).1 ->
  match Send env host port req (mkSocket answer [] 0 client_calls) with
  | (Ok resp, _) => resp = (response_to req).1
  | (Err code _, _) => code = kNetworkError /\ ~ (reachable env host port /\ working client_calls /\ working server_calls)
  end.
Proof.
  intros Hok Hf Hf' Hresp. destruct (serve_request req Hok Hf Hf') as [Hpre Hall]. unfold Send, reachable.
  do 3 (rewrite M_bind_eq; unfold reject_if at 1; match goal with |- context [negb ?b] => destruct b end; cbn [negb]; [cbv [mret M_ret]|split; [done|]; intros ((? & ? & ?) & _); done]).
  cbv zeta. rewrite M_bind_eq. set (s := mkSocket answer [] 0 client_calls). pose proof (send_frame (request_data req) s Hf) as H.
  destruct (SendAll _ 4 s) as [[[|]|] s1]; [| |done].
  2:{ rewrite M_bind_eq. split; [done|]. intros (_ & Hw & _). by apply H. }
  rewrite M_bind_eq. unfold reject_if at 1. cbn [negb]. cbv [mret M_ret]. rewrite M_bind_eq.
  destruct (SendAll _ _ s1) as [[b|] s2]; [|done]. destruct H as (Hp & Hr & _ & H1 & H2). rewrite M_bind_eq. unfold reject_if at 1. destruct b; cbn [negb].
  2:{ split; [done|]. intros (_ & Hw & _). by destruct (H2 Hw). }
  cbv [mret M_ret]. rewrite M_bind_eq. assert (stream_of s2 = answer (frame (request_data req))) as Es2.
  { unfold stream_of. rewrite Hp, Hr, (H1 eq_refl). apply zdrop_0. }
  pose proof (recv_frame (response_data req) s2 Hf' ltac:(by rewrite Hr) ltac:(by rewrite Es2)) as H. rewrite Es2 in H.
  assert (working client_calls -> working (io_calls s2)) as Hcalls by (intros Hw; by apply H2).
  destruct (RecvAll 4 s2) as [[[raw|]|] s3]; [| |done].
  2:{ split; [done|]. intros (_ & Hc & Hs). apply H. split; [by apply Hcalls|by apply Hall]. }
  destruct H as [El H]. rewrite M_bind_eq. destruct (RecvAll (i32 (le_val raw)) s3) as [[[got|]|] s4]; [| |done].
  2:{ split; [done|]. intros (_ & Hc & Hs). apply H. split; [by apply Hcalls|by apply Hall]. }
  destruct H as (-> & _). by rewrite El, buffer_of_full, String.string_of_list_byte_of_string, DeserializeResponse_Serialize.
Qed.
End connection.

(** C10. A request over a connection: whatever number of bytes the calls of the
    client and of the server move, and wherever one of them fails, the client
    gets exactly the response of the server's handler to its request or an error
    with code kNetworkError, never a message that was cut short or mixed up; and
    when no call fails it gets the response, and the handler's effect on the
    server is as if it had been called directly. *)
Theorem connection_delivers {S} (handler : Session -> Request -> S -> Response * S) remote st env host port req client_calls server_calls :
  let resp := handler (mkSession (request_id req) remote) req st in
  request_ok req -> response_ok resp.1 -> fits (bytes_of_string (SerializeRequest req)) -> fits (bytes_of_string (SerializeResponse resp.1)) ->
  (match Send env host port req (mkSocket (answer handler remote st server_calls) [] 0 client_calls) with
   | (Ok r, _) => r = resp.1 | (Err code _, _) => code = kNetworkError end) /\
  (reachable env host port -> working client_calls -> working server_calls ->
    (Send env host port req (mkSocket (answer handler remote st server_calls) [] 0 client_calls)).1 = Ok resp.1 /\
    (serve handler remote st (mkSocket (fun _ => frame (bytes_of_string (SerializeRequest req))) [] 0 server_calls)).1 = resp.2).
Proof.
  intros resp Hreq Hresp Hf Hf'. pose proof (Send_cases handler remote st server_calls env host port req client_calls Hreq Hf Hf' Hresp) as H.
  destruct (Send _ _ _ _ _) as [[r|c m] s']; cbn [fst].
  - split; [done|]. intros _ _ Hs. split; [by rewrite H|]. by apply (serve_request handler remote st server_calls req Hreq Hf Hf').
  - destruct H as [-> Hn]. split; [done|]. intros. by destruct Hn.
Qed.

(** An example: the handler counts the requests and echoes the statement. *)
Definition sample_handler (sess : Session) (req : Request) (n : Z) : Response * Z :=
  (mkResponse true "" (mkQueryResult true "" ["sql"] [[VString (sql req)]] 0), n + 1).
Definition sample_request : Request := mkRequest "cli" "db" "SELECT" "".
Definition sample_env : host_env := mkHostEnv true (fun h => bool_decide (h = "127.0.0.1")) (fun _ p => p =? 7000).
Lemma connection_delivers_witness :
  (Send sample_env "127.0.0.1" 7000 sample_request (mkSocket (answer sample_handler "10.0.0.1" 4 [3; 2; 100; 1]) [] 0 [1; 2; 9; 9; 9; 1; 5])).1 =
    Ok (mkResponse true "" (mkQueryResult true "" ["sql"] [[VString "SELECT"]] 0)) /\
  (serve sample_handler "10.0.0.1" 4 (mkSocket (fun _ => frame (bytes_of_string (SerializeRequest sample_request))) [] 0 [3; 2; 100; 1])).1 = 5.
Proof.
  apply (connection_delivers sample_handler "10.0.0.1" 4 sample_env "127.0.0.1" 7000 sample_request [1; 2; 9; 9; 9; 1; 5] [3; 2; 100; 1]).
  - split_and!; unfold string_fits; vm_compute; reflexivity.
  - split_and!; by_computation.
  - vm_compute. reflexivity.
  - vm_compute. reflexivity.
  - by repeat split.
  - repeat constructor.
  - repeat constructor.
Defined.

(** The size of a message is cast to [int]: one of 2 GiB or more is reported as sent although no byte of it is. *)
Lemma oversized_message_not_sent data s : 2 ^ 31 <= zlen data < 2 ^ 32 -> SendAll data (i32 (zlen data)) s = (Ok true, s).
Proof.
  intros H. unfold SendAll. replace (ztake (i32 (zlen data)) data) with (@nil Byte.byte).
  - destruct s as [p o r calls]. by destruct calls.
  - unfold ztake. replace (Z.to_nat (i32 (zlen data))) with 0%nat; [done|]. unfold i32.
    replace (zlen data + 2 ^ 31) with (zlen data - 2 ^ 31 + 1 * 2 ^ 32) by lia. rewrite Z.mod_add, Z.mod_small by lia. lia.
Qed.
