(* ===== verification/ConsistentHash.v ===== *)
(** * The consistent hash ring

    [src/cluster/consistent_hash.cpp]: MurmurHash3 of the virtual nodes of every
    node on a ring of 32-bit positions; a key belongs to the node at the first
    position at or behind its hash.  Blocks of four bytes are read in little
    endian order, as on the machines the program runs on. *)
From S2P Require Import Prelude Values.

(** ** The hash *)

Definition rotl32 (x r : Z) : Z := Z.lor (u32 (Z.shiftl x r)) (Z.shiftr x (32 - r)).

Definition murmur_c1 : Z := 0xcc9e2d51.
Definition murmur_c2 : Z := 0x1b873593.
Definition scramble (k1 : Z) : Z := u32 (rotl32 (u32 (k1 * murmur_c1)) 15 * murmur_c2).
(** The loop over the blocks: the hash so far and the bytes behind the last block. *)
Fixpoint murmur_blocks (h1 : Z) (data : bytes) : Z * bytes :=
  match data with
  | b0 :: b1 :: b2 :: b3 :: rest =>
      murmur_blocks (u32 (rotl32 (Z.lxor h1 (scramble (le_val [b0; b1; b2; b3]))) 13 * 5 + 0xe6546b64)) rest
  | _ => (h1, data)
  end.
Definition murmur_tail (h1 : Z) (tail : bytes) : Z :=
  match tail with
  | [t0; t1; t2] =>
      Z.lxor h1 (scramble (Z.lxor (Z.lxor (Z.shiftl (Z_of_byte t2) 16) (Z.shiftl (Z_of_byte t1) 8)) (Z_of_byte t0)))
  | [t0; t1] => Z.lxor h1 (scramble (Z.lxor (Z.shiftl (Z_of_byte t1) 8) (Z_of_byte t0)))
  | [t0] => Z.lxor h1 (scramble (Z_of_byte t0))
  | _ => h1
  end.
Definition murmur_final (h1 : Z) : Z :=
  let h1 := Z.lxor h1 (Z.shiftr h1 16) in
  let h1 := u32 (h1 * 0x85ebca6b) in
  let h1 := Z.lxor h1 (Z.shiftr h1 13) in
  let h1 := u32 (h1 * 0xc2b2ae35) in
  Z.lxor h1 (Z.shiftr h1 16).
Definition MurmurHash3_x86_32 (key : bytes) (seed : Z) : Z :=
  let '(h1, tail) := murmur_blocks seed key in
  murmur_final (Z.lxor (murmur_tail h1 tail) (u32 (zlen key))).
Definition Hash (key : string) : Z := MurmurHash3_x86_32 (bytes_of_string key) 0x9747b28c.

(** ** The ring *)

Record ConsistentHashRing := mkConsistentHashRing { virtual_nodes_ : nat; ring_ : gmap Z string }.
Definition new_ConsistentHashRing (virtual_nodes : nat) : ConsistentHashRing := mkConsistentHashRing virtual_nodes ∅.
Definition vnode_key (node_id : string) (i : nat) : string := node_id +:+ "#" +:+ pretty i.
Definition set_ring (r : ConsistentHashRing) (m : gmap Z string) : ConsistentHashRing := mkConsistentHashRing (virtual_nodes_ r) m.

Definition AddNode (node_id : string) (r : ConsistentHashRing) : ConsistentHashRing :=
  set_ring r (foldl (fun m i => <[Hash (vnode_key node_id i) := node_id]> m) (ring_ r) (seq 0 (virtual_nodes_ r))).
Definition RemoveNode (node_id : string) (r : ConsistentHashRing) : ConsistentHashRing :=
  set_ring r (foldl (fun m i => delete (Hash (vnode_key node_id i)) m) (ring_ r) (seq 0 (virtual_nodes_ r))).

(** The entry with the least position. *)
Fixpoint least (entries : list (Z * string)) : option (Z * string) :=
  match entries with
  | [] => None
  | e :: entries =>
      match least entries with
      | Some e' => Some (if e'.1 <? e.1 then e' else e)
      | None => Some e
      end
  end.
(** [ring_.lower_bound(h)] and [ring_.begin()] *)
Definition lower_bound (h : Z) (m : gmap Z string) : option (Z * string) := least (filter (fun e => h <= e.1) (map_to_list m)).
Definition begin (m : gmap Z string) : option (Z * string) := least (map_to_list m).
Definition GetNode (key : string) (r : ConsistentHashRing) : string :=
  match lower_bound (Hash key) (ring_ r) with
  | Some e => e.2
  | None => match begin (ring_ r) with Some e => e.2 | None => "" end
  end.
(** [std::set<std::string>::insert] *)
Fixpoint set_insert (x : string) (l : list string) : list string :=
  match l with
  | [] => [x]
  | y :: rest => if string_ltb x y then x :: l else if string_ltb y x then y :: set_insert x rest else l
  end.
Definition AllNodes (r : ConsistentHashRing) : list string := foldl (fun l e => set_insert e.2 l) [] (map_to_list (ring_ r)).
Definition ring_size (r : ConsistentHashRing) : Z := Z.of_nat (base.size (ring_ r)).
Definition ring_empty (r : ConsistentHashRing) : bool := bool_decide (ring_ r = ∅).

(** ** Positions *)

Lemma least_Some entries e : least entries = Some e -> e ∈ entries /\ forall e', e' ∈ entries -> e.1 <= e'.1.
Proof.
  revert e. induction entries as [|x entries IH]; intros e; cbn [least]; [done|]. destruct (least entries) as [y|] eqn:Ey.
  - destruct (IH y eq_refl) as [Hy Hmin]. intros [= <-]. destruct (y.1 <? x.1) eqn:E; zbool; (split; [set_solver|]);
      intros e' [->|He']%elem_of_cons; try lia; specialize (Hmin e' He'); lia.
  - intros [= ->]. destruct entries as [|z entries]; [|cbn in Ey; by destruct (least entries)]. split; [set_solver|].
    intros e' ->%list_elem_of_singleton. lia.
Qed.
Lemma least_None entries : least entries = None -> entries = [].
Proof. destruct entries as [|x entries]; [done|]. cbn. by destruct (least entries). Qed.

(** Clockwise from [h], the position [k] comes no later than [k']. *)
Definition no_later (h k k' : Z) : Prop := (h <= k /\ (k' < h \/ k <= k')) \/ (k < h /\ k' < h /\ k <= k').
Lemma no_later_antisym h k k' : no_later h k k' -> no_later h k' k -> k = k'.
Proof. unfold no_later. lia. Qed.

(** The owner of a key is at the first position clockwise from its hash. *)
Definition owns (h : Z) (m : gmap Z string) (k : Z) (v : string) : Prop :=
  m !! k = Some v /\ forall k' v', m !! k' = Some v' -> no_later h k k'.
Lemma GetNode_owner key r : ring_ r <> ∅ -> exists k, owns (Hash key) (ring_ r) k (GetNode key r).
Proof.
  intros Hne. unfold GetNode. destruct (lower_bound (Hash key) (ring_ r)) as [[k v]|] eqn:E.
  - apply least_Some in E as [[Hk Hin]%list_elem_of_filter Hmin]. apply elem_of_map_to_list in Hin. cbn in *. exists k. split; [done|].
    intros k' v' Hl. unfold no_later. destruct (decide (Hash key <= k')); [|lia]. left. split; [done|]. right.
    apply (Hmin (k', v')). apply list_elem_of_filter. split; [done|by apply elem_of_map_to_list].
  - apply least_None in E. unfold begin. destruct (least (map_to_list (ring_ r))) as [[k v]|] eqn:Eb.
    + apply least_Some in Eb as [Hin%elem_of_map_to_list Hmin]. exists k. split; [done|]. intros k' v' Hl.
      assert (forall x y, ring_ r !! x = Some y -> x < Hash key) as Hlow.
      { intros x y Hx. destruct (decide (Hash key <= x)) as [Hle|]; [|lia]. exfalso. apply (not_elem_of_nil (x, y)). rewrite <- E.
        apply list_elem_of_filter. split; [done|by apply elem_of_map_to_list]. }
      right. split_and!; [by eapply Hlow|by eapply Hlow|]. apply (Hmin (k', v')). by apply elem_of_map_to_list.
    + apply least_None in Eb. by apply map_to_list_empty_iff in Eb.
Qed.
Lemma owns_unique h m k k' v v' : owns h m k v -> owns h m k' v' -> k = k' /\ v = v'.
Proof.
  intros [H1 H2] [H1' H2']. assert (k = k') as ->; [|split; [done|congruence]].
  eapply no_later_antisym; [by eapply H2|by eapply H2'].
Qed.

(** ** Adding and removing a node *)

Definition slots (node_id : string) (r : ConsistentHashRing) : list Z := (fun i => Hash (vnode_key node_id i)) <$> seq 0 (virtual_nodes_ r).
Lemma foldl_add (node_id : string) (f : nat -> Z) l : forall (m : gmap Z string) k,
  foldl (fun m i => <[f i := node_id]> m) m l !! k = if decide (k ∈ f <$> l) then Some node_id else m !! k.
Proof.
  induction l as [|i l IH]; intros m k; cbn [foldl]; [by rewrite decide_False by apply not_elem_of_nil|]. rewrite IH, fmap_cons.
  destruct (decide (k ∈ f <$> l)) as [Hin|Hin]; [by rewrite decide_True by (by right)|].
  destruct (decide (k = f i)) as [->|Hne]; [rewrite lookup_insert_eq, decide_True by left; done|].
  rewrite lookup_insert_ne by done. rewrite decide_False; [done|]. by intros [?|?]%elem_of_cons.
Qed.
Lemma foldl_remove (f : nat -> Z) l : forall (m : gmap Z string) k,
  foldl (fun m i => delete (f i) m) m l !! k = if decide (k ∈ f <$> l) then None else m !! k.
Proof.
  induction l as [|i l IH]; intros m k; cbn [foldl]; [by rewrite decide_False by apply not_elem_of_nil|]. rewrite IH, fmap_cons.
  destruct (decide (k ∈ f <$> l)) as [Hin|Hin]; [by rewrite decide_True by (by right)|].
  destruct (decide (k = f i)) as [->|Hne]; [rewrite lookup_delete_eq, decide_True by left; done|].
  rewrite lookup_delete_ne by done. rewrite decide_False; [done|]. by intros [?|?]%elem_of_cons.
Qed.
Lemma AddNode_lookup n r k : ring_ (AddNode n r) !! k = if decide (k ∈ slots n r) then Some n else ring_ r !! k.
Proof. apply (foldl_add n (fun i => Hash (vnode_key n i))). Qed.
Lemma RemoveNode_lookup n r k : ring_ (RemoveNode n r) !! k = if decide (k ∈ slots n r) then None else ring_ r !! k.
Proof. apply (foldl_remove (fun i => Hash (vnode_key n i))). Qed.

Lemma AddNode_GetNode n r key : GetNode key (AddNode n r) = n \/ GetNode key (AddNode n r) = GetNode key r.
Proof.
  destruct (decide (ring_ (AddNode n r) = ∅)) as [E|Hne].
  { right. assert (ring_ r = ∅) as Er; [|unfold GetNode; by rewrite E, Er]. apply map_eq. intros k. rewrite lookup_empty.
    pose proof (AddNode_lookup n r k) as H. rewrite E, lookup_empty in H. by destruct (decide _). }
  destruct (GetNode_owner key _ Hne) as [k [Hk Hmin]]. rewrite AddNode_lookup in Hk. destruct (decide (k ∈ slots n r)) as [Hin|Hin]; [left; by injection Hk|].
  right. assert (ring_ r <> ∅) as Hne' by (intros E; by rewrite E, lookup_empty in Hk). destruct (GetNode_owner key _ Hne') as [k' Ho'].
  assert (owns (Hash key) (ring_ r) k (GetNode key (AddNode n r))) as Ho.
  { split; [done|]. intros x v Hx. destruct (decide (x ∈ slots n r)) as [Hs|Hs].
    - apply (Hmin x n). by rewrite AddNode_lookup, decide_True.
    - apply (Hmin x v). by rewrite AddNode_lookup, decide_False. }
  by apply (owns_unique _ _ _ _ _ _ Ho Ho').
Qed.
Lemma RemoveNode_AddNode n r : (forall k, k ∈ slots n r -> ring_ r !! k = None) -> RemoveNode n (AddNode n r) = r.
Proof.
  intros Hfree. destruct r as [vn m]. unfold RemoveNode at 1, set_ring. cbn [virtual_nodes_ AddNode set_ring]. f_equal. apply map_eq. intros k.
  pose proof (RemoveNode_lookup n (AddNode n (mkConsistentHashRing vn m)) k) as H. cbn [RemoveNode set_ring ring_] in H.
  etrans; [exact H|]. rewrite AddNode_lookup. change (slots n (AddNode n (mkConsistentHashRing vn m))) with (slots n (mkConsistentHashRing vn m)).
  destruct (decide _) as [Hin|]; [symmetry; by apply Hfree|done].
Qed.

(** ** The hash is a position of the ring *)

Lemma log2_u32 a : in_u32 a -> Z.log2 a < 32.
Proof. intros [H1 H2]. destruct (decide (a = 0)) as [->|]; [done|]. apply Z.log2_lt_pow2; lia. Qed.
Lemma lxor_u32 a b : in_u32 a -> in_u32 b -> in_u32 (Z.lxor a b).
Proof.
  intros Ha Hb. pose proof (log2_u32 a Ha). pose proof (log2_u32 b Hb). destruct Ha as [Ha _], Hb as [Hb _].
  assert (0 <= Z.lxor a b) by (apply Z.lxor_nonneg; lia). split; [done|]. destruct (decide (Z.lxor a b = 0)) as [->|]; [done|].
  apply Z.log2_lt_pow2; [lia|]. eapply Z.le_lt_trans; [by apply Z.log2_lxor|]. lia.
Qed.
Lemma shiftr_u32 a n : in_u32 a -> 0 <= n -> in_u32 (Z.shiftr a n).
Proof.
  intros [H1 H2] Hn. rewrite Z.shiftr_div_pow2 by done. assert (0 < 2 ^ n) by (apply Z.pow_pos_nonneg; lia). split; [by apply Z.div_pos|].
  eapply Z.le_lt_trans; [|exact H2]. by apply Z.div_le_upper_bound; nia.
Qed.
Lemma Hash_in_u32 key : in_u32 (Hash key).
Proof.
  unfold Hash, MurmurHash3_x86_32. destruct (murmur_blocks _ _) as [h tail]. unfold murmur_final. cbv zeta.
  apply lxor_u32; [|apply shiftr_u32; [|done]]; by apply Z.mod_pos_bound.
Qed.

(** C21. Consistency of the hashing.  The owner of a key is at the first position
    clockwise from its hash.  Adding a node moves keys to this node only:
    every key either belongs to the new node or stays where it was, whatever
    positions collide.  Removing the node again restores the ring, so that
    exactly those keys return, when no position of the node was taken before. *)
Theorem ring_minimal_disruption n r :
  (ring_ r <> ∅ -> forall key, exists k, owns (Hash key) (ring_ r) k (GetNode key r)) /\
  (forall key, GetNode key (AddNode n r) = n \/ GetNode key (AddNode n r) = GetNode key r) /\
  ((forall k, k ∈ slots n r -> ring_ r !! k = None) -> RemoveNode n (AddNode n r) = r).
Proof.
  split_and!; [intros Hne key; by apply GetNode_owner|intros key; apply AddNode_GetNode|apply RemoveNode_AddNode].
Qed.

Definition sample_ring : ConsistentHashRing := AddNode "node-b" (AddNode "node-a" (new_ConsistentHashRing 4)).
Lemma ring_minimal_disruption_witness :
  GetNode "users" (AddNode "node-c" sample_ring) = GetNode "users" sample_ring /\
  GetNode "d" sample_ring = "node-a" /\ GetNode "d" (AddNode "node-c" sample_ring) = "node-c" /\
  RemoveNode "node-c" (AddNode "node-c" sample_ring) = sample_ring.
Proof.
  split_and!; [vm_compute; reflexivity..|]. apply (ring_minimal_disruption "node-c" sample_ring).
  apply Forall_forall. by_computation.
Defined.

(** Without this condition a removal takes positions of other nodes with it. *)
Lemma RemoveNode_erases n r k : k ∈ slots n r -> ring_ (RemoveNode n r) !! k = None.
Proof. intros Hk. by rewrite RemoveNode_lookup, decide_True. Qed.
