(* ===== verification/Json.v ===== *)
(** * JSON documents

    What the program uses of nlohmann::json and of the unordered containers: the
    documents, the library's text format as an interface with its law, and the
    order in which the entries of an unordered container are visited. *)
From Stdlib Require Import SpecFloat.
From S2P Require Import Prelude Values Doubles.

(** ** Documents

    Objects are [std::map]s: their fields are sorted by name. *)
#[warnings="-register-all"] Inductive json :=
  | JNull
  | JBool (b : bool)
  | JInt (z : Z)
  | JDouble (d : double)
  | JString (s : string)
  | JArray (items : list json)
  | JObject (fields : list (string * json)).

(** [j[name] = value] on the fields of an object. *)
Fixpoint set_field (name : string) (value : json) (fields : list (string * json)) : list (string * json) :=
  match fields with
  | [] => [(name, value)]
  | (n, v) :: rest =>
      if bool_decide (n = name) then (name, value) :: rest
      else if string_ltb name n then (name, value) :: fields
      else (n, v) :: set_field name value rest
  end.
Definition object (fields : list (string * json)) : json :=
  JObject (foldl (fun acc f => set_field f.1 f.2 acc) [] fields).

(** [j.at(name)]; [None] when it throws. *)
Fixpoint field (name : string) (fields : list (string * json)) : option json :=
  match fields with
  | [] => None
  | (n, v) :: rest => if bool_decide (n = name) then Some v else field name rest
  end.
Definition at_ (j : json) (name : string) : option json :=
  match j with JObject fields => field name fields | _ => None end.
(** [j.get<T>()]; [None] when it throws. *)
Definition get_string (j : json) : option string := match j with JString s => Some s | _ => None end.
Definition get_number (j : json) : option Z :=
  match j with JInt z => Some z | JDouble d => Some (d_trunc d) | JBool b => Some (if b then 1 else 0) | _ => None end.
Definition get_u32 (j : json) : option Z := u32 <$> get_number j.
Definition get_i64 (j : json) : option Z := i64 <$> get_number j.
Definition get_i32 (j : json) : option Z := i32 <$> get_number j.
(** [for (const auto& x : j)] *)
Definition items_of (j : json) : list json :=
  match j with
  | JNull => []
  | JArray items => items
  | JObject fields => map snd fields
  | _ => [j]
  end.

(** ** The library *)

Class JsonLibrary := {
  json_dump : json -> string;
  json_dump_indented : json -> string;
  json_parse : string -> option json;
  json_what : string;
  json_text : string -> Prop
}.

Fixpoint sorted_names (names : list string) : bool :=
  match names with
  | a :: (b :: _) as rest => string_ltb a b && sorted_names rest
  | _ => true
  end.
(** The documents that read back: sorted objects, integers of 64 bits, and
    strings the library can print.  No document with a double is read back. *)
Fixpoint well_formed `{JsonLibrary} (j : json) : Prop :=
  match j with
  | JNull | JBool _ => True
  | JInt z => - 2 ^ 63 <= z < 2 ^ 64
  | JDouble _ => False
  | JString s => json_text s
  | JArray items => (fix all l := match l with [] => True | x :: l => well_formed x /\ all l end) items
  | JObject fields =>
      sorted_names (map fst fields) = true /\
      (fix all l := match l with [] => True | (n, x) :: l => json_text n /\ well_formed x /\ all l end) fields
  end.
Definition is_ascii (s : string) : bool := forallb (fun c => N.ltb (N_of_ascii c) 128) (String.list_ascii_of_string s).
(** Printing and parsing gives the document back, ASCII text can be printed, and a document printed without
    indentation takes one line. *)
Class JsonLaws (L : JsonLibrary) := {
  parse_dump : forall j, well_formed j -> json_parse (json_dump j) = Some j;
  parse_dump_indented : forall j, well_formed j -> json_parse (json_dump_indented j) = Some j;
  text_ascii : forall s, is_ascii s = true -> json_text s;
  dump_one_line : forall j, "010"%char ∉ String.list_ascii_of_string (json_dump j);
  dump_not_empty : forall j, json_dump j <> ""
}.

Lemma well_formed_array `{JsonLibrary} items : Forall well_formed items -> well_formed (JArray items).
Proof. cbn [well_formed]. induction 1; [done|]. by split. Qed.

Lemma well_formed_object `{JsonLibrary} fields :
  sorted_names (map fst fields) = true -> Forall (fun f => json_text f.1 /\ well_formed f.2) fields -> well_formed (JObject fields).
Proof. cbn [well_formed]. intros Hs Hf. split; [done|]. clear Hs. induction Hf as [|[n x] fields [Hn Hx] _ IH]; [done|]. by split_and!. Qed.
Lemma is_ascii_app s t : is_ascii (s +:+ t) = is_ascii s && is_ascii t.
Proof.
  unfold is_ascii. induction s as [|c s IH]; [done|]. change (String c s +:+ t) with (String c (s +:+ t)).
  cbn [String.list_ascii_of_string forallb]. by rewrite IH, andb_assoc.
Qed.
Lemma get_strings names : mapM get_string (JString <$> names) = Some names.
Proof. induction names as [|n names IH]; [done|]. cbn. change (mapM get_string (JString <$> names) = Some names) in IH. by rewrite IH. Qed.

(** ** Unordered containers

    The order of iteration is unspecified. *)
Class HashOrder := {
  visit {A} : gmap string A -> list (string * A);
  visit_set : gset string -> list string
}.
Class HashOrderLaws (O : HashOrder) := {
  visit_all : forall A (m : gmap string A), visit m ≡ₚ map_to_list m;
  visit_set_all : forall X, visit_set X ≡ₚ elements X
}.

(** Inserting the visited entries builds the container again. *)
Lemma foldl_insert_lookup {A} (l : list (string * A)) : NoDup l.*1 -> forall (m : gmap string A) k,
  foldl (fun m x => <[x.1 := x.2]> m) m l !! k = match (list_to_map l : gmap string A) !! k with Some v => Some v | None => m !! k end.
Proof.
  induction l as [|[i v] l IH]; intros Hnd m k; cbn [foldl list_to_map foldr]; [by rewrite lookup_empty|]. cbn in Hnd. apply NoDup_cons in Hnd as [Hi Hnd].
  rewrite IH by done. cbn [list_to_map foldr fst snd]. destruct (decide (i = k)) as [->|Hne].
  - change (foldr _ ∅ l) with (list_to_map l : gmap string A). rewrite (not_elem_of_list_to_map_1 l k) by done. by rewrite !lookup_insert_eq.
  - change (foldr _ ∅ l) with (list_to_map l : gmap string A). by rewrite !lookup_insert_ne.
Qed.
Lemma foldl_visit {O : HashOrder} {OL : HashOrderLaws O} {A} (m : gmap string A) : foldl (fun m x => <[x.1 := x.2]> m) ∅ (visit m) = m.
Proof.
  pose proof (visit_all A m) as Hp. assert (NoDup (visit m).*1) as Hnd by (rewrite Hp; apply NoDup_fst_map_to_list).
  apply map_eq. intros k. rewrite foldl_insert_lookup, lookup_empty by done. rewrite (list_to_map_proper _ _ Hnd Hp), list_to_map_to_list.
  by destruct (m !! k).
Qed.

Lemma Forall_visit {O : HashOrder} {OL : HashOrderLaws O} {A} (Q : string -> A -> Prop) (m : gmap string A) : map_Forall Q m -> Forall (fun x => Q x.1 x.2) (visit m).
Proof. intros Hm. rewrite (visit_all A m). apply Forall_forall. intros [k v] Hin%elem_of_map_to_list. by apply Hm. Qed.

(** ** An instance

    A library with the laws: the text is a sequence of digits that encodes the
    tree of the document. *)
Definition double_code (d : double) : list Z :=
  match d with
  | S754_zero s => [0; if s then 1 else 0]
  | S754_infinity s => [1; if s then 1 else 0]
  | S754_nan => [2]
  | S754_finite s m e => [3; if s then 1 else 0; Z.pos m; e]
  end.
Definition code_double (l : list Z) : double :=
  match l with
  | [0; s] => S754_zero (s =? 1)
  | [1; s] => S754_infinity (s =? 1)
  | [3; s; Z.pos m; e] => S754_finite (s =? 1) m e
  | _ => S754_nan
  end.
Lemma code_double_code d : code_double (double_code d) = d.
Proof. by destruct d as [[]|[]| |[]]. Qed.
Fixpoint json_tree (j : json) : gen_tree (Z + (string + (bool + list Z))) :=
  match j with
  | JNull => GenNode 0 []
  | JBool b => GenLeaf (inr (inr (inl b)))
  | JDouble d => GenLeaf (inr (inr (inr (double_code d))))
  | JInt z => GenLeaf (inl z)
  | JString s => GenLeaf (inr (inl s))
  | JArray items => GenNode 1 ((fix trees l := match l with [] => [] | x :: l => json_tree x :: trees l end) items)
  | JObject fields =>
      GenNode 2 ((fix trees l := match l with [] => [] | (n, x) :: l => GenLeaf (inr (inl n)) :: json_tree x :: trees l end) fields)
  end.
Fixpoint tree_json (t : gen_tree (Z + (string + (bool + list Z)))) : json :=
  match t with
  | GenLeaf (inr (inr (inl b))) => JBool b
  | GenLeaf (inr (inr (inr l))) => JDouble (code_double l)
  | GenLeaf (inl z) => JInt z
  | GenLeaf (inr (inl s)) => JString s
  | GenNode 1 ts => JArray ((fix items l := match l with [] => [] | x :: l => tree_json x :: items l end) ts)
  | GenNode 2 ts =>
      JObject ((fix fields l := match l with GenLeaf (inr (inl n)) :: x :: l => (n, tree_json x) :: fields l | _ => [] end) ts)
  | GenNode _ _ => JNull
  end.
Lemma json_nested_ind (P : json -> Prop) :
  P JNull -> (forall b, P (JBool b)) -> (forall z, P (JInt z)) -> (forall d, P (JDouble d)) -> (forall s, P (JString s)) ->
  (forall items, Forall P items -> P (JArray items)) -> (forall fields, Forall (fun f => P f.2) fields -> P (JObject fields)) -> forall j, P j.
Proof.
  intros Hn Hb Hi Hd Hs Ha Ho. fix IH 1. intros [| | | | |items|fields]; [done|done|done|done|done| |].
  - apply Ha. induction items; constructor; [apply IH|done].
  - apply Ho. induction fields as [|[n x] fields IHf]; constructor; [apply IH|done].
Qed.
Lemma tree_json_tree j : tree_json (json_tree j) = j.
Proof.
  induction j as [| | |d| |items IH|fields IH] using json_nested_ind; try done; cbn [json_tree tree_json]; f_equal.
  - apply code_double_code.
  - induction IH as [|x items Hx _ IHi]; [done|]. by rewrite Hx, IHi.
  - induction IH as [|[n x] fields Hx _ IHf]; [done|]. cbn in Hx. by rewrite Hx, IHf.
Qed.

Fixpoint digits (p : positive) : string :=
  match p with xH => "1" | xO p => String "0" (digits p) | xI p => String "2" (digits p) end.
Fixpoint number (s : string) : option positive :=
  match s with
  | String c s =>
      if bool_decide (c = "1"%char) then Some xH
      else if bool_decide (c = "0"%char) then xO <$> number s
      else xI <$> number s
  | EmptyString => None
  end.
Lemma number_digits p : number (digits p) = Some p.
Proof. induction p as [p IH|p IH|]; cbn; [by rewrite IH..|done]. Qed.
Lemma digits_line p : "010"%char ∉ String.list_ascii_of_string (digits p).
Proof. induction p as [p IH|p IH|]; cbn; rewrite not_elem_of_cons; (split; [done|]); [done..|apply not_elem_of_nil]. Qed.
Definition sample_dump (j : json) : string := digits (encode (json_tree j)).
Definition sample_parse (s : string) : option json := p ← number s; tree_json <$> decode p.
Lemma sample_parse_dump j : sample_parse (sample_dump j) = Some j.
Proof.
  unfold sample_parse, sample_dump. rewrite number_digits. cbn [mbind option_bind]. rewrite decode_encode. cbn. by rewrite tree_json_tree.
Qed.
Definition sample_json : JsonLibrary := {|
  json_dump := sample_dump; json_dump_indented := sample_dump; json_parse := sample_parse; json_what := "parse error"; json_text := fun _ => True |}.
Lemma sample_json_laws : JsonLaws sample_json.
Proof.
  split; [intros j _; apply sample_parse_dump..|done|intros j; apply digits_line|]. intros j. cbn. unfold sample_dump. by destruct (encode _).
Qed.
Definition sample_order : HashOrder := {| visit A := map_to_list; visit_set := elements |}.
Lemma sample_order_laws : HashOrderLaws sample_order.
Proof. by split. Qed.
