(* ===== verification/Metrics.v ===== *)
(** * Telemetry

    [src/telemetry/metrics.cpp]: the counters of a node over sliding windows and
    their aggregation for the cluster.  Clock readings are arguments.  The theorem
    relates a snapshot to the list of the requests that were recorded
    ([snapshot_reports_history]). *)
From stdpp Require Import sorting.
From Stdlib Require Import SpecFloat.
From S2P Require Import Prelude Doubles.

Record MetricsSnapshot := mkMetricsSnapshot {
  node_id : string;
  rps_current : double;
  rps_avg_10min : double;
  rps_max_10min : double;
  latency_avg_ms : double;
  latency_p95_ms : double;
  latency_p99_ms : double;
  error_rate_1min : double;
  total_requests : Z;
  total_errors : Z;
  snapshot_timestamp : Z
}.
Record SecondBucket := mkSecondBucket { second_ts : Z; bucket_count : Z; bucket_errors : Z }.
Record NodeMetrics := mkNodeMetrics {
  node_id_ : string;
  window_seconds_ : Z;
  buckets_ : list SecondBucket;
  latency_buf_ : list Z;
  latency_ts_ : list Z;
  total_requests_ : Z;
  total_errors_ : Z
}.
Definition latency_window_seconds_ : Z := 10.
Definition new_NodeMetrics (id : string) (window_seconds : Z) : NodeMetrics := mkNodeMetrics id window_seconds [] [] [] 0 0.

(** ** A node *)

Fixpoint pop_buckets (cutoff : Z) (bs : list SecondBucket) : list SecondBucket :=
  match bs with b :: rest => if second_ts b <=? cutoff then pop_buckets cutoff rest else bs | [] => [] end.
Definition AdvanceBuckets (window now_sec : Z) (bs : list SecondBucket) : list SecondBucket :=
  let bs := match list.last bs with
    | None => [mkSecondBucket now_sec 0 0]
    | Some b => if second_ts b <? now_sec then bs ++ [mkSecondBucket now_sec 0 0] else bs
    end in
  pop_buckets (now_sec - window) bs.
(** [buckets_.back()], which the caller has made sure of. *)
Fixpoint alter_back (f : SecondBucket -> SecondBucket) (bs : list SecondBucket) : list SecondBucket :=
  match bs with [] => [] | [b] => [f b] | b :: bs => b :: alter_back f bs end.
Fixpoint pop_latencies (cutoff : Z) (ts buf : list Z) : list Z * list Z :=
  match ts, buf with
  | t :: ts', _ :: buf' => if t <? cutoff then pop_latencies cutoff ts' buf' else (ts, buf)
  | _, _ => (ts, buf)
  end.
Definition lat_cutoff (now_ms : Z) : Z := now_ms - latency_window_seconds_ * 1000.

Definition RecordRequest (duration_ms : Z) (is_error : bool) (now_sec now_ms : Z) (m : NodeMetrics) : NodeMetrics :=
  let errors := if is_error then 1 else 0 in
  let bs := AdvanceBuckets (window_seconds_ m) now_sec (buckets_ m) in
  let bs := alter_back (fun b => mkSecondBucket (second_ts b) (u64 (bucket_count b + 1)) (u64 (bucket_errors b + errors))) bs in
  let '(ts, buf) := pop_latencies (lat_cutoff now_ms) (latency_ts_ m ++ [now_ms]) (latency_buf_ m ++ [duration_ms]) in
  mkNodeMetrics (node_id_ m) (window_seconds_ m) bs buf ts (u64 (total_requests_ m + 1)) (u64 (total_errors_ m + errors)).

(** [total_in_window] and the sums over a part of the buckets *)
Definition sum_u64 (l : list Z) : Z := foldl (fun acc x => u64 (acc + x)) 0 l.
Definition max_u64 (l : list Z) : Z := foldl (fun acc x => if acc <? x then x else acc) 0 l.
Definition sort (l : list Z) : list Z := merge_sort Z.le l.
(** [std::accumulate] on 64-bit numbers *)
Definition sum_i64 (l : list Z) : Z := foldl (fun acc x => i64 (acc + x)) 0 l.
Definition pct_index (p : double) (sorted : list Z) : Z := d_trunc (d_mul p (dbl (zlen sorted - 1))).
Definition pct (p : double) (sorted : list Z) : double := dbl (default 0 (znth sorted (pct_index p sorted))).

(** The average and the maximum over the buckets *)
Definition rates (now_sec : Z) (bs : list SecondBucket) : double * double :=
  match bs with
  | [] => (dbl 0, dbl 0)
  | front :: _ =>
      let window_actual := Z.max 1 (now_sec - second_ts front + 1) in
      (d_div (dbl (sum_u64 (map bucket_count bs))) (dbl window_actual), dbl (max_u64 (map bucket_count bs)))
  end.
(** The average and the percentiles of the latencies *)
Definition latency_stats (buf : list Z) : double * double * double :=
  match buf with
  | [] => (dbl 0, dbl 0, dbl 0)
  | _ =>
      let sorted := sort buf in
      (d_div (dbl (sum_i64 sorted)) (dbl (zlen sorted)), pct (ratio 95 100) sorted, pct (ratio 99 100) sorted)
  end.
Definition error_rate (now_sec : Z) (bs : list SecondBucket) : double :=
  let last_minute := List.filter (fun b => now_sec - 60 <=? second_ts b) bs in
  let errors_1min := sum_u64 (map bucket_errors last_minute) in
  let total_1min := sum_u64 (map bucket_count last_minute) in
  if 0 <? total_1min then d_div (dbl errors_1min) (dbl total_1min) else dbl 0.
Definition Snapshot (now_sec now_ms : Z) (m : NodeMetrics) : MetricsSnapshot * NodeMetrics :=
  let bs := AdvanceBuckets (window_seconds_ m) now_sec (buckets_ m) in
  let last_sec_count := match list.last bs with Some b => bucket_count b | None => 0 end in
  let '(ts, buf) := pop_latencies (lat_cutoff now_ms) (latency_ts_ m) (latency_buf_ m) in
  let lat := latency_stats buf in
  (mkMetricsSnapshot (node_id_ m) (dbl last_sec_count) (rates now_sec bs).1 (rates now_sec bs).2 lat.1.1 lat.1.2 lat.2 (error_rate now_sec bs)
     (total_requests_ m) (total_errors_ m) now_ms,
   mkNodeMetrics (node_id_ m) (window_seconds_ m) bs buf ts (total_requests_ m) (total_errors_ m)).

(** ** The cluster *)

Fixpoint UpdateNode (snap : MetricsSnapshot) (snaps : list MetricsSnapshot) : list MetricsSnapshot :=
  match snaps with
  | [] => [snap]
  | s :: rest => if bool_decide (node_id s = node_id snap) then snap :: rest else s :: UpdateNode snap rest
  end.
Definition empty_snapshot (id : string) : MetricsSnapshot :=
  mkMetricsSnapshot id (dbl 0) (dbl 0) (dbl 0) (dbl 0) (dbl 0) (dbl 0) (dbl 0) 0 0 0.
Definition add_snapshot (agg s : MetricsSnapshot) : MetricsSnapshot :=
  mkMetricsSnapshot (node_id agg) (d_add (rps_current agg) (rps_current s)) (d_add (rps_avg_10min agg) (rps_avg_10min s))
    (d_add (rps_max_10min agg) (rps_max_10min s)) (d_add (latency_avg_ms agg) (latency_avg_ms s)) (d_max (latency_p95_ms agg) (latency_p95_ms s))
    (d_max (latency_p99_ms agg) (latency_p99_ms s)) (d_add (error_rate_1min agg) (error_rate_1min s))
    (u64 (total_requests agg + total_requests s)) (u64 (total_errors agg + total_errors s)) (snapshot_timestamp agg).
Definition Aggregate (snaps : list MetricsSnapshot) : MetricsSnapshot :=
  match snaps with
  | [] => empty_snapshot "cluster"
  | _ =>
      let agg := foldl add_snapshot (empty_snapshot "cluster") snaps in
      let n := dbl (zlen snaps) in
      mkMetricsSnapshot (node_id agg) (rps_current agg) (rps_avg_10min agg) (rps_max_10min agg) (d_div (latency_avg_ms agg) n)
        (latency_p95_ms agg) (latency_p99_ms agg) (d_div (error_rate_1min agg) n) (total_requests agg) (total_errors agg) (snapshot_timestamp agg)
  end.

(** ** The history *)

(** A recorded request: the clock readings, its duration and its outcome. *)
Record ev := mkEv { ev_sec : Z; ev_ms : Z; ev_duration : Z; ev_error : bool }.
Definition record_all (m : NodeMetrics) (h : list ev) : NodeMetrics :=
  foldl (fun m e => RecordRequest (ev_duration e) (ev_error e) (ev_sec e) (ev_ms e) m) m h.
Definition count (f : ev -> bool) (h : list ev) : Z := zlen (List.filter f h).
Definition at_sec (s : Z) (e : ev) : bool := ev_sec e =? s.
Definition error_at (s : Z) (e : ev) : bool := (ev_sec e =? s) && ev_error e.
(** The clocks do not run backwards, up to the readings [sec] and [ms]. *)
Definition clock_ok (h : list ev) (sec ms : Z) : Prop :=
  StronglySorted Z.le (map ev_sec h ++ [sec]) /\ StronglySorted Z.le (map ev_ms h ++ [ms]).

Lemma count_app f h h' : count f (h ++ h') = count f h + count f h'.
Proof. unfold count. by rewrite List.filter_app, zlen_app. Qed.
Lemma count_nonneg f h : 0 <= count f h.
Proof. apply zlen_nonneg. Qed.
Lemma count_le f h : count f h <= zlen h.
Proof. unfold count, zlen. pose proof (List.filter_length_le f h). lia. Qed.
Lemma count_zero f h : (forall e, e ∈ h -> f e = false) -> count f h = 0.
Proof.
  intros H. unfold count. induction h as [|e h IH]; [done|]. cbn [List.filter]. rewrite (H e) by left. apply IH. intros e' He'. apply H. by right.
Qed.

(** The buckets of a window that ends at [now]. *)
Record buckets_inv (w : Z) (h : list ev) (now : Z) (bs : list SecondBucket) : Prop := {
  bi_sorted : StronglySorted Z.lt (map second_ts bs);
  bi_window : Forall (fun b => now - w < second_ts b <= now) bs;
  bi_counts : Forall (fun b => bucket_count b = count (at_sec (second_ts b)) h /\ bucket_errors b = count (error_at (second_ts b)) h) bs;
  bi_all : forall e, e ∈ h -> now - w < ev_sec e -> ev_sec e ∈ map second_ts bs
}.
Lemma pop_buckets_filter cutoff bs : StronglySorted Z.lt (map second_ts bs) -> pop_buckets cutoff bs = filter (fun b => cutoff < second_ts b) bs.
Proof.
  induction bs as [|b bs IH]; intros Hs; [done|]. cbn [pop_buckets map] in *. apply StronglySorted_inv in Hs as [Hs Hb]. rewrite filter_cons.
  destruct (second_ts b <=? cutoff) eqn:E; zbool; [rewrite decide_False by lia; by apply IH|]. rewrite decide_True by done. f_equal. symmetry.
  clear IH Hs. induction bs as [|b' bs IH]; [done|]. cbn [map] in Hb. apply Forall_cons in Hb as [Hb' Hb]. rewrite filter_cons, decide_True by lia. f_equal. by apply IH.
Qed.
Lemma sorted_map_filter {A} (R : Z -> Z -> Prop) (f : A -> Z) (P : A -> Prop) `{!forall x, Decision (P x)} l :
  StronglySorted R (map f l) -> StronglySorted R (map f (filter P l)).
Proof.
  induction l as [|x l IH]; intros Hs; [done|]. cbn [map] in Hs. apply StronglySorted_inv in Hs as [Hs Hx]. rewrite filter_cons. destruct (decide (P x)); [|by apply IH].
  cbn [map]. constructor; [by apply IH|]. rewrite Forall_forall in *. intros y Hy. apply list_elem_of_In, in_map_iff in Hy as (x' & <- & Hx'). apply Hx.
  apply list_elem_of_In, in_map. apply list_elem_of_In, list_elem_of_filter in Hx' as [_ ?]. by apply list_elem_of_In.
Qed.
Lemma last_sorted bs b : StronglySorted Z.lt (map second_ts bs) -> list.last bs = Some b -> Forall (fun b' => second_ts b' <= second_ts b) bs.
Proof.
  intros Hs [l ->]%last_Some. rewrite map_app in Hs. apply Forall_app. split; [|by constructor]. apply Forall_forall. intros b' Hb'.
  enough (second_ts b' < second_ts b) by lia. eapply (StronglySorted_app_1_elem_of Z.lt _ _ _ _ Hs); [apply list_elem_of_In, in_map; by apply list_elem_of_In|left].
Qed.
Lemma push_inv w h now now' bs : 0 < w -> buckets_inv w h now bs -> now <= now' -> (forall e, e ∈ h -> ev_sec e <= now) ->
  let bs' := match list.last bs with
    | None => [mkSecondBucket now' 0 0]
    | Some b => if second_ts b <? now' then bs ++ [mkSecondBucket now' 0 0] else bs
    end in
  StronglySorted Z.lt (map second_ts bs') /\ Forall (fun b => second_ts b <= now') bs' /\
  Forall (fun b => bucket_count b = count (at_sec (second_ts b)) h /\ bucket_errors b = count (error_at (second_ts b)) h) bs' /\
  (forall e, e ∈ h -> now' - w < ev_sec e -> ev_sec e ∈ map second_ts bs') /\ exists l b, bs' = l ++ [b] /\ second_ts b = now'.
Proof.
  intros Hw [Hs Hwin Hc Ha] Hle Hsec bs'.
  assert (now' ∉ map second_ts bs -> count (at_sec now') h = 0 /\ count (error_at now') h = 0) as Hnone.
  { intros Hn. split; apply count_zero; intros e He; unfold at_sec, error_at; (destruct (Z.eqb_spec (ev_sec e) now') as [En|]; [|done]);
      destruct Hn; rewrite <- En; apply Ha; try done; apply Hsec in He; lia. }
  assert (Forall (fun b => second_ts b <= now') bs) as Hle' by (eapply Forall_impl; [exact Hwin|]; intros b; cbn; lia).
  assert (forall e, e ∈ h -> now' - w < ev_sec e -> ev_sec e ∈ map second_ts bs) as Ha' by (intros e He Hin; apply Ha; [done|lia]).
  unfold bs'. clear bs' Ha. destruct (list.last bs) as [b|] eqn:El; [destruct (second_ts b <? now') eqn:E; zbool|].
  - pose proof (last_sorted bs b Hs El) as Hlast. assert (forall x, x ∈ map second_ts bs -> x < now') as Hlt.
    { intros x Hx. apply list_elem_of_In, in_map_iff in Hx as (b' & <- & Hb'). apply list_elem_of_In in Hb'. rewrite Forall_forall in Hlast. apply Hlast in Hb'. lia. }
    destruct Hnone as [C1 C2]; [by intros ?%Hlt; lia|]. split_and!.
    + rewrite map_app. apply StronglySorted_app_2; [|done|by repeat constructor]. by intros x y ?%Hlt ->%list_elem_of_singleton.
    + apply Forall_app. split; [done|]. by repeat constructor.
    + apply Forall_app. split; [done|]. repeat constructor; cbn; by rewrite ?C1, ?C2.
    + intros e He Hin. rewrite map_app. apply elem_of_app. left. by apply Ha'.
    + eexists _, _. done.
  - split_and!; try done. apply last_Some in El as [l ->]. exists l, b. split; [done|]. rewrite Forall_app in Hle'; destruct Hle' as [_ Hb]. rewrite Forall_singleton in Hb. lia.
  - apply last_None in El. subst bs. destruct Hnone as [C1 C2]; [apply not_elem_of_nil|]. split_and!; [by repeat constructor..| | |].
    + repeat constructor; cbn; by rewrite ?C1, ?C2.
    + intros e He Hin. by apply Ha', elem_of_nil in Hin.
    + by exists [], (mkSecondBucket now' 0 0).
Qed.
Lemma advance_inv w h now now' bs : 0 < w -> buckets_inv w h now bs -> now <= now' -> (forall e, e ∈ h -> ev_sec e <= now) ->
  buckets_inv w h now' (AdvanceBuckets w now' bs) /\ exists l b, AdvanceBuckets w now' bs = l ++ [b] /\ second_ts b = now'.
Proof.
  intros Hw Hi Hle Hsec. destruct (push_inv w h now now' bs Hw Hi Hle Hsec) as (Hs & Hwin & Hc & Ha & (l & b & El & Eb)). unfold AdvanceBuckets. cbv zeta.
  set (bs' := match list.last bs with _ => _ end) in *. rewrite pop_buckets_filter by done. split; [split|].
  - by apply sorted_map_filter.
  - apply Forall_forall. intros b' [? Hb']%list_elem_of_filter. rewrite Forall_forall in Hwin. apply Hwin in Hb'. lia.
  - apply Forall_forall. intros b' [_ Hb']%list_elem_of_filter. rewrite Forall_forall in Hc. by apply Hc.
  - intros e He Hin. pose proof (Ha e He Hin) as H. apply list_elem_of_In, in_map_iff in H as (b' & E & Hb'). apply list_elem_of_In in Hb'.
    rewrite <- E. apply list_elem_of_In, in_map, list_elem_of_In, list_elem_of_filter. split; [by rewrite E|done].
  - rewrite El, filter_app, filter_cons, decide_True by lia. cbn. by eexists _, b.
Qed.
Lemma alter_back_app f l b : alter_back f (l ++ [b]) = l ++ [f b].
Proof. induction l as [|x l IH]; [done|]. cbn [app alter_back]. destruct (l ++ [b]) eqn:E; [by destruct l|]. by rewrite IH. Qed.
Lemma record_buckets w h e l b : buckets_inv w h (ev_sec e) (l ++ [b]) -> second_ts b = ev_sec e -> zlen h + 1 < 2 ^ 64 ->
  buckets_inv w (h ++ [e]) (ev_sec e)
    (l ++ [mkSecondBucket (second_ts b) (u64 (bucket_count b + 1)) (u64 (bucket_errors b + (if ev_error e then 1 else 0)))]).
Proof.
  intros [Hs Hw Hc Ha] Eb Hlen. rewrite Forall_app, Forall_singleton in Hw, Hc. destruct Hw as [Hw1 Hw2], Hc as [Hc1 [Hc2 Hc3]].
  assert (forall f, 0 <= count f h <= zlen h) as Hcount by (intros f; split; [apply count_nonneg|apply count_le]). split.
  - by rewrite map_app in *.
  - rewrite Forall_app, Forall_singleton. done.
  - rewrite Forall_app, Forall_singleton. split.
    + rewrite Forall_forall in *. intros b' Hb'. rewrite !count_app. destruct (Hc1 b' Hb') as [-> ->]. assert (second_ts b' < ev_sec e) as Hlt.
      { rewrite map_app in Hs. rewrite <- Eb. eapply (StronglySorted_app_1_elem_of Z.lt _ _ _ _ Hs); [apply list_elem_of_In, in_map; by apply list_elem_of_In|left]. }
      unfold count, at_sec, error_at. cbn [List.filter]. rewrite (proj2 (Z.eqb_neq (ev_sec e) (second_ts b'))) by lia. cbn [andb]. rewrite zlen_nil. lia.
    + cbn [second_ts bucket_count bucket_errors]. rewrite !count_app, Hc2, Hc3, Eb. assert (count (at_sec (ev_sec e)) [e] = 1 /\ count (error_at (ev_sec e)) [e] = if ev_error e then 1 else 0) as [-> ->].
      { unfold count, at_sec, error_at. cbn [List.filter]. rewrite Z.eqb_refl. by destruct (ev_error e). }
      pose proof (Hcount (at_sec (ev_sec e))). pose proof (Hcount (error_at (ev_sec e))). unfold u64. destruct (ev_error e); rewrite !Z.mod_small by lia; done.
  - intros e' [He'| ->%list_elem_of_singleton]%elem_of_app Hin.
    + rewrite map_app. specialize (Ha e' He' Hin). by rewrite map_app in Ha.
    + rewrite map_app. apply elem_of_app. right. rewrite <- Eb. left.
Qed.
Lemma pop_latencies_filter cutoff l : StronglySorted Z.le (map ev_ms l) ->
  pop_latencies cutoff (map ev_ms l) (map ev_duration l) =
    (map ev_ms (filter (fun e => cutoff <= ev_ms e) l), map ev_duration (filter (fun e => cutoff <= ev_ms e) l)).
Proof.
  induction l as [|e l IH]; intros Hs; [done|]. cbn [map pop_latencies] in *. apply StronglySorted_inv in Hs as [Hs He]. rewrite filter_cons.
  destruct (ev_ms e <? cutoff) eqn:E; zbool; [rewrite decide_False by lia; by apply IH|]. rewrite decide_True by done.
  assert (filter (fun e => cutoff <= ev_ms e) l = l) as ->; [|done]. clear IH Hs. induction l as [|e' l IH]; [done|]. cbn [map] in He. apply Forall_cons in He as [He' He].
  rewrite filter_cons, decide_True by lia. f_equal. by apply IH.
Qed.
Definition recent (ms : Z) (h : list ev) : list ev := filter (fun e => lat_cutoff ms <= ev_ms e) h.
Record metrics_inv (id : string) (w : Z) (h : list ev) (sec ms : Z) (m : NodeMetrics) : Prop := {
  mi_id : node_id_ m = id;
  mi_window : window_seconds_ m = w;
  mi_buckets : buckets_inv w h sec (buckets_ m);
  mi_ts : latency_ts_ m = map ev_ms (recent ms h);
  mi_buf : latency_buf_ m = map ev_duration (recent ms h);
  mi_requests : total_requests_ m = zlen h;
  mi_errors : total_errors_ m = count ev_error h
}.
Lemma recent_recent ms ms' h : ms <= ms' -> recent ms' (recent ms h) = recent ms' h.
Proof.
  intros Hle. unfold recent, lat_cutoff. induction h as [|e h IH]; [done|]. rewrite (filter_cons _ e h). case_decide; rewrite filter_cons.
  - rewrite (filter_cons _ e h). case_decide; [by f_equal|done].
  - rewrite decide_False by lia. done.
Qed.
Lemma record_step id w h sec ms m e : 0 < w -> metrics_inv id w h sec ms m -> (forall x, x ∈ h -> ev_sec x <= sec) -> StronglySorted Z.le (map ev_ms (h ++ [e])) ->
  sec <= ev_sec e -> ms <= ev_ms e -> zlen h + 1 < 2 ^ 64 ->
  metrics_inv id w (h ++ [e]) (ev_sec e) (ev_ms e) (RecordRequest (ev_duration e) (ev_error e) (ev_sec e) (ev_ms e) m).
Proof.
  intros Hw [Hid Hwin Hb Hts Hbuf Hr He] Hsec Hms Hle1 Hle2 Hlen. unfold RecordRequest. rewrite Hwin, Hts, Hbuf.
  destruct (advance_inv w h sec (ev_sec e) (buckets_ m) Hw Hb Hle1 Hsec) as (Hb' & l & b & El & Eb). rewrite El in *. rewrite alter_back_app.
  assert (map ev_ms (recent ms h) ++ [ev_ms e] = map ev_ms (recent ms h ++ [e])) as -> by by rewrite map_app.
  assert (map ev_duration (recent ms h) ++ [ev_duration e] = map ev_duration (recent ms h ++ [e])) as -> by by rewrite map_app.
  assert (recent ms h ++ [e] = recent ms (h ++ [e])) as ->.
  { unfold recent. rewrite filter_app, (filter_cons _ e), decide_True by (unfold lat_cutoff, latency_window_seconds_; lia). done. }
  rewrite pop_latencies_filter by by apply sorted_map_filter. fold (recent (ev_ms e) (recent ms (h ++ [e]))). rewrite recent_recent by done.
  pose proof (count_le ev_error h). pose proof (count_nonneg ev_error h). pose proof (zlen_nonneg h). unfold u64.
  split; cbn [node_id_ window_seconds_ buckets_ latency_ts_ latency_buf_ total_requests_ total_errors_]; try done.
  - by apply record_buckets.
  - rewrite Hr, zlen_app, Z.mod_small by lia. done.
  - rewrite He, count_app. unfold count at 3. cbn [List.filter]. destruct (ev_error e); rewrite Z.mod_small by lia; done.
Qed.
Lemma clock_app h e sec ms : clock_ok (h ++ [e]) sec ms -> clock_ok h (ev_sec e) (ev_ms e) /\ ev_sec e <= sec /\ ev_ms e <= ms /\
  (forall x, x ∈ h ++ [e] -> ev_sec x <= ev_sec e) /\ StronglySorted Z.le (map ev_ms (h ++ [e])).
Proof.
  intros [H1 H2]. unfold clock_ok. rewrite !map_app in *. cbn [map] in *. pose proof (StronglySorted_app_1_l _ _ _ H1) as S1. pose proof (StronglySorted_app_1_l _ _ _ H2) as S2.
  split_and!; try done.
  - eapply (StronglySorted_app_1_elem_of Z.le _ _ _ _ H1); [apply elem_of_app; right; left|left].
  - eapply (StronglySorted_app_1_elem_of Z.le _ _ _ _ H2); [apply elem_of_app; right; left|left].
  - intros x [Hx| ->%list_elem_of_singleton]%elem_of_app; [|done]. eapply (StronglySorted_app_1_elem_of Z.le _ _ _ _ S1); [|left].
    apply list_elem_of_In, in_map. by apply list_elem_of_In.
Qed.
Lemma run_metrics id w h : 0 < w -> zlen h < 2 ^ 64 -> forall sec ms, clock_ok h sec ms -> exists sec0 ms0, sec0 <= sec /\ ms0 <= ms /\
  (forall x, x ∈ h -> ev_sec x <= sec0) /\ metrics_inv id w h sec0 ms0 (record_all (new_NodeMetrics id w) h).
Proof.
  intros Hw. induction h as [|e h IH] using rev_ind; intros Hlen sec ms Hc.
  - exists sec, ms. split_and!; try done; [by intros x ?%elem_of_nil|]. split; try done. split; try (by constructor). by intros e ?%elem_of_nil.
  - rewrite zlen_app in Hlen. change (zlen [e]) with 1 in Hlen. destruct (clock_app h e sec ms Hc) as (Hc' & Hs & Hm & Hall & Hsort).
    destruct (IH ltac:(lia) _ _ Hc') as (sec0 & ms0 & H1 & H2 & H3 & H4). exists (ev_sec e), (ev_ms e). split_and!; try done.
    unfold record_all. rewrite foldl_app. cbn [foldl]. by eapply record_step.
Qed.

(** ** Sums *)

Definition zsum (l : list Z) : Z := foldr Z.add 0 l.
Lemma sum_u64_exact l : 0 <= zsum l < 2 ^ 64 -> sum_u64 l = zsum l.
Proof.
  intros H. unfold sum_u64. assert (forall a, foldl (fun acc x => u64 (acc + x)) (u64 a) l = u64 (a + zsum l)) as Hl.
  { clear H. induction l as [|x l IH]; intros a; cbn [foldl zsum foldr]; [by rewrite Z.add_0_r|]. fold (zsum l).
    assert (u64 (u64 a + x) = u64 (a + x)) as -> by (unfold u64; apply Zplus_mod_idemp_l). rewrite IH. by rewrite Z.add_assoc. }
  etransitivity; [exact (Hl 0)|]. unfold u64. by rewrite Z.mod_small.
Qed.
Lemma max_u64_spec l : Forall (fun x => 0 <= x) l -> (forall x, x ∈ l -> x <= max_u64 l) /\ (max_u64 l = 0 \/ max_u64 l ∈ l).
Proof.
  unfold max_u64. induction l as [|x l IH] using rev_ind; intros Hl; [split; [by intros x ?%elem_of_nil|by left]|]. rewrite foldl_app. cbn [foldl].
  rewrite Forall_app in Hl. destruct Hl as [Hl Hx]. destruct (IH Hl) as [I1 I2]. set (a := foldl _ 0 l) in *. destruct (a <? x) eqn:E; zbool.
  - split; [|right; apply elem_of_app; right; left]. intros y [Hy| ->%list_elem_of_singleton]%elem_of_app; [apply I1 in Hy; lia|lia].
  - split; [|destruct I2 as [?|?]; [by left|right; apply elem_of_app; by left]]. intros y [Hy| ->%list_elem_of_singleton]%elem_of_app; [by apply I1|done].
Qed.
Lemma count_ext f g h : (forall e, e ∈ h -> f e = g e) -> count f h = count g h.
Proof.
  intros H. unfold count. induction h as [|e h IH]; [done|]. cbn [List.filter]. rewrite (H e) by left. specialize (IH ltac:(intros e' He'; apply H; by right)).
  destruct (g e); by rewrite ?zlen_cons, IH.
Qed.
Lemma count_or f g h : (forall e, e ∈ h -> f e && g e = false) -> count (fun e => f e || g e) h = count f h + count g h.
Proof.
  intros H. unfold count. induction h as [|e h IH]; [done|]. cbn [List.filter]. specialize (IH ltac:(intros e' He'; apply H; by right)). specialize (H e ltac:(left)).
  destruct (f e), (g e); cbn in *; try done; rewrite ?zlen_cons, IH; lia.
Qed.
Definition in_secs (ss : list Z) (g : ev -> bool) (e : ev) : bool := bool_decide (ev_sec e ∈ ss) && g e.
Lemma sum_counts g h ss : NoDup ss -> zsum (map (fun s => count (fun e => (ev_sec e =? s) && g e) h) ss) = count (in_secs ss g) h.
Proof.
  induction ss as [|s ss IH]; intros Hnd; cbn [map zsum foldr]; [symmetry; by apply count_zero|]. apply NoDup_cons in Hnd as [Hn Hnd]. fold (zsum (map (fun s => count (fun e => (ev_sec e =? s) && g e) h) ss)).
  rewrite IH by done. rewrite <- count_or.
  - apply count_ext. intros e _. unfold in_secs. destruct (g e); rewrite ?andb_false_r, ?andb_true_r; [|done]. destruct (Z.eqb_spec (ev_sec e) s) as [->|Hne].
    + by rewrite (bool_decide_true (s ∈ s :: ss)) by left.
    + cbn. apply bool_decide_ext. set_solver.
  - intros e _. unfold in_secs. destruct (Z.eqb_spec (ev_sec e) s) as [->|]; [|done]. rewrite bool_decide_false by done. cbn. by rewrite andb_false_r.
Qed.

(** ** Snapshots *)

Lemma bucket_sums w h now bs (keep : Z -> bool) : buckets_inv w h now bs -> (forall e, e ∈ h -> ev_sec e <= now) -> zlen h < 2 ^ 64 ->
  let kept := List.filter (fun b => keep (second_ts b)) bs in
  let inside e := (now - w <? ev_sec e) && keep (ev_sec e) in
  sum_u64 (map bucket_count kept) = count inside h /\ sum_u64 (map bucket_errors kept) = count (fun e => inside e && ev_error e) h.
Proof.
  intros [Hs Hw Hc Ha] Hsec Hlen kept inside.
  assert (forall (val : SecondBucket -> Z) (g : ev -> bool), (forall b, b ∈ bs -> val b = count (fun e => (ev_sec e =? second_ts b) && g e) h) ->
    sum_u64 (map val kept) = count (fun e => inside e && g e) h) as Hsum.
  { intros val g Hval. assert (map val kept = map (fun s => count (fun e => (ev_sec e =? s) && g e) h) (map second_ts kept)) as ->.
    { rewrite map_map. apply map_ext_in. intros b [Hb _]%filter_In. apply Hval. by apply list_elem_of_In. }
    assert (NoDup (map second_ts kept)) as Hnd.
    { assert (StronglySorted Z.lt (map second_ts kept)) as Hk.
      { unfold kept. clear - Hs. induction bs as [|b bs IH]; [done|]. cbn [map] in Hs. apply StronglySorted_inv in Hs as [Hs Hb]. cbn [List.filter]. destruct (keep (second_ts b)); [|by apply IH].
        cbn [map]. constructor; [by apply IH|]. rewrite Forall_forall in *. intros y Hy. apply Hb. apply list_elem_of_In in Hy. apply list_elem_of_In.
        apply in_map_iff in Hy as (b' & <- & [Hb' _]%filter_In). by apply in_map. }
      clear - Hk. induction (map second_ts kept) as [|s ss IH]; constructor; apply StronglySorted_inv in Hk as [Hk Hh]; [|by apply IH]. rewrite Forall_forall in Hh. intros Hin%Hh. lia. }
    assert (zsum (map (fun s => count (fun e => (ev_sec e =? s) && g e) h) (map second_ts kept)) = count (fun e => inside e && g e) h) as E.
    { rewrite sum_counts by done. apply count_ext. intros e He. unfold in_secs, inside. f_equal. apply eq_true_iff_eq. rewrite bool_decide_eq_true, andb_true_iff, Z.ltb_lt.
      rewrite list_elem_of_In, in_map_iff. split.
      - intros (b & <- & [Hb Hk]%filter_In). rewrite Forall_forall in Hw. apply list_elem_of_In, Hw in Hb. split; [lia|done].
      - intros [Hin Hk]. pose proof (Ha e He Hin) as Hb. apply list_elem_of_In, in_map_iff in Hb as (b & Eb & Hb). exists b. split; [done|]. apply filter_In. by rewrite Eb. }
    rewrite sum_u64_exact; [exact E|]. rewrite E. pose proof (count_nonneg (fun e => inside e && g e) h). pose proof (count_le (fun e => inside e && g e) h). lia. }
  rewrite Forall_forall in Hc. split.
  - rewrite (Hsum bucket_count (fun _ => true)); [apply count_ext; intros e _; apply andb_true_r|]. intros b Hb. destruct (Hc b Hb) as [-> _]. apply count_ext. intros e _. by rewrite andb_true_r.
  - apply Hsum. intros b Hb. by destruct (Hc b Hb) as [_ ->].
Qed.
Lemma pct_in_range P l : 2 ^ 52 <= Z.pos P <= 2 ^ 53 - 2 ^ 39 -> l <> [] -> zlen l <= 2 ^ 53 -> exists v, sort l !! Z.to_nat (pct_index (S754_finite false P (-53)) (sort l)) = Some v /\
  pct (S754_finite false P (-53)) (sort l) = dbl v.
Proof.
  intros HP Hne Hlen. assert (zlen (sort l) = zlen l) as El by (unfold zlen, sort; by rewrite merge_sort_Permutation).
  assert (0 < zlen l) as Hpos by (destruct l; [done|rewrite zlen_cons; pose proof (zlen_nonneg l); lia]).
  pose proof (trunc_fraction P (zlen (sort l) - 1) HP ltac:(lia)) as Hi. fold (pct_index (S754_finite false P (-53)) (sort l)) in Hi.
  destruct (lookup_lt_is_Some_2 (sort l) (Z.to_nat (pct_index (S754_finite false P (-53)) (sort l)))) as [v Hv].
  { unfold zlen in Hi, El. lia. }
  exists v. split; [done|]. unfold pct, znth. rewrite (proj2 (Z.ltb_ge _ 0)) by apply Hi. by rewrite Hv.
Qed.
Lemma rates_spec w h now bs : buckets_inv w h now bs -> (forall e, e ∈ h -> ev_sec e <= now) -> zlen h < 2 ^ 64 -> bs <> [] ->
  (exists first, now - w < first <= now /\ (forall e, e ∈ h -> now - w < ev_sec e -> first <= ev_sec e) /\
    (rates now bs).1 = d_div (dbl (count (fun e => now - w <? ev_sec e) h)) (dbl (now - first + 1))) /\
  (exists mx, (rates now bs).2 = dbl mx /\ (forall s, now - w < s -> count (at_sec s) h <= mx) /\
    (mx = 0 \/ exists s, now - w < s <= now /\ mx = count (at_sec s) h)).
Proof.
  intros Hi Hsec Hlen Hne. pose proof (bucket_sums w h now bs (fun _ => true) Hi Hsec Hlen) as [B1 _]. destruct Hi as [Ss Sw Sc Sa].
  assert (List.filter (fun _ => true) bs = bs) as Hall by (clear; induction bs; cbn; by f_equal). rewrite Hall in B1. clear Hall. rewrite Forall_forall in Sw, Sc.
  unfold rates. destruct bs as [|front rest]; [done|]. set (bs := front :: rest) in *. cbn [fst snd]. split.
  - pose proof (Sw front ltac:(left)). exists (second_ts front). split; [done|]. split.
    + intros e Hin Hlt%(Sa e Hin). cbn [map bs] in Hlt, Ss. apply StronglySorted_inv in Ss as [_ Hf]. apply elem_of_cons in Hlt as [->|Hlt]; [lia|].
      rewrite Forall_forall in Hf. apply Hf in Hlt. lia.
    + rewrite B1, Z.max_r by lia. do 2 f_equal. apply count_ext. intros e _. apply andb_true_r.
  - assert (Forall (fun x => 0 <= x) (map bucket_count bs)) as Hnn.
    { apply Forall_forall. intros x Hx. apply list_elem_of_In, in_map_iff in Hx as (b & <- & Hb). apply list_elem_of_In in Hb. destruct (Sc b Hb) as [-> _]. apply count_nonneg. }
    destruct (max_u64_spec _ Hnn) as [M1 M2]. exists (max_u64 (map bucket_count bs)). split; [done|]. split.
    + intros s Hs. destruct (decide (s ∈ map second_ts bs)) as [Hin|Hn].
      * apply list_elem_of_In, in_map_iff in Hin as (b & <- & Hb). apply list_elem_of_In in Hb. destruct (Sc b Hb) as [<- _]. apply M1. by apply list_elem_of_In, in_map, list_elem_of_In.
      * assert (count (at_sec s) h = 0) as ->; [|destruct M2 as [->|M2]; [done|rewrite Forall_forall in Hnn; by apply Hnn]].
        apply count_zero. intros e He. unfold at_sec. destruct (Z.eqb_spec (ev_sec e) s) as [<-|]; [|done]. by destruct Hn; apply Sa.
    + destruct M2 as [?|Hin]; [by left|right]. apply list_elem_of_In, in_map_iff in Hin as (b & Eb & Hb). apply list_elem_of_In in Hb. exists (second_ts b). split; [by apply Sw|].
      rewrite <- Eb. by apply Sc.
Qed.
Lemma latency_stats_spec l : l <> [] -> zlen l <= 2 ^ 53 ->
  (latency_stats l).1.1 = d_div (dbl (sum_i64 (sort l))) (dbl (zlen (sort l))) /\
  (exists v, sort l !! Z.to_nat (pct_index (ratio 95 100) (sort l)) = Some v /\ (latency_stats l).1.2 = dbl v) /\
  (exists v, sort l !! Z.to_nat (pct_index (ratio 99 100) (sort l)) = Some v /\ (latency_stats l).2 = dbl v).
Proof.
  intros Hne Hlen. assert (latency_stats l = (d_div (dbl (sum_i64 (sort l))) (dbl (zlen (sort l))), pct (ratio 95 100) (sort l), pct (ratio 99 100) (sort l))) as -> by by destruct l.
  cbn [fst snd]. rewrite ratio_95, ratio_99. split; [done|]. split; apply pct_in_range; try done; lia.
Qed.
(** C22. What SHOW METRICS reports of a node: after any requests, recorded at
    clock readings that do not run backwards, the totals are the numbers of
    requests and errors, the current rate is the number of requests of this
    second, the average and the maximum are taken over the seconds of the window,
    the error rate is that of the last minute, and the latencies are those of
    the requests of the last ten seconds, whose percentiles are read at an index
    that is in range.  Numbers are rounded as doubles are. *)
Theorem snapshot_reports_history id w h sec ms :
  0 < w -> zlen h < 2 ^ 53 -> clock_ok h sec ms ->
  let snap := (Snapshot sec ms (record_all (new_NodeMetrics id w) h)).1 in
  let window e := sec - w <? ev_sec e in
  let minute e := (sec - w <? ev_sec e) && (sec - 60 <=? ev_sec e) in
  let latencies := map ev_duration (recent ms h) in
  total_requests snap = zlen h /\ total_errors snap = count ev_error h /\ rps_current snap = dbl (count (at_sec sec) h) /\
  (exists first, sec - w < first <= sec /\ (forall e, e ∈ h -> window e = true -> first <= ev_sec e) /\
    rps_avg_10min snap = d_div (dbl (count window h)) (dbl (sec - first + 1))) /\
  (exists mx, rps_max_10min snap = dbl mx /\ (forall s, sec - w < s -> count (at_sec s) h <= mx) /\
    (mx = 0 \/ exists s, sec - w < s <= sec /\ mx = count (at_sec s) h)) /\
  error_rate_1min snap =
    (if 0 <? count minute h then d_div (dbl (count (fun e => minute e && ev_error e) h)) (dbl (count minute h)) else dbl 0) /\
  (latencies <> [] ->
    latency_avg_ms snap = d_div (dbl (sum_i64 (sort latencies))) (dbl (zlen (sort latencies))) /\
    (exists v, sort latencies !! Z.to_nat (pct_index (ratio 95 100) (sort latencies)) = Some v /\ latency_p95_ms snap = dbl v) /\
    (exists v, sort latencies !! Z.to_nat (pct_index (ratio 99 100) (sort latencies)) = Some v /\ latency_p99_ms snap = dbl v)).
Proof.
  intros Hw Hlen Hc. cbv zeta. destruct (run_metrics id w h Hw ltac:(lia) sec ms Hc) as (sec0 & ms0 & H1 & H2 & Hsec & [Hid Hwin Hb Hts Hbuf Hr He]).
  set (m := record_all _ h) in *. assert (forall e, e ∈ h -> ev_sec e <= sec) as Hsec' by (intros e ?%Hsec; lia).
  destruct (advance_inv w h sec0 sec (buckets_ m) Hw Hb H1 Hsec) as (Hi & l & b & El & Eb). unfold Snapshot. rewrite Hwin, Hts, Hbuf.
  rewrite pop_latencies_filter by (apply sorted_map_filter, (StronglySorted_app_1_l _ _ _ (proj2 Hc))). fold (recent ms (recent ms0 h)). rewrite recent_recent by done.
  set (bs := AdvanceBuckets w sec (buckets_ m)) in *. cbn [fst rps_current rps_avg_10min rps_max_10min error_rate_1min total_requests total_errors latency_avg_ms latency_p95_ms latency_p99_ms].
  destruct (rates_spec w h sec bs Hi Hsec' ltac:(lia)) as [(first & F1 & F2 & F3) R2]; [rewrite El; by destruct l|].
  pose proof (bucket_sums w h sec bs (fun s => sec - 60 <=? s) Hi Hsec' ltac:(lia)) as [B2 B3].
  split; [done|]. split; [done|]. split; [|split; [|split; [done|split]]].
  - rewrite El, last_snoc. destruct Hi as [_ _ Sc _]. rewrite El, Forall_app, Forall_singleton, Eb in Sc. by destruct Sc as [_ [-> _]].
  - exists first. split; [done|]. split; [|done]. intros e Hin Hlt. zbool. by apply F2.
  - unfold error_rate. by rewrite B2, B3.
  - intros Hne. apply latency_stats_spec; [done|]. rewrite zlen_map. unfold recent, zlen in *. pose proof (length_filter (fun e => lat_cutoff ms <= ev_ms e) h). lia.
Qed.
(** Requests in two seconds of a window of five, one of which failed. *)
Definition sample_history : list ev := [mkEv 100 100200 7 false; mkEv 103 103100 12 true; mkEv 103 103900 5 false].
Lemma snapshot_reports_history_witness :
  let snap := (Snapshot 104 104000 (record_all (new_NodeMetrics "n" 5) sample_history)).1 in
  total_requests snap = 3 /\ total_errors snap = 1 /\ rps_current snap = dbl 0 /\ error_rate_1min snap = d_div (dbl 1) (dbl 3).
Proof.
  destruct (snapshot_reports_history "n" 5 sample_history 104 104000) as (H1 & H2 & H3 & _ & _ & H4 & _).
  - done.
  - done.
  - split; cbn; repeat constructor; lia.
  - cbv zeta. split; [exact H1|]. split; [exact H2|]. split; [exact H3|]. exact H4.
Defined.

(** One snapshot is kept for a node. *)
Lemma elem_of_UpdateNode x snap snaps : x ∈ map node_id (UpdateNode snap snaps) <-> x = node_id snap \/ x ∈ map node_id snaps.
Proof.
  induction snaps as [|s snaps IH]; cbn [UpdateNode map]; [by rewrite list_elem_of_singleton, elem_of_nil; naive_solver|].
  case_bool_decide as E; cbn [map]; rewrite !elem_of_cons; [rewrite E; naive_solver|]. rewrite IH. naive_solver.
Qed.
Lemma UpdateNode_ids snap snaps : NoDup (map node_id snaps) -> NoDup (map node_id (UpdateNode snap snaps)).
Proof.
  induction snaps as [|s snaps IH]; cbn [UpdateNode map]; intros Hnd; [apply NoDup_singleton|]. apply NoDup_cons in Hnd as [Hn Hnd]. case_bool_decide as E; cbn [map].
  - apply NoDup_cons. by rewrite <- E.
  - apply NoDup_cons. split; [|by apply IH]. by intros [?|?]%elem_of_UpdateNode.
Qed.
