(* ===== verification/Logger.v ===== *)
(** * The logger

    [src/logging/logger.cpp]: the bounded queue of entries, the writer thread and
    the rotation of the files.  A batch of the writer and the call that ends it
    are single steps; the clock reading of a line is its first field. *)
From S2P Require Import Prelude Disk Json.

Inductive LogLevel := llTrace | llDebug | llInfo | llWarn | llError.
Definition level_rank (l : LogLevel) : Z := match l with llTrace => 0 | llDebug => 1 | llInfo => 2 | llWarn => 3 | llError => 4 end.
Definition LevelName (l : LogLevel) : string :=
  match l with llTrace => "trace" | llDebug => "debug" | llInfo => "info" | llWarn => "warn" | llError => "error" end.
Record AccessLogEntry := mkAccessLogEntry {
  al_timestamp_start : string;
  al_timestamp_end : string;
  al_request_id : string;
  al_client_id : string;
  al_sql : string;
  al_target_node : string;
  al_shard_id : string;
  al_duration_ms : Z;
  al_thread_id : Z;
  al_ok : bool;
  al_error : string
}.
Record LogEntry := mkLogEntry { is_access : bool; json_line : string }.
Record Logger := mkLogger {
  server_log_path_ : string;
  access_log_path_ : string;
  max_bytes_ : Z;
  max_files_ : Z;
  min_level_ : LogLevel;
  queue_ : list LogEntry;
  initialized_ : bool
}.
Definition max_queue_ : Z := 65536.
Definition new_Logger : Logger := mkLogger "" "" (32 * 1024 * 1024) 5 llInfo [] false.
Definition set_log_queue (l : list LogEntry) (g : Logger) : Logger :=
  mkLogger (server_log_path_ g) (access_log_path_ g) (max_bytes_ g) (max_files_ g) (min_level_ g) l (initialized_ g).
Definition set_initialized (b : bool) (g : Logger) : Logger :=
  mkLogger (server_log_path_ g) (access_log_path_ g) (max_bytes_ g) (max_files_ g) (min_level_ g) (queue_ g) b.

(** ** Entries *)

Definition Push (entry : LogEntry) (g : Logger) : Logger :=
  if negb (initialized_ g) then g
  else
    let q := if max_queue_ <=? zlen (queue_ g) then tail (queue_ g) else queue_ g in
    set_log_queue (q ++ [entry]) g.
Definition FlushImpl (g : Logger) : Logger := if negb (initialized_ g) then g else set_log_queue (queue_ g ++ [mkLogEntry false ""]) g.
Definition ShouldLog (g : Logger) (l : LogLevel) : bool := level_rank (min_level_ g) <=? level_rank l.

Section logger.
Context {L : JsonLibrary}.
Definition BuildJson (now : string) (l : LogLevel) (msg : string) (fields : list (string * string)) : string :=
  json_dump (object ([("timestamp", JString now); ("level", JString (LevelName l)); ("message", JString msg)] ++ map (fun f => (f.1, JString f.2)) fields)).
(** [Trace], [Debug], [Info], [Warn] and [Error] *)
Definition Log (l : LogLevel) (now msg : string) (fields : list (string * string)) (g : Logger) : Logger :=
  if negb (ShouldLog g l) then g else Push (mkLogEntry false (BuildJson now l msg fields)) g.
Definition AccessLog (e : AccessLogEntry) (g : Logger) : Logger :=
  if negb (initialized_ g) then g
  else Push (mkLogEntry true (json_dump (object (
    [("timestamp_start", JString (al_timestamp_start e)); ("timestamp_end", JString (al_timestamp_end e)); ("request_id", JString (al_request_id e));
     ("client_id", JString (al_client_id e)); ("sql", JString (al_sql e)); ("target_node", JString (al_target_node e)); ("shard_id", JString (al_shard_id e));
     ("duration_ms", JInt (al_duration_ms e)); ("thread_id", JInt (al_thread_id e)); ("status", JString (if al_ok e then "ok" else "error"))] ++
    (if al_ok e then [] else [("error", JString (al_error e))]))))) g.
End logger.

(** ** Files *)

(** [fs::file_size(path, ec)]; [None] sets [ec]. *)
Definition fs_file_size (path : string) : M disk (option Z) := fun d =>
  match next_fault d with
  | (Some _, d') => (Ok None, d')
  | (None, d') => (Ok (zlen <$> d_files d !! path), d')
  end.
(** [fs::remove(path, ec)] of a file *)
Definition fs_remove (path : string) : M disk unit := fun d =>
  match next_fault d with
  | (Some _, d') => (Ok tt, d')
  | (None, d') => (Ok tt, set_files (delete path) d')
  end.
Definition rename_ignoring (from to : string) : M disk unit := fun d => (Ok tt, (fs_rename from to "" d).2).
Definition rotated (path : string) (i : Z) : string := path +:+ "." +:+ pretty i.
(** The loop from [i] down to 1. *)
Fixpoint rotate_loop (max_files : Z) (path : string) (i : nat) : M disk unit :=
  match i with
  | O => mret tt
  | S i' =>
      let old_name := rotated path (Z.of_nat i) in
      exists_ ← fs_query (fun d => path_exists d old_name);
      _ ← (if (exists_ : bool) then
             if max_files <=? Z.of_nat i + 1 then fs_remove old_name else rename_ignoring old_name (rotated path (Z.of_nat i + 1))
           else mret tt : M disk unit);
      rotate_loop max_files path i'
  end.
Definition MaybeRotate (g : Logger) (path : string) : M disk unit :=
  size ← fs_file_size path;
  match size with
  | None => mret tt
  | Some size =>
      if size <? max_bytes_ g then mret tt
      else _ ← rotate_loop (max_files_ g) path (Z.to_nat (u64 (max_files_ g - 1))); rename_ignoring path (rotated path 1)
  end.
Definition WriteToFile (g : Logger) (path line : string) : M disk unit := fun d =>
  let d := (MaybeRotate g path d).2 in
  match stream_append path kIoError "" d with
  | (Ok _, d) => stream_put path (bytes_of_string (line +:+ String "010" EmptyString)) d
  | (Err _ _, d) => (Ok tt, d)
  end.
Definition write_entry (g : Logger) (d : disk) (e : LogEntry) : disk :=
  if bool_decide (json_line e = "") then d
  else (WriteToFile g (if is_access e then access_log_path_ g else server_log_path_ g) (json_line e) d).2.
(** A batch of the writer, and what it writes when it ends. *)
Definition write_batch (s : Logger * disk) : Logger * disk :=
  let '(g, d) := s in (set_log_queue [] g, foldl (write_entry g) d (queue_ g)).
Definition ShutdownImpl (s : Logger * disk) : Logger * disk :=
  if negb (initialized_ s.1) then s else let '(g, d) := write_batch s in (set_initialized false g, d).

Definition parse_level (lv : string) : LogLevel :=
  if bool_decide (lv = "trace") then llTrace else if bool_decide (lv = "debug") then llDebug
  else if bool_decide (lv = "warn") then llWarn else if bool_decide (lv = "error") then llError else llInfo.
Definition InitImpl (log_dir log_level : string) (log_max_mb log_max_files : Z) (s : Logger * disk) : result unit * (Logger * disk) :=
  let '(g, d) := ShutdownImpl s in
  match EnsureDir log_dir d with
  | (Err c m, d) => (Err c m, (g, d))
  | (Ok _, d) =>
      (Ok tt, (mkLogger (path_join log_dir "server.log") (path_join log_dir "access.log") (u64 (log_max_mb * 1024 * 1024)) log_max_files (parse_level log_level) (queue_ g) true, d))
  end.

(** ** The queue is bounded *)

Lemma Push_bound e g : zlen (queue_ g) <= max_queue_ -> zlen (queue_ (Push e g)) <= max_queue_.
Proof.
  intros H. unfold Push. destruct (initialized_ g); cbn [negb]; [|done]. cbn [set_log_queue queue_]. rewrite zlen_app. change (zlen [e]) with 1. destruct (_ <=? _) eqn:E; zbool; [|lia].
  destruct (queue_ g) as [|x q]; [done|]. rewrite zlen_cons in H. cbn [tail]. lia.
Qed.

(** ** Rotation *)

Section rotation.
Context (path : string) (n : Z).
Abbreviation name := (rotated path).
Lemma name_inj i j : name i = name j -> i = j.
Proof. unfold rotated. by intros ?%(inj (String.append path))%(inj (String.append ".")) %(inj pretty). Qed.
Lemma name_path i : name i <> path.
Proof. unfold rotated. induction path as [|c p IH]; [done|]. intros E. apply IH. by injection E. Qed.
Definition no_dirs (d : disk) : Prop := healthy d /\ path ∉ d_dirs d /\ forall i, name i ∉ d_dirs d.
Definition shifted (k : Z) (d d' : disk) : Prop :=
  no_dirs d' /\ d_dirs d' = d_dirs d /\
  (forall j, 2 <= j <= k + 1 -> j < n -> d_files d' !! name j = d_files d !! name (j - 1)) /\
  (1 <= k -> d_files d' !! name 1 = None) /\
  (forall p, (forall j, 1 <= k -> 1 <= j <= k + 1 -> j < n -> p <> name j) -> d_files d' !! p = d_files d !! p).
Lemma rotate_loop_shifts (k : nat) : forall d, no_dirs d -> Z.of_nat k < n -> (Z.of_nat k + 1 < n -> d_files d !! name (Z.of_nat k + 1) = None) ->
  exists d', rotate_loop n path k d = (Ok tt, d') /\ shifted (Z.of_nat k) d d'.
Proof.
  induction k as [|k IH]; intros d Hd Hk Hnext; cbn [rotate_loop].
  - exists d. split; [done|]. split_and!; try done; try lia.
  - set (i := Z.of_nat (S k)) in *. pose proof Hd as (Hh & Hp & Hn). rewrite M_bind_eq. unfold fs_query, next_fault. unfold healthy in Hh. rewrite Hh.
    unfold path_exists. rewrite (bool_decide_false (name i ∈ d_dirs d)), orb_false_r by apply Hn. rewrite M_bind_eq.
    (* the file [i] moves on *)
    assert (exists d1, (if bool_decide (is_Some (d_files d !! name i)) then if n <=? i + 1 then fs_remove (name i) else rename_ignoring (name i) (name (i + 1)) else mret tt : M disk unit) d = (Ok tt, d1) /\
      no_dirs d1 /\ d_dirs d1 = d_dirs d /\ d_files d1 !! name i = None /\ (i + 1 < n -> d_files d1 !! name (i + 1) = d_files d !! name i) /\
      (forall p, p <> name i -> (i + 1 < n -> p <> name (i + 1)) -> d_files d1 !! p = d_files d !! p)) as (d1 & E1 & Hd1 & Edirs & F1 & F2 & F3).
    { destruct (d_files d !! name i) as [content|] eqn:Ec.
      - rewrite bool_decide_true by by eexists. destruct (n <=? i + 1) eqn:En; zbool.
        + unfold fs_remove, next_fault. rewrite Hh. eexists. split; [reflexivity|]. cbn. split_and!; try done; [apply lookup_delete_eq|lia|]. intros p Hne _. by rewrite lookup_delete_ne.
        + unfold rename_ignoring. rewrite (fs_rename_healthy _ _ _ _ content) by (done || apply Hn). eexists. split; [reflexivity|]. cbn.
          assert (name i <> name (i + 1)) by (intros ?%name_inj; lia). split_and!; try done.
          * rewrite lookup_insert_ne by done. apply lookup_delete_eq.
          * intros _. apply lookup_insert_eq.
          * intros p H1 H2. rewrite lookup_insert_ne by (intros <-; apply H2; [lia|done]). by rewrite lookup_delete_ne.
      - rewrite bool_decide_false by by intros [? ?]. exists d. split; [done|]. split_and!; try done. }
    rewrite E1. destruct (IH d1 Hd1) as (d' & E' & Hd' & Edirs' & G1 & G2 & G3); [lia| |].
    { intros _. replace (Z.of_nat k + 1) with i by lia. done. }
    exists d'. split; [done|]. split_and!; [done|congruence| | |].
    + intros j Hj Hlt. destruct (Z.eq_dec j (i + 1)) as [->|].
      * rewrite G3; [rewrite F2 by lia; do 2 f_equal; lia|]. intros j' _ Hj' _ ?%name_inj. lia.
      * rewrite G1 by lia. apply F3; [intros ?%name_inj; lia|]. intros _ ?%name_inj. lia.
    + intros _. destruct (Z.eq_dec (Z.of_nat k) 0) as [Ek|]; [|apply G2; lia]. rewrite G3; [|lia]. replace 1 with i by lia. done.
    + intros p Hne. rewrite G3, F3; [done|apply Hne; lia|intros Hi; apply Hne; lia|]. intros j ? Hj Hlt. apply Hne; lia.
Qed.
(** A file that has reached its size is put aside under the name with 1, the
    files put aside before move on by one, and the oldest one is removed. *)
Lemma MaybeRotate_shifts g d content : no_dirs d -> max_files_ g = n -> 2 <= n < 2 ^ 64 -> d_files d !! path = Some content -> max_bytes_ g <= zlen content ->
  exists d', MaybeRotate g path d = (Ok tt, d') /\ d_files d' !! path = None /\ d_files d' !! name 1 = Some content /\
  (forall j, 2 <= j < n -> d_files d' !! name j = d_files d !! name (j - 1)) /\
  (forall p, p <> path -> (forall j, 1 <= j < n -> p <> name j) -> d_files d' !! p = d_files d !! p).
Proof.
  intros Hd En Hn Hc Hsize. pose proof Hd as (Hh & Hp & _). unfold MaybeRotate. rewrite M_bind_eq. unfold fs_file_size, next_fault. unfold healthy in Hh. rewrite Hh, Hc. cbn [fmap option_fmap option_map].
  rewrite (proj2 (Z.ltb_ge _ _)) by done. rewrite En. assert (u64 (n - 1) = n - 1) as -> by (unfold u64; apply Z.mod_small; lia). rewrite M_bind_eq.
  destruct (rotate_loop_shifts (Z.to_nat (n - 1)) d Hd) as (d1 & -> & (Hh1 & Hp1 & Hn1) & _ & G1 & G2 & G3); [lia|lia|]. rewrite Z2Nat.id in * by lia.
  assert (d_files d1 !! path = Some content) as Hc1 by (rewrite G3; [done|]; intros j _ _ _ E; by apply (name_path j)).
  unfold rename_ignoring. rewrite (fs_rename_healthy _ _ _ _ content) by (done || apply Hn1). eexists. split; [reflexivity|]. cbn [fst snd set_files d_files].
  split_and!.
  - rewrite lookup_insert_ne by apply name_path. apply lookup_delete_eq.
  - apply lookup_insert_eq.
  - intros j Hj. rewrite lookup_insert_ne by (intros ?%name_inj; lia). rewrite lookup_delete_ne by (intros E; by apply (name_path j)). apply G1; lia.
  - intros p H1 H2. rewrite lookup_insert_ne by (intros E; by apply (H2 1); [lia|]). rewrite lookup_delete_ne by done. apply G3. intros j _ ? ?. apply H2. lia.
Qed.
End rotation.
