(* ===== verification/JwtAuth.v ===== *)
(** * Tokens

    [src/auth/jwt_auth.cpp] on top of the jwt-cpp library, of which the program
    uses the creation of a signed token and its verification. *)
From S2P Require Import Prelude Json.

(** ** The library *)

(** [decode], [verify] with HS256 and an issuer, and the subject of the token; or
    what the exception says. *)
Inductive jwt_outcome :=
  | JwtValid (subject : option string)
  | JwtVerificationError (what : string)
  | JwtOtherError (what : string).
Class JwtLibrary := {
  jwt_create : forall (secret issuer subject : string) (issued_at expires_at : Z), string + string;
  jwt_verify : forall (secret issuer : string) (now : Z) (token : string), jwt_outcome
}.
(** Times are seconds.  A token is accepted while it is valid, and rejected when
    it has expired. *)
Class JwtLaws (J : JwtLibrary) := {
  jwt_not_empty : forall secret issuer subject iat exp token, jwt_create secret issuer subject iat exp = inl token -> token <> "";
  jwt_accepts : forall secret issuer subject iat exp token now,
    jwt_create secret issuer subject iat exp = inl token -> iat <= now < exp -> jwt_verify secret issuer now token = JwtValid (Some subject);
  jwt_expires : forall secret issuer subject iat exp token now,
    jwt_create secret issuer subject iat exp = inl token -> exp < now -> exists what, jwt_verify secret issuer now token = JwtVerificationError what
}.

(** ** The component *)

Record JwtAuth := mkJwtAuth { secret_ : string; ttl_seconds_ : Z }.

Section jwt.
Context {J : JwtLibrary}.
Definition IssueToken (a : JwtAuth) (user_id : string) (now : Z) : result string :=
  match jwt_create (secret_ a) "coursedb" user_id now (now + ttl_seconds_ a) with
  | inl token => Ok token
  | inr what => Err kInternalError ("jwt issue failed: " +:+ what)
  end.
Definition ValidateToken (a : JwtAuth) (token : string) (now : Z) : result string :=
  match jwt_verify (secret_ a) "coursedb" now token with
  | JwtValid (Some subject) => Ok subject
  | JwtValid None => Err kUnauthorized "jwt: missing subject claim"
  | JwtVerificationError what => Err kUnauthorized ("jwt validation failed: " +:+ what)
  | JwtOtherError what => Err kUnauthorized ("jwt error: " +:+ what)
  end.

Context {JL : JwtLaws J}.
(** A token stands for its user until it expires, and for nobody afterwards. *)
Lemma ValidateToken_IssueToken a user now token later : IssueToken a user now = Ok token ->
  token <> "" /\ (now <= later < now + ttl_seconds_ a -> ValidateToken a token later = Ok user) /\
  (now + ttl_seconds_ a < later -> exists msg, ValidateToken a token later = Err kUnauthorized msg).
Proof.
  unfold IssueToken, ValidateToken. destruct (jwt_create _ _ _ _ _) as [t|] eqn:E; [|done]. intros [= ->]. split; [by eapply jwt_not_empty|]. split.
  - intros H. by rewrite (jwt_accepts _ _ _ _ _ _ _ E H).
  - intros H. destruct (jwt_expires _ _ _ _ _ _ _ E H) as [what ->]. by eexists.
Qed.
End jwt.

(** ** An instance

    The token is the claims and the key themselves, in digits. *)
Definition sample_claims (token : string) : option (string * string * string * Z * Z) := number token ≫= decode.
Definition sample_jwt : JwtLibrary := {|
  jwt_create secret issuer subject iat exp := inl (digits (encode (secret, issuer, subject, iat, exp)));
  jwt_verify secret issuer now token :=
    match sample_claims token with
    | Some (s, i, subject, iat, exp) =>
        if bool_decide (s = secret /\ i = issuer /\ iat <= now <= exp) then JwtValid (Some subject) else JwtVerificationError "invalid token"
    | None => JwtOtherError "invalid token supplied"
    end
|}.
Lemma sample_jwt_laws : JwtLaws sample_jwt.
Proof.
  split; cbn; intros secret issuer subject iat exp token; [intros [= <-]; by destruct (encode _)|..]; intros now [= <-] H; unfold sample_claims; rewrite number_digits; cbn [mbind option_bind];
    rewrite decode_encode; case_bool_decide as E; try done; [|lia|by eexists]. destruct E. split_and!; (done || lia).
Qed.
