(* ===== verification/Rbac.v ===== *)
(** * Users, groups and permissions

    [src/auth/rbac.cpp]: the permissions, the password hashes and the store of
    users and groups with its file.  PBKDF2 is a parameter and the random salt an
    argument; an exception that leaves an operation is an error of the model. *)
From S2P Require Import Prelude Disk Json.

(** ** Permissions *)

Inductive Permission := pRead | pWrite | pCreateTable | pDropTable | pDropDatabase | pAlterTable | pAdmin.
#[export] Instance Permission_eq_dec : EqDecision Permission.
Proof. solve_decision. Defined.
Definition mask_of (p : Permission) : Z :=
  match p with
  | pRead => 1 | pWrite => 2 | pCreateTable => 4 | pDropTable => 8 | pDropDatabase => 16 | pAlterTable => 32
  | pAdmin => 0xFFFFFFFF
  end.
#[export] Instance Permission_countable : Countable Permission.
Proof.
  refine (inj_countable' mask_of (fun z => match z with
    1 => pRead | 2 => pWrite | 4 => pCreateTable | 8 => pDropTable | 16 => pDropDatabase | 32 => pAlterTable | _ => pAdmin end) _).
  by intros [].
Defined.
Definition ParsePermission (name : string) : result Permission :=
  if bool_decide (name = "READ") then Ok pRead
  else if bool_decide (name = "WRITE") then Ok pWrite
  else if bool_decide (name = "CREATE_TABLE") then Ok pCreateTable
  else if bool_decide (name = "DROP_TABLE") then Ok pDropTable
  else if bool_decide (name = "DROP_DATABASE") then Ok pDropDatabase
  else if bool_decide (name = "ALTER_TABLE") then Ok pAlterTable
  else if bool_decide (name = "ADMIN") then Ok pAdmin
  else Err kInvalidArgument ("unknown permission: " +:+ name).
Definition PermissionName (p : Permission) : string :=
  match p with
  | pRead => "READ" | pWrite => "WRITE" | pCreateTable => "CREATE_TABLE" | pDropTable => "DROP_TABLE"
  | pDropDatabase => "DROP_DATABASE" | pAlterTable => "ALTER_TABLE" | pAdmin => "ADMIN"
  end.

(** ** Passwords *)

Definition kSaltBytes : Z := 16.
Definition kHashBytes : Z := 32.
Definition kPbkdf2Iters : Z := 260000.

Definition hex_digit (n : Z) : ascii := ascii_of_N (Z.to_N (if n <? 10 then 48 + n else 87 + n)).
Fixpoint HexEncode (data : bytes) : string :=
  match data with
  | [] => ""
  | b :: data => String (hex_digit (Z_of_byte b / 16)) (String (hex_digit (Z_of_byte b mod 16)) (HexEncode data))
  end.

Definition hex_value (c : ascii) : option Z :=
  let n := Z.of_N (N_of_ascii c) in
  if (48 <=? n) && (n <=? 57) then Some (n - 48)
  else if (97 <=? n) && (n <=? 102) then Some (n - 87)
  else if (65 <=? n) && (n <=? 70) then Some (n - 55)
  else None.
Definition is_space (c : ascii) : bool :=
  let n := Z.of_N (N_of_ascii c) in (n =? 32) || ((9 <=? n) && (n <=? 13)).
(** [std::strtoul(buf, &end, 16)] on two characters, when [end == buf + 2]. *)
Definition strtoul_pair (c1 c2 : ascii) : option Z :=
  if is_space c1 || bool_decide (c1 = "+"%char) then hex_value c2
  else if bool_decide (c1 = "-"%char) then (fun v => u64 (- v)) <$> hex_value c2
  else a ← hex_value c1; b ← hex_value c2; Some (16 * a + b).
Fixpoint HexDecode (hex : string) : option bytes :=
  match hex with
  | EmptyString => Some []
  | String c1 (String c2 rest) => v ← strtoul_pair c1 c2; out ← HexDecode rest; Some (byte_of_Z v :: out)
  | String _ EmptyString => None
  end.

(** [std::getline(ss, out, '$')] on the rest of the stream. *)
Fixpoint until_dollar (s : string) : string * string :=
  match s with
  | EmptyString => ("", "")
  | String c s =>
      if bool_decide (c = "$"%char) then ("", s)
      else let '(a, b) := until_dollar s in (String c a, b)
  end.
Definition getline_dollar (rest : string) : option (string * string) :=
  if bool_decide (rest = "") then None else Some (until_dollar rest).

(** [std::stoi]; [None] when it throws. *)
Fixpoint leading_digits (acc : option Z) (s : string) : option Z :=
  match s with
  | EmptyString => acc
  | String c s' =>
      let n := Z.of_N (N_of_ascii c) in
      if (48 <=? n) && (n <=? 57) then leading_digits (Some (10 * default 0 acc + (n - 48))) s' else acc
  end.
Fixpoint skip_spaces (s : string) : string :=
  match s with String c s' => if is_space c then skip_spaces s' else s | EmptyString => s end.
Definition stoi (s : string) : option Z :=
  let s := skip_spaces s in
  v ← match s with
      | String c s' =>
          if bool_decide (c = "-"%char) then Z.opp <$> leading_digits None s'
          else if bool_decide (c = "+"%char) then leading_digits None s'
          else leading_digits None s
      | EmptyString => None
      end;
  if (- 2 ^ 31 <=? v) && (v <? 2 ^ 31) then Some v else None.

Definition TimingSafeEqual (a b : bytes) : bool :=
  foldl (fun diff xy => Z.lor diff (Z.lxor (Z_of_byte xy.1) (Z_of_byte xy.2))) 0 (zip a b) =? 0.

Section passwords.
Context (pbkdf2 : string -> bytes -> Z -> bytes).
Definition HashPassword (password : string) (salt : bytes) : string :=
  "pbkdf2$" +:+ pretty kPbkdf2Iters +:+ "$" +:+ HexEncode salt +:+ "$" +:+ HexEncode (pbkdf2 password salt kPbkdf2Iters).
(** [None] when [std::stoi] throws. *)
Definition VerifyPassword (password stored : string) : option bool :=
  if negb (bool_decide (String.substring 0 7 stored = "pbkdf2$")) then Some false
  else match getline_dollar (String.substring 7 (String.length stored - 7) stored) with
  | None => Some false
  | Some (iters_str, rest) =>
      match getline_dollar rest with
      | None => Some false
      | Some (salt_hex, rest) =>
          match getline_dollar rest with
          | None => Some false
          | Some (hash_hex, _) =>
              iters ← stoi iters_str;
              match HexDecode salt_hex, HexDecode hash_hex with
              | Some salt, Some stored_hash =>
                  if negb (zlen stored_hash =? kHashBytes) then Some false
                  else Some (TimingSafeEqual (pbkdf2 password salt iters) stored_hash)
              | _, _ => Some false
              end
          end
      end
  end.
End passwords.

(** ** Records *)

Record UserRecord := mkUserRecord { user_id : string; password_hash : string; user_groups : gset string; user_permissions : Z }.
Record GroupRecord := mkGroupRecord { group_name : string; group_permissions : Z }.
Definition set_user_groups (f : gset string -> gset string) (u : UserRecord) : UserRecord :=
  mkUserRecord (user_id u) (password_hash u) (f (user_groups u)) (user_permissions u).
Definition set_user_permissions (f : Z -> Z) (u : UserRecord) : UserRecord :=
  mkUserRecord (user_id u) (password_hash u) (user_groups u) (f (user_permissions u)).
Definition set_group_permissions (f : Z -> Z) (g : GroupRecord) : GroupRecord :=
  mkGroupRecord (group_name g) (f (group_permissions g)).

Record RbacStore := mkRbacStore { store_path_ : string; users_ : gmap string UserRecord; groups_ : gmap string GroupRecord }.
Definition new_RbacStore (store_path : string) : RbacStore := mkRbacStore store_path ∅ ∅.
Definition set_users (m : gmap string UserRecord) (s : RbacStore) : RbacStore := mkRbacStore (store_path_ s) m (groups_ s).
Definition set_groups (m : gmap string GroupRecord) (s : RbacStore) : RbacStore := mkRbacStore (store_path_ s) (users_ s) m.

Section store.
Context {L : JsonLibrary} {O : HashOrder} (pbkdf2 : string -> bytes -> Z -> bytes).
Abbreviation T := (M (RbacStore * disk)).

Definition UserToJson (u : UserRecord) : json :=
  object [("user_id", JString (user_id u)); ("password_hash", JString (password_hash u));
          ("permissions", JInt (user_permissions u)); ("groups", JArray (JString <$> visit_set (user_groups u)))].
Definition UserFromJson (j : json) : option UserRecord :=
  id ← at_ j "user_id" ≫= get_string;
  hash ← at_ j "password_hash" ≫= get_string;
  permissions ← at_ j "permissions" ≫= get_u32;
  groups ← at_ j "groups";
  names ← mapM get_string (items_of groups);
  Some (mkUserRecord id hash (list_to_set names) permissions).
Definition GroupToJson (g : GroupRecord) : json :=
  object [("name", JString (group_name g)); ("permissions", JInt (group_permissions g))].
Definition GroupFromJson (j : json) : option GroupRecord :=
  name ← at_ j "name" ≫= get_string;
  permissions ← at_ j "permissions" ≫= get_u32;
  Some (mkGroupRecord name permissions).

(** The loops of [Load]; they stop at the first document that is not a record. *)
Fixpoint load_users (docs : list json) (m : gmap string UserRecord) : gmap string UserRecord * bool :=
  match docs with
  | [] => (m, true)
  | j :: docs => match UserFromJson j with Some u => load_users docs (<[user_id u := u]> m) | None => (m, false) end
  end.
Fixpoint load_groups (docs : list json) (m : gmap string GroupRecord) : gmap string GroupRecord * bool :=
  match docs with
  | [] => (m, true)
  | j :: docs => match GroupFromJson j with Some g => load_groups docs (<[group_name g := g]> m) | None => (m, false) end
  end.
Definition parse_error : result unit := Err kIoError ("rbac parse error: " +:+ json_what).
Definition Load : T unit :=
  s ← this;
  _ ← on_disk (stream_open (store_path_ s) kIoError ("cannot open rbac store: " +:+ store_path_ s));
  text ← on_disk (d ← get; stream_read (store_path_ s) 0 (zlen (file_content d (store_path_ s))));
  match json_parse (string_of_bytes text) with
  | None => lift parse_error
  | Some j =>
      _ ← update (fun s => set_groups ∅ (set_users ∅ s));
      match at_ j "users" with
      | None => lift parse_error
      | Some users =>
          let '(m, fine) := load_users (items_of users) ∅ in
          _ ← update (set_users m);
          match fine, at_ j "groups" with
          | true, Some groups =>
              let '(m, fine) := load_groups (items_of groups) ∅ in
              _ ← update (set_groups m);
              if fine : bool then mret tt else lift parse_error
          | _, _ => lift parse_error
          end
      end
  end.

Definition store_json (s : RbacStore) : json :=
  object [("users", JArray ((fun x => UserToJson x.2) <$> visit (users_ s)));
          ("groups", JArray ((fun x => GroupToJson x.2) <$> visit (groups_ s)))].
Definition Save : T unit :=
  s ← this;
  let tmp := store_path_ s +:+ ".tmp" in
  _ ← on_disk (stream_create tmp kIoError ("cannot write rbac store: " +:+ tmp));
  _ ← on_disk (stream_put tmp (bytes_of_string (json_dump_indented (store_json s))));
  on_disk (fs_rename tmp (store_path_ s) "cannot rename rbac store: ").

Definition Open (salt : bytes) : T unit :=
  s ← this;
  _ ← on_disk (EnsureDir (dir_of (store_path_ s)));
  exists_ ← on_disk (FileExists (store_path_ s));
  if exists_ : bool then Load
  else
    let admin := mkUserRecord "admin" (HashPassword pbkdf2 "admin" salt) ∅ (mask_of pAdmin) in
    _ ← update (fun s => set_users (<["admin" := admin]> (users_ s)) s);
    Save.
Definition Flush : T unit := Save.

(** ** Operations *)

Definition user_not_found (u : string) : string := "user not found: " +:+ u.
Definition group_not_found (g : string) : string := "group not found: " +:+ g.
Definition CreateUser (u password : string) (salt : bytes) : T unit :=
  s ← this;
  _ ← reject_if (bool_decide (is_Some (users_ s !! u))) kAlreadyExists ("user already exists: " +:+ u);
  _ ← update (set_users (<[u := mkUserRecord u (HashPassword pbkdf2 password salt) ∅ 0]> (users_ s)));
  Save.
Definition DropUser (u : string) : T unit :=
  s ← this;
  _ ← reject_if (negb (bool_decide (is_Some (users_ s !! u)))) kNotFound (user_not_found u);
  _ ← update (set_users (delete u (users_ s)));
  Save.
Definition CheckPassword (u password : string) : T bool :=
  s ← this;
  match users_ s !! u with
  | None => mret false
  | Some r =>
      match VerifyPassword pbkdf2 password (password_hash r) with
      | Some b => mret b
      | None => throw kInternalError "stoi"
      end
  end.
Definition CreateGroup (g : string) : T unit :=
  s ← this;
  _ ← reject_if (bool_decide (is_Some (groups_ s !! g))) kAlreadyExists ("group already exists: " +:+ g);
  _ ← update (set_groups (<[g := mkGroupRecord g 0]> (groups_ s)));
  Save.
Definition DropGroup (g : string) : T unit :=
  s ← this;
  _ ← reject_if (negb (bool_decide (is_Some (groups_ s !! g)))) kNotFound (group_not_found g);
  _ ← update (fun s => set_users (set_user_groups (fun X => X ∖ {[g]}) <$> users_ s) (set_groups (delete g (groups_ s)) s));
  Save.
Definition AddUserToGroup (u g : string) : T unit :=
  s ← this;
  _ ← reject_if (negb (bool_decide (is_Some (users_ s !! u)))) kNotFound (user_not_found u);
  _ ← reject_if (negb (bool_decide (is_Some (groups_ s !! g)))) kNotFound (group_not_found g);
  _ ← update (set_users (alter (set_user_groups (fun X => X ∪ {[g]})) u (users_ s)));
  Save.
(** A change of one user or group that has to exist, and the save. *)
Definition alter_user (u : string) (f : UserRecord -> UserRecord) : T unit :=
  s ← this;
  _ ← reject_if (negb (bool_decide (is_Some (users_ s !! u)))) kNotFound (user_not_found u);
  _ ← update (set_users (alter f u (users_ s)));
  Save.
Definition alter_group (g : string) (f : GroupRecord -> GroupRecord) : T unit :=
  s ← this;
  _ ← reject_if (negb (bool_decide (is_Some (groups_ s !! g)))) kNotFound (group_not_found g);
  _ ← update (set_groups (alter f g (groups_ s)));
  Save.
Definition RemoveUserFromGroup (u g : string) : T unit := alter_user u (set_user_groups (fun X => X ∖ {[g]})).
Definition GrantToUser (u : string) (p : Permission) : T unit := alter_user u (set_user_permissions (fun m => Z.lor m (mask_of p))).
Definition GrantToGroup (g : string) (p : Permission) : T unit := alter_group g (set_group_permissions (fun m => Z.lor m (mask_of p))).
Definition clear_mask (m mask : Z) : Z := Z.land m (u32 (Z.lnot mask)).
Definition RevokeFromUser (u : string) (p : Permission) : T unit := alter_user u (set_user_permissions (fun m => clear_mask m (mask_of p))).
Definition RevokeFromGroup (g : string) (p : Permission) : T unit := alter_group g (set_group_permissions (fun m => clear_mask m (mask_of p))).

(** A mask that allows the permission. *)
Definition allows (m : Z) (p : Permission) : bool := (m =? mask_of pAdmin) || negb (Z.land m (mask_of p) =? 0).
Definition HasPermission (s : RbacStore) (u : string) (p : Permission) : bool :=
  match users_ s !! u with
  | None => false
  | Some r =>
      allows (user_permissions r) p ||
      existsb (fun g => match groups_ s !! g with Some gr => allows (group_permissions gr) p | None => false end)
        (visit_set (user_groups r))
  end.
Definition UserExists (s : RbacStore) (u : string) : bool := bool_decide (is_Some (users_ s !! u)).
End store.
