(* ===== verification/RbacSpec.v ===== *)
(** * The access policy

    The store of users and groups against a policy in which accounts and groups
    hold sets of permissions: every sequence of operations reports what the
    policy reports, and permission and password checks answer as it does.  The
    file the store saves is read back as the same store. *)
From S2P Require Import Prelude Disk Json Rbac.

(** ** Password hashes *)

Lemma hex_digit_value n : 0 <= n < 16 -> hex_value (hex_digit n) = Some n.
Proof.
  intros Hn. assert (n ∈ seqZ 0 16) as Hin by (apply elem_of_seqZ; lia). clear Hn. revert n Hin. apply Forall_forall. by_computation.
Qed.
Lemma hex_digit_plain n : 0 <= n < 16 ->
  is_space (hex_digit n) = false /\ hex_digit n <> "+"%char /\ hex_digit n <> "-"%char /\ hex_digit n <> "$"%char.
Proof.
  intros Hn. assert (n ∈ seqZ 0 16) as Hin by (apply elem_of_seqZ; lia). clear Hn. revert n Hin. apply Forall_forall. by_computation.
Qed.
Lemma hex_halves b : 0 <= Z_of_byte b / 16 < 16 /\ 0 <= Z_of_byte b mod 16 < 16.
Proof.
  pose proof (Z_of_byte_range b). split; [|by apply Z.mod_pos_bound]. split; [apply Z.div_pos; lia|apply Z.div_lt_upper_bound; lia].
Qed.
Lemma HexDecode_HexEncode data : HexDecode (HexEncode data) = Some data.
Proof.
  induction data as [|b data IH]; [done|]. cbn [HexEncode HexDecode]. destruct (hex_halves b) as [H1 H2].
  destruct (hex_digit_plain _ H1) as (P1 & P2 & P3 & _). unfold strtoul_pair. rewrite P1, !bool_decide_false by done. cbn [orb].
  rewrite (hex_digit_value _ H1), (hex_digit_value _ H2). cbn [mbind option_bind]. rewrite IH. cbn [mbind option_bind].
  rewrite <- Z.div_mod, byte_of_Z_of_byte by lia. done.
Qed.
Definition no_dollar (s : string) : Prop := "$"%char ∉ String.list_ascii_of_string s.
Lemma HexEncode_no_dollar data : no_dollar (HexEncode data).
Proof.
  unfold no_dollar. induction data as [|b data IH]; cbn [HexEncode String.list_ascii_of_string]; [apply not_elem_of_nil|].
  destruct (hex_halves b) as [H1 H2]. rewrite !not_elem_of_cons.
  destruct (hex_digit_plain _ H1) as (_ & _ & _ & ?), (hex_digit_plain _ H2) as (_ & _ & _ & ?). split_and!; [congruence..|done].
Qed.
Lemma until_dollar_app a b : no_dollar a -> until_dollar (a +:+ "$" +:+ b) = (a, b).
Proof.
  unfold no_dollar. induction a as [|c a IH]; intros Ha; [done|]. cbn [String.list_ascii_of_string] in Ha. apply not_elem_of_cons in Ha as [Hc Ha].
  change (String c a +:+ "$" +:+ b) with (String c (a +:+ "$" +:+ b)). cbn [until_dollar]. rewrite bool_decide_false by congruence. by rewrite IH.
Qed.
Lemma until_dollar_end a : no_dollar a -> until_dollar a = (a, "").
Proof.
  unfold no_dollar. induction a as [|c a IH]; intros Ha; [done|]. cbn [String.list_ascii_of_string] in Ha. apply not_elem_of_cons in Ha as [Hc Ha].
  cbn [until_dollar]. rewrite bool_decide_false by congruence. by rewrite IH.
Qed.
Lemma TimingSafeEqual_eq a b : length a = length b -> TimingSafeEqual a b = bool_decide (a = b).
Proof.
  intros Hl. unfold TimingSafeEqual.
  assert (forall acc, 0 <= acc -> foldl (fun diff xy => Z.lor diff (Z.lxor (Z_of_byte xy.1) (Z_of_byte xy.2))) acc (zip a b) = 0 <-> acc = 0 /\ a = b) as H.
  { revert b Hl. induction a as [|x a IH]; intros [|y b] Hl acc Hacc; try done; [cbn; naive_solver|]. cbn [zip zip_with foldl fst snd].
    pose proof (Z_of_byte_range x). pose proof (Z_of_byte_range y). rewrite IH; [|by injection Hl|apply Z.lor_nonneg; split; [done|apply Z.lxor_nonneg; lia]].
    rewrite Z.lor_eq_0_iff, Z.lxor_eq_0_iff. split; [|by intros [-> [= -> ->]]]. intros [[-> E] ->]. split; [done|]. f_equal.
    rewrite <- (byte_of_Z_of_byte x), <- (byte_of_Z_of_byte y). by rewrite E. }
  destruct (Z.eqb_spec (foldl (fun diff xy => Z.lor diff (Z.lxor (Z_of_byte xy.1) (Z_of_byte xy.2))) 0 (zip a b)) 0) as [E|E].
  - apply H in E as [_ ->]; [|done]. by rewrite bool_decide_true.
  - rewrite bool_decide_false; [done|]. intros ->. apply E, H; [done|by split].
Qed.

(** ** The policy *)

(** The permissions a statement can require.  ADMIN stands for all of them. *)
Definition basic : gset Permission := {[pRead; pWrite; pCreateTable; pDropTable; pDropDatabase; pAlterTable]}.
Definition expand (p : Permission) : gset Permission := if bool_decide (p = pAdmin) then basic else {[p]}.

Record account := mkAccount { a_password : string; a_salt : bytes; a_groups : gset string; a_permissions : gset Permission }.
Record policy := mkPolicy { accounts : gmap string account; roles : gmap string (gset Permission) }.

Inductive rbac_op :=
  | RCreateUser (u password : string) (salt : bytes)
  | RDropUser (u : string)
  | RCreateGroup (g : string)
  | RDropGroup (g : string)
  | RAddUserToGroup (u g : string)
  | RRemoveUserFromGroup (u g : string)
  | RGrantToUser (u : string) (p : Permission)
  | RGrantToGroup (g : string) (p : Permission)
  | RRevokeFromUser (u : string) (p : Permission)
  | RRevokeFromGroup (g : string) (p : Permission).

Definition set_a_groups (f : gset string -> gset string) (a : account) : account :=
  mkAccount (a_password a) (a_salt a) (f (a_groups a)) (a_permissions a).
Definition set_a_permissions (f : gset Permission -> gset Permission) (a : account) : account :=
  mkAccount (a_password a) (a_salt a) (a_groups a) (f (a_permissions a)).
(** [None] for success. *)
Definition p_step (o : rbac_op) (P : policy) : option StatusCode * policy :=
  let on_account u f :=
    match accounts P !! u with
    | Some _ => (None, mkPolicy (alter f u (accounts P)) (roles P))
    | None => (Some kNotFound, P)
    end in
  let on_role g f :=
    match roles P !! g with
    | Some _ => (None, mkPolicy (accounts P) (alter f g (roles P)))
    | None => (Some kNotFound, P)
    end in
  match o with
  | RCreateUser u password salt =>
      match accounts P !! u with
      | Some _ => (Some kAlreadyExists, P)
      | None => (None, mkPolicy (<[u := mkAccount password salt ∅ ∅]> (accounts P)) (roles P))
      end
  | RDropUser u =>
      match accounts P !! u with
      | Some _ => (None, mkPolicy (delete u (accounts P)) (roles P))
      | None => (Some kNotFound, P)
      end
  | RCreateGroup g =>
      match roles P !! g with
      | Some _ => (Some kAlreadyExists, P)
      | None => (None, mkPolicy (accounts P) (<[g := ∅]> (roles P)))
      end
  | RDropGroup g =>
      match roles P !! g with
      | Some _ => (None, mkPolicy (set_a_groups (fun X => X ∖ {[g]}) <$> accounts P) (delete g (roles P)))
      | None => (Some kNotFound, P)
      end
  | RAddUserToGroup u g =>
      match accounts P !! u, roles P !! g with
      | Some _, Some _ => (None, mkPolicy (alter (set_a_groups (fun X => X ∪ {[g]})) u (accounts P)) (roles P))
      | _, _ => (Some kNotFound, P)
      end
  | RRemoveUserFromGroup u g => on_account u (set_a_groups (fun X => X ∖ {[g]}))
  | RGrantToUser u p => on_account u (set_a_permissions (fun X => X ∪ expand p))
  | RRevokeFromUser u p => on_account u (set_a_permissions (fun X => X ∖ expand p))
  | RGrantToGroup g p => on_role g (fun X => X ∪ expand p)
  | RRevokeFromGroup g p => on_role g (fun X => X ∖ expand p)
  end.
(** A user holds a permission, directly or through a group. *)
Definition permitted (P : policy) (u : string) (p : Permission) : Prop :=
  exists a, accounts P !! u = Some a /\
    (p ∈ a_permissions a \/ exists g X, g ∈ a_groups a /\ roles P !! g = Some X /\ p ∈ X).
Definition initial_policy (salt : bytes) : policy := mkPolicy {["admin" := mkAccount "admin" salt ∅ basic]} ∅.

(** ** Masks *)

Definition bit (p : Permission) : Z := Z.log2 (mask_of p).
Definition mask_is (m : Z) (X : gset Permission) : Prop :=
  in_u32 m /\ forall p, p ∈ basic -> Z.testbit m (bit p) = bool_decide (p ∈ X).
Lemma mask_cases (P : Permission -> Prop) : P pRead -> P pWrite -> P pCreateTable -> P pDropTable -> P pDropDatabase -> P pAlterTable ->
  forall p, p ∈ basic -> P p.
Proof. intros. unfold basic in *. by destruct p. Qed.
Lemma bits_basic : forall q, q ∈ basic -> 0 <= bit q < 32 /\ mask_of q = 2 ^ bit q.
Proof. apply (mask_cases (fun q => 0 <= bit q < 32 /\ mask_of q = 2 ^ bit q)); by_computation. Qed.
Lemma mask_bits p : forall q, q ∈ basic -> Z.testbit (mask_of p) (bit q) = bool_decide (q ∈ expand p).
Proof. apply (mask_cases (fun q => Z.testbit (mask_of p) (bit q) = bool_decide (q ∈ expand p))); destruct p; vm_compute; reflexivity. Qed.
Lemma land_pow2 m k : 0 <= k -> negb (Z.land m (2 ^ k) =? 0) = Z.testbit m k.
Proof.
  intros Hk. destruct (Z.testbit m k) eqn:E.
  - destruct (Z.eqb_spec (Z.land m (2 ^ k)) 0) as [E0|]; [|done]. assert (Z.testbit (Z.land m (2 ^ k)) k = true) as H; [|by rewrite E0, Z.testbit_0_l in H].
    by rewrite Z.land_spec, E, Z.pow2_bits_true.
  - assert (Z.land m (2 ^ k) = 0) as ->; [|done]. apply Z.bits_inj'. intros n Hn. rewrite Z.land_spec, Z.pow2_bits_eqb, Z.testbit_0_l by done.
    destruct (Z.eqb_spec k n) as [<-|]; [by rewrite E|apply andb_false_r].
Qed.
Lemma allows_mask m X p : mask_is m X -> p ∈ basic -> allows m p = bool_decide (p ∈ X).
Proof.
  intros [_ Hm] Hp. rewrite <- (Hm p Hp). destruct (bits_basic p Hp) as [Hb Ep]. unfold allows. rewrite Ep, land_pow2 by lia.
  destruct (Z.eqb_spec m (mask_of pAdmin)) as [->|]; [|done]. rewrite (mask_bits pAdmin p Hp). unfold expand. by rewrite !bool_decide_true.
Qed.
Lemma u32_log2 m : 0 <= m -> Z.log2 m < 32 -> in_u32 m.
Proof. intros H0 Hl. split; [done|]. destruct (decide (m = 0)) as [->|]; [done|]. apply Z.log2_lt_pow2; lia. Qed.
Lemma log2_in_u32 m : in_u32 m -> 0 <= m /\ Z.log2 m < 32.
Proof. intros [H0 H1]. split; [done|]. destruct (decide (m = 0)) as [->|]; [done|]. apply Z.log2_lt_pow2; lia. Qed.
Lemma mask_u32 p : in_u32 (mask_of p).
Proof. destruct p; by_computation. Qed.
Lemma mask_grant m X p : mask_is m X -> mask_is (Z.lor m (mask_of p)) (X ∪ expand p).
Proof.
  intros [Hu Hm]. split.
  - apply log2_in_u32 in Hu as [H1 H2]. destruct (log2_in_u32 _ (mask_u32 p)) as [H3 H4]. apply u32_log2; [by apply Z.lor_nonneg|].
    rewrite Z.log2_lor by done. lia.
  - intros q Hq. rewrite Z.lor_spec, (Hm q Hq), (mask_bits p q Hq). by rewrite <- bool_decide_or; apply bool_decide_ext; set_solver.
Qed.
Lemma mask_revoke m X p : mask_is m X -> mask_is (clear_mask m (mask_of p)) (X ∖ expand p).
Proof.
  intros [Hu Hm]. unfold clear_mask, u32. split.
  - apply log2_in_u32 in Hu as [H1 H2]. apply u32_log2; [apply Z.land_nonneg; by left|].
    eapply Z.le_lt_trans; [apply Z.log2_land; [done|apply Z.mod_pos_bound; lia]|]. lia.
  - intros q Hq. destruct (bits_basic q Hq) as [Hb _]. rewrite Z.land_spec, Z.mod_pow2_bits_low, Z.lnot_spec, (Hm q Hq), (mask_bits p q Hq) by lia.
    rewrite <- bool_decide_not, <- bool_decide_and. apply bool_decide_ext. set_solver.
Qed.
Lemma mask_empty : mask_is 0 ∅.
Proof. split; [done|]. intros p _. by rewrite Z.testbit_0_l. Qed.
Lemma mask_admin : mask_is (mask_of pAdmin) basic.
Proof. split; [apply mask_u32|]. intros p Hp. rewrite (mask_bits pAdmin p Hp). done. Qed.

Section policy.
Context {L : JsonLibrary} {LL : JsonLaws L} {O : HashOrder} {OL : HashOrderLaws O}.
Context (pbkdf2 : string -> bytes -> Z -> bytes) (Hpbkdf2 : forall password salt iters, zlen (pbkdf2 password salt iters) = kHashBytes).

(** A password is accepted exactly when its hash is the stored one. *)
Lemma VerifyPassword_HashPassword password password' salt :
  VerifyPassword pbkdf2 password' (HashPassword pbkdf2 password salt) =
    Some (bool_decide (pbkdf2 password' salt kPbkdf2Iters = pbkdf2 password salt kPbkdf2Iters)).
Proof.
  unfold VerifyPassword, HashPassword. set (hash := pbkdf2 password salt kPbkdf2Iters).
  assert (forall s, String.substring 0 7 ("pbkdf2$" +:+ s) = "pbkdf2$") as -> by (intros s; by destruct s).
  rewrite bool_decide_true by done. cbn [negb].
  assert (forall s, String.substring 7 (String.length ("pbkdf2$" +:+ s) - 7) ("pbkdf2$" +:+ s) = s) as ->.
  { intros s. simpl. rewrite Nat.sub_0_r. change ("" +:+ s) with s.
    induction s as [|c s IH]; [done|]. simpl in *. by rewrite IH. }
  unfold getline_dollar. rewrite bool_decide_false by done. rewrite until_dollar_app by by_computation. rewrite bool_decide_false by (by destruct (HexEncode salt)).
  rewrite until_dollar_app by apply HexEncode_no_dollar.
  assert (HexEncode hash <> "") as Hne.
  { pose proof (Hpbkdf2 password salt kPbkdf2Iters) as Hl. fold hash in Hl. by destruct hash. }
  rewrite bool_decide_false by done. rewrite until_dollar_end by apply HexEncode_no_dollar.
  assert (stoi (pretty kPbkdf2Iters) = Some kPbkdf2Iters) as -> by (vm_compute; reflexivity). cbn [mbind option_bind].
  rewrite !HexDecode_HexEncode. unfold hash at 1. rewrite Hpbkdf2, Z.eqb_refl. cbn [negb]. f_equal. apply TimingSafeEqual_eq.
  pose proof (Hpbkdf2 password salt kPbkdf2Iters). pose proof (Hpbkdf2 password' salt kPbkdf2Iters). unfold zlen, hash in *. lia.
Qed.

(** ** The file of the store *)

(** A path of a file in a directory, and a disk on which nothing is in its way. *)
Definition path_ok (path : string) : Prop := dir_of path <> "" /\ path ∉ dirs_of (dir_of path) /\ path +:+ ".tmp" ∉ dirs_of (dir_of path).
Definition clear (path : string) (d : disk) : Prop :=
  healthy d /\ path +:+ ".tmp" ∉ d_dirs d /\ path ∉ d_dirs d /\ dirs_clear d (dir_of path).
(** The directory of the store is there as well. *)
Definition saveable (path : string) (d : disk) : Prop := path_ok path /\ clear path d /\ dir_exists d (dir_of path) = true.
Definition saved (s : RbacStore) (d : disk) : Prop :=
  d_files d !! store_path_ s = Some (bytes_of_string (json_dump_indented (store_json s))).
Lemma Save_saveable s d : saveable (store_path_ s) d -> exists d', Save (s, d) = (Ok tt, (s, d')) /\ saveable (store_path_ s) d' /\ saved s d'.
Proof.
  intros (Hok & (Hh & Ht & Hp & Hc) & Hdir). unfold Save. set (tmp := store_path_ s +:+ ".tmp") in *. rewrite M_bind_eq. unfold this at 1. cbv zeta. rewrite M_bind_eq.
  unfold on_disk at 1. cbn [fst snd]. rewrite stream_create_healthy by (done || by rewrite dir_of_tmp). rewrite M_bind_eq. unfold on_disk at 1. cbn [fst snd].
  rewrite stream_put_healthy by done. unfold on_disk. cbn [fst snd].
  erewrite fs_rename_healthy; [|done|cbn; apply lookup_insert_eq|done]. cbn [fst snd]. eexists. split; [reflexivity|]. split.
  { split; [done|]. split; [|done]. split_and!; try done. intros p Hin. cbn. destruct Hok as (_ & H1 & H2).
    rewrite lookup_insert_ne, lookup_delete_ne, lookup_insert_ne, lookup_insert_ne by (intros <-; done). by apply Hc. }
  unfold saved. cbn [set_files d_files]. rewrite lookup_insert_eq. f_equal. unfold file_content. cbn [d_files set_files].
  by rewrite lookup_insert_eq.
Qed.

(** ** The store implements the policy *)

Definition user_is (u : string) (r : UserRecord) (a : account) : Prop :=
  user_id r = u /\ password_hash r = HashPassword pbkdf2 (a_password a) (a_salt a) /\ user_groups r = a_groups a /\
  mask_is (user_permissions r) (a_permissions a).
Definition group_is (g : string) (r : GroupRecord) (X : gset Permission) : Prop := group_name r = g /\ mask_is (group_permissions r) X.
Definition implements (s : RbacStore) (P : policy) : Prop :=
  (forall u, option_Forall2 (user_is u) (users_ s !! u) (accounts P !! u)) /\
  (forall g, option_Forall2 (group_is g) (groups_ s !! g) (roles P !! g)).

Definition rbac_step (o : rbac_op) : M (RbacStore * disk) unit :=
  match o with
  | RCreateUser u password salt => CreateUser pbkdf2 u password salt
  | RDropUser u => DropUser u
  | RCreateGroup g => CreateGroup g
  | RDropGroup g => DropGroup g
  | RAddUserToGroup u g => AddUserToGroup u g
  | RRemoveUserFromGroup u g => RemoveUserFromGroup u g
  | RGrantToUser u p => GrantToUser u p
  | RGrantToGroup g p => GrantToGroup g p
  | RRevokeFromUser u p => RevokeFromUser u p
  | RRevokeFromGroup g p => RevokeFromGroup g p
  end.
Definition code_of {A} (r : result A) : option StatusCode := match r with Ok _ => None | Err c _ => Some c end.

(** What an operation leaves, whether it succeeds or not. *)
Definition stepped (s : RbacStore) (code : option StatusCode) (P' : policy) (out : result unit * (RbacStore * disk)) : Prop :=
  code_of out.1 = code /\ implements out.2.1 P' /\ store_path_ out.2.1 = store_path_ s /\ saveable (store_path_ s) out.2.2 /\ saved out.2.1 out.2.2.
Lemma stepped_save f s d P' : saveable (store_path_ s) d -> store_path_ (f s) = store_path_ s -> implements (f s) P' ->
  stepped s None P' ((_ ← update f; Save) (s, d)).
Proof.
  intros Hd Hp Hi. rewrite M_bind_eq. unfold update at 1. cbn [fst snd]. rewrite <- Hp in Hd.
  destruct (Save_saveable (f s) d Hd) as (d' & -> & Hd' & Hs'). rewrite Hp in Hd'. unfold stepped. cbn [fst snd code_of]. by split_and!.
Qed.
Lemma stepped_reject s d P c msg : implements s P -> saveable (store_path_ s) d -> saved s d ->
  stepped s (Some c) P (throw c msg (s, d)).
Proof. intros. unfold stepped, throw. cbn [fst snd code_of]. by split_and!. Qed.

Lemma implements_user s P u : implements s P -> option_Forall2 (user_is u) (users_ s !! u) (accounts P !! u).
Proof. intros [H _]. apply H. Qed.
Lemma implements_group s P g : implements s P -> option_Forall2 (group_is g) (groups_ s !! g) (roles P !! g).
Proof. intros [_ H]. apply H. Qed.
Lemma implements_set_users s P m m' : implements s P -> (forall u, option_Forall2 (user_is u) (m !! u) (m' !! u)) ->
  implements (set_users m s) (mkPolicy m' (roles P)).
Proof. intros [_ Hg] Hu. by split. Qed.
Lemma implements_set_groups s P m m' : implements s P -> (forall g, option_Forall2 (group_is g) (m !! g) (m' !! g)) ->
  implements (set_groups m s) (mkPolicy (accounts P) m').
Proof. intros [Hu _] Hg. by split. Qed.

(** One entry of two related maps changes. *)
Lemma related_alter {A B} (R : string -> A -> B -> Prop) f g k (m : gmap string A) (m' : gmap string B) :
  (forall x y, R k x y -> R k (f x) (g y)) -> (forall u, option_Forall2 (R u) (m !! u) (m' !! u)) ->
  forall u, option_Forall2 (R u) (alter f k m !! u) (alter g k m' !! u).
Proof.
  intros Hf Hm u. specialize (Hm u). destruct (decide (k = u)) as [->|]; [rewrite !lookup_alter_eq|by rewrite !lookup_alter_ne].
  destruct Hm; cbn; constructor. by apply Hf.
Qed.
Lemma related_insert {A B} (R : string -> A -> B -> Prop) k x y (m : gmap string A) (m' : gmap string B) :
  R k x y -> (forall u, option_Forall2 (R u) (m !! u) (m' !! u)) -> forall u, option_Forall2 (R u) (<[k := x]> m !! u) (<[k := y]> m' !! u).
Proof.
  intros Hk Hm u. destruct (decide (k = u)) as [->|]; [rewrite !lookup_insert_eq; by constructor|by rewrite !lookup_insert_ne].
Qed.
Lemma related_delete {A B} (R : string -> A -> B -> Prop) k (m : gmap string A) (m' : gmap string B) :
  (forall u, option_Forall2 (R u) (m !! u) (m' !! u)) -> forall u, option_Forall2 (R u) (delete k m !! u) (delete k m' !! u).
Proof.
  intros Hm u. destruct (decide (k = u)) as [->|]; [rewrite !lookup_delete_eq; constructor|by rewrite !lookup_delete_ne].
Qed.

Lemma stepped_if (b : bool) c msg (m : M (RbacStore * disk) unit) s d P code P' :
  implements s P -> saveable (store_path_ s) d -> saved s d ->
  (if b then code = Some c /\ P' = P else stepped s code P' (m (s, d))) -> stepped s code P' ((_ ← reject_if b c msg; m) (s, d)).
Proof.
  intros Hi Hd Hs H. rewrite M_bind_eq. destruct b; [|done]. destruct H as [-> ->]. by apply stepped_reject.
Qed.
Lemma is_Some_related {A B} (R : A -> B -> Prop) x y : option_Forall2 R x y -> bool_decide (is_Some x) = match y with Some _ => true | None => false end.
Proof. intros [x' y' _|]; [apply bool_decide_true; by eexists|apply bool_decide_false; by intros [? ?]]. Qed.

Lemma alter_user_stepped s d P u f g : implements s P -> saveable (store_path_ s) d -> saved s d ->
  (forall r a, user_is u r a -> user_is u (f r) (g a)) ->
  stepped s (match accounts P !! u with Some _ => None | None => Some kNotFound end)
    (match accounts P !! u with Some _ => mkPolicy (alter g u (accounts P)) (roles P) | None => P end) (alter_user u f (s, d)).
Proof.
  intros Hi Hd Hs Hf. unfold alter_user. rewrite M_bind_eq. unfold this at 1. apply stepped_if with (P := P); try done. cbn [fst].
  rewrite (is_Some_related _ _ _ (implements_user s P u Hi)). destruct (accounts P !! u); [|done]. cbn [negb].
  apply stepped_save; [done|done|]. apply implements_set_users; [done|]. apply related_alter; [done|]. apply Hi.
Qed.
Lemma alter_group_stepped s d P g f h : implements s P -> saveable (store_path_ s) d -> saved s d ->
  (forall r X, group_is g r X -> group_is g (f r) (h X)) ->
  stepped s (match roles P !! g with Some _ => None | None => Some kNotFound end)
    (match roles P !! g with Some _ => mkPolicy (accounts P) (alter h g (roles P)) | None => P end) (alter_group g f (s, d)).
Proof.
  intros Hi Hd Hs Hf. unfold alter_group. rewrite M_bind_eq. unfold this at 1. apply stepped_if with (P := P); try done. cbn [fst].
  rewrite (is_Some_related _ _ _ (implements_group s P g Hi)). destruct (roles P !! g); [|done]. cbn [negb].
  apply stepped_save; [done|done|]. apply implements_set_groups; [done|]. apply related_alter; [done|]. apply Hi.
Qed.
Lemma new_user_is u password salt : user_is u (mkUserRecord u (HashPassword pbkdf2 password salt) ∅ 0) (mkAccount password salt ∅ ∅).
Proof. split_and!; try done. apply mask_empty. Qed.
Lemma new_group_is g : group_is g (mkGroupRecord g 0) ∅.
Proof. split; [done|apply mask_empty]. Qed.

Lemma step_stepped o s d P : implements s P -> saveable (store_path_ s) d -> saved s d ->
  stepped s (p_step o P).1 (p_step o P).2 (rbac_step o (s, d)).
Proof.
  intros Hi Hd Hs. pose proof (implements_user s P) as Hu. pose proof (implements_group s P) as Hg.
  destruct o as [u password salt|u|g|g|u g|u g|u p|g p|u p|g p]; cbn [rbac_step p_step].
  - unfold CreateUser. rewrite M_bind_eq. unfold this at 1. apply stepped_if with (P := P); try done. cbn [fst].
    rewrite (is_Some_related _ _ _ (Hu u Hi)). destruct (accounts P !! u); [done|]. apply stepped_save; [done|done|].
    apply implements_set_users; [done|]. apply related_insert; [apply new_user_is|apply Hi].
  - unfold DropUser. rewrite M_bind_eq. unfold this at 1. apply stepped_if with (P := P); try done. cbn [fst].
    rewrite (is_Some_related _ _ _ (Hu u Hi)). destruct (accounts P !! u); [|done]. apply stepped_save; [done|done|].
    apply implements_set_users; [done|]. apply related_delete, Hi.
  - unfold CreateGroup. rewrite M_bind_eq. unfold this at 1. apply stepped_if with (P := P); try done. cbn [fst].
    rewrite (is_Some_related _ _ _ (Hg g Hi)). destruct (roles P !! g); [done|]. apply stepped_save; [done|done|].
    apply implements_set_groups; [done|]. apply related_insert; [apply new_group_is|apply Hi].
  - unfold DropGroup. rewrite M_bind_eq. unfold this at 1. apply stepped_if with (P := P); try done. cbn [fst].
    rewrite (is_Some_related _ _ _ (Hg g Hi)). destruct (roles P !! g); [|done]. apply stepped_save; [done|done|]. split.
    + intros u. cbn [set_users users_ fst snd accounts]. rewrite !lookup_fmap. destruct (Hu u Hi) as [r a (? & ? & E & ?)|]; constructor.
      split_and!; try done. cbn. by rewrite E.
    + intros g'. cbn [set_users set_groups groups_ roles snd]. apply related_delete, Hi.
  - unfold AddUserToGroup. rewrite M_bind_eq. unfold this at 1. apply stepped_if with (P := P); try done. cbn [fst].
    rewrite (is_Some_related _ _ _ (Hu u Hi)). destruct (accounts P !! u); [|done]. cbn [negb]. apply stepped_if with (P := P); try done.
    rewrite (is_Some_related _ _ _ (Hg g Hi)). destruct (roles P !! g); [|done]. cbn [negb]. apply stepped_save; [done|done|].
    apply implements_set_users; [done|]. apply related_alter; [|apply Hi]. intros r a0 (? & ? & E & ?). split_and!; try done. cbn. by rewrite E.
  - pose proof (alter_user_stepped s d P u (set_user_groups (fun X => X ∖ {[g]})) (set_a_groups (fun X => X ∖ {[g]})) Hi Hd Hs) as H.
    unfold RemoveUserFromGroup. destruct (accounts P !! u); apply H; intros r a' (? & ? & E & ?); (split_and!; try done); cbn; by rewrite E.
  - pose proof (alter_user_stepped s d P u (set_user_permissions (fun m => Z.lor m (mask_of p))) (set_a_permissions (fun X => X ∪ expand p)) Hi Hd Hs) as H.
    unfold GrantToUser. destruct (accounts P !! u); apply H; intros r a' (? & ? & E & ?); (split_and!; try done); by apply mask_grant.
  - pose proof (alter_group_stepped s d P g (set_group_permissions (fun m => Z.lor m (mask_of p))) (fun X => X ∪ expand p) Hi Hd Hs) as H.
    unfold GrantToGroup. destruct (roles P !! g); apply H; intros r X [? ?]; (split; [done|]); by apply mask_grant.
  - pose proof (alter_user_stepped s d P u (set_user_permissions (fun m => clear_mask m (mask_of p))) (set_a_permissions (fun X => X ∖ expand p)) Hi Hd Hs) as H.
    unfold RevokeFromUser. destruct (accounts P !! u); apply H; intros r a' (? & ? & E & ?); (split_and!; try done); by apply mask_revoke.
  - pose proof (alter_group_stepped s d P g (set_group_permissions (fun m => clear_mask m (mask_of p))) (fun X => X ∖ expand p) Hi Hd Hs) as H.
    unfold RevokeFromGroup. destruct (roles P !! g); apply H; intros r X [? ?]; (split; [done|]); by apply mask_revoke.
Qed.

(** ** Checks *)

Lemma HasPermission_permitted s P u p : implements s P -> p ∈ basic -> HasPermission s u p = true <-> permitted P u p.
Proof.
  intros Hi Hp. unfold HasPermission, permitted. destruct (implements_user s P u Hi) as [r a (_ & _ & Eg & Hm)|]; [|naive_solver].
  rewrite orb_true_iff, (allows_mask _ _ p Hm Hp), bool_decide_eq_true, existsb_exists, Eg. split.
  - intros [Hd|(g & Hin & Hg)]; [naive_solver|]. exists a. split; [done|]. right. apply list_elem_of_In in Hin. rewrite visit_set_all in Hin.
    apply elem_of_elements in Hin. pose proof (implements_group s P g Hi) as Hgr.
    inversion Hgr as [gr X [_ HX] Eg1 Eg2|Eg1 Eg2]; rewrite <- Eg1 in Hg; [|done].
    rewrite (allows_mask _ _ p HX Hp) in Hg. apply bool_decide_eq_true in Hg. by exists g, X.
  - intros (a' & [= <-] & [Hd|(g & X & Hin & Hl & HpX)]); [by left|]. right. exists g. split.
    + apply list_elem_of_In. rewrite visit_set_all. by apply elem_of_elements.
    + pose proof (implements_group s P g Hi) as Hg. rewrite Hl in Hg. inversion Hg as [gr X' [_ HX] E|]; subst.
      rewrite (allows_mask _ _ p HX Hp). by apply bool_decide_eq_true.
Qed.
(** The password of an account, up to collisions of the hash. *)
Definition password_matches (P : policy) (u password : string) : Prop :=
  exists a, accounts P !! u = Some a /\ pbkdf2 password (a_salt a) kPbkdf2Iters = pbkdf2 (a_password a) (a_salt a) kPbkdf2Iters.
Lemma CheckPassword_matches s P u password d : implements s P ->
  exists b, CheckPassword pbkdf2 u password (s, d) = (Ok b, (s, d)) /\ (b = true <-> password_matches P u password).
Proof.
  intros Hi. unfold CheckPassword. rewrite M_bind_eq. unfold this at 1. cbn [fst]. unfold password_matches.
  destruct (implements_user s P u Hi) as [r a (_ & Eh & _)|]; [|exists false; naive_solver].
  rewrite Eh, VerifyPassword_HashPassword. eexists. split; [reflexivity|]. rewrite bool_decide_eq_true. naive_solver.
Qed.

(** ** Runs *)

Fixpoint rbac_run (os : list rbac_op) (x : RbacStore * disk) : list (option StatusCode) * (RbacStore * disk) :=
  match os with
  | [] => ([], x)
  | o :: os => let '(r, x1) := rbac_step o x in let '(cs, x2) := rbac_run os x1 in (code_of r :: cs, x2)
  end.
Fixpoint p_run (os : list rbac_op) (P : policy) : list (option StatusCode) * policy :=
  match os with
  | [] => ([], P)
  | o :: os => let '(c, P1) := p_step o P in let '(cs, P2) := p_run os P1 in (c :: cs, P2)
  end.
Lemma run_implements os : forall s d P, implements s P -> saveable (store_path_ s) d -> saved s d ->
  exists s' d', rbac_run os (s, d) = ((p_run os P).1, (s', d')) /\ implements s' (p_run os P).2 /\ store_path_ s' = store_path_ s /\
    saveable (store_path_ s) d' /\ saved s' d'.
Proof.
  induction os as [|o os IH]; intros s d P Hi Hd Hs; cbn [rbac_run p_run]; [by exists s, d|].
  destruct (step_stepped o s d P Hi Hd Hs) as (Hc & Hi' & Hp & Hd' & Hs'). destruct (rbac_step o (s, d)) as [r [s1 d1]]. cbn [fst snd] in *.
  destruct (p_step o P) as [c P1]. cbn [fst snd] in *. rewrite <- Hp in Hd'. destruct (IH s1 d1 P1 Hi' Hd' Hs') as (s' & d' & -> & H1 & H2 & H3 & H4).
  exists s', d'. destruct (p_run os P1) as [cs P2]. cbn [fst snd] in *. rewrite Hp in *. split_and!; try done. by subst c.
Qed.

(** The first opening makes the administrator. *)
Lemma rbac_Open_new path salt d : path_ok path -> clear path d -> d_files d !! path = None ->
  exists s d', Open pbkdf2 salt (new_RbacStore path, d) = (Ok tt, (s, d')) /\ implements s (initial_policy salt) /\ store_path_ s = path /\
    saveable path d' /\ saved s d'.
Proof.
  intros (H1 & H2 & H3) (Hh & Ht & Hp & Hc) Hf. unfold Open. rewrite M_bind_eq. unfold this at 1. cbn [fst store_path_ new_RbacStore]. rewrite M_bind_eq.
  unfold on_disk at 1. cbn [fst snd]. rewrite EnsureDir_healthy by done. rewrite M_bind_eq. unfold on_disk at 1. cbn [fst snd].
  rewrite FileExists_healthy by done. unfold path_exists at 1. cbn [d_files with_dirs d_dirs]. rewrite Hf, bool_decide_false by (by intros [? ?]).
  rewrite bool_decide_false by (rewrite elem_of_union, elem_of_list_to_set; tauto). cbn [orb]. cbv zeta.
  pose proof (stepped_save (fun s => set_users (<["admin" := mkUserRecord "admin" (HashPassword pbkdf2 "admin" salt) ∅ (mask_of pAdmin)]> (users_ s)) s)
    (new_RbacStore path) (with_dirs (dir_of path) d) (initial_policy salt)) as H.
  destruct ((_ ← update _; Save) _) as [r [s d']]. destruct H as (Hr & Hi & Hpath & Hd & Hs); [| done | |].
  - split; [by split|]. split; [|unfold dir_exists; rewrite bool_decide_false by done; apply bool_decide_true; cbn; apply elem_of_union_r, elem_of_list_to_set, dir_in_dirs_of; done].
    split_and!; [done|cbn; rewrite elem_of_union, elem_of_list_to_set; tauto|cbn; rewrite elem_of_union, elem_of_list_to_set; tauto|done].
  - split; [|intros g; cbn; rewrite !lookup_empty; constructor]. cbn. apply (related_insert user_is); [split_and!; try done; apply mask_admin|]. intros u. rewrite !lookup_empty. constructor.
  - cbn in Hr. destruct r as [[]|]; [|done]. exists s, d'. by split_and!.
Qed.

(** ** Reading the file back *)

Lemma UserFromJson_UserToJson r : in_u32 (user_permissions r) -> UserFromJson (UserToJson r) = Some r.
Proof.
  intros Hu. unfold UserFromJson. change (at_ (UserToJson r) "user_id") with (Some (JString (user_id r))).
  change (at_ (UserToJson r) "password_hash") with (Some (JString (password_hash r))).
  change (at_ (UserToJson r) "permissions") with (Some (JInt (user_permissions r))).
  change (at_ (UserToJson r) "groups") with (Some (JArray (JString <$> visit_set (user_groups r)))).
  cbn [mbind option_bind get_string get_u32 get_number fmap option_fmap option_map items_of]. rewrite get_strings. cbn [mbind option_bind].
  rewrite u32_id by done. destruct r as [id hash groups permissions]. cbn [user_id password_hash user_groups user_permissions]. do 2 f_equal.
  apply set_eq. intros g. rewrite elem_of_list_to_set, visit_set_all. apply elem_of_elements.
Qed.
Lemma GroupFromJson_GroupToJson g : in_u32 (group_permissions g) -> GroupFromJson (GroupToJson g) = Some g.
Proof.
  intros Hu. unfold GroupFromJson. change (at_ (GroupToJson g) "name") with (Some (JString (group_name g))).
  change (at_ (GroupToJson g) "permissions") with (Some (JInt (group_permissions g))).
  cbn [mbind option_bind get_string get_u32 get_number fmap option_fmap option_map]. rewrite u32_id by done. by destruct g.
Qed.

(** The records are filed under their names, and their masks have 32 bits. *)
Definition filed (s : RbacStore) : Prop :=
  map_Forall (fun u r => user_id r = u /\ in_u32 (user_permissions r)) (users_ s) /\
  map_Forall (fun g r => group_name r = g /\ in_u32 (group_permissions r)) (groups_ s).
Lemma implements_filed s P : implements s P -> filed s.
Proof.
  intros [Hu Hg]. split.
  - intros u r Hr. specialize (Hu u). rewrite Hr in Hu. inversion Hu as [? a (? & _ & _ & [? _])|]; by subst.
  - intros g r Hr. specialize (Hg g). rewrite Hr in Hg. inversion Hg as [? X [? [? _]]|]; by subst.
Qed.
Lemma load_users_eq l : Forall (fun x => user_id x.2 = x.1 /\ in_u32 (user_permissions x.2)) l -> forall m,
  load_users ((fun x => UserToJson x.2) <$> l) m = (foldl (fun m x => <[x.1 := x.2]> m) m l, true).
Proof.
  induction 1 as [|[u r] l [E Hr] _ IH]; intros m; [done|]. cbn [fmap list_fmap load_users foldl fst snd] in *. rewrite UserFromJson_UserToJson by done. rewrite E. apply IH.
Qed.
Lemma load_groups_eq l : Forall (fun x => group_name x.2 = x.1 /\ in_u32 (group_permissions x.2)) l -> forall m,
  load_groups ((fun x => GroupToJson x.2) <$> l) m = (foldl (fun m x => <[x.1 := x.2]> m) m l, true).
Proof.
  induction 1 as [|[g r] l [E Hr] _ IH]; intros m; [done|]. cbn [fmap list_fmap load_groups foldl fst snd] in *. rewrite GroupFromJson_GroupToJson by done. rewrite E. apply IH.
Qed.
Lemma map_Forall_both {A} (Q R : string -> A -> Prop) (m : gmap string A) : map_Forall Q m -> map_Forall R m -> map_Forall (fun k v => Q k v /\ R k v) m.
Proof. intros HQ HR k v Hl. split; [by apply HQ|by apply HR]. Qed.

(** Names and hashes that can be printed. *)
Definition store_text (s : RbacStore) : Prop :=
  map_Forall (fun u r => json_text (user_id r) /\ json_text (password_hash r) /\ forall g, g ∈ user_groups r -> json_text g) (users_ s) /\
  map_Forall (fun g r => json_text (group_name r)) (groups_ s).
Lemma user_json_well_formed r : json_text (user_id r) -> json_text (password_hash r) -> (forall g, g ∈ user_groups r -> json_text g) ->
  in_u32 (user_permissions r) -> well_formed (UserToJson r).
Proof.
  intros H1 H2 H3 H4. apply well_formed_object; [reflexivity|]. pose proof text_ascii as Ht.
  repeat apply Forall_cons_2; [..|by apply Forall_nil_2]; (split; [by apply Ht|]); cbn [snd fst]; [|done|unfold well_formed, in_u32 in *; lia|done].
  apply well_formed_array, Forall_fmap, Forall_forall. intros g Hg. apply H3. rewrite visit_set_all in Hg. by apply elem_of_elements.
Qed.
Lemma group_json_well_formed r : json_text (group_name r) -> in_u32 (group_permissions r) -> well_formed (GroupToJson r).
Proof.
  intros H1 H2. apply well_formed_object; [reflexivity|]. pose proof text_ascii as Ht.
  repeat apply Forall_cons_2; [..|by apply Forall_nil_2]; (split; [by apply Ht|]); cbn [snd fst]; [done|unfold well_formed, in_u32 in *; lia].
Qed.
Lemma store_json_well_formed s : filed s -> store_text s -> well_formed (store_json s).
Proof.
  intros [Hu Hg] [Tu Tg]. apply well_formed_object; [reflexivity|]. pose proof text_ascii as Ht.
  repeat apply Forall_cons_2; [..|by apply Forall_nil_2]; (split; [by apply Ht|]); apply well_formed_array, Forall_fmap.
  - pose proof (map_Forall_both _ _ _ Hg Tg) as H. eapply Forall_impl; [apply (Forall_visit _ _ H)|]. intros [g r] [[_ Hm] Hn]. by apply group_json_well_formed.
  - pose proof (map_Forall_both _ _ _ Hu Tu) as H. eapply Forall_impl; [apply (Forall_visit _ _ H)|]. intros [u r] [[E Hm] (H1 & H2 & H3)].
    by apply user_json_well_formed.
Qed.

(** A store opened on the file of another one holds the same users and groups. *)
Lemma Open_saved s d salt : saveable (store_path_ s) d -> saved s d -> filed s -> store_text s ->
  exists d', Open pbkdf2 salt (new_RbacStore (store_path_ s), d) = (Ok tt, (s, d')) /\ saveable (store_path_ s) d' /\ saved s d'.
Proof.
  clear Hpbkdf2. intros Hd Hs Hf Ht. pose proof Hd as ((H1 & H2 & H3) & (Hh & Htmp & Hp & Hc) & He). unfold saved in Hs.
  unfold Open. rewrite M_bind_eq. unfold this at 1. cbn [fst store_path_ new_RbacStore]. rewrite M_bind_eq.
  unfold on_disk at 1. cbn [fst snd]. rewrite EnsureDir_healthy by done. rewrite M_bind_eq. unfold on_disk at 1. cbn [fst snd].
  rewrite FileExists_healthy by done. set (d1 := with_dirs (dir_of (store_path_ s)) d). assert (d_files d1 !! store_path_ s = Some (bytes_of_string (json_dump_indented (store_json s)))) as Hs1 by done.
  unfold path_exists at 1. rewrite Hs1, bool_decide_true by (by eexists). cbn [orb].
  unfold Load. rewrite M_bind_eq. unfold this at 1. cbn [fst store_path_ new_RbacStore]. rewrite M_bind_eq. unfold on_disk at 1. cbn [fst snd].
  rewrite (stream_open_healthy _ _ _ d1 _ Hh Hs1). rewrite M_bind_eq. unfold on_disk at 1. cbn [fst snd]. rewrite M_bind_eq. unfold get at 1.
  rewrite stream_read_healthy by done. rewrite (file_content_eq _ _ _ Hs1), zdrop_0, ztake_all by done.
  rewrite String.string_of_list_byte_of_string, parse_dump_indented by (by apply store_json_well_formed).
  rewrite M_bind_eq. unfold update at 1. cbn [fst snd].
  change (at_ (store_json s) "users") with (Some (JArray ((fun x => UserToJson x.2) <$> visit (users_ s)))).
  change (at_ (store_json s) "groups") with (Some (JArray ((fun x => GroupToJson x.2) <$> visit (groups_ s)))). cbn [items_of].
  destruct Hf as [Fu Fg]. rewrite load_users_eq by (apply (Forall_visit _ _ Fu)). rewrite load_groups_eq by (apply (Forall_visit _ _ Fg)). rewrite !foldl_visit.
  rewrite M_bind_eq. unfold update at 1. cbn [fst snd]. rewrite M_bind_eq. unfold update at 1. cbn [fst snd].
  exists d1. split; [by destruct s|]. split; [|done]. split; [done|]. unfold d1. split.
  - split_and!; [done|cbn; rewrite elem_of_union, elem_of_list_to_set; tauto|cbn; rewrite elem_of_union, elem_of_list_to_set; tauto|done].
  - unfold dir_exists in *. cbn. rewrite orb_true_iff, !bool_decide_eq_true in *. set_solver.
Qed.

(** Names that can be printed stay so. *)
Definition policy_text (P : policy) : Prop :=
  map_Forall (fun u a => json_text u /\ forall g, g ∈ a_groups a -> json_text g) (accounts P) /\ map_Forall (fun g _ => json_text g) (roles P).
Definition op_text (o : rbac_op) : Prop :=
  match o with RCreateUser u _ _ => json_text u | RCreateGroup g => json_text g | RAddUserToGroup _ g => json_text g | _ => True end.
Lemma map_Forall_alter {A} (Q : string -> A -> Prop) f k (m : gmap string A) :
  (forall v, Q k v -> Q k (f v)) -> map_Forall Q m -> map_Forall Q (alter f k m).
Proof.
  intros Hf Hm i v Hl. apply lookup_alter_Some in Hl as [(-> & v' & Hl & ->)|[_ Hl]]; [by apply Hf, Hm|by apply Hm].
Qed.
Lemma step_text o P : policy_text P -> op_text o -> policy_text (p_step o P).2.
Proof.
  clear pbkdf2 Hpbkdf2. intros [Ha Hr] Ho. destruct o as [u password salt|u|g|g|u g|u g|u p|g p|u p|g p]; cbn [p_step op_text] in *; case_match; try done; cbn [snd].
  all: try (split; cbn [accounts roles]; [|done]).
  all: try (apply map_Forall_alter; [|done]; intros a' [? Hg]; (split; [done|]); cbn; set_solver).
  - apply map_Forall_insert_2; [split; [done|set_solver]|done].
  - by apply map_Forall_delete.
  - split; [done|]. cbn. by apply map_Forall_insert_2.
  - split; cbn; [|by apply map_Forall_delete]. intros u a' Hl. apply lookup_fmap_Some in Hl as (a & <- & Hl). apply Ha in Hl as [? Hg]. split; [done|]. cbn. set_solver.
  - case_match; [|done]. split; cbn; [|done]. apply map_Forall_alter; [|done]. intros a' [? Hg]. split; [done|]. cbn. set_solver.
  - split; [done|]. cbn. by apply map_Forall_alter.
  - split; [done|]. cbn. by apply map_Forall_alter.
Qed.
Lemma run_text os : forall P, policy_text P -> Forall op_text os -> policy_text (p_run os P).2.
Proof.
  induction os as [|o os IH]; intros P Hp Ho; cbn [p_run]; [done|]. apply Forall_cons in Ho as [Ho Hos]. pose proof (step_text o P Hp Ho) as H.
  destruct (p_step o P) as [c P1]. cbn in H. specialize (IH P1 H Hos). by destruct (p_run os P1).
Qed.
Lemma HexEncode_ascii data : is_ascii (HexEncode data) = true.
Proof.
  induction data as [|b data IH]; [done|]. destruct (hex_halves b) as [H1 H2]. cbn [HexEncode]. unfold is_ascii in *. cbn [String.list_ascii_of_string forallb].
  assert (forall n, 0 <= n < 16 -> N.ltb (N_of_ascii (hex_digit n)) 128 = true) as H.
  { intros n Hn. assert (n ∈ seqZ 0 16) as Hin by (apply elem_of_seqZ; lia). clear Hn. revert n Hin. apply Forall_forall. by_computation. }
  by rewrite (H _ H1), (H _ H2), IH.
Qed.
Lemma implements_text s P : implements s P -> policy_text P -> store_text s.
Proof.
  intros [Hu Hg] [Ta Tr]. split.
  - intros u r Hr. specialize (Hu u). rewrite Hr in Hu. inversion Hu as [r' a (Ei & Eh & Eg & _) Er Ea|]; subst. symmetry in Ea. apply Ta in Ea as [? Hgs].
    rewrite Eg, Eh. split_and!; [done| |done]. apply text_ascii. unfold HashPassword. rewrite !is_ascii_app, !HexEncode_ascii. reflexivity.
  - intros g r Hr. specialize (Hg g). rewrite Hr in Hg. inversion Hg as [r' X [Ei _] Er EX|]; subst. symmetry in EX. by apply Tr in EX.
Qed.
Lemma initial_text salt : policy_text (initial_policy salt).
Proof.
  clear pbkdf2 Hpbkdf2. split; [|apply map_Forall_empty]. cbn. apply map_Forall_singleton. split; [by apply text_ascii|set_solver].
Qed.
End policy.


Definition sample_pbkdf2 (password : string) (salt : bytes) (iters : Z) : bytes :=
  ztake 32 (bytes_of_string password ++ zreplicate 32 Byte.x00).
Lemma sample_pbkdf2_length password salt iters : zlen (sample_pbkdf2 password salt iters) = kHashBytes.
Proof.
  unfold sample_pbkdf2. apply zlen_ztake. split; [done|]. rewrite zlen_app, (zlen_zreplicate 32) by done. apply (Z.add_le_mono_r 0), zlen_nonneg.
Qed.
Lemma sample_path_ok : path_ok "data/rbac.json".
Proof. by_computation. Qed.
Lemma sample_clear : clear "data/rbac.json" empty_disk.
Proof. split_and!; [done|by_computation|by_computation|]. intros p _. apply lookup_empty. Qed.
Definition sample_rbac_ops : list rbac_op :=
  [RCreateUser "ann" "secret" []; RCreateGroup "dev"; RGrantToGroup "dev" pAdmin; RAddUserToGroup "ann" "dev"; RRevokeFromGroup "dev" pWrite;
   RGrantToUser "bob" pWrite].


(** C20. Durability: after any sequence of operations with printable names, a
    store opened on the same file holds the same users, with their password
    hashes, groups and permissions, and the same groups. *)
Theorem rbac_survives_restart {L : JsonLibrary} {LL : JsonLaws L} {O : HashOrder} {OL : HashOrderLaws O} pbkdf2 path salt salt' d os :
  path_ok path -> clear path d -> d_files d !! path = None -> Forall op_text os ->
  exists x0 cs s1 d1 d2, Open pbkdf2 salt (new_RbacStore path, d) = (Ok tt, x0) /\ rbac_run pbkdf2 os x0 = (cs, (s1, d1)) /\
    Open pbkdf2 salt' (new_RbacStore path, d1) = (Ok tt, (s1, d2)).
Proof.
  intros Hp Hd Hf Ht. destruct (rbac_Open_new pbkdf2 path salt d Hp Hd Hf) as (s & d' & E & Hi & Epath & Hd' & Hs).
  rewrite <- Epath in Hd'. destruct (run_implements pbkdf2 os s d' _ Hi Hd' Hs) as (s1 & d1 & E1 & Hi1 & Ep1 & Hd1 & Hs1).
  rewrite <- Ep1 in Hd1. destruct (Open_saved pbkdf2 s1 d1 salt' Hd1 Hs1) as (d2 & E2 & _).
  - by eapply implements_filed.
  - eapply implements_text; [exact Hi1|]. apply run_text; [apply initial_text|done].
  - rewrite Ep1, Epath in E2. by eexists (s, d'), _, s1, d1, d2.
Qed.
Lemma rbac_survives_restart_witness :
  exists x0 cs s1 d1 d2, Open (L:=sample_json) (O:=sample_order) sample_pbkdf2 [] (new_RbacStore "data/rbac.json", empty_disk) = (Ok tt, x0) /\
    rbac_run (L:=sample_json) (O:=sample_order) sample_pbkdf2 sample_rbac_ops x0 = (cs, (s1, d1)) /\
    Open (L:=sample_json) (O:=sample_order) sample_pbkdf2 [Byte.x01] (new_RbacStore "data/rbac.json", d1) = (Ok tt, (s1, d2)).
Proof.
  apply (rbac_survives_restart (LL:=sample_json_laws) (OL:=sample_order_laws) sample_pbkdf2 "data/rbac.json" [] [Byte.x01] empty_disk sample_rbac_ops
    sample_path_ok sample_clear (lookup_empty _)). by repeat constructor.
Defined.

(** Any single permission passes a check for ADMIN. *)
Lemma any_permission_is_admin m p : in_u32 m -> m <> 0 -> p = pAdmin -> allows m p = true.
Proof.
  intros [H1 H2] Hne ->. unfold allows. apply orb_true_iff. right. apply negb_true_iff, Z.eqb_neq.
  change (mask_of pAdmin) with (Z.ones 32). rewrite Z.land_ones, Z.mod_small by lia. done.
Qed.
