(* ===== verification/TaskQueue.v ===== *)
(** * The task queue

    [src/queue/task_queue.cpp]: queued statements, their states, the worker loop
    and the log from which a restart recovers them.  The mutex makes every
    operation and the two critical sections of the worker loop single steps.
    Clock readings and random numbers are arguments; the order in which the
    entries of the task map are visited is a parameter. *)
From S2P Require Import Prelude Disk Json Rbac.

Inductive TaskStatus := tsQueued | tsRunning | tsCompleted | tsFailed | tsCancelled | tsOther (raw : Z).
#[export] Instance TaskStatus_eq_dec : EqDecision TaskStatus.
Proof. solve_decision. Defined.
Definition TaskStatus_raw (s : TaskStatus) : Z :=
  match s with tsQueued => 0 | tsRunning => 1 | tsCompleted => 2 | tsFailed => 3 | tsCancelled => 4 | tsOther raw => raw end.
Definition TaskStatus_of_raw (raw : Z) : TaskStatus :=
  match raw with 0 => tsQueued | 1 => tsRunning | 2 => tsCompleted | 3 => tsFailed | 4 => tsCancelled | _ => tsOther raw end.
Definition TaskStatusName (s : TaskStatus) : string :=
  match s with
  | tsQueued => "queued" | tsRunning => "running" | tsCompleted => "completed" | tsFailed => "failed" | tsCancelled => "cancelled"
  | tsOther _ => "unknown"
  end.
Definition IsTerminal (s : TaskStatus) : bool :=
  match s with tsCompleted | tsFailed | tsCancelled => true | _ => false end.

Record TaskInfo := mkTaskInfo {
  t_request_id : string;
  t_sql : string;
  t_database : string;
  t_user_id : string;
  t_status : TaskStatus;
  t_progress : Z;
  t_result : string;
  t_error : string;
  t_submitted_ms : Z;
  t_started_ms : Z;
  t_finished_ms : Z;
  t_retry_count : Z
}.
#[export] Instance TaskInfo_eq_dec : EqDecision TaskInfo.
Proof. solve_decision. Defined.
Definition set_status (st : TaskStatus) (t : TaskInfo) : TaskInfo :=
  mkTaskInfo (t_request_id t) (t_sql t) (t_database t) (t_user_id t) st (t_progress t) (t_result t) (t_error t)
    (t_submitted_ms t) (t_started_ms t) (t_finished_ms t) (t_retry_count t).
Definition set_started (now : Z) (t : TaskInfo) : TaskInfo :=
  mkTaskInfo (t_request_id t) (t_sql t) (t_database t) (t_user_id t) (t_status t) (t_progress t) (t_result t) (t_error t)
    (t_submitted_ms t) now (t_finished_ms t) (t_retry_count t).
Definition set_finished (now : Z) (t : TaskInfo) : TaskInfo :=
  mkTaskInfo (t_request_id t) (t_sql t) (t_database t) (t_user_id t) (t_status t) (t_progress t) (t_result t) (t_error t)
    (t_submitted_ms t) (t_started_ms t) now (t_retry_count t).
Definition set_outcome (progress : Z) (result error : string) (t : TaskInfo) : TaskInfo :=
  mkTaskInfo (t_request_id t) (t_sql t) (t_database t) (t_user_id t) (t_status t) progress result error
    (t_submitted_ms t) (t_started_ms t) (t_finished_ms t) (t_retry_count t).

(** [std::hex << std::setw(n) << std::setfill('0')] *)
Fixpoint hex_digits (n : nat) (z : Z) : string :=
  match n with O => "" | S n => hex_digits n (z / 16) +:+ String (hex_digit (z mod 16)) EmptyString end.
(** From six draws of 32 random bits. *)
Definition GenerateUuidV4 (r1 r2 r3 r4 r5 r6 : Z) : string :=
  hex_digits 8 r1 +:+ "-" +:+ hex_digits 4 (Z.land r2 0xFFFF) +:+ "-" +:+ hex_digits 4 (Z.lor (Z.land r3 0x0FFF) 0x4000) +:+ "-" +:+
  hex_digits 4 (Z.lor (Z.land r4 0x3FFF) 0x8000) +:+ "-" +:+ hex_digits 8 r5 +:+ hex_digits 4 (Z.land r6 0xFFFF).

Definition TaskToJson (t : TaskInfo) : json :=
  object [("request_id", JString (t_request_id t)); ("sql", JString (t_sql t)); ("database", JString (t_database t));
    ("user_id", JString (t_user_id t)); ("status", JInt (TaskStatus_raw (t_status t))); ("progress", JInt (t_progress t));
    ("result", JString (t_result t)); ("error", JString (t_error t)); ("submitted_ms", JInt (t_submitted_ms t));
    ("started_ms", JInt (t_started_ms t)); ("finished_ms", JInt (t_finished_ms t)); ("retry_count", JInt (t_retry_count t))].
Definition TaskFromJson (j : json) : option TaskInfo :=
  request_id ← at_ j "request_id" ≫= get_string;
  sql ← at_ j "sql" ≫= get_string;
  database ← at_ j "database" ≫= get_string;
  user_id ← at_ j "user_id" ≫= get_string;
  status ← at_ j "status" ≫= get_i32;
  progress ← at_ j "progress" ≫= get_i32;
  result ← at_ j "result" ≫= get_string;
  error ← at_ j "error" ≫= get_string;
  submitted_ms ← at_ j "submitted_ms" ≫= get_i64;
  started_ms ← at_ j "started_ms" ≫= get_i64;
  finished_ms ← at_ j "finished_ms" ≫= get_i64;
  retry_count ← at_ j "retry_count" ≫= get_i32;
  Some (mkTaskInfo request_id sql database user_id (TaskStatus_of_raw status) progress result error submitted_ms started_ms finished_ms retry_count).

(** ** The queue *)

Record TaskQueue := mkTaskQueue {
  task_queue_max : Z;
  wal_path_ : string;
  pending_queue_ : list TaskInfo;
  task_map_ : gmap string TaskInfo;
  running_ : bool
}.
Definition set_pending (l : list TaskInfo) (q : TaskQueue) : TaskQueue := mkTaskQueue (task_queue_max q) (wal_path_ q) l (task_map_ q) (running_ q).
Definition set_map (m : gmap string TaskInfo) (q : TaskQueue) : TaskQueue := mkTaskQueue (task_queue_max q) (wal_path_ q) (pending_queue_ q) m (running_ q).
Definition set_running (b : bool) (q : TaskQueue) : TaskQueue := mkTaskQueue (task_queue_max q) (wal_path_ q) (pending_queue_ q) (task_map_ q) b.
Definition kMaxCompletedResults : Z := 10000.

(** Running on when an operation reports an error. *)
Definition ignoring {S} (m : M S unit) : M S unit := fun s => (Ok tt, (m s).2).

Section queue.
Context {L : JsonLibrary} {O : HashOrder}.
Abbreviation T := (M (TaskQueue * disk)).

Definition line_of (t : TaskInfo) : bytes := bytes_of_string (json_dump (TaskToJson t) +:+ String "010" EmptyString).
Definition AppendWal (info : TaskInfo) : T unit :=
  q ← this;
  _ ← on_disk (stream_append (wal_path_ q) kIoError ("cannot open task WAL: " +:+ wal_path_ q));
  on_disk (stream_put (wal_path_ q) (line_of info)).

(** The constructor makes the directory. *)
Definition new_TaskQueue (task_queue_dir : string) (max : Z) : M disk TaskQueue :=
  _ ← EnsureDir task_queue_dir;
  mret (mkTaskQueue max (task_queue_dir +:+ "/tasks.wal") [] ∅ false).

Definition Submit (sql database user_id uuid : string) (now : Z) : T string :=
  let task := mkTaskInfo uuid sql database user_id tsQueued 0 "" "" now 0 0 0 in
  q ← this;
  _ ← reject_if (task_queue_max q <=? zlen (pending_queue_ q)) kInternalError "task queue is full";
  _ ← AppendWal task;
  _ ← update (fun q => set_pending (pending_queue_ q ++ [task]) (set_map (<[uuid := task]> (task_map_ q)) q));
  mret uuid.
Definition task_not_found (request_id : string) : string := "task not found: " +:+ request_id.
Definition GetStatus (request_id : string) : T TaskInfo :=
  q ← this;
  match task_map_ q !! request_id with
  | None => throw kNotFound (task_not_found request_id)
  | Some info => mret info
  end.
Fixpoint erase_first (request_id : string) (l : list TaskInfo) : list TaskInfo :=
  match l with
  | [] => []
  | t :: l => if bool_decide (t_request_id t = request_id) then l else t :: erase_first request_id l
  end.
Definition Cancel (request_id : string) (now : Z) : T unit :=
  q ← this;
  match task_map_ q !! request_id with
  | None => throw kNotFound (task_not_found request_id)
  | Some info =>
      if IsTerminal (t_status info) then throw kInvalidArgument "task is already in terminal state"
      else
        let info := set_finished now (set_status tsCancelled info) in
        _ ← update (fun q => set_pending (erase_first request_id (pending_queue_ q)) (set_map (<[request_id := info]> (task_map_ q)) q));
        AppendWal info
  end.

(** ** The worker loop *)

(** From the wait to the execution: [None] when there is no task to execute. *)
Definition worker_take (now : Z) : T (option TaskInfo) :=
  q ← this;
  match pending_queue_ q with
  | [] => mret None
  | task :: rest =>
      _ ← update (set_pending rest);
      match task_map_ q !! t_request_id task with
      | Some info =>
          if bool_decide (t_status info = tsCancelled) then mret None
          else
            let info := set_started now (set_status tsRunning info) in
            _ ← update (fun q => set_map (<[t_request_id task := info]> (task_map_ q)) q);
            _ ← ignoring (AppendWal info);
            mret (Some info)
      | None => _ ← ignoring (AppendWal task); mret (Some task)
      end
  end.
(** [task_map_.begin()] *)
Definition first_entry (m : gmap string TaskInfo) : option (string * TaskInfo) := head (visit m).
Definition evict (request_id : string) (m : gmap string TaskInfo) : gmap string TaskInfo :=
  if kMaxCompletedResults <? Z.of_nat (base.size m) then
    match first_entry m with
    | Some (oldest, info) => if IsTerminal (t_status info) && negb (bool_decide (oldest = request_id)) then delete oldest m else m
    | None => m
    end
  else m.
(** After the execution, which returned the text of the result or an error. *)
Definition worker_finish (task : TaskInfo) (outcome : result string) (now : Z) : T unit :=
  q ← this;
  match task_map_ q !! t_request_id task with
  | None => mret tt
  | Some info =>
      if bool_decide (t_status info = tsCancelled) then mret tt
      else
        let info := match outcome with
          | Ok text => set_outcome 100 text (t_error info) (set_status tsCompleted info)
          | Err _ message => set_outcome (t_progress info) (t_result info) message (set_status tsFailed info)
          end in
        let info := set_finished now info in
        _ ← update (fun q => set_map (<[t_request_id task := info]> (task_map_ q)) q);
        _ ← ignoring (AppendWal info);
        update (fun q => set_map (evict (t_request_id task) (task_map_ q)) q)
  end.

(** ** Recovery *)

(** The lines of a text, as [std::getline] gives them. *)
Fixpoint lines_from (line s : string) : list string :=
  match s with
  | EmptyString => if bool_decide (line = "") then [] else [line]
  | String c s => if bool_decide (c = "010"%char) then line :: lines_from "" s else lines_from (line +:+ String c EmptyString) s
  end.
Definition read_task (line : string) : option TaskInfo := json_parse line ≫= TaskFromJson.
(** The last task read for every id; lines that are not tasks are skipped. *)
Fixpoint latest (ls : list string) (m : gmap string TaskInfo) : gmap string TaskInfo :=
  match ls with
  | [] => m
  | line :: ls =>
      latest ls (if bool_decide (line = "") then m else match read_task line with Some t => <[t_request_id t := t]> m | None => m end)
  end.
Definition requeue (x : string * TaskInfo) (q : TaskQueue) : TaskQueue :=
  let '(id, task) := x in
  if IsTerminal (t_status task) then set_map (<[id := task]> (task_map_ q)) q
  else
    let task := set_status tsQueued task in
    set_pending (pending_queue_ q ++ [task]) (set_map (<[id := task]> (task_map_ q)) q).
Definition ReplayWal : T unit :=
  q ← this;
  exists_ ← on_disk (FileExists (wal_path_ q));
  if negb exists_ then mret tt
  else
    _ ← on_disk (stream_open (wal_path_ q) kIoError ("cannot open task WAL for replay: " +:+ wal_path_ q));
    text ← on_disk (d ← get; stream_read (wal_path_ q) 0 (zlen (file_content d (wal_path_ q))));
    _ ← update (fun q => foldl (fun q x => requeue x q) q (visit (latest (lines_from "" (string_of_bytes text)) ∅)));
    let tmp := wal_path_ q +:+ ".tmp" in
    _ ← on_disk (stream_create tmp kIoError ("cannot compact task WAL: " +:+ tmp));
    q ← this;
    _ ← on_disk (stream_put tmp (concat (map (fun x => line_of x.2) (visit (task_map_ q)))));
    on_disk (fs_rename tmp (wal_path_ q) "cannot rename WAL after compact: ").
Definition tq_Start : T unit := _ ← ReplayWal; update (set_running true).
Definition tq_Stop : T unit := update (set_running false).
End queue.
