(* ===== verification/TaskQueueSpec.v ===== *)
(** * Properties of the task queue

    Submissions, cancellations and the critical sections of any number of
    workers in any order: a task is executed at most once and a final state is
    final ([queue_safety]); a task that waits is served in its turn
    ([queue_liveness]).  Restarts are the subject of [TaskQueueLog.v]. *)
From S2P Require Import Prelude Disk Json Rbac TaskQueue.

Section steps.
Context {L : JsonLibrary} {O : HashOrder}.

(** ** The queue without its log *)

Lemma AppendWal_queue info q d : (AppendWal info (q, d)).2.1 = q.
Proof.
  unfold AppendWal. rewrite M_bind_eq. unfold this at 1. cbn [fst]. rewrite M_bind_eq. unfold on_disk at 1. cbn [fst snd].
  destruct (stream_append _ _ _ d) as [[[]|] d1]; [|done]. unfold on_disk. cbn [fst snd]. by destruct (stream_put _ _ d1).
Qed.
Definition submitted (task : TaskInfo) (q : TaskQueue) : TaskQueue :=
  set_pending (pending_queue_ q ++ [task]) (set_map (<[t_request_id task := task]> (task_map_ q)) q).
Definition new_task (sql database user uuid : string) (now : Z) : TaskInfo := mkTaskInfo uuid sql database user tsQueued 0 "" "" now 0 0 0.
Lemma Submit_queue sql database user uuid now q d :
  exists b : bool, (Submit sql database user uuid now (q, d)).2.1 = if b then submitted (new_task sql database user uuid now) q else q.
Proof.
  unfold Submit. cbv zeta. rewrite M_bind_eq. unfold this at 1. cbn [fst]. rewrite M_bind_eq. unfold reject_if at 1.
  destruct (_ <=? _); [by exists false|]. cbv [mret M_ret]. rewrite M_bind_eq.
  pose proof (AppendWal_queue (new_task sql database user uuid now) q d) as E. fold (new_task sql database user uuid now) in *.
  destruct (AppendWal (new_task sql database user uuid now) (q, d)) as [[[]|] [q1 d1]]; cbn in E; subst q1; [by exists true|by exists false].
Qed.
Definition cancelled (request_id : string) (now : Z) (q : TaskQueue) : TaskQueue :=
  match task_map_ q !! request_id with
  | Some info =>
      if IsTerminal (t_status info) then q
      else set_pending (erase_first request_id (pending_queue_ q))
             (set_map (<[request_id := set_finished now (set_status tsCancelled info)]> (task_map_ q)) q)
  | None => q
  end.
Lemma Cancel_queue request_id now q d : (Cancel request_id now (q, d)).2.1 = cancelled request_id now q.
Proof.
  unfold Cancel, cancelled. rewrite M_bind_eq. unfold this at 1. cbn [fst]. destruct (task_map_ q !! request_id) as [info|]; [|done].
  destruct (IsTerminal (t_status info)); [done|]. cbv zeta. rewrite M_bind_eq. unfold update at 1. cbn [fst snd]. apply AppendWal_queue.
Qed.
Definition taken (now : Z) (q : TaskQueue) : option TaskInfo * TaskQueue :=
  match pending_queue_ q with
  | [] => (None, q)
  | task :: rest =>
      match task_map_ q !! t_request_id task with
      | Some info =>
          if bool_decide (t_status info = tsCancelled) then (None, set_pending rest q)
          else (Some (set_started now (set_status tsRunning info)),
                set_map (<[t_request_id task := set_started now (set_status tsRunning info)]> (task_map_ q)) (set_pending rest q))
      | None => (Some task, set_pending rest q)
      end
  end.
Lemma ignoring_AppendWal info q d : exists d', ignoring (AppendWal info) (q, d) = (Ok tt, (q, d')).
Proof. unfold ignoring. pose proof (AppendWal_queue info q d) as E. destruct (AppendWal info (q, d)) as [r [q1 d1]]. cbn in E. subst q1. by exists d1. Qed.
Lemma worker_take_queue now q d : exists d', worker_take now (q, d) = (Ok (taken now q).1, ((taken now q).2, d')).
Proof.
  unfold worker_take, taken. rewrite M_bind_eq. unfold this at 1. cbn [fst]. destruct (pending_queue_ q) as [|task rest]; [by exists d|].
  rewrite M_bind_eq. unfold update at 1. cbn [fst snd]. destruct (task_map_ q !! t_request_id task) as [info|].
  - case_bool_decide; [by exists d|]. cbv zeta. rewrite M_bind_eq. unfold update at 1. cbn [fst snd]. rewrite M_bind_eq.
    edestruct ignoring_AppendWal as [d' ->]. by exists d'.
  - rewrite M_bind_eq. edestruct ignoring_AppendWal as [d' ->]. by exists d'.
Qed.
Definition settled (outcome : result string) (now : Z) (info : TaskInfo) : TaskInfo :=
  set_finished now (match outcome with
    | Ok text => set_outcome 100 text (t_error info) (set_status tsCompleted info)
    | Err _ message => set_outcome (t_progress info) (t_result info) message (set_status tsFailed info)
    end).
Definition finished (request_id : string) (outcome : result string) (now : Z) (q : TaskQueue) : TaskQueue :=
  match task_map_ q !! request_id with
  | Some info =>
      if bool_decide (t_status info = tsCancelled) then q
      else set_map (evict request_id (<[request_id := settled outcome now info]> (task_map_ q))) q
  | None => q
  end.
Lemma worker_finish_queue task outcome now q d :
  exists d', worker_finish task outcome now (q, d) = (Ok tt, (finished (t_request_id task) outcome now q, d')).
Proof.
  unfold worker_finish, finished. rewrite M_bind_eq. unfold this at 1. cbn [fst]. destruct (task_map_ q !! t_request_id task) as [info|]; [|by exists d].
  case_bool_decide; [by exists d|]. cbv zeta. rewrite M_bind_eq. unfold update at 1. cbn [fst snd]. rewrite M_bind_eq.
  edestruct ignoring_AppendWal as [d' ->]. unfold update. cbn [fst snd]. by exists d'.
Qed.

(** ** Interleavings *)

(** The queue with its disk, the tasks the workers are executing, and what
    happened so far: the ids handed to workers and the ids of all tasks. *)
Record qstate := mkQstate { qs_queue : TaskQueue * disk; qs_flight : list TaskInfo; qs_history : list string; qs_used : list string }.
Inductive queue_op :=
  | QSubmit (sql database user uuid : string) (now : Z)
  | QCancel (request_id : string) (now : Z)
  | QTake (now : Z)
  | QFinish (worker : nat) (outcome : result string) (now : Z).
Definition q_step (o : queue_op) (st : qstate) : qstate :=
  match o with
  | QSubmit sql database user uuid now =>
      mkQstate (Submit sql database user uuid now (qs_queue st)).2 (qs_flight st) (qs_history st) (uuid :: qs_used st)
  | QCancel request_id now => mkQstate (Cancel request_id now (qs_queue st)).2 (qs_flight st) (qs_history st) (qs_used st)
  | QTake now =>
      match worker_take now (qs_queue st) with
      | (Ok (Some t), x) => mkQstate x (qs_flight st ++ [t]) (t_request_id t :: qs_history st) (qs_used st)
      | (_, x) => mkQstate x (qs_flight st) (qs_history st) (qs_used st)
      end
  | QFinish worker outcome now =>
      match qs_flight st !! worker with
      | Some t => mkQstate (worker_finish t outcome now (qs_queue st)).2 (delete worker (qs_flight st)) (qs_history st) (qs_used st)
      | None => st
      end
  end.
Definition q_run (os : list queue_op) (st : qstate) : qstate := foldl (fun st o => q_step o st) st os.
(** The ids are new. *)
Definition fresh (o : queue_op) (st : qstate) : Prop := match o with QSubmit _ _ _ uuid _ => uuid ∉ qs_used st | _ => True end.
Fixpoint all_fresh (os : list queue_op) (st : qstate) : Prop :=
  match os with [] => True | o :: os => fresh o st /\ all_fresh os (q_step o st) end.
#[export] Instance fresh_dec o st : Decision (fresh o st).
Proof. destruct o; apply _. Defined.
#[export] Instance all_fresh_dec os : forall st, Decision (all_fresh os st).
Proof. induction os; intros st; apply _. Defined.
Definition initial (q : TaskQueue) (d : disk) : qstate := mkQstate (q, d) [] [] [].

Definition ids (l : list TaskInfo) : list string := t_request_id <$> l.
Definition placed (pending flight : list string) (s : TaskStatus) (id : string) : Prop :=
  match s with tsQueued => id ∈ pending | tsRunning => id ∈ flight | tsOther _ => False | _ => True end.
Record queue_inv (q : TaskQueue) (fl : list TaskInfo) (hist used : list string) : Prop := {
  qi_ids : NoDup (ids (pending_queue_ q) ++ ids fl);
  qi_hist : NoDup hist;
  qi_flight_hist : forall id, id ∈ ids fl -> id ∈ hist;
  qi_pending_hist : forall id, id ∈ ids (pending_queue_ q) -> id ∉ hist;
  qi_pending : forall id, id ∈ ids (pending_queue_ q) -> exists info, task_map_ q !! id = Some info /\ t_status info = tsQueued;
  qi_flight : forall id info, id ∈ ids fl -> task_map_ q !! id = Some info -> t_status info = tsRunning \/ t_status info = tsCancelled;
  qi_map : forall id info, task_map_ q !! id = Some info ->
    t_request_id info = id /\ placed (ids (pending_queue_ q)) (ids fl) (t_status info) id /\ id ∈ used;
  qi_used : forall id, id ∈ hist -> id ∈ used
}.
Definition inv (st : qstate) : Prop := queue_inv (qs_queue st).1 (qs_flight st) (qs_history st) (qs_used st).

Lemma submitted_inv q fl hist used sql database user uuid now : queue_inv q fl hist used -> uuid ∉ used ->
  queue_inv (submitted (new_task sql database user uuid now) q) fl hist (uuid :: used).
Proof.
  intros [Hids Hh Hfh Hph Hp Hf Hm Hu] Hn. unfold submitted. split; cbn [pending_queue_ task_map_ set_pending set_map new_task t_request_id]; unfold ids in *.
  - rewrite fmap_app. cbn. rewrite <- app_assoc. apply NoDup_app in Hids as (N1 & N2 & N3). apply NoDup_app. split_and!; [done| |].
    + intros id Hin [->|Hin']%elem_of_cons; [|by eapply N2]. destruct (Hp uuid Hin) as (info & Hl & _). by apply Hm in Hl as (_ & _ & ?).
    + apply NoDup_cons. split; [|done]. intros Hin%Hfh%Hu. done.
  - done.
  - done.
  - intros id. rewrite fmap_app, elem_of_app. intros [Hin|Hin]; [by apply Hph|]. apply list_elem_of_singleton in Hin as ->. by intros ?%Hu.
  - intros id. rewrite fmap_app, elem_of_app. intros [Hin|Hin].
    + destruct (Hp id Hin) as (info & Hl & Hs). exists info. split; [|done]. rewrite lookup_insert_ne; [done|]. intros <-. by apply Hm in Hl as (_ & _ & ?).
    + apply list_elem_of_singleton in Hin as ->. cbn. rewrite lookup_insert_eq. by eexists.
  - intros id info Hin Hl. rewrite lookup_insert_ne in Hl; [by eapply Hf|]. intros <-. by apply Hfh, Hu in Hin.
  - intros id info Hl. apply lookup_insert_Some in Hl as [[<- <-]|[Hne Hl]].
    + split; [done|]. split; [|left]. cbn. rewrite fmap_app, elem_of_app. right. left.
    + apply Hm in Hl as (? & Hpl & ?). split; [done|]. split; [|by right]. destruct (t_status info); try done. cbn in *. rewrite fmap_app, elem_of_app. by left.
  - intros id Hin. right. by apply Hu.
Qed.
Lemma used_more q fl hist used id : queue_inv q fl hist used -> queue_inv q fl hist (id :: used).
Proof.
  intros [Hids Hh Hfh Hph Hp Hf Hm Hu]. split; try done.
  - intros i info Hl. apply Hm in Hl as (? & ? & ?). split_and!; try done. by right.
  - intros i Hi. right. by apply Hu.
Qed.

Lemma erase_first_ids id l : NoDup (ids l) -> NoDup (ids (erase_first id l)) /\ forall x, x ∈ ids (erase_first id l) <-> x ∈ ids l /\ x <> id.
Proof.
  unfold ids. induction l as [|t l IH]; cbn [erase_first fmap list_fmap]; [split; [constructor|]; intros x; rewrite elem_of_nil; tauto|].
  intros [Hn Hnd]%NoDup_cons. destruct (IH Hnd) as [H1 H2]. case_bool_decide as E.
  - split; [done|]. intros x. rewrite elem_of_cons. split; [|naive_solver]. intros Hx. split; [by right|]. intros ->. by subst.
  - cbn [fmap list_fmap]. split.
    + apply NoDup_cons. split; [|done]. by intros [? _]%H2.
    + intros x. rewrite !elem_of_cons, H2. naive_solver.
Qed.
Lemma cancelled_inv q fl hist used id now : queue_inv q fl hist used -> queue_inv (cancelled id now q) fl hist used.
Proof.
  intros Hinv. pose proof Hinv as [Hids Hh Hfh Hph Hp Hf Hm Hu]. unfold cancelled. destruct (task_map_ q !! id) as [info|] eqn:El; [|done].
  destruct (IsTerminal (t_status info)) eqn:Et; [done|]. apply NoDup_app in Hids as (N1 & N2 & N3). destruct (erase_first_ids id _ N1) as [E1 E2].
  split; cbn [pending_queue_ task_map_ set_pending set_map].
  - apply NoDup_app. split_and!; [done| |done]. intros x [Hx _]%E2. by apply N2.
  - done.
  - done.
  - intros x [Hx _]%E2. by apply Hph.
  - intros x [Hx Hne]%E2. rewrite lookup_insert_ne by done. by apply Hp.
  - intros x info' Hx Hl. apply lookup_insert_Some in Hl as [[<- <-]|[_ Hl]]; [by right|by eapply Hf].
  - intros x info' Hl. apply lookup_insert_Some in Hl as [[<- <-]|[Hne Hl]]; [apply Hm in El as (? & _ & ?); by split_and!|].
    apply Hm in Hl as (? & Hpl & ?). split_and!; try done. destruct (t_status info'); try done. cbn in *. by apply E2.
  - done.
Qed.
Lemma taken_inv q fl hist used now : queue_inv q fl hist used ->
  match (taken now q).1 with
  | Some t => queue_inv (taken now q).2 (fl ++ [t]) (t_request_id t :: hist) used /\ head (ids (pending_queue_ q)) = Some (t_request_id t)
  | None => (taken now q).2 = q /\ pending_queue_ q = []
  end.
Proof.
  intros [Hids Hh Hfh Hph Hp Hf Hm Hu]. unfold taken. destruct (pending_queue_ q) as [|task rest] eqn:Eq; [done|]. unfold ids in *.
  cbn [fmap list_fmap] in *. destruct (Hp (t_request_id task)) as (info & El & Es); [left|]. rewrite El, bool_decide_false by congruence. cbn [fst snd].
  destruct (Hm _ _ El) as (Ei & _ & Hused). cbn in Hids. apply NoDup_cons in Hids as [Hn Hids].
  assert (t_request_id (set_started now (set_status tsRunning info)) = t_request_id task) as Eid by done. split; [|cbn; by rewrite Ei].
  set (id := t_request_id task) in *. split; cbn [pending_queue_ task_map_ set_pending set_map]; unfold ids; rewrite ?fmap_app; cbn [fmap list_fmap]; rewrite ?Eid, ?Ei.
  - rewrite app_assoc. apply NoDup_app. split_and!; [done| |apply NoDup_singleton]. intros x Hx Hx'%list_elem_of_singleton. subst x. by apply Hn.
  - apply NoDup_cons. split; [|done]. apply Hph. left.
  - intros x [Hx|Hx%list_elem_of_singleton]%elem_of_app; [right; by apply Hfh|subst x; left].
  - intros x Hx [->|Hx']%elem_of_cons; [apply Hn, elem_of_app; by left|]. eapply Hph; [by right|done].
  - intros x Hx. rewrite lookup_insert_ne by (intros <-; apply Hn, elem_of_app; by left). apply Hp. by right.
  - intros x info' Hx Hl. apply lookup_insert_Some in Hl as [[<- <-]|[Hne Hl]]; [by left|]. apply elem_of_app in Hx as [Hx|Hx%list_elem_of_singleton]; [by eapply Hf|done].
  - intros x info' Hl. apply lookup_insert_Some in Hl as [[<- <-]|[Hne Hl]].
    + split_and!; [done| |done]. cbn. apply elem_of_app. right. left.
    + apply Hm in Hl as (? & Hpl & ?). split_and!; try done. destruct (t_status info'); try done; cbn in *.
      * by apply elem_of_cons in Hpl as [->|?].
      * apply elem_of_app. by left.
  - intros x [->|Hx]%elem_of_cons; [done|by apply Hu].
Qed.
Context {OL : HashOrderLaws O}.
Lemma evict_cases id m : evict id m = m \/
  exists x info, x <> id /\ m !! x = Some info /\ IsTerminal (t_status info) = true /\ evict id m = delete x m.
Proof.
  unfold evict. destruct (_ <? _); [|by left]. destruct (first_entry m) as [[x info]|] eqn:E; [|by left].
  destruct (IsTerminal (t_status info)) eqn:Et; [|by left]. case_bool_decide as Ex; [by left|]. right. exists x, info. split_and!; try done.
  apply elem_of_map_to_list. rewrite <- (visit_all TaskInfo m). unfold first_entry in E. destruct (visit m); [done|]. injection E as ->. left.
Qed.
Lemma delete_ids w fl t : fl !! w = Some t -> NoDup (ids fl) ->
  NoDup (ids (delete w fl)) /\ forall x, x ∈ ids (delete w fl) <-> x ∈ ids fl /\ x <> t_request_id t.
Proof.
  unfold ids. revert w. induction fl as [|u fl IH]; intros w; [done|]. destruct w as [|w]; cbn [lookup list_lookup delete list_delete fmap list_fmap].
  - intros [= ->] [Hn Hnd]%NoDup_cons. split; [done|]. intros x. rewrite elem_of_cons. split; [intros Hx; split; [by right|by intros ->]|naive_solver].
  - intros Hw [Hn Hnd]%NoDup_cons. destruct (IH w Hw Hnd) as [H1 H2]. split.
    + apply NoDup_cons. split; [|done]. by intros [? _]%H2.
    + intros x. rewrite !elem_of_cons, H2. split; [|naive_solver]. intros [->|?]; [|naive_solver]. split; [by left|]. intros E.
      apply Hn. rewrite E. apply list_elem_of_fmap_2. by eapply list_elem_of_lookup_2.
Qed.
Lemma evict_inv q fl hist used m id : queue_inv (set_map m q) fl hist used -> id ∉ ids fl -> queue_inv (set_map (evict id m) q) fl hist used.
Proof.
  intros Hinv Hid. destruct (evict_cases id m) as [->|(x & info & Hne & Hl & Ht & ->)]; [done|]. destruct Hinv as [Hids Hh Hfh Hph Hp Hf Hm Hu].
  split; cbn [pending_queue_ task_map_ set_map] in *; try done.
  - intros y Hy. destruct (Hp y Hy) as (info' & Hl' & Hs). exists info'. split; [|done]. rewrite lookup_delete_ne; [done|]. intros <-.
    rewrite Hl in Hl'. injection Hl' as <-. by rewrite Hs in Ht.
  - intros y info' Hy Hl'. apply lookup_delete_Some in Hl' as [_ Hl']. by eapply Hf.
  - intros y info' Hl'. apply lookup_delete_Some in Hl' as [_ Hl']. by apply Hm.
Qed.
Lemma settled_id outcome now info : t_request_id (settled outcome now info) = t_request_id info.
Proof. by destruct outcome. Qed.
Lemma settled_terminal outcome now info : IsTerminal (t_status (settled outcome now info)) = true.
Proof. by destruct outcome. Qed.
Lemma terminal_placed p f s id : IsTerminal s = true -> placed p f s id.
Proof. by destruct s. Qed.
Lemma finished_inv q fl hist used w t outcome now : queue_inv q fl hist used -> fl !! w = Some t ->
  queue_inv (finished (t_request_id t) outcome now q) (delete w fl) hist used.
Proof.
  intros Hinv Hw. pose proof Hinv as [Hids Hh Hfh Hph Hp Hf Hm Hu]. apply NoDup_app in Hids as (N1 & N2 & N3). destruct (delete_ids w fl t Hw N3) as [E1 E2].
  assert (t_request_id t ∈ ids fl) as Hin by (apply list_elem_of_fmap_2; by eapply list_elem_of_lookup_2). set (id := t_request_id t) in *.
  assert (queue_inv q (delete w fl) hist used \/ exists info, task_map_ q !! id = Some info /\ t_status info = tsRunning) as Hkeep.
  { destruct (task_map_ q !! id) as [info|] eqn:El; [destruct (Hf id info Hin El) as [Hr|Hc]; [right; by exists info|]|]; left.
    all: split; try done.
    all: try (apply NoDup_app; split_and!; [done|intros x Hx [Hx' _]%E2; by eapply N2|done]).
    all: try (intros x [Hx _]%E2; by apply Hfh). all: try (intros x info' [Hx _]%E2 Hl; by eapply Hf).
    all: intros x info' Hl; pose proof Hl as Hl'; apply Hm in Hl as (? & Hpl & ?); (split_and!; try done); destruct (t_status info') eqn:Es; try done; cbn in *; apply E2; (split; [done|]); intros ->; congruence. }
  unfold finished. destruct (task_map_ q !! id) as [info|] eqn:El; [|by destruct Hkeep as [?|(? & ? & _)]].
  case_bool_decide as Ec; [by destruct Hkeep as [?|(? & [= <-] & ?)]; [|congruence]|]. clear Hkeep.
  apply evict_inv; [|intros [_ ?]%E2; done]. destruct (Hm id info El) as (Ei & _ & Hused).
  split; cbn [pending_queue_ task_map_ set_map]; try done.
  - apply NoDup_app. split_and!; [done|intros x Hx [Hx' _]%E2; by eapply N2|done].
  - intros x [Hx _]%E2. by apply Hfh.
  - intros x Hx. rewrite lookup_insert_ne by (intros <-; by eapply N2). by apply Hp.
  - intros x info' [Hx Hne]%E2 Hl. rewrite lookup_insert_ne in Hl by done. by eapply Hf.
  - intros x info' Hl. apply lookup_insert_Some in Hl as [[<- <-]|[Hne Hl]].
    + rewrite settled_id. split_and!; try done. apply terminal_placed, settled_terminal.
    + apply Hm in Hl as (? & Hpl & ?). split_and!; try done. destruct (t_status info'); try done. cbn in *. by apply E2.
Qed.

Lemma step_inv o st : inv st -> fresh o st -> inv (q_step o st).
Proof.
  unfold inv. destruct st as [[q d] fl hist used]. intros Hinv Hf. destruct o as [sql database user uuid now|id now|now|w outcome now];
    cbn [q_step qs_queue qs_flight qs_history qs_used fresh fst] in *.
  - destruct (Submit_queue sql database user uuid now q d) as [b ->]. destruct b; [by apply submitted_inv|by apply used_more].
  - rewrite Cancel_queue. by apply cancelled_inv.
  - destruct (worker_take_queue now q d) as [d' ->]. pose proof (taken_inv q fl hist used now Hinv) as Ht. destruct (taken now q) as [[t|] q1]; cbn [fst snd] in *.
    + by destruct Ht.
    + by destruct Ht as [-> _].
  - destruct (fl !! w) as [t|] eqn:Ew; [|done]. cbn [qs_queue qs_flight qs_history qs_used].
    destruct (worker_finish_queue t outcome now q d) as [d' ->]. by apply finished_inv.
Qed.
Lemma run_inv os : forall st, inv st -> all_fresh os st -> inv (q_run os st).
Proof.
  induction os as [|o os IH]; intros st Hi Hf; [done|]. destruct Hf as [Hf Hfs]. apply IH; [by apply step_inv|done].
Qed.
Lemma initial_inv q d : pending_queue_ q = [] -> task_map_ q = ∅ -> inv (initial q d).
Proof.
  intros Hp Hm. split; cbn [initial qs_queue qs_flight qs_history qs_used fst]; rewrite ?Hp, ?Hm; try apply NoDup_nil_2; try (by intros ? ?%elem_of_nil).
  - by intros id info Hin%elem_of_nil.
  - intros id info Hl. by rewrite lookup_empty in Hl.
Qed.

(** ** Final states *)

Definition lookup_task (st : qstate) (id : string) : option TaskInfo := task_map_ (qs_queue st).1 !! id.
Definition final (id : string) (info : TaskInfo) (st : qstate) : Prop :=
  id ∈ qs_used st /\ IsTerminal (t_status info) = true /\ (lookup_task st id = Some info \/ lookup_task st id = None).
Lemma final_not_pending st id info : inv st -> final id info st -> id ∉ ids (pending_queue_ (qs_queue st).1).
Proof.
  intros Hi (_ & Ht & Hl) Hin. destruct (qi_pending _ _ _ _ Hi id Hin) as (info' & Hl' & Hs). unfold lookup_task in Hl. rewrite Hl' in Hl.
  destruct Hl as [[= ->]|]; [by rewrite Hs in Ht|done].
Qed.
Lemma insert_final (m : gmap string TaskInfo) id id' info info' : id <> id' -> m !! id = Some info \/ m !! id = None ->
  <[id' := info']> m !! id = Some info \/ <[id' := info']> m !! id = None.
Proof. intros Hne Hl. by rewrite lookup_insert_ne. Qed.
Lemma evict_final m id id' info : m !! id = Some info \/ m !! id = None -> evict id' m !! id = Some info \/ evict id' m !! id = None.
Proof.
  intros Hl. destruct (evict_cases id' m) as [->|(x & i & _ & _ & _ & ->)]; [done|]. destruct (decide (x = id)) as [->|]; [right; apply lookup_delete_eq|].
  by rewrite lookup_delete_ne.
Qed.
Lemma step_final o st id info : inv st -> fresh o st -> final id info st ->
  final id info (q_step o st) /\ (id ∉ qs_history st -> id ∉ qs_history (q_step o st)).
Proof.
  intros Hi Hf Hfin. pose proof (final_not_pending st id info Hi Hfin) as Hnp. destruct Hfin as (Hu & Ht & Hl). unfold final, lookup_task, inv in *.
  destruct st as [[q d] fl hist used]. destruct o as [sql database user uuid now|id' now|now|w outcome now];
    cbn [q_step qs_queue qs_flight qs_history qs_used fresh fst] in *.
  - destruct (Submit_queue sql database user uuid now q d) as [b ->]. split; [|done]. split_and!; [by right|done|]. destruct b; [|done].
    apply insert_final; [|done]. by intros ->.
  - rewrite Cancel_queue. split; [|done]. split_and!; [done|done|]. unfold cancelled. destruct (task_map_ q !! id') as [info'|] eqn:El; [|done].
    destruct (IsTerminal (t_status info')) eqn:Et; [done|]. apply insert_final; [|done]. intros ->. destruct Hl; congruence.
  - destruct (worker_take_queue now q d) as [d' ->]. pose proof (taken_inv q fl hist used now Hi) as Hk. unfold taken in *.
    destruct (pending_queue_ q) as [|task rest] eqn:Eq; [done|]. unfold ids in Hnp. cbn in Hnp. apply not_elem_of_cons in Hnp as [Hne Hnp].
    destruct (task_map_ q !! t_request_id task) as [i|] eqn:El; [case_bool_decide; [by destruct Hk|]|]; cbn [fst snd qs_queue qs_history qs_used].
    + destruct Hk as [_ Hk]. cbn in Hk. injection Hk as Hk. split; [split_and!; [done|done|by apply insert_final]|]. intros Hh. apply not_elem_of_cons. split; [|done]. cbn. congruence.
    + split; [by split_and!|]. intros Hh. by apply not_elem_of_cons.
  - destruct (fl !! w) as [t|] eqn:Ew; [|done]. cbn [qs_queue qs_flight qs_history qs_used]. destruct (worker_finish_queue t outcome now q d) as [d' ->].
    split; [|done]. split_and!; [done|done|]. cbn [fst snd]. unfold finished. destruct (task_map_ q !! t_request_id t) as [i|] eqn:El; [|done].
    case_bool_decide; [done|]. apply evict_final, insert_final; [|done]. intros ->. destruct Hl as [Hl|Hl]; [|congruence]. rewrite El in Hl. injection Hl as ->.
    destruct (qi_flight _ _ _ _ Hi (t_request_id t) info) as [Hs|Hs]; [apply list_elem_of_fmap_2; by eapply list_elem_of_lookup_2|done|by rewrite Hs in Ht|done].
Qed.
Lemma run_final os : forall st id info, inv st -> all_fresh os st -> final id info st ->
  final id info (q_run os st) /\ (id ∉ qs_history st -> id ∉ qs_history (q_run os st)).
Proof.
  induction os as [|o os IH]; intros st id info Hi Hf Hfin; [done|]. destruct Hf as [Hf Hfs]. destruct (step_final o st id info Hi Hf Hfin) as [H1 H2].
  destruct (IH (q_step o st) id info) as [H3 H4]; [by apply step_inv|done|done|]. split; [done|]. intros Hh. by apply H4, H2.
Qed.

(** ** Service in turn *)

Definition waiting (st : qstate) : list string := ids (pending_queue_ (qs_queue st).1).
(** [n] tasks are before the task in the queue. *)
Definition waits (n : nat) (id : string) (st : qstate) : Prop := exists l1 l2, waiting st = l1 ++ id :: l2 /\ length l1 = n.
Definition is_take (o : queue_op) : bool := match o with QTake _ => true | _ => false end.
Definition takes (os : list queue_op) : nat := length (filter (fun o => is_take o = true) os).

Lemma erase_first_waits l1 l2 id id' : id <> id' -> forall l, ids l = l1 ++ id :: l2 ->
  exists l1' l2', ids (erase_first id' l) = l1' ++ id :: l2' /\ (length l1' <= length l1)%nat.
Proof.
  unfold ids. intros Hne. induction l1 as [|x l1 IH]; intros [|t l] E; try done; cbn [fmap list_fmap app] in E; injection E as E1 E2; cbn [erase_first].
  - rewrite bool_decide_false by congruence. exists [], (ids (erase_first id' l)). cbn. by rewrite E1.
  - case_bool_decide; [exists l1, l2; split; [done|cbn; lia]|]. destruct (IH l E2) as (l1' & l2' & E' & Hl). exists (x :: l1'), l2'. cbn.
    rewrite E1, E'. split; [done|lia].
Qed.
Lemma step_waits o st n id : inv st -> waits n id st ->
  if is_take o then match n with 0%nat => id ∉ waiting (q_step o st) | S m => waits m id (q_step o st) end
  else id ∉ waiting (q_step o st) \/ exists m, (m <= n)%nat /\ waits m id (q_step o st).
Proof.
  unfold inv, waits, waiting. destruct st as [[q d] fl hist used]. cbn [qs_queue qs_flight qs_history qs_used fst]. intros Hi (l1 & l2 & E & En).
  destruct o as [sql database user uuid now|id' now|now|w outcome now]; cbn [is_take q_step qs_queue].
  - right. exists n. split; [done|]. destruct (Submit_queue sql database user uuid now q d) as [b ->]. destruct b; [|by exists l1, l2].
    exists l1, (l2 ++ [uuid]). cbn [submitted set_pending pending_queue_]. unfold ids in *. rewrite fmap_app, E. cbn. by rewrite <- app_assoc.
  - rewrite Cancel_queue. unfold cancelled. destruct (task_map_ q !! id') as [info|]; [|right; exists n; split; [done|by exists l1, l2]].
    destruct (IsTerminal (t_status info)); [right; exists n; split; [done|by exists l1, l2]|]. cbn [set_pending pending_queue_].
    destruct (decide (id = id')) as [->|Hne].
    + left. pose proof (qi_ids _ _ _ _ Hi) as (N1 & _)%NoDup_app. by intros [_ ?]%(erase_first_ids id' _ N1).
    + right. destruct (erase_first_waits l1 l2 id id' Hne _ E) as (l1' & l2' & E' & Hl). exists (length l1'). split; [lia|by exists l1', l2'].
  - destruct (worker_take_queue now q d) as [d' ->]. pose proof (taken_inv q fl hist used now Hi) as Ht. pose proof (qi_ids _ _ _ _ Hi) as (N1 & _)%NoDup_app.
    assert (ids (pending_queue_ (taken now q).2) = tail (ids (pending_queue_ q))) as Etail.
    { unfold taken. destruct (pending_queue_ q) as [|task rest] eqn:Eq; [cbn; by rewrite Eq|]. destruct (task_map_ q !! t_request_id task); [|done]. by case_bool_decide. }
    rewrite E in N1, Etail. destruct (taken now q) as [[t|] q1]; cbn [fst snd qs_queue] in *; [|destruct Ht as [_ Hnil]; rewrite Hnil in E; by destruct l1].
    all: rewrite Etail; destruct l1 as [|x l1]; cbn in En; subst n; cbn [app tail] in *; [by apply NoDup_cons in N1 as [? _]|by exists l1, l2].
  - right. exists n. split; [done|]. cbn [qs_flight]. destruct (fl !! w) as [t|]; [|by exists l1, l2]. cbn [qs_queue]. destruct (worker_finish_queue t outcome now q d) as [d' ->].
    exists l1, l2. split; [|done]. cbn [fst snd]. unfold finished. destruct (task_map_ q !! t_request_id t); [|done]. by case_bool_decide.
Qed.
Lemma step_served o st id : inv st -> fresh o st -> id ∈ qs_used st -> id ∉ waiting st -> id ∈ qs_used (q_step o st) /\ id ∉ waiting (q_step o st).
Proof.
  unfold waiting. destruct st as [[q d] fl hist used]. intros Hi Hf Hu Hn. unfold inv in Hi. destruct o as [sql database user uuid now|id' now|now|w outcome now];
    cbn [q_step qs_queue qs_flight qs_history qs_used fresh fst] in *.
  - split; [by right|]. destruct (Submit_queue sql database user uuid now q d) as [b ->]. destruct b; [|done]. cbn [submitted set_pending pending_queue_].
    unfold ids in *. rewrite fmap_app, elem_of_app. intros [?|Hx%list_elem_of_singleton]; [done|by subst id].
  - split; [done|]. rewrite Cancel_queue. unfold cancelled. destruct (task_map_ q !! id'); [|done]. destruct (IsTerminal _); [done|].
    pose proof (qi_ids _ _ _ _ Hi) as (N1 & _)%NoDup_app. by intros [? _]%(erase_first_ids id' _ N1).
  - destruct (worker_take_queue now q d) as [d' ->].
    assert (id ∉ ids (pending_queue_ (taken now q).2)) as H.
    { unfold taken. destruct (pending_queue_ q) as [|task rest] eqn:Eq; [cbn; by rewrite Eq|]. unfold ids in *. cbn in Hn. apply not_elem_of_cons in Hn as [_ Hn].
      destruct (task_map_ q !! t_request_id task); [|done]. by case_bool_decide. }
    by destruct (taken now q) as [[t|] q1].
  - destruct (fl !! w) as [t|]; [|done]. cbn [qs_queue qs_used]. split; [done|]. destruct (worker_finish_queue t outcome now q d) as [d' ->]. cbn [fst snd].
    unfold finished. destruct (task_map_ q !! t_request_id t); [|done]. by case_bool_decide.
Qed.
Lemma run_served os : forall st id, inv st -> all_fresh os st -> id ∈ qs_used st -> id ∉ waiting st -> id ∉ waiting (q_run os st).
Proof.
  induction os as [|o os IH]; intros st id Hi Hf Hu Hn; [done|]. destruct Hf as [Hf Hfs]. destruct (step_served o st id Hi Hf Hu Hn) as [H1 H2].
  apply (IH (q_step o st)); [by apply step_inv|done..].
Qed.
Lemma waits_used st n id : inv st -> waits n id st -> id ∈ qs_used st.
Proof.
  intros Hi (l1 & l2 & E & _). destruct (qi_pending _ _ _ _ Hi id) as (info & Hl & _).
  { fold (waiting st). rewrite E. apply elem_of_app. right. left. }
  by apply (qi_map _ _ _ _ Hi) in Hl as (_ & _ & ?).
Qed.
Lemma run_waits os : forall st n id, inv st -> all_fresh os st -> waits n id st -> (n < takes os)%nat -> id ∉ waiting (q_run os st).
Proof.
  induction os as [|o os IH]; intros st n id Hi Hf Hw Hn; [cbn in Hn; lia|]. destruct Hf as [Hf Hfs].
  pose proof (step_waits o st n id Hi Hw) as Hs. pose proof (step_inv o st Hi Hf) as Hi'.
  assert (forall id', id' ∈ qs_used st -> id' ∈ qs_used (q_step o st)) as Hused by (intros id' H; destruct o; cbn; repeat case_match; try done; by right).
  pose proof (Hused id (waits_used st n id Hi Hw)) as Hu. unfold takes in Hn. rewrite filter_cons in Hn. destruct (is_take o).
  - destruct n as [|n]; [by apply (run_served os (q_step o st))|]. apply (IH (q_step o st) n); try done. unfold takes. destruct (decide (true = true)); [cbn in Hn; lia|done].
  - destruct Hs as [Hs|(m & Hm & Hs)]; [by apply (run_served os (q_step o st))|]. apply (IH (q_step o st) m); try done. unfold takes. destruct (decide (false = true)); [done|lia].
Qed.

(** Only a full map loses a task. *)
Abbreviation entries st := (task_map_ (qs_queue st).1).
Definition full (m : gmap string TaskInfo) : Prop := kMaxCompletedResults <= Z.of_nat (base.size m).
Definition kept (m m' : gmap string TaskInfo) : Prop := (forall id, is_Some (m !! id) -> is_Some (m' !! id) \/ full m') /\ (full m -> full m').
Lemma kept_refl m : kept m m.
Proof. split; auto. Qed.
Lemma kept_trans m1 m2 m3 : kept m1 m2 -> kept m2 m3 -> kept m1 m3.
Proof. intros [H1 H2] [H3 H4]. split; [|auto]. intros id [H|H]%H1; [by apply H3|right; auto]. Qed.
Lemma kept_insert id info (m : gmap string TaskInfo) : kept m (<[id := info]> m).
Proof.
  split; [intros id' H; left; apply lookup_insert_is_Some; destruct (decide (id = id')); tauto|]. unfold full. intros H.
  destruct (m !! id) eqn:E; [rewrite map_size_insert_Some by eauto; done|rewrite map_size_insert_None by done; lia].
Qed.
Lemma kept_evict id m : kept m (evict id m).
Proof.
  unfold evict. destruct (_ <? _) eqn:Es; [|apply kept_refl]. destruct (first_entry m) as [[x info]|] eqn:E; [|apply kept_refl].
  destruct (_ && _); [|apply kept_refl]. assert (full (delete x m)); [|by split; auto]. zbool. unfold full.
  assert (is_Some (m !! x)) as Hx.
  { exists info. apply elem_of_map_to_list. rewrite <- (visit_all TaskInfo m). unfold first_entry in E. destruct (visit m); [done|]. injection E as ->. left. }
  rewrite map_size_delete_Some by done. lia.
Qed.
Lemma step_kept o st : kept (entries st) (entries (q_step o st)).
Proof.
  destruct st as [[q d] fl hist used]. destruct o as [sql database user uuid now|id now|now|w outcome now]; cbn [q_step qs_queue qs_flight qs_history qs_used fst].
  - destruct (Submit_queue sql database user uuid now q d) as [b ->]. destruct b; [apply kept_insert|apply kept_refl].
  - rewrite Cancel_queue. unfold cancelled. destruct (task_map_ q !! id); [|apply kept_refl]. destruct (IsTerminal _); [apply kept_refl|apply kept_insert].
  - destruct (worker_take_queue now q d) as [d' ->]. assert (kept (task_map_ q) (task_map_ (taken now q).2)) as H.
    { unfold taken. destruct (pending_queue_ q) as [|task rest]; [apply kept_refl|]. destruct (task_map_ q !! _); [|apply kept_refl].
      case_bool_decide; [apply kept_refl|apply kept_insert]. }
    by destruct (taken now q) as [[t|] q1].
  - destruct (fl !! w) as [t|]; [|apply kept_refl]. cbn [qs_queue]. destruct (worker_finish_queue t outcome now q d) as [d' ->]. cbn [fst snd].
    unfold finished. destruct (task_map_ q !! _); [|apply kept_refl]. case_bool_decide; [apply kept_refl|].
    eapply kept_trans; [apply kept_insert|apply kept_evict].
Qed.
Lemma run_kept os : forall st, kept (entries st) (entries (q_run os st)).
Proof. induction os as [|o os IH]; intros st; [apply kept_refl|]. eapply kept_trans; [apply (step_kept o)|apply (IH (q_step o st))]. Qed.
End steps.

(** C17. Safety of the task queue, for submissions with new ids, cancellations
    and the critical sections of any number of workers in any order, and on any
    disk: no task is handed to a worker twice, and a task that is completed,
    failed or cancelled keeps its state and result until it is evicted; in
    particular a task cancelled before a worker took it is never executed. *)
Theorem queue_safety {L : JsonLibrary} {O : HashOrder} {OL : HashOrderLaws O} max path d os os' :
  let start := initial (mkTaskQueue max path [] ∅ true) d in
  all_fresh os start -> all_fresh os' (q_run os start) ->
  NoDup (qs_history (q_run os' (q_run os start))) /\
  forall id info, lookup_task (q_run os start) id = Some info -> IsTerminal (t_status info) = true ->
    (lookup_task (q_run os' (q_run os start)) id = Some info \/ lookup_task (q_run os' (q_run os start)) id = None) /\
    (id ∉ qs_history (q_run os start) -> id ∉ qs_history (q_run os' (q_run os start))).
Proof.
  intros start Hf Hf'. assert (inv (q_run os start)) as Hi by (apply run_inv; [by apply initial_inv|done]). split; [apply (run_inv os' _ Hi Hf')|].
  intros id info Hl Ht. assert (final id info (q_run os start)) as Hfin.
  { split_and!; [|done|by left]. by apply (qi_map _ _ _ _ Hi id info) in Hl as (_ & _ & ?). }
  destruct (run_final os' _ id info Hi Hf' Hfin) as [(_ & _ & H1) H2]. done.
Qed.

(** C16. Liveness of the task queue: a task with [n] tasks before it is served in
    its turn.  Whatever else happens, once the workers have taken more than [n]
    tasks and finished the ones they took, the task is completed, failed or
    cancelled (or was evicted as the oldest of [kMaxCompletedResults] entries):
    neither later submissions nor cancellations can hold it back. *)
Theorem queue_liveness {L : JsonLibrary} {O : HashOrder} {OL : HashOrderLaws O} max path d os os' n id :
  let start := initial (mkTaskQueue max path [] ∅ true) d in
  let stop := q_run os' (q_run os start) in
  all_fresh os start -> all_fresh os' (q_run os start) ->
  waits n id (q_run os start) -> (n < takes os')%nat -> qs_flight stop = [] ->
  match lookup_task stop id with
  | Some info => IsTerminal (t_status info) = true
  | None => full (task_map_ (qs_queue stop).1)
  end.
Proof.
  intros start stop Hf Hf' Hw Hn Hfl. assert (inv (q_run os start)) as Hi by (apply run_inv; [by apply initial_inv|done]).
  pose proof (run_inv os' _ Hi Hf') as Hi'. pose proof (run_waits os' _ n id Hi Hf' Hw Hn) as Hnp. fold stop in Hi', Hnp.
  unfold lookup_task. destruct (task_map_ (qs_queue stop).1 !! id) as [info|] eqn:Hl.
  - apply (qi_map _ _ _ _ Hi') in Hl as (_ & Hpl & _). rewrite Hfl in Hpl. by destruct (t_status info); cbn in Hpl; try done; apply elem_of_nil in Hpl.
  - destruct Hw as (l1 & l2 & E & _). destruct (qi_pending _ _ _ _ Hi id) as (info & Hin & _); [fold (waiting (q_run os start)); rewrite E; apply elem_of_app; right; left|].
    destruct (run_kept os' (q_run os start)) as [Hk _]. destruct (Hk id (mk_is_Some _ _ Hin)) as [Hs|Hs]; [|done]. fold stop in Hs. rewrite Hl in Hs. by apply is_Some_None in Hs.
Qed.

(** ** Examples *)

#[local] Existing Instance sample_json.
#[local] Existing Instance sample_order.
(** Two tasks wait; a third one is submitted while they are served. *)
Definition sample_ops : list queue_op := [QSubmit "select" "db" "ann" "a" 1; QSubmit "select" "db" "ann" "b" 2].
Definition sample_later : list queue_op :=
  [QTake 3; QSubmit "select" "db" "ann" "c" 4; QTake 5; QFinish 1 (Err kNotFound "no table") 6; QFinish 0 (Ok "1 row") 7; QCancel "c" 8].
Definition sample_queue : TaskQueue := mkTaskQueue 10 "q/tasks.wal" [] ∅ true.
Definition sample_qdisk : disk := mkDisk ∅ {["q"]} [].

Lemma queue_safety_witness :
  let st := q_run sample_later (q_run sample_ops (initial sample_queue sample_qdisk)) in
  NoDup (qs_history (q_run [QTake 11; QFinish 0 (Ok "") 12] st)) /\
  (lookup_task (q_run [QTake 11; QFinish 0 (Ok "") 12] st) "c" = lookup_task st "c" \/ lookup_task (q_run [QTake 11; QFinish 0 (Ok "") 12] st) "c" = None) /\
  "c" ∉ qs_history (q_run [QTake 11; QFinish 0 (Ok "") 12] st).
Proof.
  destruct (queue_safety (OL:=sample_order_laws) 10 "q/tasks.wal" sample_qdisk (sample_ops ++ sample_later) [QTake 11; QFinish 0 (Ok "") 12]) as [H1 H2]; [by_computation..|].
  cbv zeta. fold sample_queue in H1, H2. unfold q_run at 2 in H1. rewrite foldl_app in H1. split; [exact H1|].
  destruct (lookup_task (q_run (sample_ops ++ sample_later) (initial sample_queue sample_qdisk)) "c") as [info|] eqn:E; [|vm_compute in E; discriminate E].
  destruct (H2 "c" info E) as [H3 H4]; [vm_compute in E; injection E as <-; reflexivity|].
  unfold q_run at 2 in H3. unfold q_run at 1 3 in H4. unfold q_run in E. rewrite foldl_app in E, H3, H4. split.
  - destruct H3 as [H3|H3]; [left|right; exact H3]. etransitivity; [exact H3|]. symmetry. exact E.
  - apply H4. by_computation.
Defined.
Lemma queue_liveness_witness :
  let st := q_run sample_ops (initial sample_queue sample_qdisk) in
  waits 1 "b" st /\ qs_flight (q_run sample_later st) = [] /\
  match lookup_task (q_run sample_later st) "b" with Some info => IsTerminal (t_status info) = true | None => full (task_map_ (qs_queue (q_run sample_later st)).1) end.
Proof.
  cbv zeta. assert (waits 1 "b" (q_run sample_ops (initial sample_queue sample_qdisk))) as Hw by (exists ["a"], []; by vm_compute).
  split; [exact Hw|]. split; [vm_compute; reflexivity|].
  apply (queue_liveness (OL:=sample_order_laws) 10 "q/tasks.wal" sample_qdisk sample_ops sample_later 1 "b"); [by_computation|by_computation|exact Hw|vm_compute; lia|vm_compute; reflexivity].
Defined.
