(* ===== verification/TaskQueueLog.v ===== *)
(** * Recovery of the task queue

    The log of [task_queue.cpp]: its last record of every task is the state of
    the task in memory, also after any number of restarts, so that a restart
    recovers every task ([queue_recovers]). *)
From S2P Require Import Prelude Disk Json Rbac TaskQueue TaskQueueSpec.

Section log.
Context {L : JsonLibrary} {LL : JsonLaws L} {O : HashOrder} {OL : HashOrderLaws O}.

(** ** Records *)

Definition good (t : TaskInfo) : Prop :=
  json_text (t_request_id t) /\ json_text (t_sql t) /\ json_text (t_database t) /\ json_text (t_user_id t) /\
  json_text (t_result t) /\ json_text (t_error t) /\ (forall raw, t_status t <> tsOther raw) /\
  0 <= t_progress t <= 100 /\ in_i64 (t_submitted_ms t) /\ in_i64 (t_started_ms t) /\ in_i64 (t_finished_ms t) /\ t_retry_count t = 0.
Lemma TaskFromJson_TaskToJson t : good t -> TaskFromJson (TaskToJson t) = Some t.
Proof.
  intros (_ & _ & _ & _ & _ & _ & Hs & Hp & H1 & H2 & H3 & Hr). destruct t as [id sql database user s progress res error t1 t2 t3 retry]. cbn in Hs, Hp, H1, H2, H3, Hr.
  subst retry. unfold TaskFromJson.
  repeat match goal with |- context [at_ (TaskToJson ?t) ?n] => let v := eval cbv in (at_ (TaskToJson t) n) in change (at_ (TaskToJson t) n) with v end.
  cbn [mbind option_bind get_string get_i32 get_i64 get_number fmap option_fmap option_map].
  rewrite (i32_id progress), !i64_id by (done || lia). destruct s; try reflexivity. by destruct (Hs raw).
Qed.
Lemma task_json_well_formed t : good t -> well_formed (TaskToJson t).
Proof.
  intros (H1 & H2 & H3 & H4 & H5 & H6 & Hs & Hp & T1 & T2 & T3 & Hr). apply well_formed_object; [reflexivity|]. pose proof text_ascii as Ht. unfold in_i64 in *.
  repeat apply Forall_cons_2; [..|by apply Forall_nil_2]; (split; [by apply Ht|]); cbn [snd fst well_formed]; try done; try lia.
  destruct (t_status t) eqn:E; cbn; try lia. by destruct (Hs raw).
Qed.
Definition dump_of (t : TaskInfo) : string := json_dump (TaskToJson t).
Lemma read_task_dump t : good t -> read_task (dump_of t) = Some t.
Proof. intros Hg. unfold read_task, dump_of. rewrite parse_dump by (by apply task_json_well_formed). by apply TaskFromJson_TaskToJson. Qed.

(** ** Lines *)

Lemma lines_from_line s rest : "010"%char ∉ String.list_ascii_of_string s -> forall line,
  lines_from line (s +:+ String "010" rest) = (line +:+ s) :: lines_from "" rest.
Proof.
  induction s as [|c s IH]; intros Hs line; [by rewrite string_app_nil_r|]. change (String c s +:+ String "010" rest) with (String c (s +:+ String "010" rest)).
  cbn [String.list_ascii_of_string] in Hs. apply not_elem_of_cons in Hs as [Hc Hs]. cbn [lines_from]. rewrite bool_decide_false by congruence.
  rewrite IH by done. f_equal. by rewrite string_app_assoc.
Qed.
Definition log_of (recs : list TaskInfo) : bytes := concat (map line_of recs).
Lemma string_of_bytes_app b1 b2 : string_of_bytes (b1 ++ b2) = string_of_bytes b1 +:+ string_of_bytes b2.
Proof.
  induction b1 as [|b b1 IH]; [done|]. change (string_of_bytes ((b :: b1) ++ b2)) with (String (Ascii.ascii_of_byte b) (string_of_bytes (b1 ++ b2))). by rewrite IH.
Qed.
Lemma lines_log recs : lines_from "" (string_of_bytes (log_of recs)) = map dump_of recs.
Proof.
  induction recs as [|t recs IH]; [done|]. unfold log_of. cbn [map concat]. rewrite string_of_bytes_app. unfold line_of.
  rewrite String.string_of_list_byte_of_string, string_app_assoc. fold (dump_of t). change (String "010" "" +:+ ?x) with (String "010" x).
  rewrite lines_from_line by apply dump_one_line. by rewrite <- IH.
Qed.
Definition logmap (recs : list TaskInfo) : gmap string TaskInfo := foldl (fun m t => <[t_request_id t := t]> m) ∅ recs.
Lemma latest_dumps recs : Forall good recs -> forall m, latest (map dump_of recs) m = foldl (fun m t => <[t_request_id t := t]> m) m recs.
Proof.
  induction 1 as [|t recs Hg _ IH]; intros m; [done|]. cbn [map latest foldl]. rewrite bool_decide_false by apply dump_not_empty. rewrite read_task_dump by done. apply IH.
Qed.
Lemma logmap_app recs t : logmap (recs ++ [t]) = <[t_request_id t := t]> (logmap recs).
Proof. unfold logmap. by rewrite foldl_app. Qed.
Lemma logmap_lookup recs id t : logmap recs !! id = Some t -> t ∈ recs /\ t_request_id t = id.
Proof.
  induction recs as [|t' recs IH] using rev_ind; [unfold logmap; cbn; by rewrite lookup_empty|]. rewrite logmap_app. intros [[<- <-]|[_ Hl]]%lookup_insert_Some.
  - split; [apply elem_of_app; right; left|done].
  - destruct (IH Hl). split; [apply elem_of_app; by left|done].
Qed.
Lemma log_of_nil recs : log_of recs = [] -> recs = [].
Proof.
  destruct recs as [|t recs]; [done|]. unfold log_of, line_of. cbn [map concat]. intros [E _]%app_eq_nil. apply (f_equal length) in E.
  rewrite length_bytes_of_string in E. pose proof (dump_not_empty (TaskToJson t)). by destruct (json_dump (TaskToJson t)).
Qed.

(** ** The log agrees with the memory *)

Definition writable (path : string) (d : disk) : Prop :=
  healthy d /\ dir_exists d (dir_of path) = true /\ path ∉ d_dirs d /\ path +:+ ".tmp" ∉ d_dirs d.
(** The tasks in memory are as logged; a logged task that is not in memory any
    more was evicted in a final state. *)
Definition agree (m M : gmap string TaskInfo) : Prop :=
  (forall id info, m !! id = Some info -> M !! id = Some info) /\
  (forall id info, M !! id = Some info -> m !! id = Some info \/ IsTerminal (t_status info) = true).
Record log_inv (q : TaskQueue) (d : disk) (used : list string) (recs : list TaskInfo) : Prop := {
  li_disk : writable (wal_path_ q) d;
  li_file : file_content d (wal_path_ q) = log_of recs;
  li_good : Forall good recs;
  li_agree : agree (task_map_ q) (logmap recs);
  li_used : forall id info, logmap recs !! id = Some info -> id ∈ used
}.
Lemma writable_set path content d : writable path d -> writable path (set_files <[path := content]> d).
Proof. done. Qed.
Lemma AppendWal_writable info q d : writable (wal_path_ q) d ->
  AppendWal info (q, d) = (Ok tt, (q, set_files <[wal_path_ q := file_content d (wal_path_ q) ++ line_of info]> d)).
Proof.
  intros (Hh & Hd & Hp & _). unfold AppendWal. rewrite M_bind_eq. unfold this at 1. cbn [fst]. rewrite M_bind_eq. unfold on_disk at 1. cbn [fst snd].
  rewrite stream_append_healthy by done. unfold on_disk. cbn [fst snd]. rewrite stream_put_healthy by done. rewrite file_content_set. cbn [fst snd].
  unfold set_files. cbn [d_files d_dirs d_faults]. by rewrite insert_insert_eq.
Qed.
Lemma agree_insert id info m M : agree m M -> agree (<[id := info]> m) (<[id := info]> M).
Proof.
  intros [H1 H2]. split; intros id' info' [[<- <-]|[Hne Hl]]%lookup_insert_Some.
  - apply lookup_insert_eq.
  - rewrite lookup_insert_ne by done. by apply H1.
  - left. apply lookup_insert_eq.
  - rewrite lookup_insert_ne by done. by apply H2.
Qed.
Lemma agree_evict id m M : agree m M -> agree (evict id m) M.
Proof.
  intros [H1 H2]. destruct (evict_cases id m) as [->|(x & info & _ & Hx & Ht & ->)]; [done|]. split.
  - intros id' info' [_ Hl]%lookup_delete_Some. by apply H1.
  - intros id' info' Hl. destruct (decide (x = id')) as [<-|Hne]; [|rewrite lookup_delete_ne by done; by apply H2].
    right. apply H1 in Hx. rewrite Hx in Hl. by injection Hl as <-.
Qed.
(** A step that logs a task and files it in memory. *)
Lemma log_step q q' d used recs info : log_inv q d used recs -> good info -> wal_path_ q' = wal_path_ q ->
  agree (task_map_ q') (<[t_request_id info := info]> (logmap recs)) -> t_request_id info ∈ used ->
  log_inv q' (set_files <[wal_path_ q := file_content d (wal_path_ q) ++ line_of info]> d) used (recs ++ [info]).
Proof.
  intros [Hw Hf Hg Ha Hu] Hi Hp Ha' Hid. split; rewrite ?Hp, ?logmap_app; try done.
  - rewrite file_content_set, Hf. unfold log_of. rewrite map_app, concat_app. cbn. by rewrite app_nil_r.
  - apply Forall_app. split; [done|by apply Forall_singleton].
  - intros id i [[<- _]|[_ Hl]]%lookup_insert_Some; [done|by eapply Hu].
Qed.
Lemma log_good q d used recs id info : log_inv q d used recs -> task_map_ q !! id = Some info -> good info /\ t_request_id info = id /\ id ∈ used.
Proof.
  intros [Hw Hf Hg [Ha _] Hu] Hl. apply Ha in Hl. pose proof Hl as [Hin Hid]%logmap_lookup. rewrite Forall_forall in Hg. split_and!; [by apply Hg|done|by eapply Hu].
Qed.
Lemma log_used q d used recs id : log_inv q d used recs -> log_inv q d (id :: used) recs.
Proof. intros [Hw Hf Hg Ha Hu]. split; try done. intros id' i Hl. right. by eapply Hu. Qed.

(** ** Steps *)

Definition op_ok (o : queue_op) : Prop :=
  match o with
  | QSubmit sql database user uuid now => json_text sql /\ json_text database /\ json_text user /\ json_text uuid /\ in_i64 now
  | QCancel _ now | QTake now => in_i64 now
  | QFinish _ outcome now => in_i64 now /\ json_text (match outcome with Ok text => text | Err _ message => message end)
  end.
Definition log_state (st : qstate) : Prop := exists recs, log_inv (qs_queue st).1 (qs_queue st).2 (qs_used st) recs.
Lemma good_status s t : good t -> (forall raw, s <> tsOther raw) -> good (set_status s t).
Proof. intros (? & ? & ? & ? & ? & ? & _ & ? & ? & ? & ? & ?) Hs. split_and!; done || (cbn in *; lia). Qed.
Lemma good_started now t : good t -> in_i64 now -> good (set_started now t).
Proof. intros (? & ? & ? & ? & ? & ? & ? & ? & ? & _ & ? & ?) Hs. split_and!; done || (cbn in *; lia). Qed.
Lemma good_finished now t : good t -> in_i64 now -> good (set_finished now t).
Proof. intros (? & ? & ? & ? & ? & ? & ? & ? & ? & ? & _ & ?) Hs. split_and!; done || (cbn in *; lia). Qed.
Lemma good_settled outcome now t : good t -> in_i64 now -> json_text (match outcome with Ok text => text | Err _ message => message end) ->
  good (settled outcome now t).
Proof.
  intros Hg Hn Ht. apply good_finished; [|done]. destruct Hg as (? & ? & ? & ? & ? & ? & ? & ? & ? & ? & ? & ?), outcome; split_and!; done || (cbn in *; lia).
Qed.
Lemma submit_log sql database user uuid now q d used recs : op_ok (QSubmit sql database user uuid now) -> log_inv q d used recs ->
  match (Submit sql database user uuid now (q, d)).2 with (q', d') => exists recs', log_inv q' d' (uuid :: used) recs' end.
Proof.
  intros (H1 & H2 & H3 & H4 & H5) Hi. unfold Submit. cbv zeta. rewrite M_bind_eq. unfold this at 1. cbn [fst]. rewrite M_bind_eq. unfold reject_if at 1.
  destruct (_ <=? _); [exists recs; by apply log_used|]. cbv [mret M_ret]. rewrite M_bind_eq, AppendWal_writable by apply Hi.
  eexists. eapply (log_step q); [by apply log_used| |done| |left]; [|apply agree_insert, Hi].
  split_and!; cbn; try done; try lia; apply text_ascii; reflexivity.
Qed.
Lemma cancel_log id now q d used recs : in_i64 now -> log_inv q d used recs ->
  match (Cancel id now (q, d)).2 with (q', d') => exists recs', log_inv q' d' used recs' end.
Proof.
  intros Hn Hi. unfold Cancel. rewrite M_bind_eq. unfold this at 1. cbn [fst]. destruct (task_map_ q !! id) as [info|] eqn:El; [|by exists recs].
  destruct (IsTerminal (t_status info)); [by exists recs|]. cbv zeta. rewrite M_bind_eq. unfold update at 1. cbn [fst snd].
  rewrite AppendWal_writable by apply Hi. destruct (log_good _ _ _ _ _ _ Hi El) as (Hg & Hid & Hu).
  eexists. eapply (log_step q); [done|by apply good_finished, Hn; apply good_status|done| |cbn; by rewrite Hid].
  cbn [t_request_id set_finished set_status set_pending set_map task_map_]. rewrite Hid. apply agree_insert, Hi.
Qed.
Lemma take_log now q d fl hist used recs : in_i64 now -> queue_inv q fl hist used -> log_inv q d used recs ->
  match (worker_take now (q, d)).2 with (q', d') => exists recs', log_inv q' d' used recs' end.
Proof.
  intros Hn Hq Hi. unfold worker_take. rewrite M_bind_eq. unfold this at 1. cbn [fst]. destruct (pending_queue_ q) as [|task rest] eqn:Eq; [by exists recs|].
  destruct (qi_pending _ _ _ _ Hq (t_request_id task)) as (info & El & Es); [rewrite Eq; left|].
  rewrite M_bind_eq. unfold update at 1. cbn [fst snd]. rewrite El, bool_decide_false by congruence. cbv zeta. rewrite M_bind_eq. unfold update at 1. cbn [fst snd].
  rewrite M_bind_eq. unfold ignoring. rewrite AppendWal_writable by apply Hi. destruct (log_good _ _ _ _ _ _ Hi El) as (Hg & Hid & Hu).
  eexists. eapply (log_step q); [done|by apply good_started, Hn; apply good_status|done| |cbn; by rewrite Hid].
  cbn [t_request_id set_started set_status set_pending set_map task_map_]. rewrite Hid. apply agree_insert, Hi.
Qed.
Lemma finish_log t outcome now q d used recs : op_ok (QFinish 0 outcome now) -> log_inv q d used recs ->
  match (worker_finish t outcome now (q, d)).2 with (q', d') => exists recs', log_inv q' d' used recs' end.
Proof.
  intros [Hn Ht] Hi. unfold worker_finish. rewrite M_bind_eq. unfold this at 1. cbn [fst]. destruct (task_map_ q !! t_request_id t) as [info|] eqn:El; [|by exists recs].
  case_bool_decide; [by exists recs|]. cbv zeta. fold (settled outcome now info). rewrite M_bind_eq. unfold update at 1. cbn [fst snd].
  rewrite M_bind_eq. unfold ignoring. rewrite AppendWal_writable by apply Hi. unfold update at 1. cbn [fst snd].
  destruct (log_good _ _ _ _ _ _ Hi El) as (Hg & Hid & Hu).
  eexists. eapply (log_step q); [done|by apply good_settled|done| |rewrite settled_id; by rewrite Hid].
  cbn [set_map task_map_]. rewrite settled_id, Hid. apply agree_evict, agree_insert, Hi.
Qed.
Lemma step_log o st : inv st -> op_ok o -> log_state st -> log_state (q_step o st).
Proof.
  unfold inv, log_state. destruct st as [[q d] fl hist used]. intros Hq Hok [recs Hi]. destruct o as [sql database user uuid now|id now|now|w outcome now];
    cbn [q_step qs_queue qs_flight qs_history qs_used fst snd] in *.
  - pose proof (submit_log sql database user uuid now q d used recs Hok Hi) as H. by destruct (Submit sql database user uuid now (q, d)) as [r [q1 d1]].
  - pose proof (cancel_log id now q d used recs Hok Hi) as H. by destruct (Cancel id now (q, d)) as [r [q1 d1]].
  - pose proof (take_log now q d fl hist used recs Hok Hq Hi) as H. by destruct (worker_take now (q, d)) as [[[t|]|] [q1 d1]].
  - destruct (fl !! w) as [t|]; [|by exists recs]. cbn [qs_queue qs_used]. pose proof (finish_log t outcome now q d used recs Hok Hi) as H. by destruct (worker_finish t outcome now (q, d)) as [r [q1 d1]].
Qed.

(** ** Restarts *)

Definition recovered (t : TaskInfo) : TaskInfo := if IsTerminal (t_status t) then t else set_status tsQueued t.
Definition unfinished (l : list (string * TaskInfo)) : list TaskInfo :=
  (fun x => set_status tsQueued x.2) <$> filter (fun x => IsTerminal (t_status x.2) = false) l.
Lemma requeue_all l : forall q, foldl (fun q x => requeue x q) q l =
  set_map (foldl (fun m x => <[x.1 := recovered x.2]> m) (task_map_ q) l) (set_pending (pending_queue_ q ++ unfinished l) q).
Proof.
  induction l as [|[id t] l IH]; intros q; cbn [foldl]; [unfold unfinished; cbn; rewrite app_nil_r; by destruct q|]. rewrite IH. unfold requeue, recovered, unfinished.
  rewrite filter_cons. cbn [snd fst]. destruct (IsTerminal (t_status t)); [by rewrite decide_False|]. rewrite decide_True by done.
  cbn [fmap list_fmap snd set_map set_pending pending_queue_ task_map_]. by rewrite <- app_assoc.
Qed.
Lemma foldl_recovered l : forall m : gmap string TaskInfo,
  foldl (fun m x => <[x.1 := recovered x.2]> m) (recovered <$> m) l = recovered <$> foldl (fun m x => <[x.1 := x.2]> m) m l.
Proof. induction l as [|x l IH]; intros m; [done|]. cbn [foldl]. by rewrite <- fmap_insert, IH. Qed.
Lemma recovered_visit M : foldl (fun m x => <[x.1 := recovered x.2]> m) ∅ (visit M) = recovered <$> M.
Proof. rewrite <- (fmap_empty (M:=gmap string) recovered), foldl_recovered. by rewrite foldl_visit. Qed.
Lemma logmap_visit m : map_Forall (fun id t => t_request_id t = id) m -> logmap (map snd (visit m)) = m.
Proof.
  intros Hm. transitivity (foldl (fun m x => <[x.1 := x.2]> m) (∅ : gmap string TaskInfo) (visit m)); [|apply foldl_visit]. unfold logmap.
  assert (forall l (a : gmap string TaskInfo), Forall (fun x => t_request_id x.2 = x.1) l ->
    foldl (fun m t => <[t_request_id t := t]> m) a (map snd l) = foldl (fun m x => <[x.1 := x.2]> m) a l) as H.
  { intros l a Hl. revert a. induction Hl as [|[id t] l E _ IH]; intros a; [done|]. cbn in *. rewrite E. apply IH. }
  apply H, (Forall_visit (fun id t => t_request_id t = id)), Hm.
Qed.
Definition restarted (max : Z) (path : string) (M : gmap string TaskInfo) : TaskQueue :=
  mkTaskQueue max path (unfinished (visit M)) (recovered <$> M) true.
Lemma good_recovered t : good t -> good (recovered t).
Proof. intros Hg. unfold recovered. destruct (IsTerminal _); [done|]. by apply good_status. Qed.
Lemma recovered_id t : t_request_id (recovered t) = t_request_id t.
Proof. unfold recovered. by destruct (IsTerminal _). Qed.
Lemma compacted_log max path d' used recs M : Forall good recs -> M = logmap recs -> (forall id info, M !! id = Some info -> id ∈ used) ->
  writable path d' -> file_content d' path = log_of (map snd (visit (recovered <$> M))) ->
  log_inv (restarted max path M) d' used (map snd (visit (recovered <$> M))).
Proof.
  intros Hg -> Hu Hw Hf. assert (map_Forall (fun id t => t_request_id t = id /\ good t) (recovered <$> logmap recs)) as Hall.
  { intros id t Hl. rewrite lookup_fmap in Hl. destruct (logmap recs !! id) as [t'|] eqn:E; [|done]. injection Hl as <-. apply logmap_lookup in E as [Hin Hid].
    rewrite recovered_id. split; [done|]. apply good_recovered. rewrite Forall_forall in Hg. by apply Hg. }
  assert (logmap (map snd (visit (recovered <$> logmap recs))) = recovered <$> logmap recs) as Hm by (apply logmap_visit; intros id t [? _]%Hall; done).
  split; rewrite ?Hm; try done.
  - apply Forall_map. apply (Forall_impl (fun x => t_request_id x.2 = x.1 /\ good x.2)); [|by intros ? [_ ?]]. by apply (Forall_visit (fun id t => t_request_id t = id /\ good t)).
  - split; auto.
  - intros id info Hl. rewrite lookup_fmap in Hl. destruct (logmap recs !! id) eqn:E; [|done]. by eapply Hu.
Qed.

Lemma Start_log max d q used recs : log_inv q d used recs -> exists d' recs',
  tq_Start (mkTaskQueue max (wal_path_ q) [] ∅ false, d) = (Ok tt, (restarted max (wal_path_ q) (logmap recs), d')) /\
  log_inv (restarted max (wal_path_ q) (logmap recs)) d' used recs'.
Proof.
  intros [Hw Hf Hg Ha Hu]. set (path := wal_path_ q) in *. pose proof Hw as (Hh & Hd & Hp & Htmp).
  unfold tq_Start. rewrite M_bind_eq. unfold ReplayWal. rewrite M_bind_eq. unfold this at 1. cbn [fst wal_path_]. rewrite M_bind_eq. unfold on_disk at 1. cbn [fst snd].
  rewrite FileExists_healthy by done. unfold path_exists. rewrite (bool_decide_false (path ∈ d_dirs d)), orb_false_r by done. destruct (d_files d !! path) as [content|] eqn:Ec.
  2:{ rewrite bool_decide_false by by intros [? ?]. assert (recs = []) as -> by (apply log_of_nil; rewrite <- Hf; unfold file_content; by rewrite Ec).
    assert (restarted max path (logmap []) = mkTaskQueue max path [] ∅ true) as ->.
    { unfold restarted, logmap. cbn [foldl]. rewrite fmap_empty. f_equal. pose proof (visit_all TaskInfo ∅) as Hv. rewrite map_to_list_empty in Hv. by apply Permutation_nil_r in Hv as ->. }
    exists d, []. by split. }
  rewrite bool_decide_true by done. cbn [negb]. rewrite M_bind_eq. unfold on_disk at 1. cbn [fst snd]. rewrite (stream_open_healthy _ _ _ _ content) by done.
  rewrite M_bind_eq. unfold on_disk at 1. cbn [fst snd]. rewrite M_bind_eq. unfold get at 1. rewrite stream_read_healthy, zdrop_0, ztake_all, Hf by (done || lia).
  rewrite lines_log, latest_dumps by done. fold (logmap recs). rewrite M_bind_eq. unfold update at 1. cbn [fst snd]. rewrite requeue_all.
  cbn [task_map_ pending_queue_ app]. rewrite recovered_visit.
  rewrite M_bind_eq. unfold on_disk at 1. cbn [fst snd]. rewrite stream_create_healthy by (done || by rewrite dir_of_tmp).
  rewrite M_bind_eq. unfold this at 1. cbn [fst snd set_map set_pending task_map_ wal_path_]. rewrite M_bind_eq. unfold on_disk at 1. cbn [fst snd].
  rewrite stream_put_healthy by done. unfold on_disk at 1. cbn [fst snd]. erewrite fs_rename_healthy; [|done|cbn; apply lookup_insert_eq|done].
  unfold update. cbn [fst snd set_running task_queue_max wal_path_ pending_queue_ task_map_]. eexists _, (map snd (visit (recovered <$> logmap recs))). split; [reflexivity|].
  eapply compacted_log; try done. unfold file_content at 1. cbn [d_files set_files]. rewrite lookup_insert_eq. cbn [default]. rewrite file_content_set.
  cbn [app]. unfold log_of. by rewrite map_map.
Qed.

Lemma elem_of_unfinished M t : t ∈ unfinished (visit M) <-> exists id info, M !! id = Some info /\ IsTerminal (t_status info) = false /\ t = set_status tsQueued info.
Proof.
  unfold unfinished. rewrite list_elem_of_fmap. split.
  - intros ([id info] & -> & [Ht Hin]%list_elem_of_filter). rewrite (visit_all TaskInfo M) in Hin. apply elem_of_map_to_list in Hin. by exists id, info.
  - intros (id & info & Hl & Ht & ->). exists (id, info). split; [done|]. apply list_elem_of_filter. split; [done|]. rewrite (visit_all TaskInfo M). by apply elem_of_map_to_list.
Qed.
Lemma unfinished_ids M : map_Forall (fun id t => t_request_id t = id) M -> NoDup (ids (unfinished (visit M))) /\
  forall id, id ∈ ids (unfinished (visit M)) <-> exists info, M !! id = Some info /\ IsTerminal (t_status info) = false.
Proof.
  intros HM. split.
  - unfold ids, unfinished. rewrite <- list_fmap_compose. cbn.
    assert (forall l, Forall (fun x => t_request_id x.2 = x.1) l -> ((fun x => t_request_id (set_status tsQueued x.2)) <$> filter (fun x => IsTerminal (t_status x.2) = false) l)
      = (filter (fun x => IsTerminal (t_status x.2) = false) l).*1) as H.
    { intros l Hl. apply list_fmap_ext. intros i x Hx. rewrite Forall_forall in Hl. cbn. apply Hl. apply list_elem_of_lookup_2, list_elem_of_filter in Hx. by destruct Hx. }
    rewrite H by by apply (Forall_visit (fun id t => t_request_id t = id)).
    eapply (sublist_NoDup _ (visit M).*1); [rewrite (visit_all TaskInfo M); apply NoDup_fst_map_to_list|]. apply fmap_sublist, sublist_filter.
  - intros id. unfold ids. rewrite list_elem_of_fmap. split.
    + intros (t & -> & (id' & info & Hl & Ht & ->)%elem_of_unfinished). exists info. split; [|done]. cbn. by rewrite (HM id' info Hl).
    + intros (info & Hl & Ht). exists (set_status tsQueued info). split; [cbn; by rewrite (HM id info Hl)|]. apply elem_of_unfinished. by exists id, info.
Qed.
Lemma restarted_inv max path M used : map_Forall (fun id t => t_request_id t = id /\ good t /\ id ∈ used) M -> queue_inv (restarted max path M) [] [] used.
Proof.
  intros HM. destruct (unfinished_ids M) as [N1 N2]; [by intros id t [? _]%HM|]. split; cbn [restarted pending_queue_ task_map_]; try (intros ?; by rewrite ?elem_of_nil).
  - unfold ids at 2. cbn. by rewrite app_nil_r.
  - constructor.
  - intros id _. apply not_elem_of_nil.
  - intros id (info & Hl & Ht)%N2. exists (recovered info). rewrite lookup_fmap, Hl. split; [done|]. unfold recovered. by rewrite Ht.
  - intros id info Hin. by apply elem_of_nil in Hin.
  - intros id t Hl. rewrite lookup_fmap in Hl. destruct (M !! id) as [info|] eqn:E; [|done]. injection Hl as <-. destruct (HM id info E) as (Hid & Hg & Hu).
    rewrite recovered_id. split_and!; [done| |done]. unfold recovered. destruct (IsTerminal (t_status info)) eqn:Et; [by apply terminal_placed|].
    cbn. apply N2. by exists info.
Qed.

Inductive event := EOp (o : queue_op) | ERestart.
Definition restart (st : qstate) : qstate :=
  let q := (qs_queue st).1 in
  mkQstate (tq_Start (mkTaskQueue (task_queue_max q) (wal_path_ q) [] ∅ false, (qs_queue st).2)).2 [] [] (qs_used st).
Definition e_step (e : event) (st : qstate) : qstate := match e with EOp o => q_step o st | ERestart => restart st end.
Definition e_run (es : list event) (st : qstate) : qstate := foldl (fun st e => e_step e st) st es.
Fixpoint events_ok (es : list event) (st : qstate) : Prop :=
  match es with [] => True | e :: es => match e with EOp o => fresh o st /\ op_ok o | ERestart => True end /\ events_ok es (e_step e st) end.
Lemma restart_eq st recs : log_inv (qs_queue st).1 (qs_queue st).2 (qs_used st) recs ->
  (tq_Start (mkTaskQueue (task_queue_max (qs_queue st).1) (wal_path_ (qs_queue st).1) [] ∅ false, (qs_queue st).2)).1 = Ok tt /\
  (qs_queue (restart st)).1 = restarted (task_queue_max (qs_queue st).1) (wal_path_ (qs_queue st).1) (logmap recs) /\
  inv (restart st) /\ log_state (restart st).
Proof.
  intros Hi. destruct (Start_log (task_queue_max (qs_queue st).1) _ _ _ _ Hi) as (d' & recs' & E & Hi'). unfold inv, log_state, restart.
  cbn [qs_queue qs_flight qs_history qs_used]. rewrite E. split_and!; [done|done| |by exists recs']. apply restarted_inv. intros id t Hl.
  pose proof (li_used _ _ _ _ Hi id t Hl) as Hu. apply logmap_lookup in Hl as [Hin Hid]. pose proof (li_good _ _ _ _ Hi) as Hg. rewrite Forall_forall in Hg. split_and!; [done|by apply Hg|done].
Qed.
Lemma e_run_inv es : forall st, inv st -> log_state st -> events_ok es st -> inv (e_run es st) /\ log_state (e_run es st).
Proof.
  induction es as [|e es IH]; intros st Hi Hl Hok; [done|]. destruct Hok as [He Hok]. apply (IH (e_step e st)); [| |done].
  - destruct e; [apply step_inv; [done|apply He]|]. destruct Hl as [recs Hl]. by apply (restart_eq st recs).
  - destruct e; [apply step_log; [done|apply He|done]|]. destruct Hl as [recs Hl]. by apply (restart_eq st recs).
Qed.
Lemma initial_log max path d : writable path d -> d_files d !! path = None -> log_state (initial (mkTaskQueue max path [] ∅ true) d).
Proof.
  intros Hw Hf. exists []. split; cbn [initial qs_queue qs_used fst snd wal_path_ task_map_]; try done.
  - unfold file_content. by rewrite Hf.
Qed.
End log.


(** ** An example *)

(** A task completes, one is running and one waits when the process is restarted; the queue then serves one of them. *)
Definition sample_events : list event :=
  [EOp (QSubmit "select" "db" "ann" "a" 1); EOp (QSubmit "select" "db" "ann" "b" 2); EOp (QSubmit "select" "db" "ann" "c" 3); EOp (QTake 4);
   EOp (QFinish 0 (Ok "1 row") 5); EOp (QTake 6); ERestart; EOp (QTake 7)].
Lemma sample_events_ok : events_ok (L:=sample_json) (O:=sample_order) sample_events (initial sample_queue sample_qdisk).
Proof. cbn [sample_events events_ok]. split_and!; try exact I; try (by_computation); unfold in_i64; lia. Qed.
