(* ===== verification/ExecutorSpec.v ===== *)
(** * Statements on the rows of a table

    [stores k L z] says that the engine state [z], reached by at most [k] calls,
    holds exactly the rows [L] (a map from row ids to tuples) and indexes that
    agree with them.  It holds of a new table ([stores_created]), and a scan
    returns exactly [L] ([stores_scan]).  The theorems give the effect of the
    statements on [L]: a SELECT returns the projections of the rows that satisfy
    its predicate, by the sequential scan and by the index scan alike; a DELETE
    removes them; an UPDATE replaces them; an INSERT adds rows. *)
From S2P Require Import Prelude Values Disk PageStore PageManager RowStore RowStoreSpec RowTable TableStorage VersionLog Catalog.
From S2P Require Import CatalogSpec BStarTree BStarTreeOrder BStarTreeSearch BStarTreeSpec IndexManager Engine EngineSpec EngineSim.
From S2P Require Import EngineTable EngineRun EngineCreate EngineIndex EngineRevert Sql Expression Planner Executor.

Lemma FindColumn_bound columns name : FindColumn columns name < zlen columns.
Proof.
  unfold FindColumn. destruct (FindColumn_from_spec columns name 0) as [[-> _]|(k & c & -> & Hk & _)]; [pose proof (zlen_nonneg columns); lia|].
  apply lookup_lt_Some in Hk. unfold zlen. lia.
Qed.

Lemma step_cost_nonneg desc n : 0 <= n -> 0 <= step_cost desc n.
Proof. intros. pose proof (row_cost_pos desc). unfold step_cost. nia. Qed.

Lemma filter_same {A} (P Q : A -> Prop) `{forall x, Decision (P x)} `{forall x, Decision (Q x)} (l : list A) :
  (forall x, x ∈ l -> P x <-> Q x) -> filter P l = filter Q l.
Proof.
  intros HPQ. induction l as [|x l IH]; [done|]. rewrite !filter_cons, IH by (intros; apply HPQ; by right).
  pose proof (HPQ x ltac:(left)). by repeat case_decide; try tauto.
Qed.

Section statements.
Context (root : string) (size : Z) (desc0 : TableDescriptor) (cat : catalog) (tables : gmap string TableDescriptor) (d0 : disk).
Context (n : Z) (fuel : nat).
Abbreviation desc := (NormalizeTableDescriptor root desc0).
Abbreviation db := (database_name desc).
Abbreviation tbl := (table_name desc).
Abbreviation engine := (Engine PageManager * disk)%type.
Context (Hset : setting root size desc0 cat tables d0 n fuel).

(** The engine [z] represents the node [s] after at most [k] calls. *)
Definition represents (k : Z) (s : node) (z : engine) : Prop :=
  0 <= k <= n /\ zlen (n_log s) <= k /\ node_inv size desc s /\
  node_rep (P:=PageManager) root size desc false false 0 (zlen (indexes desc) + k * step_cost desc n) s z.1 z.2.
Definition stores (k : Z) (L : gmap Z Tuple) (z : engine) : Prop :=
  exists s, represents k s z /\ sound size desc s /\ opened size desc s /\ n_started s = true /\ live (n_rows s) = L.

Lemma represents_step o k s z : represents k s z -> k < n -> engine_op_ok o ->
  exists r z', e_step fuel root size desc o z = (r, z') /\ agrees r (a_step size desc o s).1 /\ represents (k + 1) (a_step size desc o s).2 z'.
Proof.
  intros (Hk & Hl & Hi & Hr) Hn Ho. destruct z as [e d].
  destruct (setting_run root size desc0 cat tables d0 n fuel [o] s e d k Hset) as (rs & e' & d' & E & Hag & Hr' & Hi');
    try done; try lia; [unfold zlen; cbn; lia|by constructor|].
  cbn [e_run a_run] in *. pose proof (a_step_log size desc o s) as Hl'. destruct (e_step fuel root size desc o (e, d)) as [r z'].
  destruct (a_step size desc o s) as [r' s']. cbn [fst snd] in *. injection E as <- ->. exists r, (e', d').
  apply Forall2_cons in Hag as [Hag _]. do 2 (split; [done|]). unfold represents. split_and!; try done; lia.
Qed.

Lemma represents_descriptor k s z : represents k s z -> n_started s = true -> GetTableDescriptor db tbl z = (Ok desc, z).
Proof.
  intros (Hk & Hl & Hi & Hr) Hs. destruct z as [e d]. unfold GetTableDescriptor. rewrite M_bind_eq.
  pose proof Hset as [[_ Hdb Hst _ _ _ _ _ _] _ _ _ _ _ _ _ _].
  assert (EnsureStarted (e, d) = (Ok tt, (e, d))) as ->.
  { unfold EnsureStarted. dunfold. pose proof (nr_started _ _ _ _ _ _ _ _ _ _ Hr) as E. cbn in E. by rewrite E, Hs. }
  by eapply LoadTableDescriptor_rep.
Qed.
Lemma represents_scan k s z : represents k s z -> k < n -> n_started s = true ->
  exists rows z', ScanTable db tbl z = (Ok rows, z') /\ is_scan rows (n_rows s) /\ represents (k + 1) s z'.
Proof.
  intros Hr Hn Hs. destruct (represents_step EScan k s z Hr Hn I) as (r & z' & E & Hag & Hr'). cbn [e_step a_step fst snd] in *.
  rewrite Hs in Hag. unfold reply_of in E. destruct (ScanTable db tbl z) as [[rows|] z1]; injection E as <- ->; [|done]. by exists rows, z'.
Qed.

(** ** The rows of a scan *)

Definition row_of (x : Z * Tuple) : Row := mkRow x.1 x.2 false.
Lemma scan_rows rows t : is_scan rows t -> rows ≡ₚ row_of <$> map_to_list (live t).
Proof.
  intros [Hnd Hin]. apply NoDup_Permutation; [done| |].
  - apply NoDup_fmap; [by intros [i u] [j v] [= -> ->]|apply NoDup_map_to_list].
  - intros [i tup b]. rewrite Hin, list_elem_of_fmap. cbn. split.
    + intros [-> Hl]. exists (i, tup). split; [done|]. apply elem_of_map_to_list. by apply live_Some.
    + intros ([i' tup'] & [= -> -> ->] & Hl). split; [done|]. apply live_Some. by apply elem_of_map_to_list.
Qed.

(** ** Selection *)

Context (regex_match : string -> string -> option bool) (clock : nat -> Z).
(** The rows a statement is about. *)
Definition satisfies (pred : option Expr) (tup : Tuple) : bool :=
  match Matches regex_match pred (schema desc) tup with Ok b => b | Err _ _ => false end.

Definition predicate_ok (pred : option Expr) : Prop :=
  match pred with None => True | Some e => well_typed regex_match (schema desc) e end.
Definition items_ok (all : bool) (items : list SelectItem) : Prop := all = true \/ CheckSelectItems items (schema desc) = Ok tt.
Definition projection (all : bool) (items : list SelectItem) (tup : Tuple) : Tuple :=
  default [] (ProjectRow (schema desc) all items tup).

Lemma Matches_decided pred tup : predicate_ok pred -> conforms (schema desc) tup ->
  Matches regex_match pred (schema desc) tup = Ok (satisfies pred tup).
Proof.
  intros Hp Ht. unfold satisfies. destruct pred as [e|]; cbn [Matches]; [|done]. by destruct (evaluates regex_match _ _ _ Hp Ht) as [b ->].
Qed.
Lemma project_bound items tup : CheckSelectItems items (schema desc) = Ok tt -> conforms (schema desc) tup ->
  is_Some (project (schema desc) items tup).
Proof.
  intros Hc Ht. induction items as [|i items IH]; cbn [project CheckSelectItems] in *; [done|].
  destruct (FindColumn (schema desc) (item_column i) <? 0) eqn:E; [done|]. apply Z.ltb_ge in E. destruct (IH Hc) as [vs ->].
  destruct (znth_is_Some tup (FindColumn (schema desc) (item_column i))) as [v ->]; [|by eexists].
  apply Forall2_length in Ht. pose proof (FindColumn_bound (schema desc) (item_column i)). unfold zlen in *. lia.
Qed.
Lemma projected all items tup : items_ok all items -> conforms (schema desc) tup ->
  ProjectRow (schema desc) all items tup = Some (projection all items tup).
Proof.
  intros Hi Ht. unfold projection, ProjectRow. destruct all; [done|]. destruct Hi as [?|Hi]; [done|].
  by destruct (project_bound items tup Hi Ht) as [t ->].
Qed.

Definition selected (keep : Row -> bool) (pred : option Expr) (rows : list Row) : list Row :=
  filter (fun r => keep r = true /\ satisfies pred (tuple r) = true) rows.
Lemma select_rows_eq keep all items pred rows z : predicate_ok pred -> items_ok all items ->
  Forall (fun r => deleted r = false /\ conforms (schema desc) (tuple r)) rows ->
  select_rows (P:=PageManager) regex_match desc keep all items pred rows z =
    (Ok (map (fun r => projection all items (tuple r)) (selected keep pred rows)), z).
Proof.
  intros Hp Hi Hrows. unfold selected. induction Hrows as [|r rows [Hd Hc] _ IH]; [done|]. cbn [select_rows]. rewrite Hd. cbn [orb].
  destruct (keep r) eqn:Ek; cbn [negb].
  - rewrite M_bind_eq. unfold lift at 1. rewrite (Matches_decided pred _ Hp Hc). destruct (satisfies pred (tuple r)) eqn:Em.
    + rewrite (projected all items _ Hi Hc), M_bind_eq, IH, filter_cons_True by done. done.
    + rewrite IH, filter_cons_False by (intros [_ ?]; congruence). done.
  - rewrite IH, filter_cons_False by (intros [? _]; congruence). done.
Qed.

Lemma scan_conforms s rows : node_inv size desc s -> is_scan rows (n_rows s) ->
  Forall (fun r => deleted r = false /\ conforms (schema desc) (tuple r)) rows.
Proof.
  intros [[_ Hi] _] [_ Hin]. apply Forall_forall. intros r Hr. apply Hin in Hr as [Hd Hl]. split; [done|]. by apply Hi in Hl as (_ & ? & _).
Qed.

(** The answer to a query over the rows [L], in some order. *)
Definition answers (all : bool) (items : list SelectItem) (pred : option Expr) (L : gmap Z Tuple) : list Tuple :=
  (fun x => projection all items x.2) <$> filter (fun x => satisfies pred x.2 = true) (map_to_list L).
Lemma selected_answers all items pred rows t : is_scan rows t ->
  map (fun r => projection all items (tuple r)) (selected (fun _ => true) pred rows) ≡ₚ answers all items pred (live t).
Proof.
  intros Hs. unfold selected, answers. rewrite (scan_rows rows t Hs). generalize (map_to_list (live t)) as l.
  induction l as [|[i tup] l IH]; [done|]. rewrite fmap_cons, !filter_cons. cbn [row_of tuple fst snd].
  destruct (decide (true = true /\ satisfies pred tup = true)) as [[_ Hm]|Hm].
  - rewrite decide_True by done. cbn [map fmap list_fmap]. by rewrite IH.
  - rewrite decide_False by (intros ?; by apply Hm). apply IH.
Qed.

(** What a scan returns. *)
Definition answered (all : bool) (items : list SelectItem) (pred : option Expr) (L : gmap Z Tuple) (q : QueryResult) : Prop :=
  exists rows, q = mkQueryResult true "" (FillColumns (schema desc) all items) rows (zlen rows) /\ rows ≡ₚ answers all items pred L.

Lemma stores_more k k' L z : stores k L z -> k <= k' <= n -> stores k' L z.
Proof.
  intros (s & (Hk & Hl & Hi & Hr) & Hs) Hk'. exists s. split; [|done]. unfold represents. split_and!; try done; try lia.
  eapply node_rep_more; [exact Hr|]. apply Z.add_le_mono_l, Z.mul_le_mono_nonneg_r; [apply step_cost_nonneg|]; lia.
Qed.
Lemma stores_scan k L z : stores k L z -> k < n ->
  exists rows z', ScanTable db tbl z = (Ok rows, z') /\ rows ≡ₚ row_of <$> map_to_list L /\ stores (k + 1) L z'.
Proof.
  intros (s & Hr & Hs & Ho & Hst & <-) Hn. destruct (represents_scan k s z Hr Hn Hst) as (rows & z' & E & Hsc & Hr').
  exists rows, z'. split_and!; [done|by apply scan_rows|by exists s].
Qed.

Lemma SeqScan_stores k L z all items pred : stores k L z -> k < n -> predicate_ok pred -> items_ok all items ->
  exists q z', SeqScan regex_match db tbl all items pred z = (Ok q, z') /\ answered all items pred L q /\ stores (k + 1) L z'.
Proof.
  intros (s & Hr & Hs & Ho & Hst & <-) Hn Hp Hi. destruct (represents_scan k s z Hr Hn Hst) as (rows & z' & E & Hsc & Hr').
  unfold SeqScan. rewrite M_bind_eq, (represents_descriptor k s z Hr Hst), M_bind_eq, E, M_bind_eq.
  rewrite (select_rows_eq _ _ _ _ _ _ Hp Hi (scan_conforms s rows (proj1 Hs) Hsc)).
  eexists _, z'. split; [reflexivity|]. split; [|by exists s]. eexists. split; [reflexivity|]. by apply selected_answers.
Qed.

(** ** The index scan *)

Definition key_valid (ix : IndexDescriptor) (key : Value) : Prop := exists c, conf size desc ix c /\ valid_key c key = true.

Lemma stores_find k L z ix key : stores k L z -> k < n -> ix ∈ indexes desc -> key_valid ix key ->
  exists found z', on_indexes (im_Find fuel (idx_name ix) key) z = (Ok found, z') /\ stores (k + 1) L z' /\
    forall r, found = Some r <-> has desc ix L key r.
Proof.
  intros (s & Hr & Hs & Ho & Hst & <-) Hn Hix (c & (kt & Hkt & Hc) & Hv). destruct Hr as (Hk & Hl & Hi & Hr). destruct z as [e d].
  destruct (Ho ix Hix) as (c' & kt' & es & Hkt' & Hc' & Hm & Hg & Hes). rewrite Hkt in Hkt'. injection Hkt' as <-.
  rewrite Hc in Hc'. injection Hc' as <-. pose proof Hset as [[Hsz Hdb Hsto Hfl Hco Hsc Hnm _ _] _ _ _ _ _ Hb Hroom Hfuel].
  pose proof (row_cost_pos desc) as Hrc. pose proof (step_cost_nonneg desc n ltac:(lia)) as Hsn.
  assert (1 <= step_cost desc n) as Hs1 by (unfold step_cost in *; nia).
  pose proof (Z.mul_le_mono_nonneg_r (k + 1) n (step_cost desc n) Hsn ltac:(lia)) as Hkn.
  pose proof (Z.mul_nonneg_nonneg k _ (proj1 Hk) Hsn) as Hk0. pose proof (zlen_nonneg (indexes desc)).
  destruct (rep_index (PL:=PageManager_laws) root size desc Hsz Hfl _ fuel 0 Hroom Hfuel (ICall (idx_name ix) (TFind key))
    (im_Find fuel (idx_name ix) key) RRid false false (zlen (indexes desc) + k * step_cost desc n) s e d)
    as (r & e' & d' & E & Er & Hr'); try done; try lia.
  cbn [ix_step] in Er, Hr'. rewrite Hm, Hc in Er, Hr'. cbn [index_do] in Er, Hr'. rewrite Hv in Er, Hr'. cbn [fst snd] in Er, Hr'.
  destruct r as [found|]; [|done]. injection Er as ->. exists (find_key es key), (e', d'). split; [done|]. split.
  - exists s. split_and!; try done. unfold represents. split_and!; try done; try lia. cbn [fst snd].
    rewrite (insert_id _ _ _ Hm) in Hr'. destruct s. eapply node_rep_more; [exact Hr'|lia].
  - intros r. rewrite <- Hes. split; [apply find_key_elem|]. intros Hin. destruct (find_key es key) as [r'|] eqn:Ef.
    + apply find_key_elem in Ef. f_equal. destruct Hg as [_ Hu]. eapply Hu; by apply Hes.
    + by apply find_key_None with (r := r) in Ef.
Qed.

(** The first equality of a column with a literal among the conjuncts. *)
Fixpoint first_equality (e : Expr) : option (string * Value) :=
  match e with
  | LogicalExpr opAnd l r => match first_equality l with Some x => Some x | None => first_equality r end
  | BinaryExpr opEq (ColumnRefExpr c) (LiteralExpr v) | BinaryExpr opEq (LiteralExpr v) (ColumnRefExpr c) => Some (c, v)
  | _ => None
  end.
Lemma ExtractEqualityKey_eq e : ExtractEqualityKey e = snd <$> first_equality e.
Proof.
  induction e as [| |op l IHl r IHr|op l IHl r IHr| |]; try done; destruct op; try done; cbn [ExtractEqualityKey first_equality].
  - by destruct l, r.
  - rewrite IHl, IHr. by destruct (first_equality l).
Qed.

Lemma Compare_eq_true l r : Compare l r opEq = Ok (VBool true) -> l = r /\ is_null l = false.
Proof.
  unfold Compare. destruct (is_null l || is_null r) eqn:E; [done|]. apply orb_false_iff in E as [E _]. case_bool_decide; [|done]. cbn.
  unfold value_eqb. by case_bool_decide.
Qed.
Lemma Evaluate_eq l r tup : Evaluate regex_match (BinaryExpr opEq l r) (schema desc) tup = Ok (VBool true) ->
  exists v, Evaluate regex_match l (schema desc) tup = Ok v /\ Evaluate regex_match r (schema desc) tup = Ok v /\ is_null v = false.
Proof.
  cbn [Evaluate]. destruct (Evaluate regex_match l _ _) as [vl|]; [|done]. destruct (Evaluate regex_match r _ _) as [vr|]; [|done].
  intros [-> Hn]%Compare_eq_true. by exists vr.
Qed.
Lemma Evaluate_and l r tup : Evaluate regex_match (LogicalExpr opAnd l r) (schema desc) tup = Ok (VBool true) ->
  Evaluate regex_match l (schema desc) tup = Ok (VBool true) /\ Evaluate regex_match r (schema desc) tup = Ok (VBool true).
Proof.
  cbn [Evaluate]. destruct (Evaluate regex_match l _ _) as [[| | |[]]|]; try done.
  destruct (Evaluate regex_match r _ _) as [[| | |[]]|]; by try done.
Qed.
Lemma Evaluate_column c tup v : Evaluate regex_match (ColumnRefExpr c) (schema desc) tup = Ok v ->
  0 <= FindColumn (schema desc) c /\ znth tup (FindColumn (schema desc) c) = Some v.
Proof.
  cbn [Evaluate]. destruct (_ || _) eqn:E; [done|]. apply orb_false_iff in E as [E%Z.ltb_ge _].
  destruct (znth tup _) as [v'|]; [|done]. by intros [= ->].
Qed.
(** A tuple that satisfies the predicate has the key in the column. *)
Lemma equality_holds e c key tup : first_equality e = Some (c, key) -> Evaluate regex_match e (schema desc) tup = Ok (VBool true) ->
  0 <= FindColumn (schema desc) c /\ znth tup (FindColumn (schema desc) c) = Some key /\ is_null key = false.
Proof.
  revert c key. induction e as [| |op l IHl r IHr|op l IHl r IHr| |]; intros c key; try done; destruct op; try done; cbn [first_equality].
  - intros Hf (v & Hl & Hr & Hn)%Evaluate_eq. destruct l, r; try done; injection Hf as -> ->.
    + apply Evaluate_column in Hl as [H1 H2]. cbn in Hr. by injection Hr as ->.
    + apply Evaluate_column in Hr as [H1 H2]. cbn in Hl. by injection Hl as ->.
  - intros Hf [Hl Hr]%Evaluate_and. destruct (first_equality l) as [[c' k']|]; [|by apply IHr]. injection Hf as -> ->. by apply IHl.
Qed.
Lemma satisfies_key e c key ix tup : first_equality e = Some (c, key) -> c = idx_column_name ix -> satisfies (Some e) tup = true ->
  key_at desc ix tup = Some key.
Proof.
  intros Hf -> Hs. unfold satisfies, Matches in Hs. destruct (Evaluate regex_match e (schema desc) tup) as [v|] eqn:E; [|done].
  cbn in Hs. destruct v as [| | |[]]; try done. destruct (equality_holds _ _ _ _ Hf E) as (H1 & H2 & H3).
  unfold key_at, ExtractIndexKey. apply Z.ltb_ge in H1. cbv zeta. rewrite H1. cbn [check_not mbind result_bind]. by rewrite H2, H3.
Qed.

Lemma IndexScan_stores k L z all items e ix key :
  stores k L z -> k + 1 < n -> predicate_ok (Some e) -> items_ok all items ->
  ix ∈ indexes desc -> first_equality e = Some (idx_column_name ix, key) -> key_valid ix key ->
  exists q z', IndexScan regex_match fuel db tbl (idx_name ix) all items (Some e) z = (Ok q, z') /\
    answered all items (Some e) L q /\ stores (k + 2) L z'.
Proof.
  intros Hst Hn Hp Hi Hix Hf Hv. destruct (stores_find k L z ix key Hst ltac:(lia) Hix Hv) as (found & z1 & E1 & Hst1 & Hfound).
  destruct Hst as (s & Hr & _ & _ & Hs & _). unfold IndexScan. rewrite M_bind_eq, (represents_descriptor k s z Hr Hs).
  cbn [mbind option_bind]. rewrite ExtractEqualityKey_eq, Hf. change (snd <$> Some (idx_column_name ix, key)) with (Some key). cbv iota beta. rewrite M_bind_eq, E1. clear s Hr Hs.
  destruct found as [r|].
  - destruct Hst1 as (s & Hr & Hs & Ho & Hstd & <-). destruct (represents_scan _ s z1 Hr ltac:(lia) Hstd) as (rows & z' & E & Hsc & Hr').
    rewrite M_bind_eq, E, M_bind_eq, (select_rows_eq _ _ _ _ _ _ Hp Hi (scan_conforms s rows (proj1 Hs) Hsc)).
    eexists _, z'. split; [reflexivity|]. split; [|exists s; replace (k + 2) with (k + 1 + 1) by lia; done]. eexists. split; [reflexivity|].
    rewrite <- (selected_answers all items (Some e) rows _ Hsc). 
    unfold selected. erewrite filter_same; [reflexivity|].
    intros [i tup b] Hin. cbn [rid tuple]. apply Hsc in Hin as [_ Hl]. split; [tauto|]. intros [_ Hm]. split; [|done]. apply Z.eqb_eq.
    assert (Some r = Some i) as [= ->]; [|done]. apply Hfound. exists tup. split; [by apply live_Some|]. by eapply satisfies_key.
  - eexists _, z1. split; [reflexivity|]. split; [|eapply stores_more; [done|lia]]. exists []. split; [done|]. unfold answers.
    rewrite filter_none; [done|]. apply Forall_forall. intros [i tup] Hin%elem_of_map_to_list Hm. cbn [snd] in Hm.
    assert (None = Some i); [|done]. apply Hfound. exists tup. split; [done|]. by eapply satisfies_key.
Qed.

(** ** Writes *)

Lemma setting_facts : NoDup (index_names desc) /\ Forall (index_ready size desc) (indexes desc) /\ schema desc <> [] /\ schema_fits (schema desc).
Proof. pose proof Hset as [[_ _ _ Hfl Hco Hsc _ Hix _] _ _ _ _ _ _ _ _]. split_and!; try done. apply (fa_names _ _ Hfl). Qed.

(** A successful write in a represented, sound node. *)
Lemma write_sound o now s : sound size desc s -> opened size desc s -> engine_op_ok o -> op_time o = Some now ->
  is_error (a_step size desc o s).1 = false ->
  sound size desc (a_step size desc o s).2 /\ opened size desc (a_step size desc o s).2 /\
  n_started (a_step size desc o s).2 = n_started s.
Proof.
  destruct setting_facts as (H1 & H2 & H3 & H4). intros Hs Ho Hok Ht He.
  destruct (write_step size desc H1 H2 o s now Hs Hok Ht He) as (r & [E1 _ _ E2] & _).
  split_and!; try done. by apply (step_sound size desc H1 H2 H3 H4).
Qed.

Lemma stores_delete k L z now i tup : stores k L z -> k < n -> in_i64 now -> L !! i = Some tup ->
  exists z', e_Delete fuel now db tbl i z = (Ok tt, z') /\ stores (k + 1) (delete i L) z'.
Proof.
  destruct setting_facts as (H1 & H2 & H3 & H4). intros (s & Hr & Hs & Ho & Hst & <-) Hn Hnow Hi.
  destruct (represents_step (EDelete now i) k s z Hr Hn Hnow) as (r & z' & E & Hag & Hr').
  destruct (delete_ok size desc H1 H2 s i (Some now) tup (proj1 Hs) (proj2 Hs) Hst Hi) as [Ed [_ El _ _]].
  pose proof (write_sound (EDelete now i) now s Hs Ho Hnow eq_refl) as Hw. cbn [e_step a_step] in *. unfold reply_of in *.
  rewrite Ed in *. cbn [fst snd] in *. destruct (Hw eq_refl) as (Hs' & Ho' & Hst').
  destruct (e_Delete fuel now db tbl i z) as [[[]|] z1]; injection E as <- ->; [|done].
  exists z'. split; [done|]. eexists. split_and!; [exact Hr'|done|done|congruence|done].
Qed.

Definition without (pred : option Expr) (L : gmap Z Tuple) (r : Row) : gmap Z Tuple :=
  if satisfies pred (tuple r) then delete (rid r) L else L.
Definition matching (pred : option Expr) (rows : list Row) : list Row := filter (fun r => satisfies pred (tuple r) = true) rows.
Context (Hclock : forall i, in_i64 (clock i)).

Lemma delete_rows_eq pred rows : forall i k L z, predicate_ok pred -> stores k L z -> k + zlen rows <= n ->
  NoDup (map rid rows) -> Forall (fun r => deleted r = false /\ L !! rid r = Some (tuple r) /\ conforms (schema desc) (tuple r)) rows ->
  exists z', delete_rows regex_match fuel clock desc db tbl pred i rows z = (Ok (Z.of_nat (i + length (matching pred rows))), z') /\
    stores (k + zlen rows) (foldl (without pred) L rows) z'.
Proof.
  unfold matching. induction rows as [|r rows IH]; intros i k L z Hp Hst Hn Hnd Hrows; cbn [delete_rows foldl].
  { exists z. rewrite Nat.add_0_r. split; [done|]. change (zlen []) with 0. by rewrite Z.add_0_r. }
  apply NoDup_cons in Hnd as [Hni Hnd]. apply Forall_cons in Hrows as [(Hd & Hl & Hc) Hrows]. rewrite zlen_cons in *.
  pose proof (zlen_nonneg rows). rewrite Hd, M_bind_eq. unfold lift. rewrite (Matches_decided pred _ Hp Hc). unfold without at 2.
  replace (k + (1 + zlen rows)) with (k + 1 + zlen rows) in * by lia.
  destruct (satisfies pred (tuple r)) eqn:Em; cbn [negb].
  - rewrite filter_cons_True by done. destruct (stores_delete k L z (clock i) (rid r) (tuple r) Hst ltac:(lia) (Hclock i) Hl) as (z1 & E & Hst1).
    rewrite M_bind_eq, E. destruct (IH (S i) (k + 1) (delete (rid r) L) z1 Hp Hst1 ltac:(lia) Hnd) as (z' & E' & Hst').
    + apply Forall_forall. intros r' Hr'. eapply Forall_forall in Hrows as (? & ? & ?); [|exact Hr']. split_and!; try done.
      rewrite lookup_delete_ne; [done|]. intros Er. apply Hni. rewrite Er. by apply list_elem_of_fmap_2.
    + exists z'. split; [|done]. rewrite E'. cbn [length]. by rewrite Nat.add_succ_r.
  - rewrite filter_cons_False by congruence.
    destruct (IH i (k + 1) L z Hp (stores_more k (k + 1) L z Hst ltac:(lia)) ltac:(lia) Hnd Hrows) as (z' & E' & Hst'). by exists z'.
Qed.

(** The rows of a scan are the rows of [L]. *)
Lemma rows_in rows L r : rows ≡ₚ row_of <$> map_to_list L -> r ∈ rows <-> deleted r = false /\ L !! rid r = Some (tuple r).
Proof.
  intros ->. rewrite list_elem_of_fmap. split.
  - intros ([i tup] & -> & Hin%elem_of_map_to_list). done.
  - destruct r as [i tup b]. cbn. intros [-> Hl]. exists (i, tup). split; [done|]. by apply elem_of_map_to_list.
Qed.
Lemma rows_rids rows L : rows ≡ₚ row_of <$> map_to_list L -> NoDup (map rid rows).
Proof.
  intros Hr. change (NoDup (rid <$> rows)). rewrite Hr, <- list_fmap_compose. change (NoDup (fst <$> map_to_list L)). apply NoDup_fst_map_to_list.
Qed.
Lemma rows_length rows L : rows ≡ₚ row_of <$> map_to_list L -> zlen rows = Z.of_nat (base.size L).
Proof. intros Hr. unfold zlen. by rewrite Hr, length_fmap, length_map_to_list. Qed.
Lemma matching_length pred rows L : rows ≡ₚ row_of <$> map_to_list L ->
  length (matching pred rows) = length (filter (fun x => satisfies pred x.2 = true) (map_to_list L)).
Proof.
  intros Hr. unfold matching. rewrite Hr. generalize (map_to_list L) as l. induction l as [|[i tup] l IH]; [done|].
  rewrite fmap_cons, !filter_cons. cbn [row_of tuple snd]. case_decide; cbn [length]; by rewrite IH.
Qed.

Lemma foldl_without pred rows : forall L i t, foldl (without pred) L rows !! i = Some t <->
  L !! i = Some t /\ forall r, r ∈ rows -> rid r = i -> satisfies pred (tuple r) = false.
Proof.
  induction rows as [|r rows IH]; intros L i t; cbn [foldl].
  { split; [|by intros [? _]]. intros Hl. split; [done|]. by intros r ?%elem_of_nil. }
  rewrite IH. unfold without. split.
  - destruct (satisfies pred (tuple r)) eqn:Em.
    + rewrite lookup_delete_Some. intros [[Hne Hl] Hrest]. split; [done|]. intros r' [->|Hr']%elem_of_cons Hi; [congruence|by apply Hrest].
    + intros [Hl Hrest]. split; [done|]. intros r' [->|Hr']%elem_of_cons Hi; [done|by apply Hrest].
  - intros [Hl Hall]. split; [|intros r' Hr'; apply Hall; by right]. destruct (satisfies pred (tuple r)) eqn:Em; [|done].
    apply lookup_delete_Some. split; [|done]. intros Hi. pose proof (Hall r ltac:(left) Hi). congruence.
Qed.
Definition remaining (pred : option Expr) (L : gmap Z Tuple) : gmap Z Tuple := filter (fun x => satisfies pred x.2 = false) L.
Lemma foldl_remaining pred rows L : rows ≡ₚ row_of <$> map_to_list L -> foldl (without pred) L rows = remaining pred L.
Proof.
  intros Hr. apply map_eq. intros i. apply option_eq. intros t. rewrite foldl_without. unfold remaining. rewrite map_lookup_filter_Some. cbn [snd].
  split; intros [Hl H]; (split; [done|]).
  - apply (H (mkRow i t false)); [|done]. by apply (rows_in rows L _ Hr).
  - intros r Hin Hi. apply (rows_in rows L _ Hr) in Hin as [_ Hl']. by simplify_eq.
Qed.

Lemma stores_conforms k L z i tup : stores k L z -> L !! i = Some tup -> conforms (schema desc) tup.
Proof. intros (s & _ & Hs & _ & _ & <-) Hl. by apply (live_conforms size desc s i tup (proj1 Hs)) in Hl as (_ & ? & _). Qed.
Lemma stores_rows k L z rows : stores k L z -> rows ≡ₚ row_of <$> map_to_list L ->
  Forall (fun r => deleted r = false /\ L !! rid r = Some (tuple r) /\ conforms (schema desc) (tuple r)) rows.
Proof.
  intros Hst Hr. apply Forall_forall. intros r Hin. apply (rows_in rows L r Hr) in Hin as [Hd Hl]. split_and!; try done.
  by eapply stores_conforms.
Qed.
Lemma stores_descriptor k L z : stores k L z -> GetTableDescriptor db tbl z = (Ok desc, z).
Proof. intros (s & Hr & _ & _ & Hs & _). by eapply represents_descriptor. Qed.

Lemma DeleteExecutor_stores k L z pred : stores k L z -> k + 1 + Z.of_nat (base.size L) <= n -> predicate_ok pred ->
  exists z', DeleteExecutor regex_match fuel clock db tbl pred z =
      (Ok (affected (Z.of_nat (length (filter (fun x => satisfies pred x.2 = true) (map_to_list L))))), z') /\
    stores (k + 1 + Z.of_nat (base.size L)) (remaining pred L) z'.
Proof.
  intros Hst Hn Hp. unfold DeleteExecutor. rewrite M_bind_eq, (stores_descriptor k L z Hst).
  destruct (stores_scan k L z Hst ltac:(lia)) as (rows & z1 & E1 & Hrows & Hst1). rewrite M_bind_eq, E1, M_bind_eq.
  destruct (delete_rows_eq pred rows 0 (k + 1) L z1 Hp Hst1) as (z' & E & Hst').
  { by rewrite (rows_length rows L Hrows). }
  { by eapply rows_rids. }
  { by eapply stores_rows. }
  rewrite E. exists z'. rewrite (matching_length pred rows L Hrows), (rows_length rows L Hrows), (foldl_remaining pred rows L Hrows) in *. done.
Qed.

(** *** Updates *)

(** A tuple with a value for every column is stored as it is. *)
Lemma prepare_full tup new : zlen tup = zlen (schema desc) -> PrepareTupleForWrite desc tup = Ok new -> new = tup.
Proof.
  intros Hl (_ & _ & -> & _)%PrepareTupleForWrite_Ok. unfold prepared, zlen in *. rewrite drop_ge by lia. apply app_nil_r.
Qed.
Lemma stores_update k L z now i tup : stores k L z -> k < n -> in_i64 now -> Forall value_ok tup -> zlen tup = zlen (schema desc) ->
  exists r z', e_Update fuel now db tbl i tup z = (r, z') /\ (r = Ok tt -> stores (k + 1) (<[i := tup]> L) z').
Proof.
  destruct setting_facts as (H1 & H2 & H3 & H4). intros (s & Hr & Hs & Ho & Hst & <-) Hn Hnow Hv Hl.
  destruct (represents_step (EUpdate now i tup) k s z Hr Hn (conj Hnow Hv)) as (r & z' & E & Hag & Hr').
  pose proof (write_sound (EUpdate now i tup) now s Hs Ho (conj Hnow Hv) eq_refl) as Hw. cbn [e_step a_step] in *. unfold reply_of in *.
  destruct (e_Update fuel now db tbl i tup z) as [r1 z1]. injection E as <- ->. exists r1, z'. split; [done|]. intros ->. cbn [fst] in Hag.
  destruct (a_update size desc i tup (Some now) s).1 as [[]|] eqn:Ea; [|done]. cbn [fst snd] in *. destruct (Hw eq_refl) as (Hs' & Ho' & Hst').
  destruct (update_live size desc H1 H2 s i tup (Some now) (proj2 Hs) Hst Ea) as (old & new & Hi & Hp & Hf).
  destruct (update_ok size desc H1 H2 s i tup (Some now) old new (proj1 Hs) (proj2 Hs) Hst Hi Hp Hf) as [Hu _].
  destruct (Hu Ea) as [_ El _ _]. pose proof (prepare_full tup new Hl Hp) as ->.
  eexists. split_and!; [exact Hr'|done|done|congruence|done].
Qed.

Definition assigned (asgs : list (string * Value)) (tup : Tuple) : Tuple :=
  match assign (schema desc) asgs tup with Ok t => t | Err _ _ => tup end.
Lemma assign_ok asgs : forall tup out, assign (schema desc) asgs tup = Ok out -> Forall (fun a => value_ok a.2) asgs -> Forall value_ok tup ->
  zlen out = zlen tup /\ Forall value_ok out.
Proof.
  induction asgs as [|[c v] asgs IH]; intros tup out E Ha Ht; cbn [assign] in E; [by injection E as <-|].
  destruct (znth (schema desc) _) as [col|]; [|done]. destruct (is_null v && _); [done|]. apply Forall_cons in Ha as [Hv Ha].
  apply IH in E as [E1 E2]; [|done|by apply Forall_insert]. by rewrite zlen_zset in E1.
Qed.
Definition replaced (asgs : list (string * Value)) (pred : option Expr) (L : gmap Z Tuple) (r : Row) : gmap Z Tuple :=
  if satisfies pred (tuple r) then <[rid r := assigned asgs (tuple r)]> L else L.

Lemma update_rows_eq asgs pred rows : forall i k L z m z', predicate_ok pred -> Forall (fun a => value_ok a.2) asgs ->
  stores k L z -> k + zlen rows <= n ->
  Forall (fun r => deleted r = false /\ zlen (tuple r) = zlen (schema desc) /\ Forall value_ok (tuple r) /\ conforms (schema desc) (tuple r)) rows ->
  update_rows regex_match fuel clock desc db tbl asgs pred i rows z = (Ok m, z') ->
  m = Z.of_nat (i + length (matching pred rows)) /\ stores (k + zlen rows) (foldl (replaced asgs pred) L rows) z'.
Proof.
  unfold matching. induction rows as [|r rows IH]; intros i k L z m z' Hp Ha Hst Hn Hrows E; cbn [update_rows foldl] in *.
  { injection E as <- <-. rewrite Nat.add_0_r. split; [done|]. change (zlen []) with 0. by rewrite Z.add_0_r. }
  apply Forall_cons in Hrows as [(Hd & Hl & Hv & Hc) Hrows]. rewrite zlen_cons in *. pose proof (zlen_nonneg rows).
  rewrite Hd, M_bind_eq in E. unfold lift at 1 in E. rewrite (Matches_decided pred _ Hp Hc) in E. unfold replaced at 2.
  rewrite (Z.add_assoc k 1) in *. destruct (satisfies pred (tuple r)) eqn:Em; cbn [negb] in E.
  - rewrite M_bind_eq in E. unfold lift in E. unfold assigned. destruct (assign (schema desc) asgs (tuple r)) as [t|] eqn:Eas; [|done].
    destruct (assign_ok asgs _ _ Eas Ha Hv) as [Hlt Hvt]. rewrite filter_cons_True by done.
    destruct (stores_update k L z (clock i) (rid r) t Hst ltac:(lia) (Hclock i) Hvt ltac:(congruence)) as (ru & z1 & Eu & Hst1).
    rewrite M_bind_eq, Eu in E. destruct ru as [[]|]; [|done].
    destruct (IH (S i) (k + 1) _ z1 m z' Hp Ha (Hst1 eq_refl) ltac:(lia) Hrows E) as [-> Hst']. split; [|done].
    cbn [length]. by rewrite Nat.add_succ_r.
  - rewrite filter_cons_False by congruence. by apply (IH i (k + 1) L z m z' Hp Ha (stores_more k (k + 1) L z Hst ltac:(lia)) ltac:(lia)).
Qed.

Definition rewritten (asgs : list (string * Value)) (pred : option Expr) (L : gmap Z Tuple) : gmap Z Tuple :=
  (fun tup => if satisfies pred tup then assigned asgs tup else tup) <$> L.
Lemma foldl_replaced_other asgs pred rows : forall L i, (forall r, r ∈ rows -> rid r <> i) ->
  foldl (replaced asgs pred) L rows !! i = L !! i.
Proof.
  induction rows as [|r rows IH]; intros L i Hi; cbn [foldl]; [done|]. rewrite IH by (intros r' Hr'; apply Hi; by right).
  unfold replaced. destruct (satisfies pred (tuple r)); [|done]. apply lookup_insert_ne, Hi. left.
Qed.
Lemma foldl_replaced asgs pred rows : forall L r, NoDup (map rid rows) -> r ∈ rows -> L !! rid r = Some (tuple r) ->
  foldl (replaced asgs pred) L rows !! rid r = Some (if satisfies pred (tuple r) then assigned asgs (tuple r) else tuple r).
Proof.
  induction rows as [|r' rows IH]; intros L r Hnd Hin Hl; [by apply elem_of_nil in Hin|]. apply NoDup_cons in Hnd as [Hni Hnd]. cbn [foldl].
  apply elem_of_cons in Hin as [<-|Hin].
  - rewrite foldl_replaced_other; [unfold replaced; destruct (satisfies pred (tuple r)); [apply lookup_insert_eq|done]|].
    intros r' Hr' Er. apply Hni. rewrite <- Er. by apply list_elem_of_fmap_2.
  - apply IH; [done|done|]. unfold replaced. destruct (satisfies pred (tuple r')); [|done]. rewrite lookup_insert_ne; [done|].
    intros Er. apply Hni. rewrite Er. by apply list_elem_of_fmap_2.
Qed.
Lemma foldl_rewritten asgs pred rows L : rows ≡ₚ row_of <$> map_to_list L -> foldl (replaced asgs pred) L rows = rewritten asgs pred L.
Proof.
  intros Hr. apply map_eq. intros i. unfold rewritten. rewrite lookup_fmap. destruct (L !! i) as [tup|] eqn:El; cbn [fmap option_fmap option_map].
  - apply (foldl_replaced asgs pred rows L (mkRow i tup false)); [by eapply rows_rids| |done]. by apply (rows_in rows L _ Hr).
  - rewrite foldl_replaced_other; [done|]. intros r Hin Ei. apply (rows_in rows L _ Hr) in Hin as [_ Hl]. congruence.
Qed.

Lemma stores_row_inv k L z i tup : stores k L z -> L !! i = Some tup ->
  zlen tup = zlen (schema desc) /\ Forall value_ok tup /\ conforms (schema desc) tup.
Proof.
  intros (s & _ & Hs & _ & _ & <-) Hl. apply (live_conforms size desc s i tup (proj1 Hs)) in Hl as (_ & Hc & Hv & _).
  split_and!; try done. apply Forall2_length in Hc. unfold zlen. lia.
Qed.
Lemma UpdateExecutor_stores k L z asgs pred : stores k L z -> k + 1 + Z.of_nat (base.size L) <= n -> predicate_ok pred ->
  Forall (fun a => value_ok a.2) asgs -> forall q z', UpdateExecutor regex_match fuel clock db tbl asgs pred z = (Ok q, z') ->
  q = affected (Z.of_nat (length (filter (fun x => satisfies pred x.2 = true) (map_to_list L)))) /\
  stores (k + 1 + Z.of_nat (base.size L)) (rewritten asgs pred L) z'.
Proof.
  intros Hst Hn Hp Ha q z'. unfold UpdateExecutor. rewrite M_bind_eq, (stores_descriptor k L z Hst).
  destruct (stores_scan k L z Hst ltac:(lia)) as (rows & z1 & E1 & Hrows & Hst1). rewrite M_bind_eq, E1, M_bind_eq.
  destruct (update_rows regex_match fuel clock desc db tbl asgs pred 0 rows z1) as [[m|] z2] eqn:E; [|done]. intros [= <- <-].
  apply (update_rows_eq asgs pred rows 0 (k + 1) L z1) in E as [-> Hst']; try done.
  - rewrite (matching_length pred rows L Hrows), (rows_length rows L Hrows), (foldl_rewritten asgs pred rows L Hrows) in *. done.
  - by rewrite (rows_length rows L Hrows).
  - apply Forall_forall. intros r Hin. apply (rows_in rows L r Hrows) in Hin as [Hd Hl]. split; [done|]. by eapply stores_row_inv.
Qed.

(** *** Inserts *)

Lemma stores_insert k L z now tup : stores k L z -> k < n -> in_i64 now -> Forall value_ok tup -> zlen tup = zlen (schema desc) ->
  exists r z', e_Insert fuel now db tbl tup z = (r, z') /\ (forall i, r = Ok i -> L !! i = None /\ stores (k + 1) (<[i := tup]> L) z').
Proof.
  destruct setting_facts as (H1 & H2 & H3 & H4). intros (s & Hr & Hs & Ho & Hst & <-) Hn Hnow Hv Hl.
  destruct (represents_step (EInsert now tup) k s z Hr Hn (conj Hnow Hv)) as (r & z' & E & Hag & Hr').
  pose proof (write_sound (EInsert now tup) now s Hs Ho (conj Hnow Hv) eq_refl) as Hw. cbn [e_step a_step] in *. unfold reply_of in *.
  destruct (e_Insert fuel now db tbl tup z) as [r1 z1]. injection E as <- ->. exists r1, z'. split; [done|]. intros i ->. cbn [fst] in Hag.
  destruct (a_insert size desc tup (Some now) s).1 as [j|] eqn:Ea; [|done]. cbn [fst snd agrees] in *. subst j. destruct (Hw eq_refl) as (Hs' & Ho' & Hst').
  destruct (insert_ok size desc H1 H2 s tup (Some now) i (proj1 Hs) (proj2 Hs) Hst Hv Ea) as (new & _ & Hi & Hp & [_ El _ _]).
  pose proof (prepare_full tup new Hl Hp) as ->. split; [done|]. eexists. split_and!; [exact Hr'|done|done|congruence|done].
Qed.

(** A tuple that can be written, and rows whose keys are valid and distinct. *)
Definition writable (tup : Tuple) : Prop :=
  PrepareTupleForWrite desc tup = Ok tup /\ forall i, entry_fits size (mkRow i tup false) = true.
Abbreviation keys_good := (all_good size desc).
Lemma stores_accepts k L z now tup : stores k L z -> k < n -> in_i64 now -> Forall value_ok tup -> writable tup ->
  (forall i, L !! i = None -> keys_good (<[i := tup]> L)) -> exists i z', e_Insert fuel now db tbl tup z = (Ok i, z').
Proof.
  destruct setting_facts as (H1 & H2 & H3 & H4). intros (s & Hr & Hs & Ho & Hst & <-) Hn Hnow Hv [Hp Hf] Hg.
  destruct (represents_step (EInsert now tup) k s z Hr Hn (conj Hnow Hv)) as (r & z' & E & Hag & _). cbn [e_step a_step] in *. unfold reply_of in *.
  destruct (e_Insert fuel now db tbl tup z) as [r1 z1]. injection E as <- ->. cbn [fst] in Hag.
  rewrite (insert_accepts size desc H1 H2 s tup (Some now) tup (proj1 Hs) (proj2 Hs) Hst Hp (Hf _)) in Hag.
  - destruct r1; [by eexists _, _|done].
  - apply Hg. destruct (live (n_rows s) !! _) eqn:El; [|done]. apply (live_conforms size desc s _ _ (proj1 Hs)) in El as ((_ & ?) & _). lia.
Qed.

Lemma fill_values_ok columns : forall seen values out out', fill_values (schema desc) seen columns values out = Ok out' ->
  Forall value_ok values -> Forall value_ok out -> zlen out' = zlen out /\ Forall value_ok out'.
Proof.
  induction columns as [|c columns IH]; intros seen values out out' E Hv Ho; cbn [fill_values] in E; [by injection E as <-|].
  destruct values as [|v values]; [by injection E as <-|]. case_bool_decide; [done|]. cbv zeta in E. destruct (_ <? 0); [done|].
  apply Forall_cons in Hv as [Hv1 Hv]. apply IH in E as [E1 E2]; [|done|by apply Forall_insert]. by rewrite zlen_zset in E1.
Qed.
Lemma fill_defaults_ok columns : forall out out', fill_defaults columns out = Ok out' -> length out = length columns ->
  Forall (fun c => value_ok (default VNull (default_value c))) columns -> Forall value_ok out ->
  length out' = length columns /\ Forall value_ok out'.
Proof.
  induction columns as [|c columns IH]; intros out out' E Hl Hd Ho; [by destruct out; injection E as <-|]. destruct out as [|v out]; [done|].
  cbn [fill_defaults] in E. apply Forall_cons in Hd as [Hdc Hd]. apply Forall_cons in Ho as [Hv Ho]. injection Hl as Hl.
  cbv zeta in E. destruct (is_null _ && _); [done|]. destruct (fill_defaults columns out) as [rest|] eqn:Er; [|done]. injection E as <-.
  destruct (IH out rest Er Hl Hd Ho) as [H1 H2]. split; [cbn; lia|]. constructor; [|done].
  destruct (is_null v); [|done]. by destruct (default_value c).
Qed.
Lemma BuildTuple_ok columns values tup : BuildTuple desc columns values = Ok tup -> Forall value_ok values ->
  Forall (fun c => value_ok (default VNull (default_value c))) (schema desc) -> zlen tup = zlen (schema desc) /\ Forall value_ok tup.
Proof.
  unfold BuildTuple. destruct (negb _); [done|]. intros E Hv Hd. destruct (fill_values _ _ _ _ _) as [out|] eqn:Ef; [|done].
  change (fill_defaults (schema desc) out = Ok tup) in E.
  apply fill_values_ok in Ef as [E1 E2]; [|done|by apply Forall_replicate]. rewrite zlen_zreplicate in E1 by apply zlen_nonneg.
  apply fill_defaults_ok in E as [E3 E4]; [|unfold zlen in *; lia|done|done]. unfold zlen. split; [lia|done].
Qed.

(** [grown L tups L']: [L'] is [L] with the tuples [tups] under new, distinct row ids. *)
Inductive grown : gmap Z Tuple -> list Tuple -> gmap Z Tuple -> Prop :=
| grown_nil L : grown L [] L
| grown_cons L L' i tup tups : L !! i = None -> grown (<[i := tup]> L) tups L' -> grown L (tup :: tups) L'.
Lemma grown_keeps L tups L' : grown L tups L' -> L ⊆ L'.
Proof.
  induction 1 as [|L L' i tup tups Hi _ IH]; [done|]. etrans; [|exact IH]. by apply insert_subseteq.
Qed.
Lemma grown_rows L tups L' : grown L tups L' -> (map_to_list L').*2 ≡ₚ tups ++ (map_to_list L).*2.
Proof.
  induction 1 as [|L L' i tup tups Hi _ IH]; [done|]. rewrite IH. rewrite map_to_list_insert by done. cbn [fmap list_fmap snd].
  by rewrite <- Permutation_middle.
Qed.

Definition defaults_ok : Prop := Forall (fun c => value_ok (default VNull (default_value c))) (schema desc).
Lemma insert_rows_eq columns rows : forall i k L z m z', stores k L z -> k + zlen rows <= n -> Forall (Forall value_ok) rows -> defaults_ok ->
  insert_rows fuel clock desc db tbl columns i rows z = (Ok m, z') ->
  m = Z.of_nat (i + length rows) /\
  exists tups L', Forall2 (fun values tup => BuildTuple desc columns values = Ok tup) rows tups /\ grown L tups L' /\ stores (k + zlen rows) L' z'.
Proof.
  induction rows as [|values rows IH]; intros i k L z m z' Hst Hn Hv Hd E; cbn [insert_rows] in E.
  - injection E as <- <-. split; [cbn; lia|]. exists [], L. split_and!; [done|constructor|]. by rewrite zlen_nil, Z.add_0_r.
  - rewrite zlen_cons in *. pose proof (zlen_nonneg rows). apply Forall_cons in Hv as [Hv1 Hv]. rewrite M_bind_eq in E.
    unfold lift in E. destruct (BuildTuple desc columns values) as [tup|] eqn:Eb; [|done]. rewrite M_bind_eq in E.
    destruct (BuildTuple_ok columns values tup Eb Hv1 Hd) as [Hl Ho].
    destruct (stores_insert k L z (clock i) tup Hst ltac:(lia) (Hclock i) Ho Hl) as (r & z1 & E1 & Hr). rewrite E1 in E.
    destruct r as [rid|]; [|done]. destruct (Hr rid eq_refl) as [Hi Hst1].
    apply (IH (S i) (k + 1) _ z1 m z' Hst1 ltac:(lia) Hv Hd) in E as [-> (tups & L' & H2 & Hg & Hst')]. split; [cbn; lia|].
    exists (tup :: tups), L'. split_and!; [by constructor|by econstructor|]. by replace (k + (1 + zlen rows)) with (k + 1 + zlen rows) by lia.
Qed.
Lemma keys_good_subset L L' : L ⊆ L' -> keys_good L' -> keys_good L.
Proof.
  intros Hsub Hg ix c Hix Hc. destruct (Hg ix c Hix Hc) as [Hv Hu].
  assert (forall key r, has desc ix L key r -> has desc ix L' key r) as Hh.
  { intros key r (tup & Hl & Hk). exists tup. split; [by eapply lookup_weaken|done]. }
  split; [intros key r H%Hh; by eapply Hv|intros key r r' H%Hh H'%Hh; by eapply Hu].
Qed.
(** The rows of an INSERT are all stored when each can be written and the keys
    stay distinct. *)
Definition insertable (L : gmap Z Tuple) (tups : list Tuple) : Prop :=
  Forall writable tups /\ forall L', grown L tups L' -> keys_good L'.
Lemma grows L tups : exists L', grown L tups L'.
Proof.
  revert L. induction tups as [|tup tups IH]; intros L; [exists L; constructor|].
  destruct (IH (<[fresh (dom L) := tup]> L)) as [L' Hg]. exists L'. econstructor; [|exact Hg]. apply not_elem_of_dom, is_fresh.
Qed.
Lemma insertable_cons L tup tups : insertable L (tup :: tups) ->
  writable tup /\ forall i, L !! i = None -> keys_good (<[i := tup]> L) /\ insertable (<[i := tup]> L) tups.
Proof.
  intros [[Hw Hws]%Forall_cons Hg]. split; [done|]. intros i Hi. assert (insertable (<[i := tup]> L) tups) as Hs.
  { split; [done|]. intros L' Hgr. apply Hg. by econstructor. }
  split; [|done]. destruct (grows (<[i := tup]> L) tups) as [L' Hgr]. by eapply keys_good_subset; [eapply grown_keeps|apply Hs].
Qed.
Lemma insert_rows_accepts columns rows tups : Forall2 (fun values tup => BuildTuple desc columns values = Ok tup) rows tups -> defaults_ok ->
  forall i k L z, stores k L z -> k + zlen rows <= n -> Forall (Forall value_ok) rows -> insertable L tups ->
  exists m z', insert_rows fuel clock desc db tbl columns i rows z = (Ok m, z').
Proof.
  intros H2 Hd. induction H2 as [|values tup rows tups Eb _ IH]; intros i k L z Hst Hn Hv Hin; cbn [insert_rows]; [by eexists _, _|].
  rewrite zlen_cons in *. pose proof (zlen_nonneg rows). apply Forall_cons in Hv as [Hv1 Hv]. apply insertable_cons in Hin as [Hw Hin].
  rewrite M_bind_eq. unfold lift. rewrite Eb, M_bind_eq. destruct (BuildTuple_ok columns values tup Eb Hv1 Hd) as [Hl Ho].
  destruct (stores_accepts k L z (clock i) tup Hst ltac:(lia) (Hclock i) Ho Hw) as (r & z1 & E1); [intros j Hj; by apply Hin|].
  destruct (stores_insert k L z (clock i) tup Hst ltac:(lia) (Hclock i) Ho Hl) as (r' & z1' & E1' & Hr). rewrite E1 in E1'. injection E1' as <- <-.
  rewrite E1. destruct (Hr r eq_refl) as [Hi Hst1]. apply (IH (S i) (k + 1) _ z1 Hst1 ltac:(lia) Hv). by apply Hin.
Qed.
Lemma InsertExecutor_accepts k L z columns rows tups : stores k L z -> k + zlen rows <= n -> Forall (Forall value_ok) rows -> defaults_ok ->
  Forall2 (fun values tup => BuildTuple desc columns values = Ok tup) rows tups -> insertable L tups ->
  exists q z', InsertExecutor fuel clock db tbl columns rows z = (Ok q, z').
Proof.
  intros Hst Hn Hv Hd H2 Hin. unfold InsertExecutor. rewrite M_bind_eq, (stores_descriptor k L z Hst), M_bind_eq.
  destruct (insert_rows_accepts columns rows tups H2 Hd 0 k L z Hst Hn Hv Hin) as (m & z' & ->). by eexists _, _.
Qed.
Lemma InsertExecutor_stores k L z columns rows : stores k L z -> k + zlen rows <= n -> Forall (Forall value_ok) rows -> defaults_ok ->
  forall q z', InsertExecutor fuel clock db tbl columns rows z = (Ok q, z') -> q = affected (zlen rows) /\
  exists tups L', Forall2 (fun values tup => BuildTuple desc columns values = Ok tup) rows tups /\ grown L tups L' /\ stores (k + zlen rows) L' z'.
Proof.
  intros Hst Hn Hv Hd q z'. unfold InsertExecutor. rewrite M_bind_eq, (stores_descriptor k L z Hst), M_bind_eq.
  destruct (insert_rows fuel clock desc db tbl columns 0 rows z) as [[m|] z2] eqn:E; [|done]. intros [= <- <-].
  by apply (insert_rows_eq columns rows 0 k L z m z2 Hst Hn Hv Hd) in E as [-> ?].
Qed.

(** A new table holds no rows. *)
Lemma stores_created : exists z, e_CreateTable desc0 (started_engine (P:=PageManager) root size, d0) = (Ok tt, z) /\ stores 0 ∅ z.
Proof.
  destruct (setting_create _ _ _ _ _ _ _ _ Hset) as (e0 & d1 & E0 & Hr). exists (e0, d1). split; [done|].
  pose proof (st_ready _ _ _ _ _ _ _ _ Hset) as Hready. destruct (created_sound _ _ _ Hready) as [Hs El].
  exists (created size desc). split_and!; [|done|by eapply created_opened| |].
  - split_and!; [done|apply (st_calls _ _ _ _ _ _ _ _ Hset)|by rewrite El|apply Hs|]. by rewrite Z.mul_0_l, Z.add_0_r.
  - destruct Hready as [_ _ _ Hf _ _ _ Hix _]. destruct (open_fresh_ok size desc (indexes desc) empty_node Hix (fa_names _ _ Hf)) as (m & E & _).
    { apply Forall_forall. intros. apply lookup_empty. }
    unfold created, a_open_indexes. by rewrite E.
  - destruct (open_indexes_same size desc true empty_node) as [Et _]. change (n_rows (created size desc) = empty_table) in Et. by rewrite Et.
Qed.
End statements.
