(* ===== verification/Service.v ===== *)
(** * The storage service

    [src/server/storage_service.cpp]: sessions, authentication, the check of
    permissions and the dispatch of a statement to the query processor, the
    store of users and groups, the task queue or the metrics.  The readings of
    the clocks and the random numbers of a request are its [inputs]; the access
    log is not part of the model.  Requests are handled one after the other. *)
From S2P Require Import Prelude Values Disk PageStore Engine Sql Lexer Parser Expression Planner Executor QueryProcessor Protocol Network Json Doubles Rbac TaskQueue Metrics JwtAuth.

(** ** Results *)

Definition message_row (column : string) (row : Tuple) : QueryResult := mkQueryResult true "" [column] [row] 0.
Definition OkResult (msg : string) : QueryResult := if bool_decide (msg = "") then empty_result else message_row "message" [VString msg].
Definition ErrResult (msg : string) : QueryResult := ErrorResult msg.

Definition RequiredPermission (k : StatementKind) : option Permission :=
  match k with
  | kSelect => Some pRead
  | kInsert | kUpdate | kDelete => Some pWrite
  | kCreateTable => Some pCreateTable
  | kDropTable => Some pDropTable
  | kDropDatabase => Some pDropDatabase
  | kRevert => Some pWrite
  | kSubmitQuery => Some pRead
  | _ => None
  end.

Definition startsWithLogin (s : string) : bool :=
  if (String.length s <? 5)%nat then false
  else bool_decide (map toupper (String.list_ascii_of_string (String.substring 0 5 s)) = String.list_ascii_of_string "LOGIN").

(** What a request reads of the clocks and the random generators. *)
Record inputs := mkInputs {
  in_start_ms : Z;
  in_end_ms : Z;
  in_record_sec : Z;
  in_record_ms : Z;
  in_jwt_now : Z;
  in_queue_ms : Z;
  in_salt : bytes;
  in_uuid : string;
  in_clock : nat -> Z
}.

Section service.
Context {P : Type} {PS : PageStore P} {L : JsonLibrary} {O : HashOrder} {J : JwtLibrary}.
Context (pbkdf2 : string -> bytes -> Z -> bytes) (mktime : tm -> Z) (regex_match : string -> string -> option bool) (fuel : nat).

(** The processor is the database's; the session contexts are shared by all
    requests with the same client id. *)
Record StorageService := mkStorageService {
  s_engine : Engine P;
  s_jwt : JwtAuth;
  s_rbac : RbacStore;
  s_queue : TaskQueue.TaskQueue;
  s_metrics : NodeMetrics;
  session_contexts_ : gmap string SessionContext
}.
Definition set_engine (e : Engine P) (s : StorageService) : StorageService :=
  mkStorageService e (s_jwt s) (s_rbac s) (s_queue s) (s_metrics s) (session_contexts_ s).
Definition set_rbac (r : RbacStore) (s : StorageService) : StorageService :=
  mkStorageService (s_engine s) (s_jwt s) r (s_queue s) (s_metrics s) (session_contexts_ s).
Definition set_queue (q : TaskQueue.TaskQueue) (s : StorageService) : StorageService :=
  mkStorageService (s_engine s) (s_jwt s) (s_rbac s) q (s_metrics s) (session_contexts_ s).
Definition set_metrics (m : NodeMetrics) (s : StorageService) : StorageService :=
  mkStorageService (s_engine s) (s_jwt s) (s_rbac s) (s_queue s) m (session_contexts_ s).
Definition set_contexts (m : gmap string SessionContext) (s : StorageService) : StorageService :=
  mkStorageService (s_engine s) (s_jwt s) (s_rbac s) (s_queue s) (s_metrics s) m.
Abbreviation T := (M (StorageService * disk)).
Definition on_rbac {A} (m : M (RbacStore * disk) A) : T A := on_part s_rbac set_rbac m.
Definition on_queue {A} (m : M (TaskQueue.TaskQueue * disk) A) : T A := on_part s_queue set_queue m.

(** [if (!st.ok()) return ErrResult(st.message());] around a call, and the result otherwise. *)
Definition answer_with {A} (m : T A) (k : A -> QueryResult) : T QueryResult := fun s =>
  let '(r, s) := m s in
  (Ok (match r with Ok a => k a | Err _ message => ErrResult message end), s).

(** ** Statements on users and groups *)

Definition grant_or_revoke (verb preposition permission target_type target_name : string)
    (to_user to_group : string -> Permission -> M (RbacStore * disk) unit) : T QueryResult :=
  match ParsePermission permission with
  | Err _ message => mret (ErrResult message)
  | Ok perm =>
      answer_with (on_rbac (if bool_decide (target_type = "USER") then to_user target_name perm else to_group target_name perm))
        (fun _ => OkResult (verb +:+ permission +:+ preposition +:+ target_type +:+ " " +:+ target_name))
  end.
Definition HandleLogin (i : inputs) (user password : string) (ctx : SessionContext) : T (QueryResult * SessionContext) := fun s =>
  let '(r, s) := on_rbac (CheckPassword pbkdf2 user password) s in
  match r with
  | Err _ message => (Ok (ErrResult message, ctx), s)
  | Ok false => (Ok (ErrResult "invalid credentials", ctx), s)
  | Ok true =>
      match IssueToken (s_jwt s.1) user (in_jwt_now i) with
      | Err _ message => (Ok (ErrResult message, ctx), s)
      | Ok token => (Ok (message_row "token" [VString token], set_user user true ctx), s)
      end
  end.
Definition HandleAuthStatement (i : inputs) (stmt : SqlStatement) (ctx : SessionContext) : T (QueryResult * SessionContext) :=
  match stmt with
  | LoginStatement user password => HandleLogin i user password ctx
  | CreateUserStatement u password =>
      r ← answer_with (on_rbac (CreateUser pbkdf2 u password (in_salt i))) (fun _ => OkResult ("user created: " +:+ u)); mret (r, ctx)
  | DropUserStatement u => r ← answer_with (on_rbac (DropUser u)) (fun _ => OkResult ("user dropped: " +:+ u)); mret (r, ctx)
  | CreateGroupStatement g => r ← answer_with (on_rbac (CreateGroup g)) (fun _ => OkResult ("group created: " +:+ g)); mret (r, ctx)
  | DropGroupStatement g => r ← answer_with (on_rbac (DropGroup g)) (fun _ => OkResult ("group dropped: " +:+ g)); mret (r, ctx)
  | AddUserToGroupStatement u g =>
      r ← answer_with (on_rbac (AddUserToGroup u g)) (fun _ => OkResult ("user " +:+ u +:+ " added to group " +:+ g)); mret (r, ctx)
  | GrantStatement permission target_type target_name =>
      r ← grant_or_revoke "granted " " to " permission target_type target_name GrantToUser GrantToGroup; mret (r, ctx)
  | RevokeStatement permission target_type target_name =>
      r ← grant_or_revoke "revoked " " from " permission target_type target_name RevokeFromUser RevokeFromGroup; mret (r, ctx)
  | _ => mret (ErrResult "unexpected auth statement kind", ctx)
  end.

(** ** Statements on tasks *)

Definition HandleQueueStatement (i : inputs) (stmt : SqlStatement) (ctx : SessionContext) : T QueryResult :=
  match stmt with
  | SubmitQueryStatement inner_sql =>
      answer_with (on_queue (Submit inner_sql (current_db ctx) (QueryProcessor.user_id ctx) (in_uuid i) (in_queue_ms i)))
        (fun request_id => message_row "request_id" [VString request_id])
  | GetTaskStatement request_id =>
      answer_with (on_queue (GetStatus request_id)) (fun info =>
        mkQueryResult true "" ["status"; "progress"; "result"; "error"]
          [[VString (TaskStatusName (t_status info)); VInt (t_progress info); VString (t_result info); VString (t_error info)]] 0)
  | CancelTaskStatement request_id =>
      answer_with (on_queue (Cancel request_id (in_queue_ms i))) (fun _ => OkResult ("task cancelled: " +:+ request_id))
  | _ => mret (ErrResult "unexpected queue statement kind")
  end.

(** What a worker of the queue executes: the result as a document, or the error;
    [None] when [AsString] throws, which nothing catches. *)
Definition value_json (v : Value) : option json :=
  match v with VNull => Some JNull | VInt z => Some (JInt z) | _ => JString <$> AsString v end.
Definition execute_task (clock : nat -> Z) (task : TaskInfo) (s : Engine P * disk) : option (result string) * (Engine P * disk) :=
  let ctx := mkSessionContext "" (t_database task) (t_user_id task) true in
  let '(r, _, s) := qp_Execute mktime regex_match fuel clock (t_sql task) ctx s in
  if negb (ok r) then (Some (Err kExecutionError (error r)), s)
  else match mapM (mapM value_json) (result_rows r) with
  | None => (None, s)
  | Some rows =>
      (Some (Ok (json_dump (object [("columns", JArray (JString <$> result_columns r)); ("affected_rows", JInt (affected_rows r));
         ("rows", JArray (JArray <$> rows))]))), s)
  end.
(** One task, from the queue to its result: the critical sections of the worker
    loop around the execution.  The exception ends the program. *)
Inductive task_step := NoTask | TaskDone | Terminated.
Definition run_task (i : inputs) : T task_step := fun s =>
  match on_queue (worker_take (in_queue_ms i)) s with
  | (Ok (Some task), s) =>
      let '(outcome, (e, d)) := execute_task (in_clock i) task (s_engine s.1, s.2) in
      let s := (set_engine e s.1, d) in
      match outcome with
      | None => (Ok Terminated, s)
      | Some outcome => (Ok TaskDone, (on_queue (worker_finish task outcome (in_queue_ms i)) s).2)
      end
  | (_, s) => (Ok NoTask, s)
  end.

(** ** Metrics *)

Definition metrics_json (snap : MetricsSnapshot) : json :=
  object [("node_id", JString (node_id snap)); ("rps_current", JDouble (rps_current snap)); ("rps_avg_10min", JDouble (rps_avg_10min snap));
    ("rps_max_10min", JDouble (rps_max_10min snap)); ("latency_avg_ms", JDouble (latency_avg_ms snap)); ("latency_p95_ms", JDouble (latency_p95_ms snap));
    ("latency_p99_ms", JDouble (latency_p99_ms snap)); ("error_rate_1min", JDouble (error_rate_1min snap));
    ("total_requests", JInt (total_requests snap)); ("total_errors", JInt (total_errors snap))].
Definition HandleShowMetrics (i : inputs) : T QueryResult := fun s =>
  let '(snap, m) := Snapshot (in_record_sec i) (in_record_ms i) (s_metrics s.1) in
  (Ok (message_row "metrics" [VString (json_dump_indented (metrics_json snap))]), (set_metrics m s.1, s.2)).

(** ** Requests *)

(** The session of the client, created when it is new. *)
Definition open_session (session : Session) (req : Request) (s : StorageService) : SessionContext :=
  let ctx := default new_SessionContext (session_contexts_ s !! session_client session) in
  let ctx := if bool_decide (client_id ctx = "") then mkSessionContext (session_client session) (current_db ctx) (QueryProcessor.user_id ctx) (authenticated ctx) else ctx in
  if bool_decide (database req = "") then ctx else set_current_db (database req) ctx.
(** The token of a request that is not a login decides who the user is. *)
Definition authenticate (i : inputs) (req : Request) (ctx : SessionContext) (s : StorageService) : result SessionContext :=
  if startsWithLogin (sql req) || bool_decide (auth_token req = "") then Ok ctx
  else user ← ValidateToken (s_jwt s) (auth_token req) (in_jwt_now i); Ok (set_user user true ctx).
Definition denied (ctx : SessionContext) (stmt : SqlStatement) (s : StorageService) : option Permission :=
  match RequiredPermission (kind stmt) with
  | Some required =>
      if authenticated ctx && negb (bool_decide (QueryProcessor.user_id ctx = "")) && negb (HasPermission (s_rbac s) (QueryProcessor.user_id ctx) required)
      then Some required else None
  | None => None
  end.
Definition dispatch (i : inputs) (req : Request) (stmt : SqlStatement) (ctx : SessionContext) : T (QueryResult * SessionContext) := fun s =>
  match kind stmt with
  | kLogin | kCreateUser | kDropUser | kCreateGroup | kDropGroup | kAddUserToGroup | kGrant | kRevoke => HandleAuthStatement i stmt ctx s
  | kSubmitQuery | kGetTask | kCancelTask => (r ← HandleQueueStatement i stmt ctx; mret (r, ctx)) s
  | kShowMetrics => (r ← HandleShowMetrics i; mret (r, ctx)) s
  | _ =>
      let '(r, ctx, (e, d)) := qp_Execute mktime regex_match fuel (in_clock i) (sql req) ctx (s_engine s.1, s.2) in
      (Ok (r, ctx), (set_engine e s.1, d))
  end.
(** Storing the session and counting the request. *)
Definition finish (i : inputs) (session : Session) (ctx : SessionContext) (is_error : bool) (s : StorageService) : StorageService :=
  set_contexts (<[session_client session := ctx]> (session_contexts_ s))
    (set_metrics (RecordRequest (in_end_ms i - in_start_ms i) is_error (in_record_sec i) (in_record_ms i) (s_metrics s)) s).
Definition error_response (msg : string) : Response := mkResponse false msg (ErrResult msg).

Definition HandleRequest (i : inputs) (session : Session) (req : Request) (s : StorageService * disk) : Response * (StorageService * disk) :=
  let ctx := open_session session req s.1 in
  match authenticate i req ctx s.1 with
  | Err _ message => (error_response ("authentication failed: " +:+ message), (finish i session ctx true s.1, s.2))
  | Ok ctx =>
      match Parse mktime (sql req) with
      | Parsed stmt =>
          match denied ctx stmt s.1 with
          | Some required =>
              (error_response ("permission denied: " +:+ PermissionName required +:+ " required"), (finish i session ctx true s.1, s.2))
          | None =>
              match dispatch i req stmt ctx s with
              | (Ok (r, ctx), s) => (mkResponse (ok r) (error r) r, (finish i session ctx (negb (ok r)) s.1, s.2))
              | (Err _ message, s) => (error_response message, (finish i session ctx true s.1, s.2))
              end
          end
      | ParseError what => (error_response ("[parse] " +:+ what), (finish i session ctx true s.1, s.2))
      | OutOfFuel | OutOfRange => (error_response "[parse] ", (finish i session ctx true s.1, s.2))
      end
  end.

(** ** Start and stop *)

Record Config := mkConfig {
  c_data_dir : string;
  c_task_queue_dir : string;
  c_task_queue_max : Z;
  c_telemetry_window_seconds : Z;
  c_jwt_secret : string;
  c_jwt_ttl_seconds : Z
}.
(** The statuses of [Open] and [Start] are not looked at. *)
Definition new_StorageService (config : Config) (e : Engine P) (salt : bytes) : M disk StorageService := fun d =>
  match new_TaskQueue (c_task_queue_dir config) (c_task_queue_max config) d with
  | (Err code message, d) => (Err code message, d)
  | (Ok q, d) =>
      let '(_, (r, d)) := Open pbkdf2 salt (new_RbacStore (path_join (c_data_dir config) "rbac.json"), d) in
      let '(_, (q, d)) := tq_Start (q, d) in
      (Ok (mkStorageService e (mkJwtAuth (c_jwt_secret config) (c_jwt_ttl_seconds config)) r q
        (new_NodeMetrics "local-node" (c_telemetry_window_seconds config)) ∅), d)
  end.
Definition svc_Stop : T unit := on_queue tq_Stop.
End service.
