(* ===== verification/ServiceSpec.v ===== *)
(** * Properties of the storage service

    No request has an effect, or gets an answer, that the policy of users and
    groups does not allow its user ([service_enforces_permissions]), and who
    logs in gets a token that stands for them ([login_identifies_user]). *)
From S2P Require Import Prelude Values Disk PageStore Engine Sql Lexer Parser Expression Planner Executor QueryProcessor Protocol Network Json Doubles Rbac RbacSpec TaskQueue Metrics JwtAuth Service PageManager.

Section spec.
Context {P : Type} {PS : PageStore P} {L : JsonLibrary} {LL : JsonLaws L} {O : HashOrder} {OL : HashOrderLaws O} {J : JwtLibrary} {JL : JwtLaws J}.
Context (pbkdf2 : string -> bytes -> Z -> bytes) (mktime : tm -> Z) (regex_match : string -> string -> option bool) (fuel : nat).
Abbreviation Svc := (@StorageService P).
Abbreviation user := QueryProcessor.user_id.

(** ** Frames *)

Definition auth_kind (k : StatementKind) : bool :=
  match k with kLogin | kCreateUser | kDropUser | kCreateGroup | kDropGroup | kAddUserToGroup | kGrant | kRevoke => true | _ => false end.
Definition queue_kind (k : StatementKind) : bool := match k with kSubmitQuery | kGetTask | kCancelTask => true | _ => false end.
Definition data_kind (k : StatementKind) : bool := negb (auth_kind k) && negb (queue_kind k) && match k with kShowMetrics => false | _ => true end.
(** Which components a statement may change. *)
Definition frame_ok (k : StatementKind) (s s' : Svc) : Prop :=
  s_jwt s' = s_jwt s /\ (auth_kind k = false -> s_rbac s' = s_rbac s) /\ (queue_kind k = false -> s_queue s' = s_queue s) /\ (data_kind k = false -> s_engine s' = s_engine s).
Lemma answer_with_rbac {A} (m : M (RbacStore * disk) A) k (s : Svc * disk) : exists r d' v, answer_with (on_rbac m) k s = (Ok v, (set_rbac r s.1, d')).
Proof. unfold answer_with, on_rbac, on_part. destruct (m (s_rbac s.1, s.2)) as [x [r d']]. by eexists r, d', _. Qed.
Lemma answer_with_queue {A} (m : M (TaskQueue.TaskQueue * disk) A) k (s : Svc * disk) : exists q d' v, answer_with (on_queue m) k s = (Ok v, (set_queue q s.1, d')).
Proof. unfold answer_with, on_queue, on_part. destruct (m (s_queue s.1, s.2)) as [x [q d']]. by eexists q, d', _. Qed.
Lemma auth_statement_frame i stmt ctx (s : Svc * disk) : exists r d' v, HandleAuthStatement pbkdf2 i stmt ctx s = (Ok v, (set_rbac r s.1, d')).
Proof.
  assert (forall m : M (Svc * disk) QueryResult, (exists r d' v, m s = (Ok v, (set_rbac r s.1, d'))) -> exists r d' v, (x ← m; mret (x, ctx)) s = (Ok v, (set_rbac r s.1, d'))) as Hret.
  { intros m (r & d' & v & E). rewrite M_bind_eq, E. by eexists r, d', _. }
  assert (forall v : QueryResult * SessionContext, exists r d' v', (mret v : M (Svc * disk) _) s = (Ok v', (set_rbac r s.1, d'))) as Hnone.
  { intros v. exists (s_rbac s.1), s.2, v. destruct s as [[] d]. done. }
  unfold HandleAuthStatement. destruct stmt; try (apply Hnone); try (apply Hret, answer_with_rbac).
  - unfold HandleLogin, on_rbac, on_part. destruct (CheckPassword _ _ _ _) as [[[|]|c m] [r d']]; [destruct (IssueToken _ _ _)| |]; by eexists r, d', _.
  - apply Hret. unfold grant_or_revoke. destruct (ParsePermission permission); [apply answer_with_rbac|]. exists (s_rbac s.1), s.2, (ErrResult message). destruct s as [[] d]. done.
  - apply Hret. unfold grant_or_revoke. destruct (ParsePermission permission); [apply answer_with_rbac|]. exists (s_rbac s.1), s.2, (ErrResult message). destruct s as [[] d]. done.
Qed.
Lemma dispatch_frame i req stmt ctx (s : Svc * disk) : match dispatch pbkdf2 mktime regex_match fuel i req stmt ctx s with (r, s') => is_ok r = true /\ frame_ok (kind stmt) s.1 s'.1 end.
Proof.
  unfold dispatch. destruct (auth_kind (kind stmt)) eqn:Ea.
  - destruct (auth_statement_frame i stmt ctx s) as (r & d' & v & E). destruct (kind stmt) eqn:Ek; try discriminate Ea; rewrite E; by repeat split.
  - destruct (queue_kind (kind stmt)) eqn:Eq.
    + destruct stmt; try discriminate Eq; cbn [kind HandleQueueStatement]; rewrite M_bind_eq.
      all: match goal with |- context [answer_with (on_queue ?m) ?k ?s0] => destruct (answer_with_queue m k s0) as (q & d' & v & ->) end; by repeat split.
    + destruct (kind stmt) eqn:Ek; try discriminate Ea; try discriminate Eq; try (destruct (qp_Execute _ _ _ _ _ _ _) as [[r c] [e d']]; by repeat split).
      rewrite M_bind_eq. unfold HandleShowMetrics. destruct (Snapshot _ _ _). by repeat split.
Qed.

(** ** Authorization *)

(** Nothing but the session and the metrics changed. *)
Definition untouched (s s' : Svc * disk) : Prop :=
  s_engine s'.1 = s_engine s.1 /\ s_rbac s'.1 = s_rbac s.1 /\ s_queue s'.1 = s_queue s.1 /\ s'.2 = s.2.
(** The policy lets the user of the session execute the statement: a statement
    that needs no permission, a session without a user, or a permission. *)
Definition authorized (Q : policy) (ctx : SessionContext) (stmt : SqlStatement) : Prop :=
  match RequiredPermission (kind stmt) with
  | Some p => authenticated ctx = true -> user ctx <> "" -> permitted Q (user ctx) p
  | None => True
  end.
Lemma required_basic k p : RequiredPermission k = Some p -> p ∈ basic.
Proof. destruct k; intros [= <-]; by_computation. Qed.
Lemma denied_authorized Q ctx stmt (s : Svc) : implements pbkdf2 (s_rbac s) Q -> denied ctx stmt s = None <-> authorized Q ctx stmt.
Proof.
  intros Hi. unfold denied, authorized. destruct (RequiredPermission (kind stmt)) as [p|] eqn:E; [|done].
  pose proof (HasPermission_permitted pbkdf2 (s_rbac s) Q (user ctx) p Hi (required_basic _ _ E)) as Hp.
  destruct (authenticated ctx); cbn [andb]; [|naive_solver]. case_bool_decide as Eu; cbn [negb andb]; [naive_solver|].
  destruct (HasPermission _ _ _); cbn [negb]; [naive_solver|]. split; [done|]. intros H. destruct Hp as [_ Hp]. by specialize (Hp (H eq_refl Eu)).
Qed.
Lemma finish_untouched i session ctx b (s : Svc * disk) : untouched s (finish i session ctx b s.1, s.2).
Proof. by repeat split. Qed.
End spec.

(** C6. The service enforces the policy: when the store of users and groups
    implements the policy [Q], then a request with an invalid token, a text that
    is no statement, or a statement that [Q] does not let the user of the session
    execute gets an error and leaves the database, the users and groups, the task
    queue and the disk as they were; any other request changes only the component
    its statement is about, and one on the data has the result and the effect that
    the query processor gives it.  A session nobody logged in on is not
    restricted ([authorized]). *)
Theorem service_enforces_permissions {P : Type} {PS : PageStore P} {L : JsonLibrary} {O : HashOrder} {OL : HashOrderLaws O} {J : JwtLibrary}
    pbkdf2 mktime regex_match fuel i session req (s : @StorageService P * disk) Q :
  implements pbkdf2 (s_rbac s.1) Q ->
  let out := HandleRequest pbkdf2 mktime regex_match fuel i session req s in
  (resp_ok out.1 = false /\ untouched s out.2) \/
  (exists ctx stmt, authenticate i req (open_session session req s.1) s.1 = Ok ctx /\ Parse mktime (sql req) = Parsed stmt /\
    authorized Q ctx stmt /\ frame_ok (kind stmt) s.1 out.2.1 /\
    (data_kind (kind stmt) = true ->
      let '(r, _, (e, d)) := qp_Execute mktime regex_match fuel (in_clock i) (sql req) ctx (s_engine s.1, s.2) in
      resp_result out.1 = r /\ resp_ok out.1 = ok r /\ s_engine out.2.1 = e /\ out.2.2 = d)).
Proof.
  intros Hi out. unfold out, HandleRequest. clear out. cbv zeta. destruct (authenticate _ _ _ _) as [ctx|c msg] eqn:Ea; [|left; split; [done|apply finish_untouched]].
  destruct (Parse mktime (sql req)) as [stmt|what| |] eqn:Ep; try (left; split; [done|apply finish_untouched]).
  destruct (denied ctx stmt s.1) as [p|] eqn:Ed; [left; split; [done|apply finish_untouched]|]. right. exists ctx, stmt. split; [done|]. split; [done|].
  split; [by apply (denied_authorized pbkdf2 Q ctx stmt s.1 Hi)|]. pose proof (dispatch_frame pbkdf2 mktime regex_match fuel i req stmt ctx s) as Hf.
  destruct (dispatch _ _ _ _ _ _ _ _ _) as [[[r ctx']|c m] s1] eqn:E; destruct Hf as [Ho (F1 & F2 & F3 & F4)]; [|discriminate Ho]. split; [done|].
  intros Hk. unfold dispatch in E. destruct (kind stmt); try discriminate Hk; destruct (qp_Execute _ _ _ _ _ _ _) as [[r' c'] [e d']]; injection E as <- <- <-; by repeat split.
Qed.

(** C19. Logging in: a LOGIN without a token succeeds exactly when the policy has
    an account with the password (and the library issues a token); the session
    then belongs to the user, and a request on any session that carries the
    token is a request of this user until the token expires. *)
Theorem login_identifies_user {P : Type} {PS : PageStore P} {L : JsonLibrary} {O : HashOrder} {OL : HashOrderLaws O} {J : JwtLibrary} {JL : JwtLaws J}
    pbkdf2 mktime regex_match fuel i session req (s : @StorageService P * disk) Q u password token :
  (forall password salt iters, zlen (pbkdf2 password salt iters) = kHashBytes) -> implements pbkdf2 (s_rbac s.1) Q ->
  auth_token req = "" -> Parse mktime (sql req) = Parsed (LoginStatement u password) -> IssueToken (s_jwt s.1) u (in_jwt_now i) = Ok token ->
  let out := HandleRequest pbkdf2 mktime regex_match fuel i session req s in
  (resp_ok out.1 = true <-> password_matches pbkdf2 Q u password) /\
  (resp_ok out.1 = true ->
    result_rows (resp_result out.1) = [[VString token]] /\ untouched s out.2 /\
    (exists ctx, session_contexts_ out.2.1 !! session_client session = Some ctx /\ QueryProcessor.user_id ctx = u /\ authenticated ctx = true) /\
    (forall i' req' ctx', auth_token req' = token -> startsWithLogin (sql req') = false ->
      in_jwt_now i <= in_jwt_now i' < in_jwt_now i + ttl_seconds_ (s_jwt s.1) ->
      authenticate i' req' ctx' out.2.1 = Ok (set_user u true ctx'))).
Proof.
  intros Hpb Hi Ht Hp Htok out. unfold out, HandleRequest, authenticate. clear out. cbv zeta. rewrite Ht, bool_decide_true, orb_true_r, Hp by done. cbn [denied kind RequiredPermission dispatch HandleAuthStatement].
  unfold HandleLogin, on_rbac, on_part. destruct (CheckPassword_matches pbkdf2 Hpb (s_rbac s.1) Q u password s.2 Hi) as (b & -> & Hb).
  assert ((set_rbac (s_rbac s.1) s.1, s.2) = s) as -> by (by destruct s as [[] d]). destruct b; [|split; [naive_solver|done]].
  rewrite Htok. cbn [fst snd resp_ok ok message_row]. split; [naive_solver|]. intros _. split; [done|]. split; [apply finish_untouched|]. split.
  - eexists. split; [apply lookup_insert_eq|]. done.
  - intros i' req' ctx' Et' Hl Hnow. destruct (ValidateToken_IssueToken (s_jwt s.1) u (in_jwt_now i) token (in_jwt_now i') Htok) as (Hne & Hv & _).
    rewrite Hl, Et', bool_decide_false by done. cbn [orb finish set_contexts set_metrics s_jwt]. by rewrite (Hv Hnow).
Qed.

(** ** An example

    A user who may read, with a session of their own. *)
#[local] Existing Instances sample_json sample_order sample_jwt sample_order_laws sample_jwt_laws.
Definition sample_policy : policy := mkPolicy {["ann" := mkAccount "secret" [] ∅ {[pRead]}]} ∅.
Definition sample_service : @StorageService PageManager :=
  mkStorageService (new_Engine "data" 4096) (mkJwtAuth "key" 3600)
    (mkRbacStore "data/rbac.json" {["ann" := mkUserRecord "ann" (HashPassword sample_pbkdf2 "secret" []) ∅ 1]} ∅)
    (mkTaskQueue 10 "q/tasks.wal" [] ∅ true) (new_NodeMetrics "local-node" 600) {["c" := mkSessionContext "c" "shop" "ann" true]}.
Lemma sample_implements : implements sample_pbkdf2 (s_rbac sample_service) sample_policy.
Proof.
  split; intros x; cbn [sample_service s_rbac users_ groups_ sample_policy accounts roles].
  - destruct (decide (x = "ann")) as [->|Hne]; [rewrite !lookup_singleton_eq; constructor|rewrite !lookup_singleton_ne by done; constructor].
    split_and!; try done. rewrite <- (union_empty_l_L {[pRead]}). apply (mask_grant 0 ∅ pRead), mask_empty.
  - rewrite !lookup_empty. constructor.
Qed.
Definition sample_inputs : inputs := mkInputs 0 1 0 0 50 0 [] "id" (fun _ => 0).
Definition drop_request : Request := mkRequest "c" "" "DROP TABLE items;" "".
Definition login_request : Request := mkRequest "d" "" "LOGIN ann PASSWORD 'secret';" "".
Lemma service_enforces_permissions_witness :
  let out := HandleRequest sample_pbkdf2 (fun _ => 0) (fun _ _ => None) 100 sample_inputs (mkSession "c" "10.0.0.1") drop_request (sample_service, empty_disk) in
  resp_ok out.1 = false /\ untouched (sample_service, empty_disk) out.2.
Proof.
  destruct (service_enforces_permissions sample_pbkdf2 (fun _ => 0) (fun _ _ => None) 100 sample_inputs (mkSession "c" "10.0.0.1") drop_request (sample_service, empty_disk) sample_policy)
    as [H|(ctx & stmt & Ha & Hp & Hau & _)]; [exact sample_implements|exact H|]. exfalso.
  vm_compute in Hp. injection Hp as <-. vm_compute in Ha. injection Ha as <-. destruct (Hau eq_refl) as (a & El & H); [discriminate|]. vm_compute in El. injection El as <-.
  destruct H as [H|(g & X & H & _)]; revert H; [by_computation|by_computation].
Defined.
Lemma login_identifies_user_witness :
  let out := HandleRequest sample_pbkdf2 (fun _ => 0) (fun _ _ => None) 100 sample_inputs (mkSession "d" "10.0.0.1") login_request (sample_service, empty_disk) in
  exists token, IssueToken (s_jwt sample_service) "ann" 50 = Ok token /\ resp_ok out.1 = true /\ result_rows (resp_result out.1) = [[VString token]].
Proof.
  cbv zeta. eexists. split; [reflexivity|]. set (token := digits _).
  destruct (login_identifies_user sample_pbkdf2 (fun _ => 0) (fun _ _ => None) 100 sample_inputs (mkSession "d" "10.0.0.1") login_request (sample_service, empty_disk) sample_policy
    "ann" "secret" token sample_pbkdf2_length sample_implements) as [H1 H2].
  - reflexivity.
  - vm_compute. reflexivity.
  - reflexivity.
  - assert (resp_ok (HandleRequest sample_pbkdf2 (fun _ => 0) (fun _ _ => None) 100 sample_inputs (mkSession "d" "10.0.0.1") login_request (sample_service, empty_disk)).1 = true) as Hok.
    { apply H1. exists (mkAccount "secret" [] ∅ {[pRead]}). by split. }
    split; [exact Hok|]. apply H2, Hok.
Defined.

(** ** What is not checked *)

(** A session without a user is not checked at all. *)
Lemma anonymous_authorized Q ctx stmt : authenticated ctx = false -> authorized Q ctx stmt.
Proof. intros E. unfold authorized. destruct (RequiredPermission _); [|done]. by rewrite E. Qed.
(** Every user may create users and grant permissions, themselves included. *)
Lemma grants_need_no_permission Q ctx p t n : authorized Q ctx (GrantStatement p t n).
Proof. done. Qed.
