(* ===== verification/Entrypoint.v ===== *)
(** * The entry point of the cluster

    [src/cluster/entrypoint.cpp]: the registered nodes, their health, and the
    choice of the node a request is forwarded to.  The connection to a node is
    the client of [Network]; what the network does is an argument.  The health
    check runs in rounds.  The access log and the [metrics] of a [NodeState],
    which nothing reads or writes, are not part of the model. *)
From S2P Require Import Prelude Values Executor Protocol Network ConsistentHash Json Doubles Metrics Service.

Record NodeConfig := mkNodeConfig { nc_id : string; nc_host : string; nc_port : Z }.
Inductive NodeHealth := nhUnknown | nhHealthy | nhUnhealthy.
#[export] Instance NodeHealth_eq_dec : EqDecision NodeHealth.
Proof. solve_decision. Defined.
Record NodeState := mkNodeState { ns_config : NodeConfig; ns_health : NodeHealth; ns_last_seen_ms : Z }.
Definition set_health (h : NodeHealth) (n : NodeState) : NodeState := mkNodeState (ns_config n) h (ns_last_seen_ms n).
Definition set_last_seen (ms : Z) (n : NodeState) : NodeState := mkNodeState (ns_config n) (ns_health n) ms.
Record EntrypointNode := mkEntrypointNode {
  ep_ring : ConsistentHashRing;
  ep_nodes : gmap string NodeState;
  ep_metrics : list MetricsSnapshot;
  ep_running : bool
}.
Definition set_nodes (m : gmap string NodeState) (e : EntrypointNode) : EntrypointNode := mkEntrypointNode (ep_ring e) m (ep_metrics e) (ep_running e).
Definition set_ep_ring (r : ConsistentHashRing) (e : EntrypointNode) : EntrypointNode := mkEntrypointNode r (ep_nodes e) (ep_metrics e) (ep_running e).

Definition ErrorResponse (msg : string) : Response := mkResponse false msg empty_result.

(** ** Nodes *)

Definition register (nc : NodeConfig) (e : EntrypointNode) : EntrypointNode :=
  set_ep_ring (ConsistentHash.AddNode (nc_id nc) (ep_ring e)) (set_nodes (<[nc_id nc := mkNodeState nc nhUnknown 0]> (ep_nodes e)) e).
Definition new_EntrypointNode (virtual_nodes : nat) (nodes : list NodeConfig) : EntrypointNode :=
  foldl (fun e nc => register nc e) (mkEntrypointNode (new_ConsistentHashRing virtual_nodes) ∅ [] false) nodes.
Definition AddNode (nc : NodeConfig) : M EntrypointNode unit :=
  e ← get;
  _ ← reject_if (bool_decide (is_Some (ep_nodes e !! nc_id nc))) kAlreadyExists ("node already registered: " +:+ nc_id nc);
  modify (register nc).
Definition RemoveNode (node_id : string) : M EntrypointNode unit :=
  e ← get;
  _ ← reject_if (negb (bool_decide (is_Some (ep_nodes e !! node_id)))) kNotFound ("node not found: " +:+ node_id);
  modify (fun e => set_ep_ring (ConsistentHash.RemoveNode node_id (ep_ring e)) (set_nodes (delete node_id (ep_nodes e)) e)).

(** ** Routing *)

Definition ShardKey (req : Request) : string :=
  if bool_decide (database req = "") then String.substring 0 64 (sql req) else database req.
Definition usable (e : EntrypointNode) (id : string) : option NodeState :=
  match ep_nodes e !! id with
  | Some n => if bool_decide (ns_health n = nhUnhealthy) then None else Some n
  | None => None
  end.
(** The first other node that is not unhealthy. *)
Fixpoint fallback (e : EntrypointNode) (owner : string) (ids : list string) : option NodeState :=
  match ids with
  | [] => None
  | nid :: ids =>
      if bool_decide (nid = owner) then fallback e owner ids
      else match usable e nid with Some n => Some n | None => fallback e owner ids end
  end.
Definition ResolveNode (shard_key : string) (e : EntrypointNode) : option NodeState :=
  let node_id := GetNode shard_key (ep_ring e) in
  if bool_decide (node_id = "") then None
  else match ep_nodes e !! node_id with
  | None => None
  | Some n => if bool_decide (ns_health n = nhUnhealthy) then fallback e node_id (AllNodes (ep_ring e)) else Some n
  end.

(** [text.find(pattern) != std::string::npos] *)
Definition contains (pattern text : string) : bool := bool_decide (is_Some (String.index 0 pattern text)).
Definition is_management (sql : string) : bool := contains "SHOW METRICS" sql || contains "ADD NODE" sql || contains "REMOVE NODE" sql.

Section entrypoint.
Context {L : JsonLibrary} (network : string -> Z -> host_env * socket).

Definition ClusterMetricsSnapshot (e : EntrypointNode) : MetricsSnapshot := Aggregate (ep_metrics e).
Definition HandleManagement (req : Request) (e : EntrypointNode) : Response :=
  if contains "SHOW METRICS" (sql req) then
    mkResponse true "" (message_row "metrics" [VString (json_dump_indented (metrics_json (ClusterMetricsSnapshot e)))])
  else ErrorResponse "unsupported management command".
(** A request to a node over a new connection. *)
Definition call (nc : NodeConfig) (req : Request) : result Response :=
  let '(env, sock) := network (nc_host nc) (nc_port nc) in (Send env (nc_host nc) (nc_port nc) req sock).1.
Definition ForwardToNode (n : NodeState) (req : Request) : Response :=
  match call (ns_config n) req with
  | Ok resp => resp
  | Err _ message => ErrorResponse ("storage node unreachable: " +:+ nc_id (ns_config n) +:+ " - " +:+ message)
  end.
Definition ep_HandleRequest (req : Request) (now_ms : Z) (e : EntrypointNode) : Response * EntrypointNode :=
  if is_management (sql req) then (HandleManagement req e, e)
  else match ResolveNode (ShardKey req) e with
  | None => (ErrorResponse "no healthy storage nodes available", e)
  | Some n => (ForwardToNode n req, set_nodes (alter (set_last_seen now_ms) (nc_id (ns_config n)) (ep_nodes e)) e)
  end.

(** ** Health *)

Definition ping : Request := mkRequest "ping" "" "SELECT 1;" "".
(** The answer of one node to the ping. *)
Definition check_node (id : string) (alive : bool) (now_ms : Z) (e : EntrypointNode) : EntrypointNode :=
  set_nodes (alter (fun n => if alive then set_last_seen now_ms (set_health nhHealthy n) else set_health nhUnhealthy n) id (ep_nodes e)) e.
Context {O : HashOrder}.
(** One round of the loop. *)
Definition health_round (now_ms : Z) (e : EntrypointNode) : EntrypointNode :=
  foldl (fun e x => check_node x.1 (is_ok (call (ns_config x.2) ping)) now_ms e) e (visit (ep_nodes e)).
End entrypoint.

(** ** Start and stop

    The node, its server, and whether its two threads can be joined. *)
Record EntrypointProcess := mkEntrypointProcess { ep_node : EntrypointNode; ep_server : TcpServer; ep_threads : bool }.
Definition set_ep_running (b : bool) (e : EntrypointNode) : EntrypointNode := mkEntrypointNode (ep_ring e) (ep_nodes e) (ep_metrics e) b.
Definition ep_Start (env : listen_env) : M EntrypointProcess unit := fun p =>
  match srv_Start env (ep_server p) with
  | (Ok _, server) => (Ok tt, mkEntrypointProcess (set_ep_running true (ep_node p)) server true)
  | (Err code message, server) => (Err code message, mkEntrypointProcess (set_ep_running false (ep_node p)) server true)
  end.
Definition ep_Stop : M EntrypointProcess unit := fun p =>
  if negb (ep_running (ep_node p)) then (Ok tt, p)
  else (Ok tt, mkEntrypointProcess (set_ep_running false (ep_node p)) (srv_Stop (ep_server p)).2 false).
(** The destructor stops the process; a thread that can still be joined then ends the program. *)
Definition destroyed (p : EntrypointProcess) : bool := negb (ep_threads (ep_Stop p).2).
(** When the server cannot listen, the destructor ends the program, because [Stop] does not join the threads. *)
Lemma failed_start_terminates env p : is_ok (ep_Start env p).1 = false -> destroyed (ep_Start env p).2 = false.
Proof. unfold ep_Start, destroyed, ep_Stop. by destruct (srv_Start env (ep_server p)) as [[]]. Qed.
Lemma started_stops env p : is_ok (ep_Start env p).1 = true -> destroyed (ep_Start env p).2 = true.
Proof. unfold ep_Start, destroyed, ep_Stop. by destruct (srv_Start env (ep_server p)) as [[]]. Qed.

(** ** Routing to live nodes *)

Lemma ltb_antisym x y : string_ltb x y = false -> string_ltb y x = false -> x = y.
Proof. destruct (string_ltb_total x y) as [?|[?|?]]; congruence. Qed.
Lemma elem_of_set_insert x y l : y ∈ set_insert x l <-> y = x \/ y ∈ l.
Proof.
  induction l as [|z l IH]; cbn [set_insert]; [by rewrite list_elem_of_singleton, elem_of_nil; naive_solver|]. destruct (string_ltb x z) eqn:E1; [by rewrite elem_of_cons|].
  destruct (string_ltb z x) eqn:E2; [rewrite !elem_of_cons, IH; naive_solver|]. rewrite (ltb_antisym x z E1 E2), elem_of_cons. naive_solver.
Qed.
Lemma elem_of_AllNodes x r : x ∈ AllNodes r <-> exists k, ring_ r !! k = Some x.
Proof.
  unfold AllNodes. assert (forall l acc, x ∈ foldl (fun l (e : Z * string) => set_insert e.2 l) acc l <-> x ∈ acc \/ exists k, (k, x) ∈ l) as H.
  { induction l as [|[k v] l IH]; intros acc; cbn [foldl]; [setoid_rewrite elem_of_nil; naive_solver|]. rewrite IH, elem_of_set_insert. setoid_rewrite elem_of_cons. cbn [snd]. naive_solver. }
  rewrite H, elem_of_nil. setoid_rewrite elem_of_map_to_list. naive_solver.
Qed.

(** The positions of the ring belong to registered nodes. *)
Record ep_inv (e : EntrypointNode) : Prop := {
  ei_ring : forall k v, ring_ (ep_ring e) !! k = Some v -> is_Some (ep_nodes e !! v) /\ k ∈ slots v (ep_ring e);
  ei_ids : forall id n, ep_nodes e !! id = Some n -> nc_id (ns_config n) = id /\ id <> ""
}.
Lemma register_inv nc e : ep_inv e -> nc_id nc <> "" -> ep_inv (register nc e).
Proof.
  intros [Hr Hi] Hne. split; cbn [register set_ep_ring set_nodes ep_ring ep_nodes].
  - intros k v. rewrite AddNode_lookup. destruct (decide (k ∈ slots (nc_id nc) (ep_ring e))) as [Hin|_]; [intros [= <-]; split; [rewrite lookup_insert_eq; by eexists|done]|].
    intros [H1 H2]%Hr. split; [|done]. destruct (decide (nc_id nc = v)) as [->|]; [rewrite lookup_insert_eq; by eexists|by rewrite lookup_insert_ne].
  - intros id n [[<- <-]|[_ Hl]]%lookup_insert_Some; [done|by apply Hi].
Qed.
Lemma remove_inv id e : ep_inv e -> ep_inv (set_ep_ring (ConsistentHash.RemoveNode id (ep_ring e)) (set_nodes (delete id (ep_nodes e)) e)).
Proof.
  intros [Hr Hi]. split; cbn [set_ep_ring set_nodes ep_ring ep_nodes].
  - intros k v. rewrite RemoveNode_lookup. destruct (decide (k ∈ slots id (ep_ring e))) as [|Hn]; [done|]. intros [H1 H2]%Hr. split; [|done].
    rewrite lookup_delete_ne; [done|]. intros ->. done.
  - intros id' n [_ Hl]%lookup_delete_Some. by apply Hi.
Qed.
Lemma alter_inv f id e : (forall n, ns_config (f n) = ns_config n) -> ep_inv e -> ep_inv (set_nodes (alter f id (ep_nodes e)) e).
Proof.
  intros Hf [Hr Hi]. split; cbn [set_nodes ep_ring ep_nodes].
  - intros k v [H1 H2]%Hr. split; [by apply lookup_alter_is_Some|done].
  - intros id' n Hl. rewrite lookup_alter_Some in Hl. destruct Hl as [(<- & n' & Hl & ->)|[_ Hl]]; [rewrite Hf|]; by apply Hi.
Qed.

(** Administration, health checks and requests in any order. *)
Inductive ep_op :=
  | EAdd (nc : NodeConfig)
  | ERemove (id : string)
  | EHealth (id : string) (alive : bool) (now_ms : Z)
  | ERequest (network : string -> Z -> host_env * socket) (req : Request) (now_ms : Z).
Definition ep_op_ok (o : ep_op) : Prop := match o with EAdd nc => nc_id nc <> "" | _ => True end.
Definition ep_step {L : JsonLibrary} (o : ep_op) (e : EntrypointNode) : EntrypointNode :=
  match o with
  | EAdd nc => (AddNode nc e).2
  | ERemove id => (RemoveNode id e).2
  | EHealth id alive now_ms => check_node id alive now_ms e
  | ERequest network req now_ms => (ep_HandleRequest network req now_ms e).2
  end.
Lemma ep_step_inv {L : JsonLibrary} o e : ep_inv e -> ep_op_ok o -> ep_inv (ep_step o e).
Proof.
  intros He Ho. destruct o as [nc|id|id alive ms|network req ms]; cbn [ep_step].
  - unfold AddNode. munfold. destruct (bool_decide _); [done|by apply register_inv].
  - unfold RemoveNode. munfold. destruct (negb _); [done|by apply remove_inv].
  - apply alter_inv; [|done]. by destruct alive.
  - unfold ep_HandleRequest. destruct (is_management _); [done|]. destruct (ResolveNode _ _) as [n|]; [by apply alter_inv|done].
Qed.
Lemma new_EntrypointNode_inv vn nodes : Forall (fun nc => nc_id nc <> "") nodes -> ep_inv (new_EntrypointNode vn nodes).
Proof.
  intros Hn. unfold new_EntrypointNode. assert (ep_inv (mkEntrypointNode (new_ConsistentHashRing vn) ∅ [] false)) as He by (by split).
  revert He. generalize (mkEntrypointNode (new_ConsistentHashRing vn) ∅ [] false). induction Hn as [|nc nodes Hnc _ IH]; intros e He; [done|]. by apply IH, register_inv.
Qed.
Lemma fallback_spec e owner ids : match fallback e owner ids with
  | Some n => exists id, id ∈ ids /\ usable e id = Some n
  | None => forall id, id ∈ ids -> id <> owner -> usable e id = None end.
Proof.
  induction ids as [|x ids IH]; cbn [fallback]; [by intros id ?%elem_of_nil|]. case_bool_decide as E.
  - destruct (fallback e owner ids); [destruct IH as (id & ? & ?); exists id; split; [by right|done]|]. intros id [->|?]%elem_of_cons ?; [done|by apply IH].
  - destruct (usable e x) as [n|] eqn:Eu; [exists x; split; [left|done]|]. destruct (fallback e owner ids); [destruct IH as (id & ? & ?); exists id; split; [by right|done]|].
    intros id [->|?]%elem_of_cons ?; [done|by apply IH].
Qed.
Lemma GetNode_AllNodes key r : ring_ r <> ∅ -> GetNode key r ∈ AllNodes r.
Proof. intros Hne. destruct (GetNode_owner key r Hne) as [k [Hk _]]. apply elem_of_AllNodes. by exists k. Qed.
Lemma usable_Some e id n : usable e id = Some n <-> ep_nodes e !! id = Some n /\ ns_health n <> nhUnhealthy.
Proof. unfold usable. destruct (ep_nodes e !! id) as [n'|]; [|naive_solver]. case_bool_decide; naive_solver. Qed.
Lemma ResolveNode_None e key : ep_inv e -> ResolveNode key e = None <-> forall id, id ∈ AllNodes (ep_ring e) -> usable e id = None.
Proof.
  intros [Hr Hi]. unfold ResolveNode. destruct (decide (ring_ (ep_ring e) = ∅)) as [E|Hne].
  - assert (GetNode key (ep_ring e) = "") as -> by (unfold GetNode; by rewrite E). rewrite bool_decide_true by done. split; [|done].
    intros _ id [k Hk]%elem_of_AllNodes. by rewrite E, lookup_empty in Hk.
  - pose proof (GetNode_AllNodes key _ Hne) as Hin. set (owner := GetNode key (ep_ring e)) in *. pose proof Hin as [k Hk]%elem_of_AllNodes. destruct (Hr k owner Hk) as [[n Hn] _].
    destruct (Hi owner n Hn) as [_ Ho]. rewrite bool_decide_false, Hn by done. case_bool_decide as Eh.
    + pose proof (fallback_spec e owner (AllNodes (ep_ring e))) as Hf. destruct (fallback _ _ _) as [n'|].
      * split; [done|]. intros H. destruct Hf as (id & Hid & Hu). by rewrite (H id Hid) in Hu.
      * split; [|done]. intros _ id Hid. destruct (decide (id = owner)) as [->|]; [|by apply Hf]. unfold usable. by rewrite Hn, bool_decide_true.
    + split; [done|]. intros H. specialize (H owner Hin). assert (usable e owner = Some n) as E by (by apply usable_Some). congruence.
Qed.


(** Two nodes, of which the owner of the shard fails. *)
Definition sample_nodes : list NodeConfig := [mkNodeConfig "node-1" "127.0.0.1" 7000; mkNodeConfig "node-2" "127.0.0.1" 7001].
Definition sample_ep_ops : list ep_op := [EHealth "node-2" true 1; EHealth "node-1" false 2].

(** Over a connection that works, the response is that of the node's handler. *)
Lemma forward_delivers {S} (handler : Session -> Request -> S -> Response * S) remote st network n req server_calls env client_calls :
  network (nc_host (ns_config n)) (nc_port (ns_config n)) = (env, mkSocket (answer handler remote st server_calls) [] 0 client_calls) ->
  reachable env (nc_host (ns_config n)) (nc_port (ns_config n)) -> working client_calls -> working server_calls ->
  let resp := (handler (mkSession (request_id req) remote) req st).1 in
  request_ok req -> response_ok resp -> fits (bytes_of_string (SerializeRequest req)) -> fits (bytes_of_string (SerializeResponse resp)) ->
  ForwardToNode network n req = resp.
Proof.
  intros En Hr Hc Hs resp Hreq Hresp Hf Hf'. unfold ForwardToNode, call. rewrite En.
  pose proof (Send_cases handler remote st server_calls env (nc_host (ns_config n)) (nc_port (ns_config n)) req client_calls Hreq Hf Hf' Hresp) as H.
  destruct (Send _ _ _ _ _) as [[r|c m] s']; [done|]. destruct H as [_ Hn]. by destruct Hn.
Qed.
