(* ===== verification/Apps.v ===== *)
(** * The programs

    [apps/]: the options of the server and of the entry point, the output of the
    client, and the loop of the local shell of a storage node.  [std::stoi] is
    the one of [Rbac]; a call of it that throws ends the program. *)
From S2P Require Import Prelude Values Disk PageStore Engine Parser Executor QueryProcessor Protocol Network Rbac ConsistentHash Json Doubles Metrics Service Entrypoint.

(** How the options end. *)
Inductive args_outcome (A : Type) :=
  | ArgsOk (config : A)
  | ArgsHelp
  | ArgsError (message : string)
  | ArgsThrow.
Arguments ArgsOk {A} config.
Arguments ArgsHelp {A}.
Arguments ArgsError {A} message.
Arguments ArgsThrow {A}.
Definition requires_value (flag : string) : string := flag +:+ " requires a value".
Definition unknown_option (arg : string) : string := "unknown option '" +:+ arg +:+ "'".

(** ** The server *)

Record ServerConfig := mkServerConfig {
  sc_host : string;
  sc_port : Z;
  sc_data_dir : string;
  sc_wal_dir : string;
  sc_task_queue_dir : string;
  sc_log_dir : string;
  sc_log_level : string
}.
Definition default_server : ServerConfig := mkServerConfig "127.0.0.1" 7000 "./data" "./data/wal" "./data/task_queue" "./data/logs" "info".
Fixpoint server_args (args : list string) (c : ServerConfig) : args_outcome ServerConfig :=
  match args with
  | [] => ArgsOk c
  | arg :: args =>
      if bool_decide (arg = "--help") || bool_decide (arg = "-h") then ArgsHelp
      else if bool_decide (arg = "--host") then
        match args with
        | [] => ArgsError (requires_value arg)
        | v :: args => server_args args (mkServerConfig v (sc_port c) (sc_data_dir c) (sc_wal_dir c) (sc_task_queue_dir c) (sc_log_dir c) (sc_log_level c))
        end
      else if bool_decide (arg = "--port") then
        match args with
        | [] => ArgsError (requires_value arg)
        | v :: args =>
            match stoi v with
            | None => ArgsThrow
            | Some port => server_args args (mkServerConfig (sc_host c) port (sc_data_dir c) (sc_wal_dir c) (sc_task_queue_dir c) (sc_log_dir c) (sc_log_level c))
            end
        end
      else if bool_decide (arg = "--data") then
        match args with
        | [] => ArgsError (requires_value arg)
        | root :: args =>
            server_args args (mkServerConfig (sc_host c) (sc_port c) root (path_join root "wal") (path_join root "task_queue") (path_join root "logs") (sc_log_level c))
        end
      else if bool_decide (arg = "--log-level") then
        match args with
        | [] => ArgsError (requires_value arg)
        | v :: args => server_args args (mkServerConfig (sc_host c) (sc_port c) (sc_data_dir c) (sc_wal_dir c) (sc_task_queue_dir c) (sc_log_dir c) v)
        end
      else ArgsError (unknown_option arg)
  end.

(** ** The entry point *)

Record EntrypointConfig := mkEntrypointConfig {
  ec_host : string;
  ec_port : Z;
  ec_data_dir : string;
  ec_log_dir : string;
  ec_log_level : string;
  ec_nodes : list NodeConfig
}.
Definition default_entrypoint : EntrypointConfig := mkEntrypointConfig "127.0.0.1" 9000 "./data" "./data/logs" "info" [].
(** The parts of the text around its last colon. *)
Fixpoint split_colon (s : string) : option (string * string) :=
  match s with
  | EmptyString => None
  | String c s =>
      match split_colon s with
      | Some (a, b) => Some (String c a, b)
      | None => if bool_decide (c = ":"%char) then Some ("", s) else None
      end
  end.
Definition starts_with_dash (arg : string) : bool := match arg with String c _ => bool_decide (c = "-"%char) | EmptyString => false end.
Definition node_name (n : Z) : string := "node-" +:+ pretty n.
Fixpoint entrypoint_args (args : list string) (c : EntrypointConfig) : args_outcome EntrypointConfig :=
  match args with
  | [] => ArgsOk c
  | arg :: args =>
      if bool_decide (arg = "--help") || bool_decide (arg = "-h") then ArgsHelp
      else if bool_decide (arg = "--host") then
        match args with
        | [] => ArgsError (requires_value arg)
        | v :: args => entrypoint_args args (mkEntrypointConfig v (ec_port c) (ec_data_dir c) (ec_log_dir c) (ec_log_level c) (ec_nodes c))
        end
      else if bool_decide (arg = "--port") then
        match args with
        | [] => ArgsError (requires_value arg)
        | v :: args =>
            match stoi v with
            | None => ArgsThrow
            | Some port => entrypoint_args args (mkEntrypointConfig (ec_host c) port (ec_data_dir c) (ec_log_dir c) (ec_log_level c) (ec_nodes c))
            end
        end
      else if bool_decide (arg = "--data") then
        match args with
        | [] => ArgsError (requires_value arg)
        | root :: args => entrypoint_args args (mkEntrypointConfig (ec_host c) (ec_port c) root (path_join root "logs") (ec_log_level c) (ec_nodes c))
        end
      else if bool_decide (arg = "--log-level") then
        match args with
        | [] => ArgsError (requires_value arg)
        | v :: args => entrypoint_args args (mkEntrypointConfig (ec_host c) (ec_port c) (ec_data_dir c) (ec_log_dir c) v (ec_nodes c))
        end
      else if starts_with_dash arg then ArgsError (unknown_option arg)
      else match split_colon arg with
      | None => ArgsError ("invalid node descriptor (expected host:port): " +:+ arg)
      | Some (host, port) =>
          match stoi port with
          | None => ArgsThrow
          | Some port =>
              entrypoint_args args (mkEntrypointConfig (ec_host c) (ec_port c) (ec_data_dir c) (ec_log_dir c) (ec_log_level c)
                (ec_nodes c ++ [mkNodeConfig (node_name (zlen (ec_nodes c) + 1)) host port]))
          end
      end
  end.

(** The nodes are numbered from 1. *)
Definition numbered (nodes : list NodeConfig) : Prop := forall i nc, nodes !! i = Some nc -> nc_id nc = node_name (Z.of_nat i + 1).
Lemma numbered_snoc nodes host port : numbered nodes -> numbered (nodes ++ [mkNodeConfig (node_name (zlen nodes + 1)) host port]).
Proof.
  intros H i nc [Hl|[Hge Hl]]%lookup_app_Some; [by apply H|]. apply list_lookup_singleton_Some in Hl as [Ei <-]. cbn. unfold zlen. f_equal. lia.
Qed.
Lemma entrypoint_args_numbered n : forall args c c', (length args <= n)%nat -> numbered (ec_nodes c) -> entrypoint_args args c = ArgsOk c' -> numbered (ec_nodes c').
Proof.
  induction n as [|n IH]; intros [|arg args] c c' Hlen Hc E; cbn [entrypoint_args length] in *; try lia; try (by injection E as <-).
  repeat (case_match; try discriminate E; try lia); subst; try (cbn [length] in Hlen); try (refine (IH _ _ _ _ _ E); [lia|exact Hc]).
  refine (IH _ _ _ _ _ E); [lia|by apply numbered_snoc].
Qed.
(** The ids of the command line are accepted by the entry point: they are not empty, and there are no two of the same. *)
Lemma entrypoint_args_nodes args c : entrypoint_args args default_entrypoint = ArgsOk c ->
  Forall (fun nc => nc_id nc <> "") (ec_nodes c) /\ NoDup (map nc_id (ec_nodes c)).
Proof.
  intros E. assert (numbered (ec_nodes c)) as H by (apply (entrypoint_args_numbered (length args) args default_entrypoint); [|intros i nc Hi; cbn in Hi; by rewrite lookup_nil in Hi|exact E]; lia). split.
  - apply Forall_lookup. intros i nc Hl. by rewrite (H i nc Hl).
  - apply NoDup_alt. intros i j x Hi Hj. rewrite list_lookup_fmap in Hi, Hj. destruct (ec_nodes c !! i) as [a|] eqn:Ea; [|done]. destruct (ec_nodes c !! j) as [b|] eqn:Eb; [|done].
    cbn in Hi, Hj. injection Hi as Hi. injection Hj as Hj. rewrite (H i a Ea) in Hi. rewrite (H j b Eb) in Hj. subst x. unfold node_name in Hj.
    apply (inj (String.append "node-")), (inj pretty) in Hj. lia.
Qed.

(** ** Output *)

Definition tab : string := String "009" EmptyString.
Definition newline : string := String "010" EmptyString.
Definition show_value (v : Value) : string :=
  match v with VInt z => pretty z | VString s => s | VBool b => if b then "true" else "false" | VNull => "null" end.
Definition show_all (l : list string) : string := foldr (fun s acc => s +:+ tab +:+ acc) "" l.
Definition show_result (r : QueryResult) : string :=
  show_all (result_columns r) +:+ (if bool_decide (result_columns r = []) then "" else newline) +:+
  foldr (fun row acc => show_all (map show_value row) +:+ newline +:+ acc) "" (result_rows r) +:+
  "affected rows: " +:+ pretty (affected_rows r) +:+ newline.
(** The client: its standard output, its error output and its exit code; [None]
    when the port is not a number.  [input] is the line it reads when the
    statement is not an argument, the empty one at the end of the input. *)
Definition cli_request (sql : string) : Request := mkRequest "cli" "" sql "".
Definition cli_send (env : host_env) (sock : socket) (host : string) (port : Z) (prompt sql : string) : string * string * Z :=
  match (Send env host port (cli_request sql) sock).1 with
  | Err _ message => (prompt, "network error: " +:+ message +:+ newline, 1)
  | Ok resp =>
      if negb (resp_ok resp) then (prompt, "error: " +:+ resp_error resp +:+ newline, 1)
      else (prompt +:+ show_result (resp_result resp), "", 0)
  end.
Definition cli_main (env : host_env) (sock : socket) (args : list string) (input : string) : option (string * string * Z) :=
  let host := default "127.0.0.1" (args !! 0%nat) in
  port ← match args !! 1%nat with Some s => stoi s | None => Some 7000 end;
  Some (match args !! 2%nat with
        | Some sql => cli_send env sock host port "" sql
        | None => cli_send env sock host port "sql> " input
        end).

(** ** The shell *)

Section shell.
Context {P : Type} {PS : PageStore P} (mktime : tm -> Z) (regex_match : string -> string -> option bool) (fuel : nat) (clock : nat -> Z).
(** Every line is executed in a session of its own, until an empty one. *)
Fixpoint shell (lines : list string) (s : Engine P * disk) : list (string + string) * (Engine P * disk) :=
  match lines with
  | [] => ([], s)
  | line :: lines =>
      if bool_decide (line = "") then ([], s)
      else
        let '(r, _, s) := qp_Execute mktime regex_match fuel clock line (mkSessionContext "local" "" "" false) s in
        let '(out, s) := shell lines s in
        ((if ok r then inl (show_result r) else inr ("error: " +:+ error r +:+ newline)) :: out, s)
  end.
End shell.
