(* ===== verification/QuerySpec.v ===== *)
(** * Sessions of SQL statements

    The whole path of a statement, from its text to the files: parsing, binding,
    planning, the executor and the storage engine ([qp_Execute]).  A run of
    statements on a table behaves as the same statements on a map from row ids
    to tuples ([effect]): every SELECT returns the rows of the map that satisfy
    its predicate, every DELETE, UPDATE and INSERT changes the map. *)
From S2P Require Import Prelude Values Disk PageStore PageManager RowTable Catalog CatalogSpec Engine EngineSpec EngineSim EngineRun.
From S2P Require Import EngineCreate EngineIndex EngineRevert Sql Lexer Parser Expression Planner Executor QueryProcessor ExecutorSpec.

Lemma CloneExpr_id e : CloneExpr e = e.
Proof. induction e; cbn; by f_equal. Qed.
Lemma CloneExpr_option (w : option Expr) : CloneExpr <$> w = w.
Proof. destruct w; [cbn; by rewrite CloneExpr_id|done]. Qed.

(** The binder accepts the columns of a well-typed predicate. *)
Lemma operand_CheckExprColumns schema e t : operand_type schema e t -> CheckExprColumns e schema = Ok tt.
Proof.
  intros [name i c t' Hi Hc _|v t' _]; cbn [CheckExprColumns]; [|done]. apply znth_Some_range in Hc.
  unfold check_not. by rewrite Hi, (proj2 (Z.ltb_ge i 0)) by lia.
Qed.
Lemma well_typed_CheckWhere regex_match schema e : well_typed regex_match schema e -> CheckWhere (Some e) schema = Ok tt.
Proof.
  cbn [CheckWhere]. induction 1 as [op l r t Hl Hr|op l r _ IHl _ IHr|v l h t Hv Hl Hh|v p Hv _]; cbn [CheckExprColumns].
  - by rewrite (operand_CheckExprColumns _ _ _ Hl), (operand_CheckExprColumns _ _ _ Hr).
  - by rewrite IHl, IHr.
  - by rewrite (operand_CheckExprColumns _ _ _ Hv), (operand_CheckExprColumns _ _ _ Hl), (operand_CheckExprColumns _ _ _ Hh).
  - by rewrite (operand_CheckExprColumns _ _ _ Hv).
Qed.

Section sessions.
Context (root : string) (size : Z) (desc0 : TableDescriptor) (cat : catalog) (tables : gmap string TableDescriptor) (d0 : disk).
Context (n : Z) (fuel : nat).
Abbreviation desc := (NormalizeTableDescriptor root desc0).
Abbreviation db := (database_name desc).
Abbreviation tbl := (table_name desc).
Abbreviation engine := (Engine PageManager * disk)%type.
Context (Hset : setting root size desc0 cat tables d0 n fuel).
Context (mktime : tm -> Z) (regex_match : string -> string -> option bool) (clock : nat -> Z) (Hclock : forall i, in_i64 (clock i)).
Context (Hdefaults : defaults_ok root desc0).
Abbreviation stores := (stores root size desc0 n).

(** ** Statements on a map of rows *)

Definition selected_by (w : option Expr) (L : gmap Z Tuple) : list (Z * Tuple) :=
  filter (fun x => satisfies root desc0 regex_match w x.2 = true) (map_to_list L).
(** [effect stmt L q L']: on the rows [L] the statement reports [q] and leaves [L']. *)
Inductive effect : SqlStatement -> gmap Z Tuple -> QueryResult -> gmap Z Tuple -> Prop :=
  | effect_select d t all items w L q :
      answered root desc0 regex_match all items w L q -> effect (SelectStatement d t all items w) L q L
  | effect_delete d t w L :
      effect (DeleteStatement d t w) L (affected (zlen (selected_by w L))) (remaining root desc0 regex_match w L)
  | effect_update d t asgs w L :
      effect (UpdateStatement d t asgs w) L (affected (zlen (selected_by w L))) (rewritten root desc0 regex_match asgs w L)
  | effect_insert d t columns rows tups L L' :
      Forall2 (fun values tup => BuildTuple desc columns values = Ok tup) rows tups -> grown L tups L' ->
      effect (InsertStatement d t columns rows) L (affected (zlen rows)) L'.

(** The index the planner picks is on the column of the first equality, whose
    literal can be a key of it. *)
Definition lookup_ok (w : option Expr) : Prop :=
  forall e name, w = Some e -> FindIndexedEquality e desc = Some name ->
    exists ix key, ix ∈ indexes desc /\ idx_name ix = name /\ first_equality e = Some (idx_column_name ix, key) /\ key_valid root size desc0 ix key.
(** The statements of the theorem: on this table, with well-typed predicates. *)
Definition statement_ok (current_db : string) (stmt : SqlStatement) : Prop :=
  bound_name current_db stmt = Some (db, tbl) /\
  match stmt with
  | SelectStatement _ _ all items w => predicate_ok root desc0 regex_match w /\ items_ok root desc0 all items /\ lookup_ok w
  | DeleteStatement _ _ w => predicate_ok root desc0 regex_match w
  | UpdateStatement _ _ asgs w => predicate_ok root desc0 regex_match w /\ Forall (fun a => value_ok a.2) asgs
  | InsertStatement _ _ _ rows => Forall (Forall value_ok) rows
  | _ => False
  end.
(** A bound on the engine calls of a statement on at most [m] rows, and on the
    rows it leaves. *)
Definition statement_calls (m : Z) (stmt : SqlStatement) : Z :=
  match stmt with InsertStatement _ _ _ rows => zlen rows | _ => 2 + m end.
Definition statement_rows (m : Z) (stmt : SqlStatement) : Z :=
  match stmt with InsertStatement _ _ _ rows => m + zlen rows | _ => m end.

(** ** Planning *)

Lemma stores_GetTable k L z : stores k L z -> data_dir z.1 = root /\ GetTable root db tbl z.2 = (Ok desc, z.2).
Proof.
  intros (s & (_ & _ & _ & Hr) & _). pose proof Hset as [[_ Hdb Hst _ _ _ _ _ _] _ _ _ _ _ _ _ _].
  destruct Hr as [Hd _ _ Hm _ _ _ _]. split; [done|]. by apply meta_GetTable.
Qed.
Lemma RequireDb_db : RequireDb db = Ok tt.
Proof.
  pose proof Hset as [[_ Hdb _ _ _ _ _ _ _] _ _ _ _ _ _ _ _]. unfold RequireDb, check_not. rewrite bool_decide_false; [done|].
  intros E. by rewrite E in Hdb.
Qed.
(** Binding a statement on the table reads its descriptor and changes nothing. *)
Lemma Bind_stores k L z current_db stmt : stores k L z -> statement_ok current_db stmt ->
  Bind root current_db stmt z.2 = (CheckStatement stmt desc ≫= (fun _ => Ok desc), z.2).
Proof.
  intros Hst [Hb Hs]. destruct (stores_GetTable k L z Hst) as [_ Eg].
  assert (Bind root current_db stmt = (_ ← lift (RequireDb db); table ← GetTable root db tbl; _ ← lift (CheckStatement stmt table); mret table)) as ->.
  { unfold Bind. rewrite Hb. by destruct stmt. }
  rewrite M_bind_eq, RequireDb_db. unfold lift at 1. rewrite M_bind_eq, Eg, M_bind_eq. unfold lift. by destruct (CheckStatement stmt desc) as [[]|].
Qed.
(** The plan of a statement the binder accepts. *)
Definition plan_of (stmt : SqlStatement) : PhysicalPlan :=
  match stmt with
  | SelectStatement _ _ all items w =>
      match w ≫= (fun e => FindIndexedEquality e desc) with
      | Some name => IndexScanPhysicalPlan db tbl name all items w
      | None => SeqScanPhysicalPlan db tbl all items w
      end
  | InsertStatement _ _ columns rows => InsertPhysicalPlan db tbl columns rows
  | UpdateStatement _ _ asgs w => UpdatePhysicalPlan db tbl asgs w
  | DeleteStatement _ _ w => DeletePhysicalPlan db tbl w
  | _ => UseDatabasePhysicalPlan ""
  end.
Lemma plan_stores k L z current_db stmt : stores k L z -> statement_ok current_db stmt ->
  BuildPhysicalPlan root current_db stmt z.2 = (CheckStatement stmt desc ≫= (fun _ => Ok (plan_of stmt)), z.2).
Proof.
  intros Hst Hs. unfold BuildPhysicalPlan, BuildLogicalPlan. rewrite !M_bind_eq, (Bind_stores k L z current_db stmt Hst Hs).
  destruct (CheckStatement stmt desc) as [[]|]; [|done]. change (Ok tt ≫= (fun _ => Ok desc)) with (Ok desc). cbv iota beta.
  destruct Hs as [Hb Hs]. destruct stmt; try done; injection Hb as -> ->; cbn [plan_of]; unfold lift; cbn [PhysicalOf];
    rewrite ?CloneExpr_option; try done.
  1: destruct (_ ≫= _). all: cbn; by rewrite !CloneExpr_option.
Qed.

(** ** One statement *)

Definition always_succeeds (stmt : SqlStatement) : bool :=
  match stmt with SelectStatement _ _ _ _ _ | DeleteStatement _ _ _ => true | _ => false end.
Lemma select_stores k L z current_db d t all items w : stores k L z -> statement_ok current_db (SelectStatement d t all items w) -> k + 2 <= n ->
  exists q z', run_plan regex_match fuel clock (plan_of (SelectStatement d t all items w)) z = (Ok q, z') /\
    answered root desc0 regex_match all items w L q /\ stores (k + 2) L z'.
Proof.
  intros Hst [_ (Hp & Hi & Hlk)] Hn. cbn [plan_of]. destruct (w ≫= _) as [name|] eqn:Ew; cbn [run_plan].
  - destruct w as [e|]; [|done]. destruct (Hlk e name eq_refl Ew) as (ix & key & Hix & <- & Hf & Hv).
    apply (IndexScan_stores root size desc0 cat tables d0 n fuel Hset regex_match clock k L z all items e ix key); try done; lia.
  - destruct (SeqScan_stores root size desc0 cat tables d0 n fuel Hset regex_match k L z all items w) as (q & z' & E & Ha & Hst'); try done; [lia|].
    exists q, z'. split_and!; try done. eapply stores_more; [done|lia].
Qed.
Lemma rewritten_size asgs w L : base.size (rewritten root desc0 regex_match asgs w L) = base.size L.
Proof. apply map_size_fmap. Qed.
Lemma grown_size L tups L' : grown L tups L' -> Z.of_nat (base.size L') = Z.of_nat (base.size L) + zlen tups.
Proof.
  intros Hg%grown_rows%Permutation_length. rewrite length_app, !length_fmap in Hg. rewrite !length_map_to_list in Hg. unfold zlen. lia.
Qed.

Lemma run_plan_stores k m L z current_db stmt q z' : stores k L z -> statement_ok current_db stmt ->
  Z.of_nat (base.size L) <= m -> k + statement_calls m stmt <= n ->
  run_plan regex_match fuel clock (plan_of stmt) z = (Ok q, z') ->
  exists L', effect stmt L q L' /\ stores (k + statement_calls m stmt) L' z' /\ Z.of_nat (base.size L') <= statement_rows m stmt.
Proof.
  intros Hst Hok Hm Hn E. pose proof (Nat2Z.is_nonneg (base.size L)) as Hs0. pose proof Hst as (_ & ((Hk & _) & _) & _).
  destruct stmt as [| | | | |d t columns rows|d t all items w|d t asgs w|d t w| | | | | | | | | | | | |]; try (by destruct Hok);
    cbn [statement_calls statement_rows] in *.
  - cbn [plan_of run_plan] in E. apply (InsertExecutor_stores root size desc0 cat tables d0 n fuel Hset clock Hclock k L z) in E
      as (-> & tups & L' & H2 & Hg & Hst'); try done; [|by destruct Hok].
    exists L'. split_and!; [by econstructor|done|]. rewrite (grown_size _ _ _ Hg).
    replace (zlen tups) with (zlen rows) by (unfold zlen; f_equal; exact (Forall2_length _ _ _ H2)). by apply Z.add_le_mono_r.
  - destruct (select_stores k L z current_db d t all items w Hst Hok ltac:(lia)) as (q' & z1 & E1 & Ha & Hst'). rewrite E1 in E.
    injection E as <- <-. exists L. split_and!; [by constructor|eapply stores_more; [done|lia]|done].
  - destruct Hok as [_ [Hp Ha]]. cbn [plan_of run_plan] in E.
    apply (UpdateExecutor_stores root size desc0 cat tables d0 n fuel Hset regex_match clock Hclock k L z) in E as [-> Hst']; try done; [|lia].
    eexists. split_and!; [constructor|eapply stores_more; [done|lia]|by rewrite rewritten_size].
  - destruct Hok as [_ Hp]. cbn [plan_of run_plan] in E.
    destruct (DeleteExecutor_stores root size desc0 cat tables d0 n fuel Hset regex_match clock Hclock k L z w) as (z1 & E1 & Hst'); try done; [lia|].
    rewrite E1 in E. injection E as <- <-. eexists. split_and!; [constructor|eapply stores_more; [done|lia]|].
    unfold remaining. etrans; [|exact Hm]. apply inj_le, map_subseteq_size, map_filter_subseteq.
Qed.

(** The statements that succeed: queries and deletions always, an INSERT when
    its rows can be stored. *)
Definition accepted (L : gmap Z Tuple) (stmt : SqlStatement) : Prop :=
  match stmt with
  | SelectStatement _ _ _ _ _ | DeleteStatement _ _ _ => True
  | InsertStatement _ _ columns rows =>
      CheckStatement stmt desc = Ok tt /\
      exists tups, Forall2 (fun values tup => BuildTuple desc columns values = Ok tup) rows tups /\ insertable root size desc0 L tups
  | _ => False
  end.
Lemma CheckWhere_ok w : predicate_ok root desc0 regex_match w -> CheckWhere w (schema desc) = Ok tt.
Proof. destruct w as [e|]; [|done]. apply well_typed_CheckWhere. Qed.
Lemma accepted_bound current_db L stmt : statement_ok current_db stmt -> accepted L stmt -> CheckStatement stmt desc = Ok tt.
Proof.
  destruct stmt as [| | | | |d t columns rows|d t all items w|d t asgs w|d t w| | | | | | | | | | | | |]; intros [_ Hok] Ha; try done.
  - by destruct Ha.
  - destruct Hok as (Hp & Hi & _). cbn [CheckStatement]. rewrite (CheckWhere_ok w Hp). destruct Hi as [->|Hi]; [done|]. destruct all; [done|].
    by rewrite Hi.
  - cbn [CheckStatement]. by apply CheckWhere_ok.
Qed.
Lemma accepted_runs k m L z current_db stmt : stores k L z -> statement_ok current_db stmt -> accepted L stmt ->
  Z.of_nat (base.size L) <= m -> k + statement_calls m stmt <= n ->
  exists q z', run_plan regex_match fuel clock (plan_of stmt) z = (Ok q, z').
Proof.
  intros Hst Hok Ha Hm Hn. pose proof (Nat2Z.is_nonneg (base.size L)) as Hs0.
  destruct stmt as [| | | | |d t columns rows|d t all items w|d t asgs w|d t w| | | | | | | | | | | | |]; try done; cbn [statement_calls] in *.
  - destruct Ha as (_ & tups & H2 & Hin). destruct Hok as [_ Hv]. cbn [plan_of run_plan].
    by apply (InsertExecutor_accepts root size desc0 cat tables d0 n fuel Hset clock Hclock k L z columns rows tups).
  - destruct (select_stores k L z current_db d t all items w Hst Hok ltac:(lia)) as (q & z' & E & _). by eexists _, _.
  - destruct Hok as [_ Hp]. cbn [plan_of run_plan].
    destruct (DeleteExecutor_stores root size desc0 cat tables d0 n fuel Hset regex_match clock Hclock k L z w) as (z' & E & _); try done; [lia|].
    by eexists _, _.
Qed.

Lemma plan_keeps_db stmt current_db : statement_ok current_db stmt ->
  match plan_of stmt with UseDatabasePhysicalPlan x => x | _ => current_db end = current_db.
Proof. intros [_ Hok]. destruct stmt; try done. cbn [plan_of]. by destruct (_ ≫= _). Qed.
(** One statement in a session. *)
Lemma execute_stores k m L z session sql stmt : stores k L z -> Parse mktime sql = Parsed stmt -> statement_ok (current_db session) stmt ->
  Z.of_nat (base.size L) <= m -> k + statement_calls m stmt <= n ->
  exists q z', qp_Execute mktime regex_match fuel clock sql session z = (q, session, z') /\
    (ok q = false /\ ~ accepted L stmt \/
     exists L', effect stmt L q L' /\ stores (k + statement_calls m stmt) L' z' /\ Z.of_nat (base.size L') <= statement_rows m stmt).
Proof.
  intros Hst Hparse Hok Hm Hn. unfold qp_Execute. rewrite Hparse. destruct (stores_GetTable k L z Hst) as [-> _].
  unfold on_disk. rewrite (plan_stores k L z _ stmt Hst Hok). destruct (CheckStatement stmt desc) as [[]|code message] eqn:Ec.
  - change (Ok () ≫= (fun _ => Ok (plan_of stmt))) with (Ok (plan_of stmt)). cbv iota beta. replace (z.1, z.2) with z by (by destruct z).
    unfold Execute. rewrite (plan_keeps_db stmt (current_db session) Hok).
    assert (set_current_db (current_db session) session = session) as Hsame by (by destruct session).
    destruct (run_plan regex_match fuel clock (plan_of stmt) z) as [[q|code message] z'] eqn:Er; cbn [FromStatus]; rewrite Hsame.
    + exists q, z'. split; [done|]. right. by eapply run_plan_stores.
    + eexists _, z'. split; [done|]. left. split; [done|]. intros Ha.
      destruct (accepted_runs k m L z (current_db session) stmt Hst Hok Ha Hm Hn) as (q & z1 & E). by rewrite E in Er.
  - eexists _, _. split; [done|]. left. split; [done|]. intros Ha%(accepted_bound (current_db session)); [|done]. by rewrite Ha in Ec.
Qed.

(** ** Sessions *)

Fixpoint run_sql (sqls : list string) (session : SessionContext) (z : engine) : list QueryResult * SessionContext * engine :=
  match sqls with
  | [] => ([], session, z)
  | sql :: sqls =>
      let '(q, session1, z1) := qp_Execute mktime regex_match fuel clock sql session z in
      let '(qs, session2, z2) := run_sql sqls session1 z1 in
      (q :: qs, session2, z2)
  end.
(** The replies [qs] of the statements from the rows [L]: up to the first one
    that fails, each is the effect of its statement on the rows. *)
Inductive behaves : list SqlStatement -> gmap Z Tuple -> list QueryResult -> Prop :=
  | behaves_end L : behaves [] L []
  | behaves_step stmt stmts L q L' qs : effect stmt L q L' -> behaves stmts L' qs -> behaves (stmt :: stmts) L (q :: qs)
  | behaves_failed stmt stmts L q qs : ~ accepted L stmt -> ok q = false -> behaves (stmt :: stmts) L (q :: qs).
Fixpoint session_calls (m : Z) (stmts : list SqlStatement) : Z :=
  match stmts with
  | [] => 0
  | stmt :: stmts => statement_calls m stmt + session_calls (statement_rows m stmt) stmts
  end.
Lemma statement_rows_nonneg m stmt : 0 <= m -> 0 <= statement_rows m stmt.
Proof. intros. destruct stmt; cbn; try lia. pose proof (zlen_nonneg rows). lia. Qed.
Lemma session_calls_nonneg stmts : forall m, 0 <= m -> 0 <= session_calls m stmts.
Proof.
  induction stmts as [|stmt stmts IH]; intros m Hm; cbn [session_calls]; [done|].
  pose proof (IH _ (statement_rows_nonneg m stmt Hm)). assert (0 <= statement_calls m stmt); [|lia].
  destruct stmt; cbn; try lia. apply zlen_nonneg.
Qed.
Lemma run_behaves session sqls stmts : Forall2 (fun sql stmt => Parse mktime sql = Parsed stmt) sqls stmts ->
  Forall (statement_ok (current_db session)) stmts -> forall k m L z, stores k L z -> Z.of_nat (base.size L) <= m -> k + session_calls m stmts <= n ->
  behaves stmts L (run_sql sqls session z).1.1.
Proof.
  induction 1 as [|sql stmt sqls stmts Hparse _ IH]; intros Hok k m L z Hst Hm Hn; [constructor|]. cbn [run_sql session_calls] in *.
  apply Forall_cons in Hok as [Hok Hoks]. pose proof (statement_rows_nonneg m stmt ltac:(lia)) as Hm'.
  pose proof (session_calls_nonneg stmts _ Hm') as Hc.
  destruct (execute_stores k m L z session sql stmt Hst Hparse Hok Hm ltac:(lia)) as (q & z1 & -> & Hq).
  destruct Hq as [[Hf Ha]|(L' & He & Hst' & Hl)].
  - destruct (run_sql sqls session z1) as [[qs session'] z2]. by constructor.
  - specialize (IH Hoks (k + statement_calls m stmt) _ L' z1 Hst' Hl ltac:(lia)).
    destruct (run_sql sqls session z1) as [[qs session'] z2]. by econstructor.
Qed.
End sessions.

(** C1. Refinement of sessions, from the text of the statements to the files on
    disk: after the creation of a table, a run of SELECT, INSERT, UPDATE and
    DELETE statements through the parser, the binder, the planner, the executor
    and the storage engine replies as the statements do on a map from row ids
    to tuples.  A SELECT returns exactly the rows that satisfy its predicate,
    whether the planner picked the index or the sequential scan; a DELETE or an
    UPDATE reports and changes exactly these rows; an INSERT adds its rows.  The
    description ends at the first statement that fails, which is an UPDATE or an
    INSERT of rows that cannot be stored.  The predicates are well-typed, and the
    index the planner picks for a SELECT is on the column of the first equality
    ([lookup_ok]): on others the code searches it for a wrong key
    ([index_scan_key_of_other_column]). *)
Theorem sql_session_refines root size desc0 cat tables d n fuel mktime regex_match clock session sqls stmts :
  setting root size desc0 cat tables d n fuel -> (forall i, in_i64 (clock i)) -> defaults_ok root desc0 ->
  Forall2 (fun sql stmt => Parse mktime sql = Parsed stmt) sqls stmts ->
  Forall (statement_ok root size desc0 regex_match (current_db session)) stmts -> session_calls 0 stmts <= n ->
  exists z, e_CreateTable desc0 (started_engine (P:=PageManager) root size, d) = (Ok tt, z) /\
    behaves root size desc0 regex_match stmts ∅ (run_sql fuel mktime regex_match clock sqls session z).1.1.
Proof.
  intros Hset Hclock Hdef Hparse Hok Hn. destruct (stores_created root size desc0 cat tables d n fuel Hset) as (z & E & Hst).
  exists z. split; [done|]. by apply (run_behaves root size desc0 cat tables d n fuel Hset mktime regex_match clock Hclock Hdef session sqls stmts Hparse Hok 0 0 ∅ z).
Qed.

(** A session on [shop.users], whose index is on the column [id]. *)
Definition sample_sql : list string :=
  ["INSERT INTO shop.users (id, name) VALUE (1, 'ann'), (2, 'bob');"; "SELECT (name) FROM users WHERE id == 2;";
   "DELETE FROM users WHERE name == 'bob';"; "SELECT * FROM shop.users;"].
Definition sample_statements : list SqlStatement :=
  [InsertStatement "shop" "users" ["id"; "name"] [[VInt 1; VString "ann"]; [VInt 2; VString "bob"]];
   SelectStatement "" "users" false [mkSelectItem "name" ""] (Some (BinaryExpr opEq (ColumnRefExpr "id") (LiteralExpr (VInt 2))));
   DeleteStatement "" "users" (Some (BinaryExpr opEq (ColumnRefExpr "name") (LiteralExpr (VString "bob"))));
   SelectStatement "shop" "users" true [] None].
Definition sample_session : SessionContext := mkSessionContext "c1" "shop" "" false.
Abbreviation sample_regex := (fun _ _ : string => Some false).
Lemma sample_statements_parse : Forall2 (fun sql stmt => Parse (fun _ => 0) sql = Parsed stmt) sample_sql sample_statements.
Proof. repeat constructor; vm_compute; reflexivity. Qed.
Lemma sample_statements_ok : Forall (statement_ok "data" 4096 sample_engine_table sample_regex "shop") sample_statements.
Proof.
  repeat apply Forall_cons_2; [split; [vm_compute; reflexivity|]..|by apply Forall_nil_2].
  - by_computation.
  - split_and!.
    + apply (well_binary _ _ _ _ _ vtInt); [eapply type_column; reflexivity|by constructor; right].
    + right. reflexivity.
    + intros e name [= <-] Hf. vm_compute in Hf. injection Hf as <-. eexists _, (VInt 2). split_and!; [left|vm_compute; reflexivity|vm_compute; reflexivity|].
      eexists. split; [exists vtInt; split; [vm_compute; reflexivity|vm_compute; reflexivity]|]. vm_compute. reflexivity.
  - apply (well_binary _ _ _ _ _ vtString); [eapply type_column; reflexivity|by constructor; right].
  - split_and!; [exact I|by left|]. intros e name [=].
Qed.

Abbreviation ann := [VInt 1; VString "ann"].
Abbreviation bob := [VInt 2; VString "bob"].
Lemma sample_writable : Forall (writable "data" 4096 sample_engine_table) [ann; bob].
Proof.
  repeat apply Forall_cons_2; [split; [vm_compute; reflexivity|]..|by apply Forall_nil_2].
  all: intros i; vm_compute; reflexivity.
Qed.
Lemma sample_grown L : grown ∅ [ann; bob] L -> exists i j, i <> j /\ L = <[j := bob]> (<[i := ann]> ∅).
Proof.
  intros Hg. inversion Hg as [|? ? i ? ? _ Hg1]; subst. inversion Hg1 as [|? ? j ? ? Hj Hg2]; subst. inversion Hg2; subst.
  exists i, j. split; [|done]. intros ->. by rewrite lookup_insert_eq in Hj.
Qed.
Lemma sample_keys L : grown ∅ [ann; bob] L -> all_good 4096 sample_desc L.
Proof.
  intros (i & j & Hij & ->)%sample_grown ix c Hix (kt & Hkt & Hc). apply list_elem_of_singleton in Hix as ->. vm_compute in Hkt.
  injection Hkt as <-. vm_compute in Hc. injection Hc as <-.
  assert (forall k r, has sample_desc (mkIndexDescriptor "by_id" "users" "id" "data/shop/indexes/users/by_id.idx" true)
    (<[j := bob]> (<[i := ann]> ∅)) k r -> k = VInt 1 /\ r = i \/ k = VInt 2 /\ r = j) as Hh.
  { intros k r (tup & Hl & Hk). apply lookup_insert_Some in Hl as [[<- <-]|[_ Hl]]; [right|left; apply lookup_insert_Some in Hl as [[<- <-]|[_ Hl]]];
      [vm_compute in Hk; by injection Hk as <-..|by rewrite lookup_empty in Hl]. }
  split.
  - intros k r [[-> _]|[-> _]]%Hh; reflexivity.
  - intros k r r' [[-> ->]|[-> ->]]%Hh [[E ->]|[E ->]]%Hh; done.
Qed.
Lemma sample_insert_accepted :
  accepted "data" 4096 sample_engine_table ∅ (InsertStatement "shop" "users" ["id"; "name"] [ann; bob]).
Proof.
  split; [vm_compute; reflexivity|]. exists [ann; bob]. split; [repeat constructor|]. split; [exact sample_writable|exact sample_keys].
Qed.

Abbreviation sample_by_id := (Some (BinaryExpr opEq (ColumnRefExpr "id") (LiteralExpr (VInt 2)))).
Abbreviation sample_by_name := (Some (BinaryExpr opEq (ColumnRefExpr "name") (LiteralExpr (VString "bob")))).
Lemma sample_answered all items w L rows q answer :
  map_to_list L ≡ₚ rows ->
  (fun x => projection "data" sample_engine_table all items x.2) <$>
    filter (fun x : Z * Tuple => satisfies "data" sample_engine_table sample_regex w x.2 = true) rows = [answer] ->
  answered "data" sample_engine_table sample_regex all items w L q ->
  q = mkQueryResult true "" (FillColumns (schema sample_desc) all items) [answer] 1.
Proof.
  intros Hl Ha (out & -> & Hp). unfold answers in Hp. rewrite Hl, Ha in Hp. by apply Permutation_singleton_r in Hp as ->.
Qed.
Lemma sample_remaining i j : i <> j ->
  remaining "data" sample_engine_table sample_regex sample_by_name (<[j := bob]> (<[i := ann]> ∅)) = <[i := ann]> ∅.
Proof.
  intros Hij. unfold remaining. rewrite map_filter_insert_False by done. rewrite delete_insert_ne, delete_empty by done.
  rewrite map_filter_insert_True by done. by rewrite map_filter_empty.
Qed.
Lemma sample_rows i j : i <> j -> map_to_list (<[j := bob]> (<[i := ann]> ∅) : gmap Z Tuple) ≡ₚ [(j, bob); (i, ann)].
Proof.
  intros Hij. rewrite map_to_list_insert by (by rewrite lookup_insert_ne, lookup_empty). by rewrite map_to_list_insert, map_to_list_empty by done.
Qed.
Lemma sample_deleted i j : i <> j ->
  zlen (selected_by "data" sample_engine_table sample_regex sample_by_name (<[j := bob]> (<[i := ann]> ∅))) = 1.
Proof. intros Hij. unfold selected_by, zlen. rewrite (sample_rows i j Hij). vm_compute. reflexivity. Qed.

Lemma sql_session_refines_witness :
  exists z, e_CreateTable sample_engine_table (started_engine (P:=PageManager) "data" 4096, shop_disk) = (Ok tt, z) /\
    (run_sql sample_fuel (fun _ => 0) sample_regex (fun _ => 7) sample_sql sample_session z).1.1 =
      [affected 2; mkQueryResult true "" ["name"] [[VString "bob"]] 1; affected 1; mkQueryResult true "" ["id"; "name"] [ann] 1].
Proof.
  destruct (sql_session_refines "data" 4096 sample_engine_table (<["shop" := ∅]> ∅) ∅ shop_disk 14 sample_fuel (fun _ => 0)
    sample_regex (fun _ => 7) sample_session sample_sql sample_statements sample_setting)
    as (z & E & Hb); [intros i; by_computation|by_computation|exact sample_statements_parse|exact sample_statements_ok|done|].
  exists z. split; [exact E|]. clear E. revert Hb. generalize (run_sql sample_fuel (fun _ => 0) sample_regex (fun _ => 7) sample_sql sample_session z).1.1 as qs.
  intros qs Hb. unfold sample_statements in Hb.
  inversion Hb as [|? ? ? ? L1 ? He1 Hb1|? ? ? ? ? Hn]; subst; [|destruct (Hn sample_insert_accepted)].
  inversion He1 as [| | |? ? ? ? tups ? ? H2 Hg]; subst. apply Forall2_cons_inv_l in H2 as (t1 & ? & E1 & H2 & ->).
  apply Forall2_cons_inv_l in H2 as (t2 & ? & E2 & H2 & ->). apply Forall2_nil_inv_l in H2 as ->. vm_compute in E1, E2. injection E1 as <-. injection E2 as <-.
  apply sample_grown in Hg as (i & j & Hij & ->).
  inversion Hb1 as [|? ? ? ? L2 ? He2 Hb2|? ? ? ? ? Hn]; subst; [|destruct (Hn I)]. inversion He2 as [? ? ? ? ? ? ? Ha2| | |]; subst.
  apply (sample_answered _ _ _ _ [(j, bob); (i, ann)] _ [VString "bob"]) in Ha2 as ->; [|by apply sample_rows|vm_compute; reflexivity].
  inversion Hb2 as [|? ? ? ? L3 ? He3 Hb3|? ? ? ? ? Hn]; subst; [|destruct (Hn I)]. inversion He3; subst.
  rewrite (sample_remaining i j Hij) in Hb3.
  inversion Hb3 as [|? ? ? ? L4 ? He4 Hb4|? ? ? ? ? Hn]; subst; [|destruct (Hn I)]. inversion He4 as [? ? ? ? ? ? ? Ha4| | |]; subst.
  apply (sample_answered _ _ _ _ [(i, ann)] _ ann) in Ha4 as ->; [|by rewrite map_to_list_insert, map_to_list_empty by done|vm_compute; reflexivity].
  inversion Hb4; subst. by rewrite (sample_deleted i j Hij).
Defined.

(** ** Outside of [lookup_ok] *)

(** When only the second equality of a conjunction is on an indexed column, the
    planner picks the index of that column, and the executor searches it for
    the literal of the first. *)
Lemma index_scan_key_of_other_column desc a va b vb name :
  let equal c v := BinaryExpr opEq (ColumnRefExpr c) (LiteralExpr v) in
  FindIndexedEquality (equal b vb) desc = None -> FindIndexedEquality (equal a va) desc = Some name ->
  FindIndexedEquality (LogicalExpr opAnd (equal b vb) (equal a va)) desc = Some name /\
  ExtractEqualityKey (LogicalExpr opAnd (equal b vb) (equal a va)) = Some vb.
Proof. intros equal Hb Ha. split; [|done]. cbn [FindIndexedEquality] in *. by rewrite Hb. Qed.
