(* ===== verification/BinderSpec.v ===== *)
(** * What the binder accepts

    An INSERT that [Binder::Bind] accepts, on a table whose columns it accepted,
    builds the tuples one expects, and [TableStorage] takes them. *)
From S2P Require Import Prelude Values Disk PageStore Catalog TableStorage Sql Planner Executor.

(** ** The columns of a table *)

(** The columns of a table created by a statement: INT or STRING, and no default. *)
Definition sql_column (c : ColumnSchema) : Prop := (col_type c = ctInt \/ col_type c = ctString) /\ default_value c = None.

Lemma CheckCreateColumns_Ok columns : forall seen, CheckCreateColumns seen columns = Ok tt ->
  NoDup (map col_name columns) /\ (forall c, c ∈ columns -> col_name c ∉ seen /\ (indexed c = true -> not_null c = true)).
Proof.
  induction columns as [|c columns IH]; intros seen E; cbn [CheckCreateColumns map] in *; [split; [constructor|by intros ? ?%elem_of_nil]|].
  case_bool_decide as Hs; [done|]. destruct (indexed c && negb (not_null c)) eqn:Ei; [done|]. apply IH in E as [Hnd Hc]. split.
  - apply NoDup_cons. split; [|done]. intros (c' & En & Hin)%list_elem_of_fmap. apply Hc in Hin as [Hn _]. rewrite <- En in Hn. apply Hn. left.
  - intros c' [->|Hin]%elem_of_cons.
    + split; [done|]. intros Hx. rewrite Hx in Ei. by destruct (not_null c).
    + apply Hc in Hin as [Hn Hx]. split; [|done]. intros Hin'. apply Hn. by right.
Qed.
Lemma FindColumn_at schema k c : NoDup (map col_name schema) -> schema !! k = Some c -> FindColumn schema (col_name c) = Z.of_nat k.
Proof.
  intros Hnd Hk. unfold FindColumn. destruct (FindColumn_from_spec schema (col_name c) 0) as [[_ Hf]|(j & c' & -> & Hj & En & _)].
  - eapply Forall_lookup in Hf; [|exact Hk]. done.
  - rewrite Z.add_0_l. f_equal. eapply NoDup_lookup; [exact Hnd| |]; rewrite list_lookup_fmap; [rewrite Hj|rewrite Hk]; cbn; by f_equal.
Qed.

(** ** The tuple of an INSERT *)

(** The value a row gives to a column. *)
Fixpoint value_for (columns : list string) (values : list Value) (name : string) : option Value :=
  match columns, values with
  | c :: columns, v :: values => if bool_decide (c = name) then Some v else value_for columns values name
  | _, _ => None
  end.
(** The value stored in a column: the given one, or the default for a NULL or a missing one. *)
Definition inserted (columns : list string) (values : list Value) (c : ColumnSchema) : Value :=
  let v := default VNull (value_for columns values (col_name c)) in
  if is_null v then default v (default_value c) else v.

Lemma value_for_None columns values name : name ∉ columns -> value_for columns values name = None.
Proof.
  revert values. induction columns as [|c columns IH]; intros [|v values] Hn; cbn; try done. apply not_elem_of_cons in Hn as [Hne Hn].
  rewrite bool_decide_false by congruence. by apply IH.
Qed.
Lemma fill_values_eq schema columns : NoDup (map col_name schema) -> forall seen values out,
  NoDup columns -> (forall c, c ∈ columns -> c ∉ seen /\ 0 <= FindColumn schema c) -> length out = length schema ->
  exists out', fill_values schema seen columns values out = Ok out' /\ length out' = length schema /\
    forall k c, schema !! k = Some c -> out' !! k = match value_for columns values (col_name c) with Some v => Some v | None => out !! k end.
Proof.
  intros Hs. induction columns as [|name columns IH]; intros seen values out Hnd Hc Hl; cbn [fill_values value_for]; [by exists out|].
  destruct values as [|v values]; [by exists out|]. apply NoDup_cons in Hnd as [Hni Hnd]. destruct (Hc name ltac:(left)) as [Hn Hf].
  rewrite bool_decide_false by done. cbv zeta. rewrite (proj2 (Z.ltb_ge _ _) Hf).
  destruct (IH (name :: seen) values (zset (FindColumn schema name) v out) Hnd) as (out' & E & Hl' & Ho).
  { intros c Hin. destruct (Hc c ltac:(by right)) as [H1 H2]. split; [|done]. apply not_elem_of_cons. split; [congruence|done]. }
  { unfold zset. by rewrite length_insert. }
  exists out'. split_and!; try done. intros k c Hk. rewrite (Ho k c Hk). case_bool_decide as Ec.
  - subst name. rewrite value_for_None by done. rewrite (FindColumn_at schema k c Hs Hk). unfold zset. rewrite Nat2Z.id.
    apply list_lookup_insert_eq. rewrite Hl. by eapply lookup_lt_Some.
  - destruct (value_for columns values (col_name c)); [done|]. unfold zset. apply list_lookup_insert_ne. intros Ek.
    destruct (FindColumn_from_spec schema name 0) as [[E1 _]|(j & c' & E1 & Hj & En & _)]; unfold FindColumn in *; [lia|].
    apply Ec. rewrite <- En. f_equal. rewrite E1 in Ek. assert (j = k) as -> by lia. congruence.
Qed.

(** The defaults are filled in when every required column has a value. *)
Definition filled (c : ColumnSchema) (v : Value) : Value := if is_null v then default v (default_value c) else v.
Definition required (c : ColumnSchema) : bool := not_null c || indexed c.
Lemma fill_defaults_eq schema : forall out, Forall2 (fun c v => required c = true -> is_null (filled c v) = false) schema out ->
  fill_defaults schema out = Ok (zip_with filled schema out).
Proof.
  induction schema as [|c schema IH]; intros out H2; inversion H2 as [|? v ? out' Hv H2']; subst; [done|]. cbn [fill_defaults zip_with]. cbv zeta.
  rewrite (IH out' H2'). fold (filled c v). fold (required c). by destruct (required c); [rewrite Hv|rewrite andb_false_r].
Qed.

(** ** The checks of the binder *)

Lemma CheckAssignments_Ok schema columns : forall values, length values = length columns -> CheckAssignments schema columns values = Ok tt ->
  forall name, name ∈ columns -> exists c v, znth schema (FindColumn schema name) = Some c /\ value_for columns values name = Some v /\ CheckValueType c v = Ok tt.
Proof.
  induction columns as [|name columns IH]; intros [|v values] Hl E n Hin; try done; [by apply elem_of_nil in Hin|]. cbn [CheckAssignments value_for] in *.
  destruct (CheckAssignment schema name v) as [[]|] eqn:Ea; [|done]. change (CheckAssignments schema columns values = Ok tt) in E.
  unfold CheckAssignment in Ea. destruct (znth schema (FindColumn schema name)) as [c|] eqn:Ec; [|done].
  case_bool_decide as En; [subst; by exists c, v|]. apply elem_of_cons in Hin as [->|Hin]; [done|]. apply (IH values); [by injection Hl|done|done].
Qed.
Lemma CheckInsertRows_Ok schema columns rows : CheckInsertRows schema columns rows = Ok tt ->
  Forall (fun values => length values = length columns /\ CheckAssignments schema columns values = Ok tt) rows.
Proof.
  induction rows as [|values rows IH]; intros E; cbn [CheckInsertRows] in E; [constructor|].
  destruct (zlen values =? zlen columns) eqn:El; [|done]. cbn [negb] in E. destruct (CheckAssignments schema columns values) as [[]|] eqn:Ea; [|done].
  constructor; [|by apply IH]. apply Z.eqb_eq in El. unfold zlen in El. split; [lia|done].
Qed.
Lemma CheckRequired_Ok provided schema : CheckRequired provided schema = Ok tt ->
  forall c, c ∈ schema -> required c = true -> col_name c ∈ provided.
Proof.
  induction schema as [|c schema IH]; intros E c' Hin Hr; [by apply elem_of_nil in Hin|]. cbn [CheckRequired] in E. fold (required c) in E.
  destruct (required c && negb (bool_decide (col_name c ∈ provided))) eqn:Ec; [done|]. apply elem_of_cons in Hin as [->|Hin]; [|by apply IH].
  rewrite Hr in Ec. cbn in Ec. apply negb_false_iff in Ec. by apply bool_decide_eq_true in Ec.
Qed.
Lemma CheckValueType_Ok c v : CheckValueType c v = Ok tt -> (col_type c = ctInt \/ col_type c = ctString) ->
  (is_null v = true -> required c = false) /\ value_fits c v.
Proof.
  unfold CheckValueType, check_not. fold (required c). intros E Ht. destruct v; cbn [is_null] in *.
  - change (is_null VNull) with true in *. cbv iota in E. destruct (required c) eqn:Er; [done|]. split; [done|]. cbn. unfold required in Er. by destruct (not_null c).
  - split; [done|]. destruct Ht as [Ht|Ht]; rewrite Ht in E; cbn; by rewrite Ht.
  - split; [done|]. destruct Ht as [Ht|Ht]; rewrite Ht in E; cbn; by rewrite Ht.
  - split; [done|]. destruct Ht as [Ht|Ht]; by rewrite Ht in E.
Qed.

Section accepted.
Context (desc : TableDescriptor) (columns : list string) (values : list Value).
Context (Hcreate : CheckCreateColumns [] (schema desc) = Ok tt) (Hsql : Forall sql_column (schema desc)).
Context (Hlen : length values = length columns) (Hnd : NoDup columns).
Context (Hcheck : CheckAssignments (schema desc) columns values = Ok tt) (Hreq : CheckRequired columns (schema desc) = Ok tt).

Lemma inserted_fits c : c ∈ schema desc -> value_fits c (inserted columns values c) /\
  (required c = true -> is_null (inserted columns values c) = false).
Proof.
  intros Hin. destruct (CheckCreateColumns_Ok _ _ Hcreate) as [Hs Hc]. apply (Forall_forall sql_column (schema desc)) in Hin as Hty; [|done].
  destruct Hty as [Ht Hd]. apply list_elem_of_lookup in Hin as [k Hk]. unfold inserted. rewrite Hd. cbv zeta.
  destruct (decide (col_name c ∈ columns)) as [Hp|Hp].
  - destruct (CheckAssignments_Ok _ _ _ Hlen Hcheck _ Hp) as (c' & v & Hz & -> & Hv).
    rewrite (FindColumn_at _ k c Hs Hk), znth_lookup, Nat2Z.id, Hk in Hz by lia. injection Hz as <-.
    destruct (CheckValueType_Ok c v Hv Ht) as [Hnull Hfits]. cbn. destruct (is_null v) eqn:En; [|done].
    split; [done|]. intros Hr. by rewrite Hnull in Hr.
  - rewrite value_for_None by done. cbn. split.
    + destruct (not_null c) eqn:En; [|done]. destruct Hp. eapply CheckRequired_Ok; [done|by eapply list_elem_of_lookup_2|]. unfold required. by rewrite En.
    + intros Hr. destruct Hp. eapply CheckRequired_Ok; [done|by eapply list_elem_of_lookup_2|done].
Qed.
Lemma BuildTuple_eq : BuildTuple desc columns values = Ok (inserted columns values <$> schema desc).
Proof.
  destruct (CheckCreateColumns_Ok _ _ Hcreate) as [Hs _]. unfold BuildTuple.
  replace (zlen columns =? zlen values) with true by (symmetry; apply Z.eqb_eq; unfold zlen; by rewrite Hlen). cbn [negb].
  destruct (fill_values_eq (schema desc) columns Hs [] values (zreplicate (zlen (schema desc)) VNull) Hnd) as (out & -> & Hl & Ho).
  { intros name Hin. split; [apply not_elem_of_nil|]. destruct (CheckAssignments_Ok _ _ _ Hlen Hcheck _ Hin) as (c & v & Hz & _).
    by apply znth_Some_range in Hz as [? _]. }
  { unfold zreplicate, zlen. by rewrite length_replicate, Nat2Z.id. }
  change (fill_defaults (schema desc) out = Ok (inserted columns values <$> schema desc)).
  assert (forall k c, schema desc !! k = Some c -> filled c <$> out !! k = Some (inserted columns values c)) as Hf.
  { intros k c Hk. rewrite (Ho k c Hk). unfold inserted, filled. destruct (value_for columns values (col_name c)) as [v|]; [done|].
    unfold zreplicate. rewrite lookup_replicate_2; [done|]. apply lookup_lt_Some in Hk. unfold zlen. lia. }
  rewrite fill_defaults_eq.
  - f_equal. apply list_eq. intros k. rewrite lookup_zip_with, list_lookup_fmap. destruct (schema desc !! k) as [c|] eqn:Hk; [|done]. cbn.
    specialize (Hf k c Hk). by destruct (out !! k).
  - apply Forall2_same_length_lookup_2; [done|]. intros k c v Hk Hv Hr. specialize (Hf k c Hk). rewrite Hv in Hf. injection Hf as Hf. rewrite Hf.
    apply inserted_fits; [by eapply list_elem_of_lookup_2|done].
Qed.
Lemma inserted_writable : schema desc <> [] -> PrepareTupleForWrite desc (inserted columns values <$> schema desc) = Ok (inserted columns values <$> schema desc).
Proof.
  intros Hne. apply PrepareTupleForWrite_Ok. split_and!; [done|by unfold zlen; rewrite length_fmap| |].
  - unfold prepared. by rewrite drop_ge, app_nil_r by (by rewrite length_fmap).
  - apply Forall2_fmap_r, Forall_Forall2_diag, Forall_forall. intros c Hin. by apply inserted_fits.
Qed.
End accepted.


